(* ===== verification/_CoqProject ===== *)
-Q . S2P
Prelude.v
Cidr.v
InetModel.v
Lpm.v
Buffer.v
Frame.v
Registration.v
Config.v
UniqueFd.v
Router.v
Supervisor.v
Netlink.v
Tun.v
AsyncStream.v
QuicClient.v
Main.v
Capnp.v
TunnelRpc.v
TunnelSchemaData.v
TunnelSchema.v
Interface.v
Typing.v
LpmHeap.v
Watchdog.v
Probe.v
Atomic8.v
CloudflareCa.v
Log.v
Fuzz.v
System.v
Shutdown.v
DataPath.v
Builds.v
Tests.v
