(* ===== verification/Prelude.v ===== *)
(** * cfd: a verification development

    cfd is a client of Cloudflare Tunnel in C++: it opens a TUN device, keeps four
    QUIC connections to the edge registered, and moves IP packets between the two.
    This library models its code in Rocq and proves what makes it correct. File
    names of the program below are relative to the root of the repository.

    ** The parts of the program, and how they meet

    [main] (src/main.cpp) reads the command line and the configuration file
    (src/config.cpp), opens and configures the TUN device (src/tun/) through
    RTNETLINK (src/net/netlink.cpp), resolves the edge, decodes the credentials
    (src/tunnel/registration.cpp) and starts a thread for each connection. Such a
    thread connects a [QuicClient] (src/tunnel/quic_client.cpp), hands its
    registration to one thread that runs them in turn, waits until the connection
    is lost, and begins again after a pause. A registration is a remote call on a
    control stream ([MsquicAsyncStream], same file) in the messages of
    src/tunnelrpc.capnp.h, with a watchdog. The router (src/router/router.cpp)
    reads packets from the device, looks their destination up in a
    longest-prefix-match trie (include/cfd/lpm_trie.hpp), and gives them to the
    clients in turn, which send them as datagrams (src/tunnel/frame.cpp); datagrams
    that arrive go the other way.

    ** Files, and the code they model

    - [Prelude]: text, machine integers, the type [run] of results that can be
      undefined behaviour or a lack of fuel, tactics, hints, shared lemmas.
    - [Cidr]: include/cfd/cidr.hpp, src/net/cidr.cpp. The C library's [inet_pton]
      and [inet_ntop] are the class [Inet], with laws; [InetModel] is an instance.
    - [Lpm], [LpmHeap]: include/cfd/lpm_trie.hpp, first on trees as values, then with
      nodes in a store, allocation that fails, the destructor, the moves.
    - [Buffer]: include/cfd/buffer.hpp. [Frame]: src/tunnel/frame.cpp.
    - [Registration]: src/tunnel/registration.cpp. [Config]: src/config.cpp.
    - [UniqueFd]: include/cfd/unique_fd.hpp, over a store of objects and a table of
      descriptors.
    - [Router]: src/router/router.cpp: destination, reader loop, inject, and [start]
      and [stop] as sequences of atomic parts.
    - [Supervisor]: src/main.cpp from line 252: all threads as one transition system;
      its module on notifications looks at the condition variable by itself.
    - [Netlink], [Tun]: src/net/netlink.cpp and src/tun/tun_device_linux.cpp. The
      kernel is the class [Kernel], and [TunKernel] for the device; [TunOps] with
      [TunLaws] is what [Main] uses of a device, and [Tun] discharges it.
    - [AsyncStream], [QuicClient], [Watchdog]: src/tunnel/quic_client.cpp: the control
      stream, the client with its handles, and the two threads of a registration.
    - [Main]: src/main.cpp up to line 250.
    - [Capnp], [TunnelRpc], [TunnelSchemaData], [TunnelSchema]: src/tunnelrpc.capnp.h and
      src/tunnelrpc.capnp.c++. The runtime is the class [Capnp] with [CapnpLaws], and
      a store that meets them; the messages of a registration; the embedded tables;
      a decoder of the tables.
    - [Probe]: src/tools/probe_handshake.cpp. [Log]: src/log.cpp.
      [Atomic8]: cmake/stubs/atomic_mips32.c. [CloudflareCa]:
      include/cfd/cloudflare_ca.hpp. [Fuzz]: fuzz/. [Tests]: tests/.
    - [Interface], [Typing]: the classes of src/tunnelrpc.capnp.h: what they declare,
      and what the calls do to a message.
    - [System]: src/main.cpp from line 240 with the four clients: the steps of
      [Supervisor] make their calls on clients of [QuicClient], whose events wake the
      threads; [connect] and [close] are also taken apart there. [Shutdown] continues it
      from the stop flag on.
    - [DataPath]: the reader loop of [Router], the round robin of [Main] and the clients
      of [QuicClient], from device to device.
    - [Builds]: the halves of quic_client.cpp, netlink.cpp and tun_device_linux.cpp for
      other builds, and the facade [QuicClient] (a class [QuicClientImpl] here).

    Inside a file the definitions have the names of the code and come first; state
    is a record, an operation is a function on it, and the branches, the early
    returns and the order of the calls are those of the code. A thread or a client
    of a class is a sequence of labels, a step relation or function says what each
    does, and invariants are proved by induction on the sequence.

    ** What the theorems show

    - Functional correctness: parsers accept exactly their grammar ([Cidr], [Config],
      [Registration], [Main.parse_args_spec], [Probe.parse_probe_spec]) and report the
      first error; lookup is the longest matching prefix ([Lpm]); the reader loop
      sends exactly the packets the routes say ([Router]); start-up ends with an exit
      code or with the configured program ([Main.setup_spec]).
    - Round trips: addresses, base64, frames, netlink messages against a parser
      written from the UAPI, datagrams from one client to another, requests through
      the accessors.
    - Refinement and equivalence: the byte-wise prefix test and the bits
      ([Cidr_contains_spec]); the trie on pointers and lists of routes
      ([LpmHeap.heap_refines]); device configuration and a script of requests
      ([Tun.configure_refines_script]); registration over messages and over values
      ([TunnelRpc.register_message_refines]); the accessors' offsets and the embedded
      schema ([TunnelSchema.schema_agrees]), and the declared classes and the schema
      ([Interface.classes_agree]); the atomics and a sequential history
      ([Atomic8.linearizable]); the whole program and its parts
      ([System.system_refines], [DataPath.data_path_refines]).
    - Types: calls of the generated classes with arguments of the declared types have
      results of the declared types and keep every pointer of a message at the type
      of the schema ([Typing.calls_typed]); the request of a registration is such a
      program ([Typing.request_typed]); a pipeline reaches what the getters reach
      ([Typing.pipelines_agree]).
    - The composition: a packet reaches the peer's device unchanged and in order
      ([DataPath.end_to_end]); a thread wakes exactly when its own client lost its
      connection ([System.disconnect_exact]); a program that returns leaves no handle
      and no open library ([System.returned_clean]); without msquic it only ever
      returns 1 ([Builds.without_msquic]), without a TUN device it does not start
      ([Builds.without_tun]). The unit tests hold of the models ([Tests]).
    - Resources: descriptors, library handles, datagram contexts and trie nodes are
      released once and none leaks ([UniqueFd], [Router.session_safe],
      [QuicClient.handles_paired], [LpmHeap], [AsyncStream.stream_fifo]).
    - Concurrency: counters and back-off bounds ([Supervisor.supervisor_safe]), order
      of registrations, at most one disconnect notification, which waits can be
      missed ([Supervisor.no_lost_wakeup], [Supervisor.lost_wakeup]), the watchdog
      and the destructors ([Watchdog.watchdog_safe]), whole log lines ([Log]).
    - Termination: shutdown, of the threads ([Supervisor.shutdown_terminates]) and with
      their clients ([Shutdown.system_shutdown]); a registration with a
      silent edge ([Watchdog.watchdog_terminates]), calls behind the spin lock
      ([Atomic8.calls_return]); every fuelled function is shown to return.
    - Shortcomings of the code, as theorems: [Cidr.Cidr_parse_empty_length],
      [Router.start_stop_race], [Supervisor.conn_index_not_distinct],
      [Supervisor.lost_wakeup], [QuicClient.send_close_race],
      [Netlink.bare_header_reads_stack], [AsyncStream.short_read_before_eof],
      [Watchdog.call_takes_timeout], [LpmHeap.moved_trie_double_free],
      [Probe.probe_options_unchecked], [System.late_handshake],
      [System.connect_close_race], [Typing.unknown_member_unchecked],
      [Tests.release_tests_vacuous].

    ** Bounds and fuel

    Integers are [Z] with the casts of the code written out ([u8], [u16], [u32],
    [u64]); [std::size_t] has a width that is a parameter where it matters ([Buffer],
    [Main]). Fuel is used where the recursion is not structural: as many rounds as
    the text has characters or the queue has chunks ([Config.trim],
    [Registration.uuid_loop], [Main.args_loop], [Probe.probe_loop],
    [AsyncStream.drain_loop]); 130 levels for the destructor of the trie, whose
    paths have at most 129 nodes; two more than the bits of an address for its
    lookup; 20 digits for a number below [2 ^ 64]. The theorems about these functions
    say that they return with that fuel on every input they can get.

    ** What is assumed, and what is not modelled

    Code outside the repository is a parameter: the kernel, the C library's address
    functions and resolver, msquic (its answers are arguments and its events inputs;
    an event list has to be one that the documentation of msquic allows), the
    runtime of Cap'n Proto and kj, and the remote edge. Memory is sequentially
    consistent, and a critical section is one step, except where a file says that it
    takes the section apart. A call of a client is one step of the thread that makes
    it in [System], except in the race at its end.

    Not modelled: the formatting of log and usage texts; the bodies of [totalSize]
    and [toString], which only forward to the runtime; the promise of
    [whenWriteDisconnected], which is never fulfilled; the allocation failures of the
    standard containers but for the trie; time in [System], where a timeout is a label
    that may come at any point; and the build files. *)
From Stdlib Require Export ZArith Lia Ascii String.
From stdpp Require Export base tactics numbers option list gmap strings.

Declare Scope cfd_scope.
Delimit Scope cfd_scope with cfd.

(** ** Text: [std::string] and [char] *)

(** A [std::string] is a list of characters. *)
Abbreviation text := (list ascii).

(** [str "abc"] is the text of a C++ string literal. *)
Definition str (s : string) : text := String.list_ascii_of_string s.

Arguments str _%_string_scope.

(** The code of a character, as [static_cast<unsigned char>(c)]. *)
Definition code (c : ascii) : Z := Z.of_N (N_of_ascii c).

(** The terminator of a C string. *)
Definition nul : ascii := Ascii.zero.

(** ** Machine integers: a w-bit unsigned integer is a [Z]; the casts wrap. *)

Definition u8 (z : Z) : Z := (z mod 2 ^ 8)%Z.
Definition u16 (z : Z) : Z := (z mod 2 ^ 16)%Z.
Definition u32 (z : Z) : Z := (z mod 2 ^ 32)%Z.
Definition u64 (z : Z) : Z := (z mod 2 ^ 64)%Z.

(** The values of [std::uint8_t], and of an array of them. *)
Definition byte_ok (b : Z) : Prop := (0 <= b < 256)%Z.
Abbreviation bytes_ok := (Forall byte_ok).

#[export] Instance byte_ok_dec b : Decision (byte_ok b).
Proof. unfold byte_ok. apply _. Defined.

(** ** Runs that can leave the defined behaviour of C++

    [Done a]: the code returned [a]; [UB]: it read or wrote outside an object
    (or used a freed one); [Fuel]: the fuel of the model was too small. *)
Inductive run (A : Type) : Type :=
| Done (a : A)
| UB
| Fuel.
Arguments Done {A} a.
Arguments UB {A}.
Arguments Fuel {A}.

Definition run_bind {A B : Type} (m : run A) (k : A → run B) : run B :=
  match m with
  | Done a => k a
  | UB => UB
  | Fuel => Fuel
  end.

(** A read or write of an object that may not be there. *)
Definition run_opt {A : Type} (o : option A) : run A :=
  match o with
  | Some a => Done a
  | None => UB
  end.

Notation "'let!' x ':=' m 'in' k" := (run_bind m (λ x, k))
  (at level 10, x pattern, m at level 100, k at level 200) : cfd_scope.

(** [std::memcpy(dst + off, src, src.size())] into an array of fixed size;
    [None] when it would write outside the array. *)
Definition memcpy_at {A : Type} (off : nat) (src dst : list A) : option (list A) :=
  if off + length src <=? length dst
  then Some (take off dst ++ src ++ drop (off + length src) dst)
  else None.

(** [buf] read as a C string: the characters before the first NUL. *)
Fixpoint c_str (s : text) : text :=
  match s with
  | [] => []
  | c :: s' => if bool_decide (c = nul) then [] else c :: c_str s'
  end.

(** [s.find(c)]: the index of the first [c], [None] for [npos]. *)
Fixpoint find_char (c : ascii) (s : text) : option nat :=
  match s with
  | [] => None
  | x :: s' => if bool_decide (x = c) then Some 0 else S <$> find_char c s'
  end.

(** The pieces of [s] between the occurrences of [c], and their concatenation
    with [c] between them. *)
Fixpoint split_on (c : ascii) (s : text) : list text :=
  match s with
  | [] => [[]]
  | x :: s' =>
      if bool_decide (x = c) then [] :: split_on c s'
      else
        match split_on c s' with
        | [] => [[x]]
        | w :: ws => (x :: w) :: ws
        end
  end.

Fixpoint join (c : ascii) (ws : list text) : text :=
  match ws with
  | [] => []
  | [w] => w
  | w :: ws' => w ++ c :: join c ws'
  end.

(** The number in a little-endian field. *)
Fixpoint of_le (bs : list Z) : Z :=
  match bs with [] => 0 | b :: bs' => b + 256 * of_le bs' end.

(** Decimal digits of an unsigned number, as [printf]'s [%u] and
    [std::to_string] write them. [fuel] bounds the number of digits: 20 are
    enough below [2 ^ 64]. *)
Fixpoint dec_digits (fuel : nat) (n : Z) (acc : text) : text :=
  match fuel with
  | O => acc
  | S fuel' =>
      let acc' := ascii_of_N (Z.to_N (48 + n mod 10)) :: acc in
      if (n <? 10)%Z then acc' else dec_digits fuel' (n / 10)%Z acc'
  end.

Definition dec_of (n : Z) : text := dec_digits 20 n [].

(** The digits [std::from_chars] and the parsers accept, and the number a
    string of digits denotes. *)
Definition is_digit (c : ascii) : bool :=
  (code "0" <=? code c)%Z && (code c <=? code "9")%Z.

Definition dec_value_from (n : Z) (s : text) : Z :=
  foldl (λ n c, n * 10 + (code c - code "0"))%Z n s.

Abbreviation dec_value := (dec_value_from 0).

(** ** Tactics *)

(** Split every boolean test in the goal and the hypotheses into facts. *)
Ltac bool_facts :=
  repeat match goal with
  | H : (_ && _)%bool = true |- _ => apply andb_true_iff in H as [? ?]
  | H : (_ || _)%bool = false |- _ => apply orb_false_iff in H as [? ?]
  | H : negb _ = true |- _ => apply negb_true_iff in H
  | H : negb _ = false |- _ => apply negb_false_iff in H
  | H : (_ <? _)%Z = true |- _ => apply Z.ltb_lt in H
  | H : (_ <? _)%Z = false |- _ => apply Z.ltb_ge in H
  | H : (_ <=? _)%Z = true |- _ => apply Z.leb_le in H
  | H : (_ <=? _)%Z = false |- _ => apply Z.leb_gt in H
  | H : (_ =? _)%Z = true |- _ => apply Z.eqb_eq in H
  | H : (_ =? _)%Z = false |- _ => apply Z.eqb_neq in H
  | H : (_ <? _)%nat = true |- _ => apply Nat.ltb_lt in H
  | H : (_ <? _)%nat = false |- _ => apply Nat.ltb_ge in H
  | H : (_ <=? _)%nat = true |- _ => apply Nat.leb_le in H
  | H : (_ <=? _)%nat = false |- _ => apply Nat.leb_gt in H
  | H : (_ =? _)%nat = true |- _ => apply Nat.eqb_eq in H
  | H : (_ =? _)%nat = false |- _ => apply Nat.eqb_neq in H
  | H : bool_decide _ = true |- _ => apply bool_decide_eq_true in H
  | H : bool_decide _ = false |- _ => apply bool_decide_eq_false in H
  end.

(** Case on the test of an [if] in the goal, or in [H], and read the test. *)
Ltac case_if :=
  match goal with
  | |- context [if ?b then _ else _] => destruct b eqn:?
  end; bool_facts; try done.

Ltac case_if_in H :=
  match type of H with
  | context [if ?b then _ else _] => destruct b eqn:?
  end; bool_facts; try done.

(** Linear arithmetic over casts, quotients and remainders. *)
Ltac word_lia :=
  unfold u8, u16, u32, u64, byte_ok in *; Z.to_euclidean_division_equations; lia.

(** The bytes of a literal array. *)
Ltac solve_bytes :=
  repeat (apply Forall_cons; split); try apply Forall_nil;
  try (apply Forall_replicate); try done; unfold byte_ok in *; lia.

(** ** Generic lemmas *)

Section casts.
Local Open Scope Z_scope.

Lemma u8_byte_ok z : byte_ok (u8 z).
Proof. unfold u8, byte_ok. apply Z.mod_pos_bound. lia. Qed.

Lemma u8_id b : byte_ok b → u8 b = b.
Proof. unfold u8, byte_ok. intros. apply Z.mod_small. lia. Qed.

Lemma u32_small z : 0 <= z < 2 ^ 32 → u32 z = z.
Proof. apply Z.mod_small. Qed.

Lemma u16_small z : 0 <= z < 2 ^ 16 → u16 z = z.
Proof. apply Z.mod_small. Qed.

Lemma code_byte_ok c : byte_ok (code c).
Proof. unfold byte_ok, code. pose proof (N_ascii_bounded c). lia. Qed.

Lemma code_inj c1 c2 : code c1 = code c2 → c1 = c2.
Proof.
  unfold code. intros H%N2Z.inj.
  rewrite <- (ascii_N_embedding c1), <- (ascii_N_embedding c2). by rewrite H.
Qed.

(** The [or] of numbers without a common bit is their sum. *)
Lemma lor_shiftl_add a b n :
  0 <= n → 0 <= b < 2 ^ n → Z.lor (Z.shiftl a n) b = a * 2 ^ n + b.
Proof.
  intros Hn Hb. rewrite Z.shiftl_mul_pow2 by done.
  apply Z.bits_inj'. intros i Hi. rewrite Z.lor_spec.
  destruct (decide (i < n)) as [Hlt|Hge].
  - rewrite Z.mul_pow2_bits_low by done. simpl.
    rewrite <- (Z.mod_pow2_bits_low (a * 2 ^ n + b) n i) by lia.
    rewrite Z.add_comm, Z.mod_add by lia. by rewrite Z.mod_small.
  - rewrite Z.mul_pow2_bits by lia.
    replace (Z.testbit b i) with false.
    2: { symmetry. destruct (decide (b = 0)) as [->|Hnz]; [apply Z.bits_0|].
         apply Z.bits_above_log2; [lia|].
         apply Z.log2_lt_pow2; [lia|].
         apply Z.lt_le_trans with (2 ^ n); [lia|]. apply Z.pow_le_mono_r; lia. }
    rewrite orb_false_r.
    replace i with ((i - n) + n) at 2 by lia.
    rewrite <- Z.div_pow2_bits by lia.
    rewrite Z.div_add_l by lia. rewrite Z.div_small by lia. by rewrite Z.add_0_r.
Qed.

End casts.

Section lists.
Context {A : Type}.
Implicit Types l src dst : list A.

Lemma memcpy_at_Some off src dst :
  off + length src ≤ length dst →
  memcpy_at off src dst = Some (take off dst ++ src ++ drop (off + length src) dst).
Proof. intros H. unfold memcpy_at. by rewrite (proj2 (Nat.leb_le _ _) H). Qed.

Lemma memcpy_at_length off src dst dst' :
  memcpy_at off src dst = Some dst' → length dst' = length dst.
Proof.
  unfold memcpy_at. intros H. case_if_in H. simplify_eq/=.
  rewrite !length_app, length_take, length_drop. lia.
Qed.

End lists.

(** A decidable property of bytes is proved by trying the 256 of them. *)
Lemma byte_decide (P : Z → Prop) `{Hdec : ∀ b, Decision (P b)} :
  forallb (λ b, bool_decide (P b)) (seqZ 0 256) = true → ∀ b, byte_ok b → P b.
Proof.
  intros H b Hb. rewrite forallb_forall in H. apply (bool_decide_eq_true_1 _), H.
  apply list_elem_of_In, elem_of_seqZ. unfold byte_ok in Hb. lia.
Qed.

(** The same for a byte and a number below [n]. *)
Lemma byte_nat_decide (n : nat) (P : Z → nat → Prop) `{Hdec : ∀ b k, Decision (P b k)} :
  forallb (λ b, forallb (λ k, bool_decide (P b k)) (seq 0 n)) (seqZ 0 256) = true →
  ∀ b k, byte_ok b → (k < n)%nat → P b k.
Proof.
  intros H b k Hb Hk. rewrite forallb_forall in H.
  assert (In b (seqZ 0 256)) as Hin.
  { apply list_elem_of_In, elem_of_seqZ. unfold byte_ok in Hb. lia. }
  specialize (H b Hin). rewrite forallb_forall in H.
  apply (bool_decide_eq_true_1 _), H, in_seq. lia.
Qed.

(** Prove [∀ b, byte_ok b → P b], or the same with a second bounded number, by
    computing every case. *)
Ltac by_bytes :=
  first [refine (byte_decide _ _) | refine (byte_nat_decide _ _ _)]; by vm_compute.

Section decimal.
Local Open Scope Z_scope.

Lemma dec_value_from_app n s1 s2 :
  dec_value_from n (s1 ++ s2) = dec_value_from (dec_value_from n s1) s2.
Proof. apply foldl_app. Qed.

Lemma is_digit_bounds c : is_digit c = true → 0 <= code c - code "0" <= 9.
Proof. unfold is_digit. change (code "0") with 48. change (code "9") with 57.
  intros. bool_facts. lia.
Qed.

Lemma dec_value_from_ge n s :
  0 <= n → Forall (λ c, is_digit c = true) s → n <= dec_value_from n s.
Proof.
  intros Hn Hs. revert n Hn. induction Hs as [|c s Hc Hs IH]; intros n Hn; [done|].
  apply is_digit_bounds in Hc. cbn -[code] in *.
  etrans; [|apply IH]; lia.
Qed.

Lemma digit_char d :
  0 <= d < 10 → code (ascii_of_N (Z.to_N (48 + d))) = 48 + d.
Proof.
  intros Hd. unfold code. rewrite N_ascii_embedding; lia.
Qed.

(** [dec_of] prints the digits of the number. *)
Lemma dec_digits_spec fuel n acc :
  0 <= n < 10 ^ Z.of_nat fuel → (0 < fuel)%nat →
  ∃ ds, dec_digits fuel n acc = ds ++ acc ∧ Forall (λ c, is_digit c = true) ds
        ∧ (∀ m, dec_value_from m ds = m * 10 ^ Z.of_nat (length ds) + n)
        ∧ (0 < length ds ≤ fuel)%nat.
Proof.
  revert n acc. induction fuel as [|fuel IH]; intros n acc Hn Hf; [lia|].
  cbn -[Z.modulo Z.div Z.pow Z.of_nat ascii_of_N Z.add].
  set (c := ascii_of_N _).
  assert (Hc : code c = 48 + n mod 10) by (apply digit_char, Z.mod_pos_bound; lia).
  assert (Hd : is_digit c = true).
  { unfold is_digit. rewrite Hc. pose proof (Z.mod_pos_bound n 10).
    change (code "0") with 48. change (code "9") with 57.
    apply andb_true_iff; split; apply Z.leb_le; lia. }
  destruct (n <? 10) eqn:Hlt; bool_facts.
  - exists [c]. repeat split; [by repeat constructor| |simpl; lia..].
    intros m. cbn -[code Z.mul Z.add]. rewrite Hc. change (code "0") with 48.
    rewrite Z.mod_small by lia. lia.
  - assert (0 < fuel)%nat by (destruct fuel; [change (10 ^ Z.of_nat 1) with 10 in Hn; lia|lia]).
    destruct (IH (n / 10) (c :: acc)) as (ds & -> & Hds & Hv & Hl); [|done|].
    { rewrite Nat2Z.inj_succ, Z.pow_succ_r in Hn by lia.
      split; [apply Z.div_pos; lia|apply Z.div_lt_upper_bound; lia]. }
    exists (ds ++ [c]). rewrite length_app. simpl length.
    repeat split; [by rewrite <- app_assoc| |.. |lia|lia].
    + apply Forall_app; split; [done|by repeat constructor].
    + intros m. rewrite dec_value_from_app, Hv. cbn -[code Z.mul Z.add Z.pow].
      rewrite Hc. change (code "0") with 48.
      rewrite Nat2Z.inj_add, Z.pow_add_r by lia.
      pose proof (Z.div_mod n 10). change (Z.of_nat 1) with 1. lia.
Qed.

Lemma dec_of_spec n :
  0 <= n < 2 ^ 64 →
  Forall (λ c, is_digit c = true) (dec_of n) ∧ dec_value (dec_of n) = n
  ∧ dec_of n ≠ [] ∧ (length (dec_of n) ≤ 20)%nat.
Proof.
  intros Hn. unfold dec_of.
  destruct (dec_digits_spec 20 n []) as (ds & -> & Hds & Hv & Hl);
    [change (10 ^ Z.of_nat 20) with 100000000000000000000; lia|lia|].
  rewrite app_nil_r. repeat split; [done|rewrite Hv; lia| |lia].
  intros ->. simpl in Hl. lia.
Qed.

End decimal.

(** Looking for a character, and the two halves around it. *)
Lemma find_char_Some c s i :
  find_char c s = Some i →
  s = take i s ++ c :: drop (S i) s ∧ c ∉ take i s.
Proof.
  revert i. induction s as [|x s IH]; intros i; simpl; [done|].
  case_bool_decide as Hx.
  - intros [= <-]. subst. split; [done|]. by apply not_elem_of_nil.
  - rewrite fmap_Some. intros (j & Hj & ->). destruct (IH j Hj) as [Hs Hni].
    simpl. split; [by f_equal|]. rewrite not_elem_of_cons. auto.
Qed.

Lemma find_char_app c s1 s2 :
  c ∉ s1 → find_char c (s1 ++ c :: s2) = Some (length s1).
Proof.
  induction s1 as [|x s1 IH]; intros Hc; simpl.
  - by rewrite bool_decide_eq_true_2.
  - apply not_elem_of_cons in Hc as [Hx Hc].
    rewrite bool_decide_eq_false_2 by congruence. by rewrite IH.
Qed.

Lemma find_char_None c s : find_char c s = None ↔ c ∉ s.
Proof.
  induction s as [|x s IH]; simpl.
  - split; [intros _; apply not_elem_of_nil|done].
  - rewrite not_elem_of_cons. case_bool_decide; [by split; [done|intros [? _]]|].
    rewrite fmap_None, IH. split; [intros; split; [congruence|done]|by intros [_ ?]].
Qed.

Lemma split_on_app c w s :
  c ∉ w → split_on c (w ++ c :: s) = w :: split_on c s.
Proof.
  induction w as [|x w IH]; intros Hc; simpl.
  - by rewrite bool_decide_eq_true_2.
  - apply not_elem_of_cons in Hc as [Hx Hc].
    rewrite bool_decide_eq_false_2 by congruence. by rewrite IH.
Qed.

Lemma split_on_none c w : c ∉ w → split_on c w = [w].
Proof.
  induction w as [|x w IH]; intros Hc; simpl; [done|].
  apply not_elem_of_cons in Hc as [Hx Hc].
  rewrite bool_decide_eq_false_2 by congruence. by rewrite IH.
Qed.

Lemma split_join c ws :
  ws ≠ [] → Forall (λ w, c ∉ w) ws → split_on c (join c ws) = ws.
Proof.
  intros Hne Hws. induction Hws as [|w ws Hw Hws IH]; [done|].
  destruct ws as [|w' ws]; simpl; [by apply split_on_none|].
  rewrite split_on_app by done. f_equal. by apply IH.
Qed.

Lemma join_split c s : join c (split_on c s) = s.
Proof.
  induction s as [|x s IH]; simpl; [done|].
  destruct (split_on c s) as [|w ws] eqn:Hs; [by destruct s; simpl in Hs; repeat case_match|].
  case_bool_decide as Hx; [rewrite Hx; change (c :: join c (w :: ws) = c :: s); by rewrite IH|].
  destruct ws; simpl in *; congruence.
Qed.

Lemma join_Forall (P : ascii → Prop) c ws :
  P c → Forall (Forall P) ws → Forall P (join c ws).
Proof.
  intros Hc Hws. induction Hws as [|w ws Hw Hws IH]; [done|].
  destruct ws as [|w' ws]; simpl; [done|]. apply Forall_app; split; [done|].
  by constructor.
Qed.

Lemma Forall_not_elem (P : ascii → Prop) c (s : text) : ¬ P c → Forall P s → c ∉ s.
Proof. intros Hc Hs Hin. rewrite Forall_forall in Hs. naive_solver. Qed.

Lemma c_str_id s : nul ∉ s → c_str s = s.
Proof.
  induction s as [|x s IH]; simpl; [done|]. rewrite not_elem_of_cons. intros [Hx Hs].
  rewrite bool_decide_eq_false_2 by congruence. by rewrite IH.
Qed.

(** ** Hints *)

Create HintDb cfd.
Create Rewrite HintDb cfd.
#[export] Hint Resolve u8_byte_ok code_byte_ok : cfd.
#[export] Hint Rewrite @length_app @length_take @length_drop @length_replicate : cfd.
