(* ===== verification/Cidr.v ===== *)
(** * Addresses and CIDR blocks

    [include/cfd/cidr.hpp] and [src/net/cidr.cpp]: [IpAddr] and [Cidr] with
    their parsers, printers and the membership test. [inet_pton] and
    [inet_ntop] are the C library's: they are operations of the class [Inet],
    with the documented behaviour the code relies on in [InetLaws]. *)
From S2P Require Import Prelude.
Local Open Scope Z_scope.
Local Open Scope cfd_scope.

(** ** Data *)

Inductive Family := V4 | V6.

#[export] Instance Family_eq_dec : EqDecision Family.
Proof. solve_decision. Defined.

(** [bytes] is a [std::array<std::uint8_t, 16>]; V4 uses the first four. *)
Record IpAddr := mkIpAddr { family : Family; bytes : list Z }.

Record Cidr := mkCidr { addr : IpAddr; prefix_len : Z }.

#[export] Instance IpAddr_eq_dec : EqDecision IpAddr.
Proof. solve_decision. Defined.
#[export] Instance Cidr_eq_dec : EqDecision Cidr.
Proof. solve_decision. Defined.

(** [std::array<std::uint8_t, 16>{}] *)
Definition zero16 : list Z := replicate 16 0.

(** The number of bits, and of bytes, of an address of the family. *)
Definition max_bits (f : Family) : Z := match f with V4 => 32 | V6 => 128 end.
Definition addr_len (f : Family) : nat := match f with V4 => 4 | V6 => 16 end.

(** The types: a 16-byte array, and a prefix length in the family's range. *)
Definition ip_ok (a : IpAddr) : Prop := length (bytes a) = 16%nat ∧ bytes_ok (bytes a).
Definition cidr_ok (c : Cidr) : Prop :=
  ip_ok (addr c) ∧ 0 <= prefix_len c <= max_bits (family (addr c)).

(** The addresses the parser builds: the bytes V4 does not use are zero. *)
Definition canonical (a : IpAddr) : Prop :=
  ip_ok a ∧ (family a = V4 → drop 4 (bytes a) = drop 4 zero16).

(** ** The C library's address conversions *)

(** [inet_pton f s] is the address it stores when it returns 1;
    [inet_ntop f bs] the string it writes, [None] when it returns null. *)
Class Inet := {
  inet_pton : Family → text → option (list Z);
  inet_ntop : Family → list Z → option text;
}.

(** [INET6_ADDRSTRLEN]: room for any address and the terminator. *)
Definition INET6_ADDRSTRLEN : nat := 46.

(** Documented: [inet_pton] stores a 4- or 16-byte address; [inet_ntop] prints
    every address, as a string that fits [INET6_ADDRSTRLEN], has no slash, and
    is read back as the same address, and as no V4 address if it is a V6 one. *)
Class InetLaws `{Inet} := {
  inet_pton_ok f s bs :
    inet_pton f s = Some bs → length bs = addr_len f ∧ bytes_ok bs;
  inet_ntop_ok f bs :
    length bs = addr_len f → bytes_ok bs →
    ∃ s, inet_ntop f bs = Some s ∧ (length s < INET6_ADDRSTRLEN)%nat
         ∧ "/"%char ∉ s ∧ nul ∉ s ∧ inet_pton f s = Some bs
         ∧ (f = V6 → inet_pton V4 s = None);
}.

Section parse.
Context `{Inet}.

(** ** [IpAddr::parse]: copy to a 64-byte C string, try V4, then V6. *)
Definition IpAddr_parse (s : text) : option IpAddr :=
  if (64 <=? length s)%nat then None
  else
    let buf := c_str s in
    match inet_pton V4 buf with
    | Some b => mkIpAddr V4 <$> memcpy_at 0 b zero16
    | None =>
        match inet_pton V6 buf with
        | Some b => mkIpAddr V6 <$> memcpy_at 0 b zero16
        | None => None
        end
    end.

(** [IpAddr::to_string]: the empty string when the conversion fails. *)
Definition IpAddr_to_string (a : IpAddr) : text :=
  default [] (inet_ntop (family a) (take (addr_len (family a)) (bytes a))).

(** The loop over the digits of the prefix length. *)
Fixpoint parse_plen (plen : Z) (s : text) : option Z :=
  match s with
  | [] => Some plen
  | c :: s' =>
      if ((code c <? code "0") || (code "9" <? code c))%bool then None
      else
        let plen := u32 (plen * 10 + (code c - code "0")) in
        if 128 <? plen then None else parse_plen plen s'
  end.

(** ** [Cidr::parse] *)
Definition Cidr_parse (s : text) : option Cidr :=
  match find_char "/" s with
  | None => None
  | Some slash =>
      let addr_part := take slash s in
      let plen_part := drop (S slash) s in
      match IpAddr_parse addr_part with
      | None => None
      | Some a =>
          match parse_plen 0 plen_part with
          | None => None
          | Some plen =>
              if max_bits (family a) <? plen then None
              else Some (mkCidr a (u8 plen))
          end
      end
  end.

(** ** [Cidr::to_string]: [snprintf] into [INET6_ADDRSTRLEN + 8] characters. *)
Definition Cidr_to_string (c : Cidr) : text :=
  take (INET6_ADDRSTRLEN + 8 - 1)
    (IpAddr_to_string (addr c) ++ str "/" ++ dec_of (prefix_len c)).

End parse.

(** ** [Cidr::contains] *)

(** [0xFFu << (8u - (prefix_len % 8u)) & 0xFFu], as a byte. *)
Definition contains_mask (plen : Z) : Z :=
  u8 (Z.land (u32 (Z.shiftl 255 (8 - plen mod 8))) 255).

(** The loop over the [n] whole bytes from [i]; a read outside either array is
    undefined. *)
Fixpoint contains_loop (n i : nat) (xs ys : list Z) : run bool :=
  match n with
  | O => Done true
  | S n' =>
      let! x := run_opt (xs !! i) in
      let! y := run_opt (ys !! i) in
      if negb (x =? y) then Done false else contains_loop n' (S i) xs ys
  end.

Definition Cidr_contains (c : Cidr) (other : IpAddr) : run bool :=
  if bool_decide (family other ≠ family (addr c)) then Done false
  else
    let n := Z.to_nat (prefix_len c / 8) in
    let mask := contains_mask (prefix_len c) in
    let! same := contains_loop n 0 (bytes (addr c)) (bytes other) in
    if negb same then Done false
    else if negb (prefix_len c mod 8 =? 0) then
      let! x := run_opt (bytes (addr c) !! n) in
      let! y := run_opt (bytes other !! n) in
      Done (Z.land x mask =? Z.land y mask)
    else Done true.

(** ** Specification: an address is a string of 128 bits, most significant
    first, and a block contains the addresses that share its prefix. *)

Definition bits_of_byte (b : Z) : list bool :=
  (λ k, Z.testbit b (7 - Z.of_nat k)) <$> seq 0 8.

Definition addr_bits (a : IpAddr) : list bool := bytes a ≫= bits_of_byte.

(** The significant bits of a block. *)
Definition cidr_prefix (c : Cidr) : list bool :=
  take (Z.to_nat (prefix_len c)) (addr_bits (addr c)).

(** Membership, as the prefix of the bits of the address. *)
Definition in_cidr (c : Cidr) (a : IpAddr) : Prop :=
  family a = family (addr c) ∧ cidr_prefix c `prefix_of` addr_bits a.

#[export] Instance in_cidr_dec c a : Decision (in_cidr c a).
Proof. unfold in_cidr. apply _. Defined.

(** ** The bits of an address *)

Lemma bits_of_byte_length b : length (bits_of_byte b) = 8%nat.
Proof. done. Qed.

Lemma bits_of_byte_lookup b k :
  (k < 8)%nat → bits_of_byte b !! k = Some (Z.testbit b (7 - Z.of_nat k)).
Proof.
  intros Hk. unfold bits_of_byte. rewrite list_lookup_fmap.
  by rewrite lookup_seq_lt by lia.
Qed.

Lemma bytes_bits_length (xs : list Z) :
  length (xs ≫= bits_of_byte) = (8 * length xs)%nat.
Proof. induction xs as [|x xs IH]; [done|]. cbn [mbind list_bind]. rewrite length_app.
  change (list_bind Z bool bits_of_byte xs) with (xs ≫= bits_of_byte).
  rewrite IH, bits_of_byte_length. simpl. lia.
Qed.

Lemma addr_bits_length a : ip_ok a → length (addr_bits a) = 128%nat.
Proof. intros [Hl _]. unfold addr_bits. by rewrite bytes_bits_length, Hl. Qed.

(** The first [8 * k + r] bits are those of the first [k] bytes, then [r] bits
    of the next one. *)
Lemma bytes_bits_take k r (xs : list Z) x :
  xs !! k = Some x → (r ≤ 8)%nat →
  take (8 * k + r) (xs ≫= bits_of_byte)
  = (take k xs ≫= bits_of_byte) ++ take r (bits_of_byte x).
Proof.
  revert xs. induction k as [|k IH]; intros [|y xs] Hx Hr; try done; cbn [lookup list_lookup] in Hx.
  - injection Hx as ->. rewrite bind_cons, Nat.mul_0_r, Nat.add_0_l.
    by rewrite take_app_le by (rewrite bits_of_byte_length; lia).
  - rewrite firstn_cons, !bind_cons.
    replace (8 * S k + r)%nat with (length (bits_of_byte y) + (8 * k + r))%nat
      by (rewrite bits_of_byte_length; lia).
    rewrite take_app_add, IH by done. by rewrite app_assoc.
Qed.

Lemma bytes_bits_take_whole k (xs : list Z) :
  (k ≤ length xs)%nat →
  take (8 * k) (xs ≫= bits_of_byte) = take k xs ≫= bits_of_byte.
Proof.
  revert xs. induction k as [|k IH]; intros [|y xs] Hk; simpl in Hk; [done..|lia|].
  rewrite firstn_cons, !bind_cons.
  replace (8 * S k)%nat with (length (bits_of_byte y) + 8 * k)%nat
    by (rewrite bits_of_byte_length; lia).
  rewrite take_app_add, IH by lia. done.
Qed.

(** The number whose most significant bits are [bs]. *)
Definition byte_of_bits (bs : list bool) : Z :=
  Z.shiftl (foldl (λ n b, 2 * n + Z.b2z b) 0 bs) (8 - Z.of_nat (length bs)).

Lemma byte_bits_mask b r :
  byte_ok b → (r < 8)%nat →
  take r (bits_of_byte (Z.land b (contains_mask (Z.of_nat r)))) = take r (bits_of_byte b)
  ∧ byte_of_bits (take r (bits_of_byte b)) = Z.land b (contains_mask (Z.of_nat r)).
Proof.
  revert b r. by_bytes.
Qed.

Lemma byte_of_bits_of_byte b : byte_ok b → byte_of_bits (bits_of_byte b) = b.
Proof.
  revert b. by_bytes.
Qed.

Lemma bytes_bits_inj (xs ys : list Z) :
  bytes_ok xs → bytes_ok ys → xs ≫= bits_of_byte = ys ≫= bits_of_byte → xs = ys.
Proof.
  intros Hxs. revert ys. induction Hxs as [|x xs Hx Hxs IH]; intros ys Hys He.
  - destruct ys as [|y ys]; [done|]. rewrite bind_cons in He. done.
  - destruct Hys as [|y ys Hy Hys]; rewrite bind_cons in He; [done|].
    rewrite bind_cons in He. apply app_inj_1 in He as [He1 He2]; [|done].
    f_equal; [|by apply IH].
    by rewrite <- (byte_of_bits_of_byte x), He1, byte_of_bits_of_byte by done.
Qed.

(** The mask test compares the first bits of two bytes. *)
Lemma mask_test x y r :
  byte_ok x → byte_ok y → (r < 8)%nat →
  Z.land x (contains_mask (Z.of_nat r)) = Z.land y (contains_mask (Z.of_nat r))
  ↔ take r (bits_of_byte x) = take r (bits_of_byte y).
Proof.
  intros Hx Hy Hr.
  destruct (byte_bits_mask x r Hx Hr) as [Hx1 Hx2].
  destruct (byte_bits_mask y r Hy Hr) as [Hy1 Hy2].
  split; [intros He; by rewrite <- Hx1, He|intros He; by rewrite <- Hx2, He].
Qed.

(** The loop compares the first [n] bytes, and stays inside the arrays. *)
Lemma contains_loop_spec n i (xs ys : list Z) :
  (i + n ≤ length xs)%nat → length xs = length ys →
  contains_loop n i xs ys
  = Done (bool_decide (take n (drop i xs) = take n (drop i ys))).
Proof.
  revert i. induction n as [|n IH]; intros i Hn Hl; simpl; [done|].
  destruct (lookup_lt_is_Some_2 xs i) as [x Hx]; [lia|].
  destruct (lookup_lt_is_Some_2 ys i) as [y Hy]; [lia|].
  rewrite Hx, Hy. simpl. rewrite (drop_S xs x i), (drop_S ys y i) by done. simpl.
  case_if.
  - rewrite bool_decide_eq_false_2; [done|congruence].
  - subst. rewrite IH by lia. f_equal. apply bool_decide_ext.
    split; [by intros ->|by intros [= ?]].
Qed.

Lemma take_prefix_of {A} (n : nat) (l k : list A) :
  length l = length k → take n l `prefix_of` k ↔ take n l = take n k.
Proof.
  intros Hl. split.
  - intros [z Hz]. destruct (Nat.le_gt_cases n (length l)) as [Hn|Hn].
    + rewrite Hz. by rewrite take_app_length' by (rewrite length_take; lia).
    + rewrite take_ge in Hz |- * by lia. rewrite take_ge by lia.
      rewrite Hz in Hl |- *. rewrite length_app in Hl. destruct z; simpl in Hl; [|lia].
      by rewrite app_nil_r.
  - intros ->. apply prefix_take.
Qed.

Lemma in_cidr_take c a :
  ip_ok (addr c) → ip_ok a →
  in_cidr c a ↔ family a = family (addr c)
    ∧ take (Z.to_nat (prefix_len c)) (addr_bits (addr c))
      = take (Z.to_nat (prefix_len c)) (addr_bits a).
Proof.
  intros Hc Ha. unfold in_cidr, cidr_prefix.
  rewrite take_prefix_of; [done|]. by rewrite !addr_bits_length.
Qed.

Lemma contains_mask_mod plen : contains_mask (plen mod 8) = contains_mask plen.
Proof. unfold contains_mask. by rewrite Z.mod_mod by lia. Qed.

(** Two arrays agree on their first [8 * n + r] bits when they agree on [n]
    bytes and the mask of [r] bits does not tell the next two apart. *)
Lemma bits_agree (n r : nat) (xs ys : list Z) x y :
  bytes_ok xs → bytes_ok ys → xs !! n = Some x → ys !! n = Some y → (r < 8)%nat →
  take (8 * n + r) (xs ≫= bits_of_byte) = take (8 * n + r) (ys ≫= bits_of_byte)
  ↔ take n xs = take n ys
    ∧ Z.land x (contains_mask (Z.of_nat r)) = Z.land y (contains_mask (Z.of_nat r)).
Proof.
  intros Hxs Hys Hx Hy Hr.
  pose proof (Forall_lookup_1 _ _ _ _ Hxs Hx). pose proof (Forall_lookup_1 _ _ _ _ Hys Hy).
  pose proof (lookup_lt_Some _ _ _ Hx). pose proof (lookup_lt_Some _ _ _ Hy).
  rewrite mask_test, (bytes_bits_take n r xs x), (bytes_bits_take n r ys y)
    by (done || lia). split.
  - intros He. apply app_inj_1 in He as [He Hm].
    + split; [|done]. by apply bytes_bits_inj in He; [|apply Forall_take..].
    + rewrite !bytes_bits_length, !length_take. lia.
  - intros [-> ->]. done.
Qed.

Lemma bits_agree_whole (n : nat) (xs ys : list Z) :
  bytes_ok xs → bytes_ok ys → (n ≤ length xs)%nat → (n ≤ length ys)%nat →
  take (8 * n) (xs ≫= bits_of_byte) = take (8 * n) (ys ≫= bits_of_byte)
  ↔ take n xs = take n ys.
Proof.
  intros Hxs Hys Hx Hy. rewrite !bytes_bits_take_whole by lia.
  split; [|by intros ->]. intros He.
  by apply bytes_bits_inj in He; [|apply Forall_take..].
Qed.

(** The two halves of the comparison, whole bytes and the masked one, are the
    bits of the prefix. *)
Lemma Cidr_contains_in c a :
  cidr_ok c → ip_ok a → Cidr_contains c a = Done (bool_decide (in_cidr c a)).
Proof.
  intros [Hc Hp] Ha. rewrite (bool_decide_ext _ _ (in_cidr_take c a Hc Ha)).
  unfold Cidr_contains, addr_bits. destruct Hc as [Hlc Hbc], Ha as [Hla Hba].
  destruct (decide (family a = family (addr c))) as [Hf|Hf].
  2: { rewrite bool_decide_eq_true_2, bool_decide_eq_false_2; [done|by intros [? _]|done]. }
  rewrite bool_decide_eq_false_2 by auto.
  set (n := Z.to_nat (prefix_len c / 8)).
  set (r := Z.to_nat (prefix_len c mod 8)).
  assert (Hmax : prefix_len c <= 128) by (destruct (family (addr c)); simpl in Hp; lia).
  assert (Hn : (n ≤ 16)%nat) by (unfold n; word_lia).
  assert (Hr : (r < 8)%nat) by (unfold r; word_lia).
  assert (Hsplit : Z.to_nat (prefix_len c) = (8 * n + r)%nat) by (unfold n, r; word_lia).
  rewrite Hsplit, contains_loop_spec, !drop_0 by lia. simpl.
  destruct (decide (prefix_len c mod 8 = 0)) as [Hz|Hz].
  - replace r with 0%nat by (unfold r; word_lia). rewrite Hz, Nat.add_0_r, if_negb. simpl.
    pose proof (bits_agree_whole n _ _ Hbc Hba ltac:(lia) ltac:(lia)) as HQ.
    destruct (decide (take n (bytes (addr c)) = take n (bytes a))) as [He|He].
    + rewrite !bool_decide_eq_true_2; tauto.
    + rewrite !bool_decide_eq_false_2; tauto.
  - assert (n < 16)%nat by (unfold n; word_lia).
    destruct (lookup_lt_is_Some_2 (bytes (addr c)) n) as [x Hx]; [lia|].
    destruct (lookup_lt_is_Some_2 (bytes a) n) as [y Hy]; [lia|].
    rewrite (proj2 (Z.eqb_neq _ _) Hz), Hx, Hy, if_negb. simpl.
    pose proof (bits_agree n r _ _ x y Hbc Hba Hx Hy Hr) as HQ.
    replace (Z.of_nat r) with (prefix_len c mod 8) in HQ by (unfold r; word_lia).
    rewrite contains_mask_mod in HQ.
    destruct (decide (take n (bytes (addr c)) = take n (bytes a))) as [He|He].
    + rewrite (bool_decide_eq_true_2 _ He). f_equal.
      apply eq_true_iff_eq. rewrite bool_decide_eq_true, Z.eqb_eq. tauto.
    + rewrite !bool_decide_eq_false_2; tauto.
Qed.

(** C29: [Cidr::contains] never reads outside the address arrays, and answers
    whether the address is of the block's family and shares its first
    [prefix_len] bits: the byte loop and the mask of the last partial byte
    together compare exactly the prefix. *)
Theorem Cidr_contains_spec c a :
  cidr_ok c → ip_ok a → Cidr_contains c a = Done (bool_decide (in_cidr c a)).
Proof. apply Cidr_contains_in. Qed.

(** ** Parsing *)

Abbreviation digits := (Forall (λ c, is_digit c = true)).

(** The digit loop computes the number, and stops at 128. *)
Lemma parse_plen_Some plen s p :
  0 <= plen <= 128 →
  parse_plen plen s = Some p ↔ digits s ∧ dec_value_from plen s = p ∧ p <= 128.
Proof.
  revert plen. induction s as [|c s IH]; intros plen Hp; cbn -[code].
  - rewrite Forall_nil. split; [intros [= <-]; lia|by intros (_ & -> & _)].
  - rewrite Forall_cons. destruct (is_digit c) eqn:Hc.
    + pose proof (is_digit_bounds c Hc) as Hb. change (code "0") with 48 in *.
      change (code "9") with 57. rewrite (proj2 (Z.ltb_ge _ _)), (proj2 (Z.ltb_ge _ _)) by lia.
      rewrite u32_small by lia. cbn [orb].
      case_if; [|rewrite IH by lia; tauto].
      split; [done|]. intros ([_ Hs] & Hv & Hle). exfalso.
      pose proof (dec_value_from_ge (plen * 10 + (code c - 48)) s ltac:(lia) Hs) as Hge.
      unfold dec_value_from in Hge. change (code "0") with 48 in Hge. lia.
    + assert (((code c <? code "0") || (code "9" <? code c))%bool = true) as ->.
      { unfold is_digit in Hc. apply andb_false_iff in Hc. apply orb_true_iff.
        destruct Hc as [Hc|Hc]; bool_facts; [left|right]; by apply Z.ltb_lt. }
      split; [done|]. by intros ([? _] & _).
Qed.

Lemma dec_of_byte_length b : byte_ok b → (length (dec_of b) ≤ 3)%nat.
Proof. revert b. by_bytes. Qed.

Section parse_lemmas.
Context `{Inet}.

(** The texts [Cidr::parse] accepts. *)
Lemma Cidr_parse_inv s c :
  Cidr_parse s = Some c ↔
  ∃ host len, s = host ++ "/"%char :: len ∧ "/"%char ∉ host
    ∧ IpAddr_parse host = Some (addr c) ∧ digits len
    ∧ dec_value len = prefix_len c ∧ prefix_len c <= max_bits (family (addr c)).
Proof.
  unfold Cidr_parse. split.
  - destruct (find_char _ s) as [i|] eqn:Hi; [|done].
    apply find_char_Some in Hi as [Hs Hni].
    destruct (IpAddr_parse _) as [a|] eqn:Ha; [|done].
    destruct (parse_plen 0 _) as [p|] eqn:Hp; [|done].
    apply parse_plen_Some in Hp as (Hd & Hv & Hle); [|lia].
    intros Hc. case_if_in Hc. injection Hc as <-. simpl.
    pose proof (dec_value_from_ge 0 _ ltac:(lia) Hd).
    exists (take i s), (drop (S i) s). rewrite u8_id by word_lia. auto 10 with lia.
  - intros (host & len & -> & Hni & Ha & Hd & Hv & Hle).
    rewrite find_char_app by done. rewrite take_app_length, Ha.
    rewrite drop_app_ge, Nat.sub_succ_l, Nat.sub_diag by lia. simpl drop. rewrite drop_0.
    assert (max_bits (family (addr c)) <= 128) by (destruct (family (addr c)); simpl; lia).
    rewrite (proj2 (parse_plen_Some 0 len (prefix_len c) ltac:(lia))) by auto with lia.
    rewrite (proj2 (Z.ltb_ge _ _)) by lia.
    pose proof (dec_value_from_ge 0 _ ltac:(lia) Hd).
    rewrite u8_id by word_lia. by destruct c.
Qed.

(** A block with an empty prefix length, such as "10.0.0.0/", is accepted
    as the block of length 0, which contains every address of the family. *)
Theorem Cidr_parse_empty_length host a :
  "/"%char ∉ host → IpAddr_parse host = Some a →
  Cidr_parse (host ++ str "/") = Some (mkCidr a 0)
  ∧ ∀ b, family b = family a → Cidr_contains (mkCidr a 0) b = Done true.
Proof.
  intros Hni Ha. split.
  - apply Cidr_parse_inv. exists host, []. repeat split; try done.
    simpl. destruct (family a); simpl; lia.
  - intros b Hf. unfold Cidr_contains. simpl.
    by rewrite bool_decide_eq_false_2 by (intros Hc; by apply Hc).
Qed.

Context `{!InetLaws}.

Lemma IpAddr_parse_ok s a : IpAddr_parse s = Some a → ip_ok a.
Proof.
  unfold IpAddr_parse, ip_ok. intros Ha. case_if_in Ha.
  destruct (inet_pton V4 _) as [b|] eqn:H4; [|destruct (inet_pton V6 _) as [b|] eqn:H6; [|done]].
  - apply inet_pton_ok in H4 as [Hl Hb]. simpl in Hl.
    rewrite memcpy_at_Some in Ha by (rewrite Hl; simpl; lia). simplify_eq/=.
    rewrite Hl. split; [rewrite length_app, Hl; done|]. apply Forall_app.
    split; [done|]. by repeat constructor.
  - apply inet_pton_ok in H6 as [Hl Hb]. simpl in Hl.
    rewrite memcpy_at_Some in Ha by (rewrite Hl; simpl; lia). simplify_eq/=.
    rewrite Hl. split; [rewrite length_app, Hl; done|]. apply Forall_app.
    split; [done|]. by repeat constructor.
Qed.

(** Every block [Cidr::parse] returns is well formed. *)
Lemma Cidr_parse_ok s c : Cidr_parse s = Some c → cidr_ok c.
Proof.
  intros (host & len & -> & _ & Ha & Hd & Hv & Hle)%Cidr_parse_inv.
  pose proof (dec_value_from_ge 0 _ ltac:(lia) Hd). split; [by eapply IpAddr_parse_ok|lia].
Qed.

(** C30: [Cidr::parse] accepts exactly the texts "address/length" whose address
    part [IpAddr::parse] accepts, and whose length is a string of digits (the
    empty one included) with a value in the range of the address family; it
    rejects every other text. The block it returns is well formed: 16 address
    bytes, and a prefix length between 0 and the bits of the family. *)
Theorem Cidr_parse_spec s c :
  (Cidr_parse s = Some c ↔
   ∃ host len, s = host ++ "/"%char :: len ∧ "/"%char ∉ host
     ∧ IpAddr_parse host = Some (addr c) ∧ digits len
     ∧ dec_value len = prefix_len c ∧ prefix_len c <= max_bits (family (addr c)))
  ∧ (Cidr_parse s = Some c → cidr_ok c).
Proof. split; [apply Cidr_parse_inv|apply Cidr_parse_ok]. Qed.

Lemma IpAddr_round_trip a :
  canonical a →
  ∃ s, IpAddr_to_string a = s ∧ (length s < INET6_ADDRSTRLEN)%nat
       ∧ "/"%char ∉ s ∧ IpAddr_parse s = Some a.
Proof.
  intros [[Hl Hb] Hc]. unfold IpAddr_to_string.
  destruct (inet_ntop_ok (family a) (take (addr_len (family a)) (bytes a)))
    as (s & -> & Hlen & Hsl & Hnul & Hp & H6).
  { rewrite length_take, Hl. by destruct (family a). }
  { by apply Forall_take. }
  exists s. simpl. split_and!; try done.
  unfold IpAddr_parse, INET6_ADDRSTRLEN in *.
  rewrite (proj2 (Nat.leb_gt _ _)) by lia. rewrite c_str_id by done.
  destruct a as [[] bs]; simpl in *.
  - rewrite Hp. rewrite memcpy_at_Some by (rewrite length_take, Hl; simpl; lia).
    simpl. rewrite length_take, Hl. simpl. rewrite <- (take_drop 4 bs) at 2.
    by rewrite Hc.
  - rewrite H6 by done. rewrite Hp.
    rewrite memcpy_at_Some by (rewrite length_take, Hl; simpl; lia).
    simpl. rewrite length_take, Hl. simpl. by rewrite app_nil_r, take_ge by lia.
Qed.

(** Printing and parsing are inverse: [Cidr::parse] reads the text of
    [Cidr::to_string] back as the same block, and [snprintf] never truncates
    it to its buffer. *)
Theorem Cidr_round_trip c :
  cidr_ok c → canonical (addr c) → Cidr_parse (Cidr_to_string c) = Some c.
Proof.
  intros [_ Hp] Hc. destruct (IpAddr_round_trip _ Hc) as (s & Hs & Hlen & Hsl & Hpa).
  assert (Hmax : prefix_len c <= 128) by (destruct (family (addr c)); simpl in Hp; lia).
  destruct (dec_of_spec (prefix_len c)) as (Hd & Hv & _ & Hl); [lia|].
  unfold Cidr_to_string. rewrite Hs.
  apply Cidr_parse_inv. exists s, (dec_of (prefix_len c)). split_and!; try done; [|lia].
  rewrite take_ge; [done|]. unfold INET6_ADDRSTRLEN in *.
  rewrite !length_app. simpl.
  pose proof (dec_of_byte_length (prefix_len c)) as H3. unfold byte_ok in H3. lia.
Qed.
End parse_lemmas.
