(* ===== verification/InetModel.v ===== *)
(** * A concrete [Inet]

    The class [Cidr.Inet] stands for the C library's [inet_pton] and
    [inet_ntop]. This file gives functions that meet its laws, so that the
    theorems that assume [Cidr.InetLaws] are known not to be vacuous: dotted
    decimal for V4, eight groups of four hexadecimal digits for V6. *)
From S2P Require Import Prelude Cidr.
Local Open Scope Z_scope.

(** ** V4: four decimal octets *)

Definition read_octet (s : text) : option Z :=
  if bool_decide (s ≠ [] ∧ (length s ≤ 3)%nat) && forallb is_digit s
     && (dec_value s <? 256)
  then Some (dec_value s) else None.

Definition ntop4 (bs : list Z) : text := join "." (dec_of <$> bs).

Definition pton4 (s : text) : option (list Z) :=
  let ws := split_on "." s in
  if bool_decide (length ws = 4%nat) then mapM read_octet ws else None.

(** ** V6: eight groups of two bytes *)

Definition hex_digit (n : Z) : ascii :=
  ascii_of_N (Z.to_N (if n <? 10 then 48 + n else 87 + n)).

Definition read_hex (c : ascii) : option Z :=
  if is_digit c then Some (code c - code "0")
  else if (code "a" <=? code c) && (code c <=? code "f")
  then Some (code c - code "a" + 10) else None.

Definition hex2 (b : Z) : text := [hex_digit (b / 16); hex_digit (b mod 16)].

Definition read_hex2 (a b : ascii) : option Z :=
  match read_hex a, read_hex b with
  | Some x, Some y => Some (16 * x + y)
  | _, _ => None
  end.

Fixpoint groups (bs : list Z) : list text :=
  match bs with
  | x :: y :: bs' => (hex2 x ++ hex2 y) :: groups bs'
  | _ => []
  end.

Definition read_group (s : text) : option (list Z) :=
  match s with
  | [a; b; c; d] =>
      match read_hex2 a b, read_hex2 c d with
      | Some x, Some y => Some [x; y]
      | _, _ => None
      end
  | _ => None
  end.

Definition ntop6 (bs : list Z) : text := join ":" (groups bs).

Definition pton6 (s : text) : option (list Z) :=
  let ws := split_on ":" s in
  if bool_decide (length ws = 8%nat) then @concat Z <$> mapM read_group ws else None.

#[export] Instance inet_model : Inet := {
  inet_pton f s := match f with V4 => pton4 s | V6 => pton6 s end;
  inet_ntop f bs := Some (match f with V4 => ntop4 bs | V6 => ntop6 bs end);
}.

(** ** The laws *)

Lemma read_octet_ok s b : read_octet s = Some b → byte_ok b.
Proof.
  unfold read_octet. intros Hs. destruct (_ && _ && _)%bool eqn:E; [|done].
  injection Hs as <-. apply andb_true_iff in E as [[_ Hd]%andb_true_iff Hlt].
  apply Z.ltb_lt in Hlt.
  split; [|done]. apply dec_value_from_ge; [lia|].
  apply Forall_forall. intros c Hc. rewrite forallb_forall in Hd.
  by apply Hd, list_elem_of_In.
Qed.

Lemma mapM_ok {A B} (f : A → option B) (P : B → Prop) l k :
  (∀ x y, f x = Some y → P y) → mapM f l = Some k → length k = length l ∧ Forall P k.
Proof.
  intros Hf Hm. apply mapM_Some in Hm. split; [by rewrite (Forall2_length _ _ _ Hm)|].
  induction Hm; constructor; eauto.
Qed.

Lemma read_hex_ok c n : read_hex c = Some n → 0 <= n < 16.
Proof.
  unfold read_hex. intros H. case_if_in H.
  - apply is_digit_bounds in Heqb. simplify_eq. lia.
  - case_if_in H. simplify_eq. change (code "a") with 97 in *.
    change (code "f") with 102 in *. lia.
Qed.

Lemma read_group_ok s bs : read_group s = Some bs → length bs = 2%nat ∧ bytes_ok bs.
Proof.
  unfold read_group, read_hex2. intros H. repeat case_match; simplify_eq.
  repeat match goal with H : read_hex _ = Some _ |- _ => apply read_hex_ok in H end.
  split; [done|]. unfold byte_ok. repeat constructor; lia.
Qed.

Lemma concat_groups gs :
  Forall (λ bs, length bs = 2%nat ∧ bytes_ok bs) gs →
  length (concat gs) = (2 * length gs)%nat ∧ bytes_ok (concat gs).
Proof.
  induction 1 as [|g gs [Hl Hb] _ [IHl IHb]]; simpl; [done|].
  rewrite length_app, Hl, IHl. split; [lia|]. by apply Forall_app.
Qed.

Lemma read_octet_dec b : byte_ok b → read_octet (dec_of b) = Some b.
Proof. revert b. by_bytes. Qed.

Lemma read_hex2_hex b :
  byte_ok b → read_hex2 (hex_digit (b / 16)) (hex_digit (b mod 16)) = Some b.
Proof. revert b. by_bytes. Qed.

(** The characters of each notation. *)
Definition v4_char (c : ascii) : Prop := is_digit c = true ∨ c = "."%char.
Definition v6_char (c : ascii) : Prop := is_Some (read_hex c) ∨ c = ":"%char.

Lemma hex2_chars b : byte_ok b → Forall (λ c, is_Some (read_hex c)) (hex2 b).
Proof.
  intros Hb. pose proof (read_hex2_hex b Hb) as H. unfold read_hex2 in H.
  unfold hex2. repeat constructor; repeat case_match; naive_solver.
Qed.

Lemma groups_chars bs :
  bytes_ok bs → Forall (Forall (λ c, is_Some (read_hex c))) (groups bs).
Proof.
  revert bs. fix IH 1. intros [|x [|y bs]] Hb; cbn [groups]; [constructor..|].
  apply Forall_cons in Hb as [Hx [Hy Hb]%Forall_cons]. constructor.
  - apply Forall_app. split; by apply hex2_chars.
  - by apply IH.
Qed.

Lemma groups_read bs n :
  length bs = (2 * n)%nat → bytes_ok bs →
  length (groups bs) = n ∧ @concat Z <$> mapM read_group (groups bs) = Some bs
  ∧ length (join ":" (groups bs)) = (5 * n - 1)%nat.
Proof.
  revert bs. induction n as [|n IH]; intros bs Hl Hb.
  { by destruct bs. }
  destruct bs as [|x [|y bs]]; simpl in Hl; try lia.
  apply Forall_cons in Hb as [Hx [Hy Hb]%Forall_cons].
  destruct (IH bs ltac:(lia) Hb) as (IHl & IHm & IHj). cbn -[mapM join].
  split_and!; [lia| |].
  - cbn. unfold mbind, option_bind. rewrite !read_hex2_hex by done.
    destruct (mapM read_group (groups bs)); simpl in IHm; [|done]. by simplify_eq/=.
  - destruct (groups bs); cbn in *; [destruct n; simpl in *; lia|].
    rewrite IHj. destruct n; simpl in *; lia.
Qed.

Lemma not_v4 c : is_digit c = false → c ≠ "."%char → ¬ v4_char c.
Proof. intros H1 H2 [?|?]; congruence. Qed.

Lemma not_v6 c : read_hex c = None → c ≠ ":"%char → ¬ v6_char c.
Proof. intros H1 H2 [[? ?]|?]; congruence. Qed.

Lemma ntop4_ok bs :
  length bs = 4%nat → bytes_ok bs →
  (length (ntop4 bs) < INET6_ADDRSTRLEN)%nat ∧ Forall v4_char (ntop4 bs)
  ∧ pton4 (ntop4 bs) = Some bs.
Proof.
  intros Hl Hb. unfold ntop4.
  assert (Hw : Forall (λ w, digits w ∧ (length w ≤ 3)%nat) (dec_of <$> bs)).
  { apply Forall_fmap. eapply Forall_impl; [exact Hb|]. intros b Hbb. simpl.
    destruct (dec_of_spec b) as (Hd & _); [unfold byte_ok in *; lia|]. split; [done|].
    by apply dec_of_byte_length. }
  split_and!.
  - destruct bs as [|a [|b [|c [|d [|]]]]]; simpl in Hl; try lia.
    repeat (apply Forall_cons in Hw as [[_ ?] Hw]). unfold INET6_ADDRSTRLEN. simpl.
    repeat (rewrite length_app; simpl). lia.
  - apply join_Forall; [by right|]. eapply Forall_impl; [exact Hw|].
    intros w [Hd _]. eapply Forall_impl; [exact Hd|]. intros c Hc. by left.
  - unfold pton4. rewrite split_join.
    + rewrite bool_decide_eq_true_2 by (by rewrite length_fmap).
      apply mapM_Some. apply Forall2_fmap_l. clear Hl Hw.
      induction Hb; constructor; [by apply read_octet_dec|done].
    + by destruct bs.
    + eapply Forall_impl; [exact Hw|]. intros w [Hd _]. by eapply Forall_not_elem; [|exact Hd].
Qed.

Lemma ntop6_ok bs :
  length bs = 16%nat → bytes_ok bs →
  (length (ntop6 bs) < INET6_ADDRSTRLEN)%nat ∧ Forall v6_char (ntop6 bs)
  ∧ pton6 (ntop6 bs) = Some bs.
Proof.
  intros Hl Hb. unfold ntop6. pose proof (groups_chars bs Hb) as Hc.
  destruct (groups_read bs 8 ltac:(lia) Hb) as (Hg & Hr & Hj). split_and!.
  - rewrite Hj. unfold INET6_ADDRSTRLEN. lia.
  - apply join_Forall; [by right|]. eapply Forall_impl; [exact Hc|].
    intros w Hw. eapply Forall_impl; [exact Hw|]. intros c ?. by left.
  - unfold pton6. rewrite split_join.
    + by rewrite bool_decide_eq_true_2 by done.
    + by destruct (groups bs).
    + eapply Forall_impl; [exact Hc|]. intros w Hw.
      eapply Forall_not_elem; [|exact Hw]. by intros [? ?].
Qed.

#[export] Instance inet_model_laws : InetLaws.
Proof.
  split.
  - intros [] s bs; simpl; intros Hs.
    + unfold pton4 in Hs. case_bool_decide as Heqb; [|done].
      apply (mapM_ok _ byte_ok) in Hs as [-> ?]; [done|apply read_octet_ok].
    + unfold pton6 in Hs. case_bool_decide as Heqb; [|done].
      destruct (mapM _ _) as [gs|] eqn:Hg; [|done]. simplify_eq/=.
      eapply (mapM_ok _ (λ bs, length bs = 2%nat ∧ bytes_ok bs)) in Hg as [Hgl Hg];
        [|apply read_group_ok].
      apply concat_groups in Hg as [-> ?]. split; [lia|done].
  - intros [] bs Hl Hb; simpl; eexists; (split; [done|]).
    + destruct (ntop4_ok bs Hl Hb) as (? & Hc & ?). split_and!; try done;
        eapply Forall_not_elem; [|exact Hc| |exact Hc]; by apply not_v4.
    + destruct (ntop6_ok bs Hl Hb) as (? & Hc & ?). split_and!; try done.
      1,2: eapply Forall_not_elem; [|exact Hc]; by apply not_v6.
      intros _. unfold pton4. rewrite split_on_none; [done|].
      eapply Forall_not_elem; [|exact Hc]. by apply not_v6.
Qed.

(** ** Witnesses of the theorems of [Cidr] *)

Definition block_10 : Cidr := mkCidr (mkIpAddr V4 (10 :: replicate 15 0)) 8.

Lemma Cidr_parse_spec_witness :
  (Cidr_parse (str "10.0.0.0/8") = Some block_10 → cidr_ok block_10)
  ∧ Cidr_parse (str "10.0.0.0/8") = Some block_10.
Proof. split; [apply (Cidr_parse_spec (str "10.0.0.0/8") block_10)|by vm_compute]. Defined.

Lemma Cidr_contains_spec_witness :
  Cidr_contains (mkCidr (mkIpAddr V4 (10 :: 64 :: replicate 14 0)) 11)
    (mkIpAddr V4 (10 :: 95 :: replicate 14 9)) = Done true.
Proof.
  rewrite (Cidr_contains_spec (mkCidr (mkIpAddr V4 (10 :: 64 :: replicate 14 0)) 11)
    (mkIpAddr V4 (10 :: 95 :: replicate 14 9))).
  - rewrite bool_decide_eq_true_2; [done|]. split; [done|]. eexists. vm_compute. reflexivity.
  - split; [split; [done|solve_bytes]|simpl; lia].
  - split; [done|solve_bytes].
Defined.

Lemma Cidr_parse_empty_length_witness :
  Cidr_parse (str "10.0.0.0/") = Some (mkCidr (addr block_10) 0).
Proof.
  apply (Cidr_parse_empty_length (str "10.0.0.0") (addr block_10)); [|by vm_compute].
  apply (bool_decide_eq_true_1 _). by vm_compute.
Defined.

Lemma Cidr_round_trip_witness :
  Cidr_parse (Cidr_to_string block_10) = Some block_10
  ∧ Cidr_to_string block_10 = str "10.0.0.0/8".
Proof.
  split; [|by vm_compute]. apply (Cidr_round_trip block_10).
  - split; [split; [done|solve_bytes]|simpl; lia].
  - split; [split; [done|solve_bytes]|by vm_compute].
Defined.
