(* ===== verification/Lpm.v ===== *)
(** * The longest-prefix-match trie

    [include/cfd/lpm_trie.hpp]: a binary trie per address family, keyed by the
    bits of an address. This file follows the code on trees as values; the
    pointers, the allocations and the destructor are in [LpmHeap]. *)
From S2P Require Import Prelude Cidr.
Local Open Scope Z_scope.

Section lpm.
(** The values, and [T{}]. *)
Context {T : Type} (T0 : T).

(** ** Data *)

(** A [Node*]: null, or a node with its two children. *)
Inductive trie : Type :=
| Null
| Node (left right : trie) (value : T) (has_value : bool).

Record LpmTrie := mkLpmTrie { root_v4_ : trie; root_v6_ : trie }.

(** [LpmTrie()] *)
Definition LpmTrie_new : LpmTrie := mkLpmTrie Null Null.

(** [(a.bytes[bit / 8] >> (7u - bit % 8u)) & 1u] *)
Definition bit_of (a : IpAddr) (bit : nat) : bool :=
  Z.land (Z.shiftr (nth (bit / 8) (bytes a) 0) (7 - Z.of_nat (bit mod 8))) 1 =? 1.

(** [Node{}] *)
Definition new_node : trie := Node Null Null T0 false.

(** ** [insert] *)

(** From [*cur] at bit [bit], with [n] more bits of the prefix to follow. *)
Fixpoint insert_loop (a : IpAddr) (value : T) (n bit : nat) (cur : trie) : trie :=
  match match cur with Null => new_node | _ => cur end with
  | Null => Null
  | Node l r v h =>
      match n with
      | O => Node l r value true
      | S n' =>
          if bit_of a bit then Node l (insert_loop a value n' (S bit) r) v h
          else Node (insert_loop a value n' (S bit) l) r v h
      end
  end.

Definition LpmTrie_insert (c : Cidr) (value : T) (t : LpmTrie) : LpmTrie :=
  let go := insert_loop (addr c) value (Z.to_nat (prefix_len c)) 0 in
  match family (addr c) with
  | V4 => mkLpmTrie (go (root_v4_ t)) (root_v6_ t)
  | V6 => mkLpmTrie (root_v4_ t) (go (root_v6_ t))
  end.

(** ** [lookup] *)

Fixpoint lookup_loop (a : IpAddr) (max_bits bit : nat) (cur : trie) (best : option T)
    : option T :=
  match cur with
  | Null => best
  | Node l r v h =>
      if negb (bit <=? max_bits)%nat then best
      else
        let best := if h then Some v else best in
        if (bit =? max_bits)%nat then best
        else lookup_loop a max_bits (S bit) (if bit_of a bit then r else l) best
  end.

Definition root_of (t : LpmTrie) (f : Family) : trie :=
  match f with V4 => root_v4_ t | V6 => root_v6_ t end.

Definition LpmTrie_lookup (t : LpmTrie) (a : IpAddr) : option T :=
  lookup_loop a (Z.to_nat (max_bits (family a))) 0 (root_of t (family a)) None.

(** A routing table: its routes in the order they were inserted. *)
Definition LpmTrie_of (rs : list (Cidr * T)) : LpmTrie :=
  foldl (λ t r, LpmTrie_insert r.1 r.2 t) LpmTrie_new rs.

(** ** Specification: a scan of the routes in insertion order *)

(** Keep the route with the longest prefix, the later one of two equal ones. *)
Definition better (a : IpAddr) (best : option (Cidr * T)) (r : Cidr * T)
    : option (Cidr * T) :=
  if decide (in_cidr r.1 a) then
    match best with
    | None => Some r
    | Some b => if prefix_len b.1 <=? prefix_len r.1 then Some r else best
    end
  else best.

Definition best_route (rs : list (Cidr * T)) (a : IpAddr) : option (Cidr * T) :=
  foldl (better a) None rs.

(** ** The walk along a path of bits *)

(** Insertion and lookup along an explicit path. *)
Fixpoint ins (p : list bool) (value : T) (t : trie) : trie :=
  match match t with Null => new_node | _ => t end, p with
  | Null, _ => Null
  | Node l r v h, [] => Node l r value true
  | Node l r v h, b :: p' =>
      if (b : bool) then Node l (ins p' value r) v h else Node (ins p' value l) r v h
  end.

(** The deepest value on the path, with its depth counted from [k]. *)
Fixpoint deepest (t : trie) (p : list bool) (k : nat) : option (nat * T) :=
  match t with
  | Null => None
  | Node l r v h =>
      let here := if h then Some (k, v) else None in
      match p with
      | [] => here
      | b :: p' =>
          match deepest (if (b : bool) then r else l) p' (S k) with
          | Some x => Some x
          | None => here
          end
      end
  end.

Lemma insert_loop_ins a value n bit t :
  insert_loop a value n bit t = ins (bit_of a <$> seq bit n) value t.
Proof.
  revert bit t. induction n as [|n IH]; intros bit [|l r v h]; simpl; try done.
  all: rewrite !IH; done.
Qed.

Lemma lookup_loop_deepest a mb n bit t best :
  (bit + n = mb)%nat →
  lookup_loop a mb bit t best
  = match deepest t (bit_of a <$> seq bit n) bit with
    | Some x => Some x.2
    | None => best
    end.
Proof.
  revert bit t best. induction n as [|n IH]; intros bit [|l r v h] best Hn; simpl; try done.
  - rewrite (proj2 (Nat.leb_le _ _)), (proj2 (Nat.eqb_eq _ _)) by lia. by destruct h.
  - rewrite (proj2 (Nat.leb_le _ _)), (proj2 (Nat.eqb_neq _ _)) by lia. simpl.
    rewrite IH by lia. by destruct (deepest _ _ _), h.
Qed.

Lemma deepest_ge t p k j v : deepest t p k = Some (j, v) → (k ≤ j)%nat.
Proof.
  revert p k. induction t as [|l IHl r IHr w h]; intros p k; simpl; [done|].
  destruct p as [|b p]; [by destruct h; intros; simplify_eq|].
  destruct (deepest _ p (S k)) as [[j' v']|] eqn:Hd.
  - intros; simplify_eq. destruct b; [apply IHr in Hd|apply IHl in Hd]; lia.
  - by destruct h; intros; simplify_eq.
Qed.

(** What an insertion changes for a walk along [p]. *)
Lemma deepest_ins q value t p k :
  deepest (ins q value t) p k
  = if decide (q `prefix_of` p) then
      match deepest t p k with
      | Some (j, w) => if (j <=? k + length q)%nat then Some (k + length q, value)%nat
                       else Some (j, w)
      | None => Some (k + length q, value)%nat
      end
    else deepest t p k.
Proof.
  revert t p k. induction q as [|b q IH]; intros t p k.
  - rewrite decide_True by apply prefix_nil. rewrite Nat.add_0_r.
    destruct t as [|l r v h]; simpl; [by destruct p as [|[] ?]|].
    destruct p as [|b p]; [by destruct h; rewrite ?Nat.leb_refl|].
    destruct (deepest _ p (S k)) as [[j w]|] eqn:Hd.
    + apply deepest_ge in Hd. by rewrite (proj2 (Nat.leb_gt _ _)) by lia.
    + by destruct h; rewrite ?Nat.leb_refl.
  - destruct p as [|b' p].
    { rewrite decide_False by apply prefix_nil_not. by destruct t as [|????], b. }
    destruct (decide (b = b')) as [<-|Hb].
    2: { rewrite decide_False by (by intros ?%prefix_cons_inv_1).
         by destruct t as [|????], b, b'. }
    simpl length. rewrite <- Nat.add_succ_comm.
    rewrite (decide_ext (b :: q `prefix_of` b :: p) (q `prefix_of` p))
      by (split; [apply prefix_cons_inv_2|apply prefix_cons]).
    destruct t as [|l r v h]; destruct b; simpl; rewrite IH; simpl;
      (destruct (decide (q `prefix_of` p)); [|done]); try done.
    all: destruct (deepest _ p (S k)) as [[j w]|]; [simpl; try (by destruct (j <=? _)%nat)|].
    all: by destruct h; rewrite ?(proj2 (Nat.leb_le _ _)) by lia.
Qed.

(** ** From bits to routes *)

Lemma testbit_bit b k :
  (k < 8)%nat → (Z.land (Z.shiftr b (7 - Z.of_nat k)) 1 =? 1) = Z.testbit b (7 - Z.of_nat k).
Proof.
  intros Hk. change 1 with (Z.ones 1) at 1. rewrite Z.land_ones, Z.shiftr_div_pow2 by lia.
  rewrite Z.pow_1_r, Z.testbit_odd, Z.shiftr_div_pow2 by lia.
  rewrite Zmod_odd. by destruct (Z.odd _).
Qed.

Lemma bytes_bits_lookup (xs : list Z) i :
  (i < 8 * length xs)%nat →
  (xs ≫= bits_of_byte) !! i
  = Some (Z.testbit (nth (i / 8) xs 0) (7 - Z.of_nat (i mod 8))).
Proof.
  revert i. induction xs as [|x xs IH]; intros i Hi; simpl in Hi; [lia|].
  rewrite bind_cons. destruct (Nat.lt_ge_cases i 8) as [Hlt|Hge].
  - rewrite lookup_app_l by done. rewrite Nat.div_small, Nat.mod_small by done.
    by apply bits_of_byte_lookup.
  - rewrite lookup_app_r by done. rewrite bits_of_byte_length, IH by lia.
    replace i with ((i - 8) + 1 * 8)%nat at 3 4 by lia.
    rewrite Nat.div_add, Nat.Div0.mod_add by lia. by rewrite Nat.add_comm.
Qed.

Lemma addr_bits_lookup a i :
  ip_ok a → (i < 128)%nat → addr_bits a !! i = Some (bit_of a i).
Proof.
  intros [Hl _] Hi. unfold addr_bits, bit_of. rewrite bytes_bits_lookup by lia.
  by rewrite testbit_bit by (apply Nat.mod_upper_bound; lia).
Qed.

Lemma take_addr_bits a n :
  ip_ok a → (n ≤ 128)%nat → take n (addr_bits a) = bit_of a <$> seq 0 n.
Proof.
  intros Ha Hn. apply list_eq. intros i.
  destruct (Nat.lt_ge_cases i n) as [Hi|Hi].
  - rewrite lookup_take_lt by done. rewrite addr_bits_lookup by (done || lia).
    rewrite list_lookup_fmap, lookup_seq_lt by done. done.
  - rewrite lookup_take_ge by done. rewrite list_lookup_fmap, lookup_seq_ge by done. done.
Qed.

Lemma max_bits_le f : 0 <= max_bits f <= 128.
Proof. destruct f; simpl; lia. Qed.

(** The bits that [lookup] walks. *)
Definition key (a : IpAddr) : list bool :=
  take (Z.to_nat (max_bits (family a))) (addr_bits a).

Lemma cidr_prefix_length c :
  cidr_ok c → length (cidr_prefix c) = Z.to_nat (prefix_len c).
Proof.
  intros [Ha Hp]. unfold cidr_prefix. rewrite length_take, addr_bits_length by done.
  pose proof (max_bits_le (family (addr c))). lia.
Qed.

Lemma in_cidr_key c a :
  cidr_ok c → ip_ok a →
  in_cidr c a ↔ family a = family (addr c) ∧ cidr_prefix c `prefix_of` key a.
Proof.
  intros Hc Ha. unfold in_cidr, key.
  pose proof (cidr_prefix_length c Hc) as Hl. destruct Hc as [_ Hp].
  split; intros [Hf Hpre]; (split; [done|]); rewrite <- Hf in Hp.
  - destruct Hpre as [z ->]. rewrite take_app, take_ge by lia.
    apply prefix_app_r. reflexivity.
  - etrans; [exact Hpre|apply prefix_take].
Qed.

(** The depth and the value [lookup] ends with. *)
Definition found (t : LpmTrie) (a : IpAddr) : option (nat * T) :=
  deepest (root_of t (family a)) (key a) 0.

Lemma lookup_found t a : ip_ok a → LpmTrie_lookup t a = snd <$> found t a.
Proof.
  intros Ha. unfold LpmTrie_lookup, found, key.
  pose proof (max_bits_le (family a)).
  rewrite (lookup_loop_deepest _ _ (Z.to_nat (max_bits (family a)))) by lia.
  rewrite take_addr_bits by (done || lia). by destruct (deepest _ _ _).
Qed.

Lemma found_insert c v t a :
  cidr_ok c → ip_ok a →
  found (LpmTrie_insert c v t) a
  = if decide (in_cidr c a) then
      match found t a with
      | Some (j, w) => if (j <=? Z.to_nat (prefix_len c))%nat
                       then Some (Z.to_nat (prefix_len c), v) else Some (j, w)
      | None => Some (Z.to_nat (prefix_len c), v)
      end
    else found t a.
Proof.
  intros Hc Ha. pose proof (cidr_prefix_length c Hc) as Hl.
  rewrite (decide_ext (in_cidr c a)
    (family a = family (addr c) ∧ cidr_prefix c `prefix_of` key a)) by by apply in_cidr_key.
  unfold found, LpmTrie_insert.
  rewrite !insert_loop_ins. destruct Hc as [Hca Hp].
  pose proof (max_bits_le (family (addr c))).
  rewrite <- take_addr_bits by (done || lia). fold (cidr_prefix c).
  destruct (decide (family a = family (addr c))) as [Hf|Hf].
  - rewrite (decide_ext (_ ∧ _) (cidr_prefix c `prefix_of` key a)) by tauto.
    rewrite <- Hf. rewrite <- Hl.
    destruct (family a); cbn [root_of root_v4_ root_v6_]; by rewrite deepest_ins.
  - rewrite decide_False by tauto.
    destruct (family a), (family (addr c)); done.
Qed.

Lemma best_route_ok rs a b :
  Forall (λ r, cidr_ok r.1) rs → best_route rs a = Some b → cidr_ok b.1.
Proof.
  intros Hrs. induction rs as [|r rs IH] using rev_ind; [done|].
  apply Forall_app in Hrs as [Hrs [Hr _]%Forall_cons].
  unfold best_route in *. rewrite foldl_app. simpl.
  set (best := foldl (better a) None rs) in *. unfold better.
  repeat case_match; naive_solver.
Qed.

(** What the trie should find, for a table of routes. *)
Definition answers (rs : list (Cidr * T)) (t : LpmTrie) (a : IpAddr) : Prop :=
  found t a = (λ r, (Z.to_nat (prefix_len r.1), r.2)) <$> best_route rs a.

Lemma answers_snoc rs c v t a :
  Forall (λ r, cidr_ok r.1) rs → cidr_ok c → ip_ok a →
  answers rs t a → answers (rs ++ [(c, v)]) (LpmTrie_insert c v t) a.
Proof.
  intros Hrs Hc Ha Ht. unfold answers, best_route in *. rewrite foldl_app. simpl.
  rewrite found_insert, Ht by done. clear Ht.
  pose proof (λ b, best_route_ok rs a b Hrs) as Hb. unfold best_route in Hb.
  set (best := foldl (better a) None rs) in *. unfold better. simpl.
  destruct (decide (in_cidr c a)); [|done].
  destruct best as [[b w]|]; simpl; [|done].
  specialize (Hb _ eq_refl) as [_ Hb]. destruct Hc as [_ Hc]. simpl in Hb.
  destruct (prefix_len b <=? prefix_len c) eqn:Hle; bool_facts.
  - by rewrite (proj2 (Nat.leb_le _ _)) by lia.
  - by rewrite (proj2 (Nat.leb_gt _ _)) by lia.
Qed.

Lemma answers_lookup rs t a :
  ip_ok a → answers rs t a → LpmTrie_lookup t a = snd <$> best_route rs a.
Proof.
  intros Ha Ht. rewrite lookup_found, Ht by done. by destruct (best_route rs a).
Qed.

Lemma found_best rs a :
  Forall (λ r, cidr_ok r.1) rs → ip_ok a → answers rs (LpmTrie_of rs) a.
Proof.
  intros Hrs Ha. induction rs as [|[c v] rs IH] using rev_ind.
  { unfold answers, found. by destruct (family a). }
  apply Forall_app in Hrs as [Hrs [Hc _]%Forall_cons].
  unfold LpmTrie_of. rewrite foldl_app. apply answers_snoc; auto.
Qed.

(** [r], the [i]-th route, is the one routing by longest prefix chooses. *)
Definition chosen (rs : list (Cidr * T)) (a : IpAddr) (i : nat) (r : Cidr * T) : Prop :=
  rs !! i = Some r ∧ in_cidr r.1 a ∧
  ∀ j r', rs !! j = Some r' → in_cidr r'.1 a →
    prefix_len r'.1 < prefix_len r.1 ∨ (prefix_len r'.1 = prefix_len r.1 ∧ (j ≤ i)%nat).

Lemma chosen_unique rs a i j r r' : chosen rs a i r → chosen rs a j r' → i = j ∧ r = r'.
Proof.
  intros (Hi & Ha & Hmax) (Hj & Ha' & Hmax').
  pose proof (Hmax _ _ Hj Ha'). pose proof (Hmax' _ _ Hi Ha).
  assert (i = j) as -> by lia. split; [done|]. congruence.
Qed.

Lemma chosen_snoc_old rs a i r x :
  chosen rs a i r → (in_cidr x.1 a → prefix_len x.1 < prefix_len r.1) →
  chosen (rs ++ [x]) a i r.
Proof.
  intros (Hi & Ha & Hmax) Hx. split_and!; [by apply lookup_app_l_Some|done|].
  intros j r' Hj Hr. apply lookup_app_Some in Hj as [Hj|[? Hj]]; [by apply Hmax|].
  apply list_lookup_singleton_Some in Hj as [_ <-]. left. auto.
Qed.

Lemma chosen_snoc_new rs a x :
  in_cidr x.1 a →
  (∀ j r, rs !! j = Some r → in_cidr r.1 a → prefix_len r.1 <= prefix_len x.1) →
  chosen (rs ++ [x]) a (length rs) x.
Proof.
  intros Ha Hmax. split_and!; [by rewrite lookup_app_r, Nat.sub_diag by lia|done|].
  intros j r' Hj Hr. apply lookup_app_Some in Hj as [Hj|[? Hj]].
  - pose proof (lookup_lt_Some _ _ _ Hj). pose proof (Hmax _ _ Hj Hr). lia.
  - apply list_lookup_singleton_Some in Hj as [? <-]. right. split; [done|lia].
Qed.

Lemma best_route_chosen rs a :
  match best_route rs a with
  | Some r => ∃ i, chosen rs a i r
  | None => ∀ j r, rs !! j = Some r → ¬ in_cidr r.1 a
  end.
Proof.
  induction rs as [|x rs IH] using rev_ind; [done|].
  unfold best_route in *. rewrite foldl_app. simpl.
  set (best := foldl (better a) None rs) in *. unfold better.
  destruct (decide (in_cidr x.1 a)) as [Hx|Hx], best as [b|].
  - destruct IH as [i Hb]. destruct (_ <=? _) eqn:Hle; bool_facts.
    + exists (length rs). apply chosen_snoc_new; [done|]. intros j r Hj Hr.
      destruct Hb as (_ & _ & Hmax). pose proof (Hmax _ _ Hj Hr). lia.
    + exists i. by apply chosen_snoc_old.
  - exists (length rs). apply chosen_snoc_new; [done|]. intros j r Hj Hr.
    by destruct (IH _ _ Hj).
  - destruct IH as [i Hb]. exists i. by apply chosen_snoc_old.
  - intros j r Hj. apply lookup_app_Some in Hj as [Hj|[? Hj]]; [by eapply IH|].
    by apply list_lookup_singleton_Some in Hj as [_ <-].
Qed.

(** ** The theorems *)

Section table.
Context (rs : list (Cidr * T)) (Hrs : Forall (λ r, cidr_ok r.1) rs).
Context (a : IpAddr) (Ha : ip_ok a).

(** The trie built by any sequence of insertions answers as the linear scan
    of the inserted routes does: the bit-by-bit walk refines a search for the
    longest matching prefix. *)
Theorem lookup_refines_scan :
  LpmTrie_lookup (LpmTrie_of rs) a = snd <$> best_route rs a.
Proof.
  by apply answers_lookup, found_best.
Qed.

(** C9: [lookup] returns a value exactly when some inserted block contains the
    address, and then the value of the block with the longest prefix, the last
    inserted one among equals (re-inserting a block replaces its value). *)
Theorem lookup_longest_prefix :
  (∀ v, LpmTrie_lookup (LpmTrie_of rs) a = Some v
        ↔ ∃ i c, chosen rs a i (c, v))
  ∧ (LpmTrie_lookup (LpmTrie_of rs) a = None
     ↔ ∀ j r, rs !! j = Some r → ¬ in_cidr r.1 a).
Proof.
  rewrite (answers_lookup rs) by (done || by apply found_best). pose proof (best_route_chosen rs a) as Hb.
  destruct (best_route rs a) as [[c w]|]; simpl; split.
  - destruct Hb as [i Hb]. intros v. split; [intros [= <-]; eauto|].
    intros (j & c' & Hc). by destruct (chosen_unique _ _ _ _ _ _ Hb Hc) as [_ [= _ ->]].
  - split; [done|]. destruct Hb as (i & Hi & Hc & _). intros Hno. by destruct (Hno _ _ Hi).
  - intros v. split; [done|]. intros (j & c' & Hi & Hc & _). by destruct (Hb _ _ Hi).
  - done.
Qed.
End table.
End lpm.

Arguments trie : clear implicits.
Arguments LpmTrie : clear implicits.
Arguments Null {T}.
Arguments Node {T} left right value has_value.
Arguments mkLpmTrie {T} root_v4_ root_v6_.

(** ** The table of [tests/test_lpm.cpp] *)

Definition v4 (a b c d : Z) : IpAddr := mkIpAddr V4 ([a; b; c; d] ++ replicate 12 0).

Definition test_routes : list (Cidr * Z) :=
  [(mkCidr (v4 10 0 0 0) 8, 1); (mkCidr (v4 10 99 0 0) 16, 2);
   (mkCidr (v4 10 99 5 0) 24, 3)].

Lemma test_routes_ok : Forall (λ r, cidr_ok r.1) test_routes.
Proof.
  repeat constructor; simpl; try lia; unfold byte_ok; lia.
Qed.

Lemma v4_ok a b c d :
  byte_ok a → byte_ok b → byte_ok c → byte_ok d → ip_ok (v4 a b c d).
Proof.
  intros. split; [done|]. apply Forall_app. split; solve_bytes.
Qed.

Example test_lookup :
  (LpmTrie_lookup (LpmTrie_of 0 test_routes) (v4 10 99 5 7),
   LpmTrie_lookup (LpmTrie_of 0 test_routes) (v4 10 99 6 7),
   LpmTrie_lookup (LpmTrie_of 0 test_routes) (v4 10 50 0 1),
   LpmTrie_lookup (LpmTrie_of 0 test_routes) (v4 11 0 0 1))
  = (Some 3, Some 2, Some 1, None).
Proof. vm_compute. reflexivity. Qed.

Lemma lookup_refines_scan_witness :
  LpmTrie_lookup (LpmTrie_of 0 test_routes) (v4 10 99 6 7)
  = snd <$> best_route test_routes (v4 10 99 6 7).
Proof.
  apply (lookup_refines_scan 0 test_routes test_routes_ok).
  apply v4_ok; unfold byte_ok; lia.
Defined.

Lemma lookup_longest_prefix_witness :
  (∀ v, LpmTrie_lookup (LpmTrie_of 0 test_routes) (v4 10 99 6 7) = Some v
        ↔ ∃ i c, chosen test_routes (v4 10 99 6 7) i (c, v))
  ∧ (LpmTrie_lookup (LpmTrie_of 0 test_routes) (v4 10 99 6 7) = None
     ↔ ∀ j r, test_routes !! j = Some r → ¬ in_cidr r.1 (v4 10 99 6 7)).
Proof.
  apply (lookup_longest_prefix 0 test_routes test_routes_ok).
  apply v4_ok; unfold byte_ok; lia.
Defined.
