(* ===== verification/Buffer.v ===== *)
(** * The packet buffer

    [include/cfd/buffer.hpp]: a heap block of fixed capacity with a length.
    [size_t] has [w] bits (32 on the router targets, 64 on the host), so the
    bound test of [append] is on a sum that wraps. *)
From S2P Require Import Prelude.
Local Open Scope Z_scope.
Local Open Scope cfd_scope.

Section buffer.
(** The width of [std::size_t]. *)
Context (w : Z).

Definition size_t (z : Z) : Z := z mod 2 ^ w.

(** [data_] points to a block of [cap_] bytes. *)
Record Buffer := mkBuffer { data_ : list Z; cap_ : Z; len_ : Z }.

(** [Buffer(cap)]: [make_unique<uint8_t[]>] zero-initialises the block. *)
Definition Buffer_new (cap : Z) : Buffer :=
  mkBuffer (replicate (Z.to_nat cap) 0) cap 0.

(** Every operation answers [None] for a call of [overflow_], which throws
    [std::length_error], or terminates where exceptions are off. *)
Definition resize (n : Z) (b : Buffer) : option Buffer :=
  if cap_ b <? n then None else Some (mkBuffer (data_ b) (cap_ b) n).

Definition clear (b : Buffer) : Buffer := mkBuffer (data_ b) (cap_ b) 0.

(** [append(p, n)], [n] being the number of bytes of [p]. *)
Definition append (p : list Z) (b : Buffer) : run (option Buffer) :=
  let n := Z.of_nat (length p) in
  if cap_ b <? size_t (len_ b + n) then Done None
  else
    let! d := run_opt (memcpy_at (Z.to_nat (len_ b)) p (data_ b)) in
    Done (Some (mkBuffer d (cap_ b) (size_t (len_ b + n)))).

(** The bytes in use, what the class is for. *)
Definition contents (b : Buffer) : list Z := take (Z.to_nat (len_ b)) (data_ b).

(** The type: the length is within the capacity, which is that of the block. *)
Definition buffer_ok (b : Buffer) : Prop :=
  0 <= len_ b <= cap_ b ∧ cap_ b = Z.of_nat (length (data_ b)) ∧ cap_ b < 2 ^ w.

Lemma Buffer_new_ok cap :
  0 <= cap < 2 ^ w → buffer_ok (Buffer_new cap) ∧ contents (Buffer_new cap) = [].
Proof.
  intros Hc. unfold buffer_ok. simpl. rewrite length_replicate.
  split; [|done]. rewrite Z2Nat.id by lia. lia.
Qed.

Lemma clear_ok b : buffer_ok b → buffer_ok (clear b) ∧ contents (clear b) = [].
Proof. unfold buffer_ok. simpl. intros. split; [|done]. lia. Qed.

(** [Buffer::append] writes inside its block, appends the bytes and keeps
    the buffer well formed when they fit, and reports the overflow otherwise,
    leaving nothing written: provided the buffer and the appended bytes fit in
    one address space, so that the bound test does not wrap. *)
Theorem append_spec p b :
  buffer_ok b → cap_ b + Z.of_nat (length p) < 2 ^ w →
  (len_ b + Z.of_nat (length p) <= cap_ b ∧
   ∃ b', append p b = Done (Some b') ∧ buffer_ok b'
         ∧ contents b' = contents b ++ p ∧ cap_ b' = cap_ b)
  ∨ (cap_ b < len_ b + Z.of_nat (length p) ∧ append p b = Done None).
Proof.
  intros (Hl & Hc & Hw) Hfit. unfold append, size_t.
  rewrite Z.mod_small by lia.
  destruct (cap_ b <? _) eqn:Hlt; bool_facts; [by right|left].
  split; [done|].
  rewrite memcpy_at_Some by lia. simpl. eexists. split; [done|].
  unfold buffer_ok, contents. simpl. split_and!; try lia.
  - rewrite !length_app, length_take, length_drop. lia.
  - rewrite app_assoc. rewrite take_app_length'; [done|].
    rewrite length_app, length_take. lia.
Qed.

(** Without that proviso the sum wraps, the test passes, and the copy leaves
    the block. *)
Lemma append_wrap p b :
  buffer_ok b → 0 <= w → 2 ^ w <= len_ b + Z.of_nat (length p) < 2 ^ w + cap_ b →
  append p b = UB.
Proof.
  intros (Hl & Hc & Hw) Hw0 Hwrap. unfold append, size_t.
  replace ((len_ b + _) mod 2 ^ w) with (len_ b + Z.of_nat (length p) - 2 ^ w).
  2: { apply Z.mod_unique with 1; lia. }
  rewrite (proj2 (Z.ltb_ge _ _)) by lia.
  unfold memcpy_at. rewrite (proj2 (Nat.leb_gt _ _)); [done|lia].
Qed.

(** [resize] keeps the bound, or reports the overflow. *)
Lemma resize_spec n b :
  buffer_ok b → 0 <= n →
  (n <= cap_ b ∧ ∃ b', resize n b = Some b' ∧ buffer_ok b' ∧ len_ b' = n)
  ∨ (cap_ b < n ∧ resize n b = None).
Proof.
  intros (Hl & Hc & Hw) Hn. unfold resize.
  destruct (cap_ b <? n) eqn:Hlt; bool_facts; [by right|left].
  split; [done|]. eexists. split; [done|]. unfold buffer_ok. simpl. lia.
Qed.

End buffer.

(** Two appends to an 8-byte buffer: the second does not fit. *)
Lemma append_spec_witness :
  buffer_ok 32 (Buffer_new 8) ∧
  ((0 + 5 <= 8 ∧
    ∃ b', append 32 [1; 2; 3; 4; 5] (Buffer_new 8) = Done (Some b') ∧ buffer_ok 32 b'
          ∧ contents b' = [] ++ [1; 2; 3; 4; 5] ∧ cap_ b' = 8)
   ∨ (8 < 0 + 5 ∧ append 32 [1; 2; 3; 4; 5] (Buffer_new 8) = Done None)).
Proof.
  split; [unfold buffer_ok; simpl; lia|].
  apply (append_spec 32 [1; 2; 3; 4; 5] (Buffer_new 8)); [unfold buffer_ok; simpl; lia|simpl; lia].
Defined.
