(* ===== verification/Frame.v ===== *)
(** * Datagram framing

    [include/cfd/frame.hpp] and [src/tunnel/frame.cpp]: the four-byte header
    (version, type, big-endian flow id) in front of each IP packet carried by a
    QUIC datagram. *)
From S2P Require Import Prelude.
Local Open Scope Z_scope.

(** [enum class FrameType : std::uint8_t]: every byte is a value of the type,
    and [decode] casts the byte it reads. *)
Record FrameType := mkFrameType { frame_type_byte : Z }.

Definition IpPacket : FrameType := mkFrameType 1.
Definition Icmp : FrameType := mkFrameType 2.

#[export] Instance FrameType_eq_dec : EqDecision FrameType.
Proof. solve_decision. Defined.

Record Frame := mkFrame { type : FrameType; flow_id : Z; payload : list Z }.

Definition kFrameVersion : Z := 3.
Definition kFrameHeader : nat := 4.

(** [DecodeResult]: the payload is a view of the input. *)
Record DecodeResult := mkDecodeResult {
  dr_type : FrameType; dr_flow_id : Z; dr_payload : list Z }.

(** [encode]: [out] is overwritten; the result is its size. *)
Definition encode (f : Frame) (out : list Z) : nat * list Z :=
  let out := [] in
  let out := out ++ [kFrameVersion] in
  let out := out ++ [u8 (frame_type_byte (type f))] in
  let out := out ++ [u8 (Z.shiftr (flow_id f) 8)] in
  let out := out ++ [u8 (Z.land (flow_id f) 255)] in
  let out := out ++ payload f in
  (length out, out).

(** [decode]: [out] is written only when the datagram is well formed. *)
Definition decode (i : list Z) (out : DecodeResult) : bool * DecodeResult :=
  if (length i <? kFrameHeader)%nat then (false, out)
  else
    match i with
    | b0 :: b1 :: b2 :: b3 :: rest =>
        if negb (b0 =? kFrameVersion) then (false, out)
        else
          (true, mkDecodeResult (mkFrameType b1)
                   (u16 (Z.lor (Z.shiftl (u16 b2) 8) b3)) rest)
    | _ => (false, out)
    end.

(** The types of the fields. *)
Definition frame_ok (f : Frame) : Prop :=
  byte_ok (frame_type_byte (type f)) ∧ 0 <= flow_id f < 2 ^ 16 ∧ bytes_ok (payload f).

Lemma encode_length f out : (encode f out).1 = (kFrameHeader + length (payload f))%nat.
Proof. unfold encode. simpl. done. Qed.

Lemma flow_id_bytes n :
  0 <= n < 2 ^ 16 →
  u16 (Z.lor (Z.shiftl (u16 (u8 (Z.shiftr n 8))) 8) (u8 (Z.land n 255))) = n.
Proof.
  intros Hn. rewrite Z.shiftr_div_pow2 by lia.
  change 255 with (Z.ones 8). rewrite Z.land_ones by lia.
  unfold u8. rewrite Z.mod_mod by lia.
  rewrite (Z.mod_small (n / 2 ^ 8)) by (Z.to_euclidean_division_equations; lia).
  rewrite lor_shiftl_add by (try lia; apply Z.mod_pos_bound; lia).
  unfold u16. rewrite (Z.mod_small (n / 2 ^ 8)) by (Z.to_euclidean_division_equations; lia).
  rewrite Z.mul_comm, <- Z.div_mod by lia. apply Z.mod_small. lia.
Qed.

(** The receiver's [decode] gives back the type, the flow id and the
    payload of any frame that [encode] wrote, whatever the output held. *)
Theorem decode_encode f out0 out :
  frame_ok f →
  decode (encode f out0).2 out
  = (true, mkDecodeResult (type f) (flow_id f) (payload f)).
Proof.
  intros (Ht & Hf & _). unfold encode, decode. simpl.
  rewrite flow_id_bytes by done. rewrite u8_id by done.
  by destruct f as [[b] fl p].
Qed.

Lemma u16_be_split b2 b3 :
  byte_ok b2 → byte_ok b3 →
  let n := u16 (Z.lor (Z.shiftl (u16 b2) 8) b3) in
  0 <= n < 2 ^ 16 ∧ u8 (Z.shiftr n 8) = b2 ∧ u8 (Z.land n 255) = b3.
Proof.
  intros H2 H3 n. unfold byte_ok in *.
  assert (n = b2 * 2 ^ 8 + b3) as ->.
  { unfold n, u16. rewrite (Z.mod_small b2), lor_shiftl_add by lia.
    apply Z.mod_small. lia. }
  rewrite Z.shiftr_div_pow2 by lia.
  change 255 with (Z.ones 8). rewrite Z.land_ones by lia. unfold u8.
  split_and!; Z.to_euclidean_division_equations; lia.
Qed.

(** C31: [decode] accepts exactly the datagrams that [encode] can produce, and
    returns the frame they encode; on every other datagram it fails and leaves
    its output alone. *)
Theorem decode_complete i out :
  bytes_ok i →
  (∃ f, frame_ok f ∧ i = (encode f []).2
        ∧ decode i out = (true, mkDecodeResult (type f) (flow_id f) (payload f)))
  ∨ ((¬ ∃ f, frame_ok f ∧ i = (encode f []).2) ∧ decode i out = (false, out)).
Proof.
  intros Hb.
  assert (Hex : ∀ j, (∃ f, frame_ok f ∧ j = (encode f []).2) →
                ∃ b1 b2 b3 p, j = 3 :: b1 :: b2 :: b3 :: p).
  { intros j (f & Hf & ->). unfold encode. simpl. eauto. }
  destruct i as [|b0 [|b1 [|b2 [|b3 p]]]];
    try (right; split; [|done]; intros (? & ? & ? & ? & ?)%Hex; done).
  unfold decode. simpl. destruct (b0 =? kFrameVersion) eqn:H0; simpl.
  - left. apply Z.eqb_eq in H0 as ->.
    apply Forall_cons in Hb as [_ [H1 [H2 [H3 Hp]%Forall_cons]%Forall_cons]%Forall_cons].
    destruct (u16_be_split b2 b3 H2 H3) as (Hn & Hb2 & Hb3).
    set (n := u16 _) in *. exists (mkFrame (mkFrameType b1) n p).
    split; [by unfold frame_ok|]. split; [|done].
    unfold encode. simpl. by rewrite Hb2, Hb3, u8_id.
  - right. split; [|done]. intros (? & ? & ? & ? & [= -> _ _ _ _])%Hex. done.
Qed.

Definition sample_frame : Frame := mkFrame IpPacket 0xBEEF [0x45; 0; 0; 20].

Lemma decode_encode_witness :
  decode (encode sample_frame []).2 (mkDecodeResult Icmp 0 [])
  = (true, mkDecodeResult IpPacket 0xBEEF [0x45; 0; 0; 20]).
Proof.
  apply (decode_encode sample_frame [] (mkDecodeResult Icmp 0 [])).
  unfold frame_ok, byte_ok. simpl. split_and!; try lia. repeat constructor; done.
Defined.

Lemma decode_complete_witness :
  let i := [255; 1; 0; 0] in let out := mkDecodeResult Icmp 0 [] in
  (∃ f, frame_ok f ∧ i = (encode f []).2
        ∧ decode i out = (true, mkDecodeResult (type f) (flow_id f) (payload f)))
  ∨ ((¬ ∃ f, frame_ok f ∧ i = (encode f []).2) ∧ decode i out = (false, out)).
Proof.
  intros i out. apply (decode_complete i out). unfold i, byte_ok. repeat constructor; lia.
Defined.
