(* ===== verification/Registration.v ===== *)
(** * UUID and base64 decoding

    [src/tunnel/registration.cpp]: the two hand-written parsers of the tunnel
    credentials, with the array writes and the reads past the end they could
    make, and the records of [include/cfd/registration.hpp]. *)
From S2P Require Import Prelude.
Local Open Scope Z_scope.
Local Open Scope cfd_scope.

(** ** The records *)

Record TunnelAuth := mkTunnelAuth { account_tag : text; tunnel_secret : list Z }.

Record RegisterRequest := mkRegisterRequest {
  auth : TunnelAuth;
  tunnel_uuid : list Z;
  conn_index : Z;
  version : text;
  arch : text;
  features : list text;
}.

(** [RegisterRequest{}] *)
Definition RegisterRequest_default : RegisterRequest :=
  mkRegisterRequest (mkTunnelAuth [] []) (replicate 16 0) 0 (str "cfd-cpp/0.1.0") [] [].

Record RegisterResponse := mkRegisterResponse {
  ok : bool;
  assigned_uuid : list Z;
  location_name : text;
  error_cause : text;
  retry_after_seconds : Z;
  should_retry : bool;
}.

(** [RegisterResponse{}] *)
Definition RegisterResponse_default : RegisterResponse :=
  mkRegisterResponse false (replicate 16 0) [] [] 0 false.

(** ** [parse_uuid] *)

(** The lambda [hex]: the value of a hexadecimal digit. *)
Definition hex (c : ascii) : option Z :=
  if (code "0" <=? code c) && (code c <=? code "9") then Some (u8 (code c - code "0"))
  else if (code "a" <=? code c) && (code c <=? code "f")
  then Some (u8 (code c - code "a" + 10))
  else if (code "A" <=? code c) && (code c <=? code "F")
  then Some (u8 (code c - code "A" + 10))
  else None.

(** [s[i]]: [s[s.size()]] is the NUL, and beyond it the read is undefined. *)
Definition char_at (s : text) (i : nat) : run ascii :=
  if (i =? length s)%nat then Done nul else run_opt (s !! i).

(** The [while] loop: [i] indexes the text, [bi] the output array. *)
Fixpoint uuid_loop (fuel : nat) (s : text) (i bi : nat) (out : list Z)
    : run (bool * list Z) :=
  match fuel with
  | O => Fuel
  | S fuel' =>
      if (i <? 36)%nat then
        let! c := char_at s i in
        if bool_decide (c = "-"%char) then uuid_loop fuel' s (S i) bi out
        else
          match hex c with
          | None => Done (false, out)
          | Some hi =>
              let! d := char_at s (i + 1) in
              match hex d with
              | None => Done (false, out)
              | Some lo =>
                  let! out := run_opt
                    (memcpy_at bi [u8 (Z.lor (Z.shiftl hi 4) lo)] out) in
                  uuid_loop fuel' s (i + 2) (S bi) out
              end
          end
      else Done (bool_decide (bi = 16%nat), out)
  end.

Definition dashes : list nat := [8%nat; 13%nat; 18%nat; 23%nat].

(** The loop over [dashes]. *)
Fixpoint check_dashes (ds : list nat) (s : text) : run bool :=
  match ds with
  | [] => Done true
  | d :: ds' =>
      let! c := char_at s d in
      if bool_decide (c ≠ "-"%char) then Done false else check_dashes ds' s
  end.

(** 37 rounds: each one but the last consumes at least one of 36 characters. *)
Definition parse_uuid (s : text) (out : list Z) : run (bool * list Z) :=
  if negb (length s =? 36)%nat then Done (false, out)
  else
    let! b := check_dashes dashes s in
    if negb b then Done (false, out) else uuid_loop 37 s 0 0 out.

(** ** [base64_decode] *)

Definition b64_alpha : text :=
  str "ABCDEFGHIJKLMNOPQRSTUVWXYZabcdefghijklmnopqrstuvwxyz0123456789+/".

(** The static table: filled with -1, then the 64 letters' values. *)
Definition b64_tab : list Z :=
  foldl (λ t i, <[Z.to_nat (code (nth i b64_alpha nul)) := Z.of_nat i]> t)
    (replicate 256 (-1)) (seq 0 64).

(** The loop over the four characters of a quartet: [v] holds the sextets, -2
    for a padding character. [None] is [return false]. *)
Fixpoint quartet_loop (last : bool) (cs : text) (k : nat) (v : list Z)
    : option (list Z) :=
  match cs with
  | [] => Some v
  | c :: cs' =>
      if bool_decide (c = "="%char) then
        if negb last || (k <? 2)%nat then None
        else quartet_loop last cs' (S k) (<[k := -2]> v)
      else
        let dec := nth (Z.to_nat (code c)) b64_tab (-1) in
        if dec <? 0 then None
        else if (0 <? k)%nat && (nth (k - 1) v 0 =? -2) then None
        else quartet_loop last cs' (S k) (<[k := dec]> v)
  end.

(** The bytes of a quartet. *)
Definition emit (v : list Z) (out : list Z) : list Z :=
  let v0 := nth 0 v 0 in let v1 := nth 1 v 0 in
  let v2 := nth 2 v 0 in let v3 := nth 3 v 0 in
  let out := out ++ [u8 (Z.lor (u32 (Z.shiftl (u32 v0) 2)) (Z.shiftr (u32 v1) 4))] in
  let out :=
    if negb (v2 =? -2)
    then out ++ [u8 (Z.lor (u32 (Z.shiftl (Z.land (u32 v1) 15) 4)) (Z.shiftr (u32 v2) 2))]
    else out in
  if negb (v3 =? -2)
  then out ++ [u8 (Z.lor (u32 (Z.shiftl (Z.land (u32 v2) 3) 6)) (u32 v3))]
  else out.

(** The loop over the [n] quartets from index [i]. *)
Fixpoint b64_loop (n i : nat) (s : text) (out : list Z) : bool * list Z :=
  match n with
  | O => (true, out)
  | S n' =>
      let last := (i + 4 =? length s)%nat in
      match quartet_loop last (take 4 (drop i s)) 0 [-1; -1; -1; -1] with
      | None => (false, out)
      | Some v => b64_loop n' (i + 4) s (emit v out)
      end
  end.

Definition base64_decode (s : text) (out : list Z) : bool * list Z :=
  if negb (length s mod 4 =? 0)%nat then (false, out)
  else b64_loop (length s / 4) 0 s out.

(** ** Specifications *)

(** The bytes a string of hexadecimal digits denotes. *)
Fixpoint hex_bytes (s : text) : list Z :=
  match s with
  | a :: b :: s' => (16 * default 0 (hex a) + default 0 (hex b)) :: hex_bytes s'
  | _ => []
  end.

Definition is_hex (c : ascii) : Prop := is_Some (hex c).

#[export] Instance is_hex_dec c : Decision (is_hex c).
Proof. unfold is_hex. apply _. Defined.

(** The canonical 8-4-4-4-12 form. *)
Definition uuid_form (g1 g2 g3 g4 g5 : text) : text :=
  g1 ++ "-"%char :: g2 ++ "-"%char :: g3 ++ "-"%char :: g4 ++ "-"%char :: g5.

Definition uuid_groups (g1 g2 g3 g4 g5 : text) : Prop :=
  length g1 = 8%nat ∧ length g2 = 4%nat ∧ length g3 = 4%nat ∧ length g4 = 4%nat
  ∧ length g5 = 12%nat ∧ Forall is_hex (g1 ++ g2 ++ g3 ++ g4 ++ g5).

(** RFC 4648 encoding, with padding. *)
Definition b64_char (n : Z) : ascii := nth (Z.to_nat n) b64_alpha nul.

Fixpoint b64_encode (bs : list Z) : text :=
  match bs with
  | [] => []
  | [b0] => [b64_char (b0 / 4); b64_char (b0 mod 4 * 16); "="%char; "="%char]
  | [b0; b1] =>
      [b64_char (b0 / 4); b64_char (b0 mod 4 * 16 + b1 / 16);
       b64_char (b1 mod 16 * 4); "="%char]
  | b0 :: b1 :: b2 :: bs' =>
      b64_char (b0 / 4) :: b64_char (b0 mod 4 * 16 + b1 / 16)
      :: b64_char (b1 mod 16 * 4 + b2 / 64) :: b64_char (b2 mod 64) :: b64_encode bs'
  end.

(** The value of a letter of the alphabet. *)
Definition sextet_of_code (n : Z) : option Z :=
  if (65 <=? n) && (n <=? 90) then Some (n - 65)
  else if (97 <=? n) && (n <=? 122) then Some (n - 71)
  else if (48 <=? n) && (n <=? 57) then Some (n + 4)
  else if n =? 43 then Some 62
  else if n =? 47 then Some 63
  else None.

Definition sextet (c : ascii) : option Z := sextet_of_code (code c).

(** The texts RFC 4648 allows: whole quartets of letters, the last one ending
    with at most two padding characters. [pad] is their number. *)
Definition b64_form (s : text) (pad : nat) : Prop :=
  (length s mod 4)%nat = 0%nat ∧ (pad ≤ 2)%nat ∧
  ∃ body, s = body ++ replicate pad "="%char ∧ Forall (λ c, is_Some (sextet c)) body.

(** ** UUID *)

Lemma hex_bounds c v : hex c = Some v → 0 <= v < 16.
Proof.
  unfold hex. intros H.
  change (code "0") with 48 in H. change (code "9") with 57 in H.
  change (code "a") with 97 in H. change (code "f") with 102 in H.
  change (code "A") with 65 in H. change (code "F") with 70 in H.
  repeat (case_if_in H); simplify_eq; rewrite u8_id by word_lia; lia.
Qed.

Lemma hex_dash : hex "-" = None.
Proof. done. Qed.

Lemma hex_nul : hex nul = None.
Proof. done. Qed.

Lemma hex_pair hi lo :
  0 <= hi < 16 → 0 <= lo < 16 → u8 (Z.lor (Z.shiftl hi 4) lo) = 16 * hi + lo.
Proof. intros. rewrite lor_shiftl_add by lia. rewrite u8_id; [|unfold byte_ok]; lia. Qed.

(** Writing an element at [n] and then the [vs] after it. *)
Lemma write_next (n : nat) x (vs out : list Z) :
  (n < length out)%nat →
  let out1 := take n out ++ [x] ++ drop (n + length [x]) out in
  take (S n) out1 ++ vs ++ drop (S n + length vs) out1
  = take n out ++ (x :: vs) ++ drop (n + S (length vs)) out.
Proof.
  intros Hn out1.
  assert (Hl : length (take n out ++ [x]) = S n).
  { rewrite length_app, length_take. simpl. lia. }
  assert (out1 = (take n out ++ [x]) ++ drop (n + 1) out) as -> by by rewrite <- app_assoc.
  rewrite take_app_length' by done. rewrite drop_app_ge by (rewrite Hl; lia).
  rewrite Hl, drop_drop, <- app_assoc. simpl. do 4 f_equal. lia.
Qed.

(** What the loop computes, as a function of the characters left. *)
Fixpoint uuid_pairs (fuel : nat) (s : text) : option (list Z) :=
  match fuel, s with
  | O, _ => None
  | _, [] => Some []
  | S fuel', c :: s' =>
      if bool_decide (c = "-"%char) then uuid_pairs fuel' s'
      else
        match s' with
        | d :: s'' =>
            match hex c, hex d with
            | Some hi, Some lo => cons (16 * hi + lo) <$> uuid_pairs fuel' s''
            | _, _ => None
            end
        | [] => None
        end
  end.

(** The characters that are not dashes. *)
Definition undash (s : text) : text := filter (λ c, c ≠ "-"%char) s.

Lemma undash_cons c s :
  undash (c :: s) = if bool_decide (c = "-"%char) then undash s else c :: undash s.
Proof.
  unfold undash. case_bool_decide.
  - rewrite filter_cons_False; naive_solver.
  - by rewrite filter_cons_True.
Qed.

Lemma uuid_loop_spec fuel s i bi out :
  length s = 36%nat → (i ≤ 36)%nat → (36 - i < fuel)%nat → length out = 16%nat →
  (2 * bi + length (undash (drop i s)) ≤ 32)%nat →
  ∃ out', length out' = 16%nat
    ∧ uuid_loop fuel s i bi out
      = Done (match uuid_pairs fuel (drop i s) with
              | Some vs => bool_decide (bi + length vs = 16%nat)%nat
              | None => false
              end, out')
    ∧ ∀ vs, uuid_pairs fuel (drop i s) = Some vs →
            out' = take bi out ++ vs ++ drop (bi + length vs) out.
Proof.
  intros Hs. revert i bi out. induction fuel as [|fuel IH]; intros i bi out Hi Hf Ho Hn; [lia|].
  cbn [uuid_loop uuid_pairs].
  destruct (Nat.ltb_spec i 36) as [Hlt|Hge].
  2: { rewrite drop_ge by lia. exists out. split_and!; [done|by rewrite Nat.add_0_r|].
       intros vs [= <-]. simpl. by rewrite Nat.add_0_r, take_drop. }
  destruct (lookup_lt_is_Some_2 s i) as [c Hc]; [lia|].
  unfold char_at at 1. rewrite (proj2 (Nat.eqb_neq _ _)), Hc by lia. cbn [run_opt run_bind].
  rewrite (drop_S s c i Hc) in Hn |- *. rewrite undash_cons in Hn.
  case_bool_decide as Hd.
  { apply IH; [lia|lia|done|done]. }
  simpl length in Hn.
  destruct (hex c) as [hi|] eqn:Hhi.
  2: { exists out. destruct (drop (S i) s); by split_and!. }
  destruct (decide (i = 35%nat)) as [->|Hi'].
  { unfold char_at. rewrite Hs. cbn [run_bind Nat.add Nat.eqb]. rewrite hex_nul, drop_ge by lia.
    exists out. by split_and!. }
  destruct (lookup_lt_is_Some_2 s (S i)) as [d Hdc]; [lia|].
  unfold char_at. rewrite Nat.add_1_r, (proj2 (Nat.eqb_neq _ _)), Hdc by lia.
  cbn [run_opt run_bind]. rewrite (drop_S s d (S i) Hdc) in Hn |- *.
  destruct (hex d) as [lo|] eqn:Hlo; [|by exists out; split_and!].
  rewrite undash_cons in Hn. rewrite bool_decide_eq_false_2 in Hn.
  2: { intros ->. by rewrite hex_dash in Hlo. }
  simpl length in Hn. rewrite memcpy_at_Some by (simpl; lia). cbn [run_opt run_bind].
  rewrite hex_pair by eauto using hex_bounds.
  replace (i + 2)%nat with (S (S i)) by lia.
  edestruct (IH (S (S i)) (S bi)) as (out' & Ho' & -> & Hvs);
    [lia|lia|rewrite <- Ho; by eapply memcpy_at_length, memcpy_at_Some; simpl; lia|lia|].
  exists out'. split; [done|]. destruct (uuid_pairs fuel _) as [vs|]; simpl; [|by split].
  split; [do 2 f_equal; apply bool_decide_ext; lia|].
  intros ? [= <-]. rewrite (Hvs vs eq_refl). apply write_next. lia.
Qed.

(** With enough fuel the fuel does not matter, and the result is read off the
    digits when dashes stand only between groups of even length. *)
Lemma uuid_pairs_undash fuel s vs :
  uuid_pairs fuel s = Some vs →
  Forall is_hex (undash s) ∧ hex_bytes (undash s) = vs
  ∧ length (undash s) = (2 * length vs)%nat.
Proof.
  revert s vs. induction fuel as [|fuel IH]; intros s vs; [done|].
  destruct s as [|c s]; simpl; [intros [= <-]; by split_and!|].
  rewrite undash_cons. case_bool_decide as Hc; [apply IH|].
  destruct s as [|d s]; [done|].
  destruct (hex c) as [hi|] eqn:Hhi, (hex d) as [lo|] eqn:Hlo; try done.
  intros (ws & Hws & ->)%fmap_Some. apply IH in Hws as (Hf & Hv & Hl).
  rewrite undash_cons, bool_decide_eq_false_2 by (intros ->; by rewrite hex_dash in Hlo).
  split_and!.
  - repeat (apply Forall_cons; split); [by eexists|by eexists|done].
  - simpl. by rewrite Hhi, Hlo, Hv.
  - simpl. lia.
Qed.

Lemma uuid_pairs_group fuel g r :
  Nat.Even (length g) → Forall is_hex g → (length (g ++ r) < fuel)%nat →
  ∃ fuel', (length r < fuel')%nat ∧
  uuid_pairs fuel (g ++ r) = app (hex_bytes g) <$> uuid_pairs fuel' r.
Proof.
  intros [n Hn]. revert fuel g Hn. induction n as [|n IH]; intros fuel g Hn Hg Hf.
  - destruct g; [|simpl in Hn; lia]. exists fuel. split; [done|].
    simpl. by destruct (uuid_pairs fuel r).
  - destruct g as [|a [|b g]]; simpl in Hn; try lia.
    apply Forall_cons in Hg as [Ha [Hb Hg]%Forall_cons].
    destruct fuel as [|fuel]; simpl in Hf; [lia|].
    destruct (IH fuel g) as (fuel' & Hf' & He); [lia|done|lia|].
    exists fuel'. split; [done|]. simpl.
    rewrite bool_decide_eq_false_2 by (intros ->; by destruct Ha).
    destruct Ha as [x ->], Hb as [y ->]. rewrite He.
    by destruct (uuid_pairs fuel' r).
Qed.

Lemma uuid_pairs_dash fuel g r :
  Nat.Even (length g) → Forall is_hex g → (length (g ++ "-"%char :: r) < fuel)%nat →
  ∃ fuel', (length r < fuel')%nat ∧
  uuid_pairs fuel (g ++ "-"%char :: r) = app (hex_bytes g) <$> uuid_pairs fuel' r.
Proof.
  intros Hn Hg Hf. destruct (uuid_pairs_group fuel g ("-"%char :: r) Hn Hg Hf)
    as (fuel' & Hf' & ->). destruct fuel' as [|fuel']; simpl in Hf'; [lia|].
  exists fuel'. split; [lia|done].
Qed.

Lemma hex_bytes_app g r :
  Nat.Even (length g) → hex_bytes (g ++ r) = hex_bytes g ++ hex_bytes r.
Proof.
  intros [n Hn]. revert g Hn. induction n as [|n IH]; intros g Hn.
  - by destruct g; [|simpl in Hn; lia].
  - destruct g as [|a [|b g]]; simpl in Hn; try lia. simpl. f_equal. apply IH. lia.
Qed.

Lemma undash_id g : Forall is_hex g → undash g = g.
Proof.
  induction 1 as [|c g Hc Hg IH]; [done|]. rewrite undash_cons.
  rewrite bool_decide_eq_false_2 by (intros ->; by destruct Hc). by rewrite IH.
Qed.

Lemma undash_length s : (length (undash s) ≤ length s)%nat.
Proof. apply length_filter. Qed.

Lemma undash_full s : length (undash s) = length s → undash s = s.
Proof.
  induction s as [|c s IH]; [done|]. rewrite undash_cons. case_bool_decide; simpl.
  - pose proof (undash_length s). lia.
  - intros [= H']. by rewrite IH.
Qed.

Lemma undash_form g1 g2 g3 g4 g5 :
  undash (uuid_form g1 g2 g3 g4 g5)
  = undash g1 ++ undash g2 ++ undash g3 ++ undash g4 ++ undash g5.
Proof.
  unfold uuid_form, undash. rewrite !filter_app.
  do 4 (rewrite filter_cons_False, ?filter_app by naive_solver). done.
Qed.

Lemma cut_at (i n : nat) (s : text) c :
  s !! (i + n)%nat = Some c → drop i s = take n (drop i s) ++ c :: drop (S (i + n)) s.
Proof. intros Hc. by rewrite <- (drop_S s c), <- drop_drop, take_drop. Qed.

Lemma check_dashes_spec s :
  length s = 36%nat →
  ∃ b, check_dashes dashes s = Done b ∧
  (b = true ↔ ∃ g1 g2 g3 g4 g5,
     s = uuid_form g1 g2 g3 g4 g5 ∧ length g1 = 8%nat ∧ length g2 = 4%nat
     ∧ length g3 = 4%nat ∧ length g4 = 4%nat ∧ length g5 = 12%nat).
Proof.
  intros Hs.
  assert (Hat : ∀ i, (i < 36)%nat → ∃ c, s !! i = Some c ∧ char_at s i = Done c).
  { intros i Hi. destruct (lookup_lt_is_Some_2 s i) as [c Hc]; [lia|].
    exists c. split; [done|]. unfold char_at. by rewrite (proj2 (Nat.eqb_neq _ _)), Hc by lia. }
  destruct (Hat 8%nat) as (c1 & H1 & E1); [lia|]. destruct (Hat 13%nat) as (c2 & H2 & E2); [lia|].
  destruct (Hat 18%nat) as (c3 & H3 & E3); [lia|]. destruct (Hat 23%nat) as (c4 & H4 & E4); [lia|].
  exists (bool_decide (c1 = "-" ∧ c2 = "-" ∧ c3 = "-" ∧ c4 = "-")%char).
  split.
  { unfold dashes. cbn [check_dashes]. rewrite E1, E2, E3, E4. cbn [run_bind].
    destruct (decide (c1 = "-"%char)), (decide (c2 = "-"%char)), (decide (c3 = "-"%char)),
      (decide (c4 = "-"%char)); subst; simpl; try done;
      rewrite bool_decide_eq_true_2 by done; (rewrite bool_decide_eq_false_2 by tauto) || idtac; done. }
  rewrite bool_decide_eq_true. split.
  - intros (-> & -> & -> & ->).
    exists (take 8 s), (take 4 (drop 9 s)), (take 4 (drop 14 s)), (take 4 (drop 19 s)), (drop 24 s).
    rewrite !length_take, !length_drop, Hs. split_and!; try done. unfold uuid_form.
    pose proof (cut_at 0 8 s _ H1) as K1. pose proof (cut_at 9 4 s _ H2) as K2.
    pose proof (cut_at 14 4 s _ H3) as K3. pose proof (cut_at 19 4 s _ H4) as K4.
    cbn [Nat.add drop] in K1. cbn [Nat.add] in K2, K3, K4.
    by rewrite <- K4, <- K3, <- K2.
  - intros (g1 & g2 & g3 & g4 & g5 & -> & Hl1 & Hl2 & Hl3 & Hl4 & Hl5).
    unfold uuid_form in *.
    rewrite lookup_app_r, Hl1 in H1, H2, H3, H4 by lia.
    injection H1 as <-. cbn [Nat.sub] in *.
    rewrite lookup_cons_ne_0 in H2, H3, H4 by done. cbn [Nat.pred] in *.
    rewrite lookup_app_r, Hl2 in H2, H3, H4 by lia.
    injection H2 as <-. cbn [Nat.sub] in *.
    rewrite lookup_cons_ne_0 in H3, H4 by done. cbn [Nat.pred] in *.
    rewrite lookup_app_r, Hl3 in H3, H4 by lia.
    injection H3 as <-. cbn [Nat.sub] in *.
    rewrite lookup_cons_ne_0 in H4 by done. cbn [Nat.pred] in *.
    rewrite lookup_app_r, Hl4 in H4 by lia. by injection H4 as <-.
Qed.

(** On a text with the dashes in place, the loop finds 16 pairs exactly when the
    rest are hexadecimal digits. *)
Lemma uuid_pairs_form fuel g1 g2 g3 g4 g5 :
  let s := uuid_form g1 g2 g3 g4 g5 in
  let g := g1 ++ g2 ++ g3 ++ g4 ++ g5 in
  length g1 = 8%nat → length g2 = 4%nat → length g3 = 4%nat → length g4 = 4%nat →
  length g5 = 12%nat → (length s < fuel)%nat →
  (Forall is_hex g → uuid_pairs fuel s = Some (hex_bytes g) ∧ length (hex_bytes g) = 16%nat)
  ∧ (∀ vs, uuid_pairs fuel s = Some vs → length vs = 16%nat →
           Forall is_hex g ∧ vs = hex_bytes g).
Proof.
  intros s g Hl1 Hl2 Hl3 Hl4 Hl5 Hf.
  assert (Hg : length g = 32%nat) by (unfold g; rewrite !length_app; lia).
  assert (Hsome : Forall is_hex g → uuid_pairs fuel s = Some (hex_bytes g)).
  { unfold g, s, uuid_form in *. rewrite !Forall_app. intros (H1 & H2 & H3 & H4 & H5).
    destruct (uuid_pairs_dash fuel g1 (g2 ++ "-"%char :: g3 ++ "-"%char :: g4 ++ "-"%char :: g5))
      as (f1 & Hf1 & ->); [rewrite Hl1; by exists 4%nat|done|done|].
    destruct (uuid_pairs_dash f1 g2 (g3 ++ "-"%char :: g4 ++ "-"%char :: g5))
      as (f2 & Hf2 & ->); [rewrite Hl2; by exists 2%nat|done|done|].
    destruct (uuid_pairs_dash f2 g3 (g4 ++ "-"%char :: g5))
      as (f3 & Hf3 & ->); [rewrite Hl3; by exists 2%nat|done|done|].
    destruct (uuid_pairs_dash f3 g4 g5) as (f4 & Hf4 & ->); [rewrite Hl4; by exists 2%nat|done|done|].
    destruct (uuid_pairs_group f4 g5 []) as (f5 & Hf5 & He);
      [rewrite Hl5; by exists 6%nat|done|by rewrite app_nil_r|].
    rewrite app_nil_r in He. rewrite He. destruct f5; simpl in *; [lia|].
    rewrite app_nil_r, !hex_bytes_app;
      [done|rewrite Hl4; by exists 2%nat|rewrite Hl3; by exists 2%nat
      |rewrite Hl2; by exists 2%nat|rewrite Hl1; by exists 4%nat]. }
  split.
  - intros Hh. pose proof (Hsome Hh) as Hvs. split; [done|].
    destruct (uuid_pairs_undash _ _ _ Hvs) as (_ & _ & Hlen).
    unfold s in Hlen. rewrite undash_form in Hlen.
    unfold g in Hh. rewrite !Forall_app in Hh. destruct Hh as (?&?&?&?&?).
    rewrite !undash_id in Hlen by done. fold g in Hlen. lia.
  - intros vs Hvs Hn. destruct (uuid_pairs_undash _ _ _ Hvs) as (Hhex & Hval & Hlen).
    assert (Hu : undash g = g).
    { apply undash_full. unfold s in Hlen. rewrite undash_form in Hlen.
      unfold g, undash in *. rewrite !filter_app, Hlen. lia. }
    unfold s in Hhex, Hval. rewrite undash_form in Hhex, Hval.
    unfold g, undash in Hu, Hhex, Hval. rewrite !filter_app in Hu.
    rewrite Hu in Hhex, Hval. done.
Qed.

Lemma not_uuid fuel s :
  (length s < fuel)%nat →
  (∀ vs, uuid_pairs fuel s = Some vs → length vs ≠ 16%nat) →
  ¬ ∃ g1 g2 g3 g4 g5, uuid_groups g1 g2 g3 g4 g5 ∧ s = uuid_form g1 g2 g3 g4 g5.
Proof.
  intros Hf Hno (g1 & g2 & g3 & g4 & g5 & (Hl1 & Hl2 & Hl3 & Hl4 & Hl5 & Hh) & ->).
  destruct (uuid_pairs_form fuel _ _ _ _ _ Hl1 Hl2 Hl3 Hl4 Hl5 Hf) as [Hp _].
  destruct (Hp Hh) as [Hvs Hn]. by apply (Hno _ Hvs).
Qed.

(** The two outcomes of [parse_uuid]. *)
Lemma parse_uuid_cases s out :
  length out = 16%nat →
  (∃ g1 g2 g3 g4 g5, uuid_groups g1 g2 g3 g4 g5 ∧ s = uuid_form g1 g2 g3 g4 g5
     ∧ parse_uuid s out = Done (true, hex_bytes (g1 ++ g2 ++ g3 ++ g4 ++ g5)))
  ∨ ((¬ ∃ g1 g2 g3 g4 g5, uuid_groups g1 g2 g3 g4 g5 ∧ s = uuid_form g1 g2 g3 g4 g5)
     ∧ ∃ out', length out' = 16%nat ∧ parse_uuid s out = Done (false, out')).
Proof.
  intros Ho. unfold parse_uuid, uuid_groups.
  destruct (decide (length s = 36%nat)) as [Hs|Hs].
  2: { right. rewrite (proj2 (Nat.eqb_neq _ _)) by done. split; [|by exists out].
       intros (g1 & g2 & g3 & g4 & g5 & (? & ? & ? & ? & ? & _) & ->). apply Hs.
       unfold uuid_form. repeat (rewrite length_app; simpl). lia. }
  rewrite (proj2 (Nat.eqb_eq _ _)) by done. simpl negb. cbn iota.
  destruct (check_dashes_spec s Hs) as (b & -> & Hb). cbn [run_bind].
  destruct b; simpl negb; cbn iota.
  2: { right. split; [|by exists out]. intros (g1 & g2 & g3 & g4 & g5 & (?&?&?&?&?&_) & Hf).
       assert (false = true) by (apply Hb; eauto 12). done. }
  destruct Hb as [Hb _]. destruct (Hb eq_refl) as (g1 & g2 & g3 & g4 & g5 & -> & Hlens).
  destruct Hlens as (Hl1 & Hl2 & Hl3 & Hl4 & Hl5).
  destruct (uuid_pairs_form 37 g1 g2 g3 g4 g5 Hl1 Hl2 Hl3 Hl4 Hl5 ltac:(lia)) as [_ Hp].
  destruct (uuid_loop_spec 37 (uuid_form g1 g2 g3 g4 g5) 0 0 out Hs)
    as (out' & Ho' & -> & Hout); [lia|lia|done| |].
  { rewrite drop_0, undash_form. rewrite !length_app.
    pose proof (undash_length g1). pose proof (undash_length g2).
    pose proof (undash_length g3). pose proof (undash_length g4).
    pose proof (undash_length g5). lia. }
  rewrite drop_0 in Hout |- *.
  pose proof (not_uuid 37 (uuid_form g1 g2 g3 g4 g5) ltac:(lia)) as Hno.
  destruct (uuid_pairs 37 _) as [vs|]; [|right; split; [by apply Hno|by exists out']].
  simpl (0 + _)%nat in *. destruct (decide (length vs = 16%nat)) as [Hn|Hn].
  - left. destruct (Hp vs eq_refl Hn) as [Hh ->]. exists g1, g2, g3, g4, g5.
    split_and!; try done. rewrite bool_decide_eq_true_2 by done. do 2 f_equal.
    rewrite (Hout _ eq_refl), Hn, drop_ge by lia. simpl. by rewrite app_nil_r.
  - right. split; [apply Hno; by intros ? [= <-]|].
    exists out'. by rewrite bool_decide_eq_false_2.
Qed.

(** C25: [parse_uuid] never reads past the text's terminator nor writes past the
    16 bytes, and it terminates; it accepts exactly the canonical
    8-4-4-4-12 texts, in either case, and then stores the 16 bytes that the
    digits denote. *)
Theorem parse_uuid_spec s out :
  length out = 16%nat →
  (∃ g1 g2 g3 g4 g5, uuid_groups g1 g2 g3 g4 g5 ∧ s = uuid_form g1 g2 g3 g4 g5
     ∧ parse_uuid s out = Done (true, hex_bytes (g1 ++ g2 ++ g3 ++ g4 ++ g5)))
  ∨ ((¬ ∃ g1 g2 g3 g4 g5, uuid_groups g1 g2 g3 g4 g5 ∧ s = uuid_form g1 g2 g3 g4 g5)
     ∧ ∃ out', length out' = 16%nat ∧ parse_uuid s out = Done (false, out')).
Proof. apply parse_uuid_cases. Qed.

Lemma parse_uuid_spec_witness :
  let s := str "550e8400-e29b-41d4-a716-446655440000" in
  let out := replicate 16 0 in
  (∃ g1 g2 g3 g4 g5, uuid_groups g1 g2 g3 g4 g5 ∧ s = uuid_form g1 g2 g3 g4 g5
     ∧ parse_uuid s out = Done (true, hex_bytes (g1 ++ g2 ++ g3 ++ g4 ++ g5)))
  ∨ ((¬ ∃ g1 g2 g3 g4 g5, uuid_groups g1 g2 g3 g4 g5 ∧ s = uuid_form g1 g2 g3 g4 g5)
     ∧ ∃ out', length out' = 16%nat ∧ parse_uuid s out = Done (false, out')).
Proof. apply (parse_uuid_spec _ (replicate 16 0) eq_refl). Defined.

(** The texts of [tests/test_registration.cpp]. *)
Example parse_uuid_examples :
  (parse_uuid (str "550e8400-e29b-41d4-a716-446655440000") (replicate 16 0),
   parse_uuid (str "550e8400_e29b_41d4_a716_446655440000") [],
   parse_uuid (str "550e8400-e29b-41d4-a716-44665544000") [])
  = (Done (true, [0x55; 0x0e; 0x84; 0x00; 0xe2; 0x9b; 0x41; 0xd4;
                  0xa7; 0x16; 0x44; 0x66; 0x55; 0x44; 0x00; 0x00]),
     Done (false, []), Done (false, [])).
Proof. vm_compute. reflexivity. Qed.

(** ** Base64 *)

Lemma b64_tab_byte b :
  byte_ok b → nth (Z.to_nat b) b64_tab (-1) = default (-1) (sextet_of_code b).
Proof. revert b. by_bytes. Qed.

Lemma b64_tab_spec c :
  nth (Z.to_nat (code c)) b64_tab (-1) = default (-1) (sextet c).
Proof. apply b64_tab_byte, code_byte_ok. Qed.

Lemma sextet_bounds c v : sextet c = Some v → 0 <= v < 64.
Proof.
  unfold sextet, sextet_of_code. intros H. repeat (case_if_in H); simplify_eq; lia.
Qed.

Lemma b64_char_byte n : byte_ok n → n < 64 → sextet (b64_char n) = Some n.
Proof. revert n. by_bytes. Qed.

Lemma sextet_char n : 0 <= n < 64 → sextet (b64_char n) = Some n.
Proof. intros Hn. apply b64_char_byte; unfold byte_ok; lia. Qed.

Lemma sextet_not_pad c v : sextet c = Some v → c ≠ "="%char.
Proof. intros H ->. done. Qed.

(** One round of the quartet loop on a letter. *)
Lemma quartet_letter last c cs k v s :
  sextet c = Some s → (k = 0%nat ∨ nth (k - 1) v 0 ≠ -2) →
  quartet_loop last (c :: cs) k v = quartet_loop last cs (S k) (<[k := s]> v).
Proof.
  intros Hc Hk. pose proof (sextet_bounds _ _ Hc). cbn [quartet_loop].
  rewrite bool_decide_eq_false_2 by by eapply sextet_not_pad.
  rewrite b64_tab_spec, Hc. cbn [from_option id].
  rewrite (proj2 (Z.ltb_ge _ _)) by lia. cbv zeta.
  destruct (0 <? k)%nat eqn:Hk0; bool_facts; [|done].
  destruct Hk as [->|Hk]; [lia|]. by rewrite (proj2 (Z.eqb_neq _ _) Hk).
Qed.

Lemma quartet_pad cs k v :
  (2 ≤ k)%nat → quartet_loop true ("="%char :: cs) k v = quartet_loop true cs (S k) (<[k := -2]> v).
Proof.
  intros Hk. cbn [quartet_loop]. rewrite bool_decide_eq_true_2 by done. cbn [negb orb].
  by rewrite (proj2 (Nat.ltb_ge k 2) Hk).
Qed.

Lemma quartet_round_inv last c cs k v w :
  quartet_loop last (c :: cs) k v = Some w →
  (∃ s, sextet c = Some s ∧ (k = 0%nat ∨ nth (k - 1) v 0 ≠ -2)
        ∧ quartet_loop last cs (S k) (<[k := s]> v) = Some w)
  ∨ (c = "="%char ∧ last = true ∧ (2 ≤ k)%nat
     ∧ quartet_loop last cs (S k) (<[k := -2]> v) = Some w).
Proof.
  cbn [quartet_loop]. case_bool_decide as Hc.
  - destruct last, (k <? 2)%nat eqn:Hk; simpl; try done. bool_facts. auto.
  - rewrite b64_tab_spec. destruct (sextet c) as [s|] eqn:Hs; [|done]. cbn [from_option id].
    pose proof (sextet_bounds _ _ Hs). rewrite (proj2 (Z.ltb_ge _ _)) by lia. cbv zeta.
    intros Hw. left. exists s. split; [done|].
    destruct (0 <? k)%nat eqn:Hk; simpl in Hw; bool_facts; [|split; [left; lia|done]].
    destruct (_ =? -2) eqn:H2; bool_facts; [done|auto].
Qed.

(** The three forms of a quartet. *)
Lemma quartet_inv last c0 c1 c2 c3 v :
  quartet_loop last [c0; c1; c2; c3] 0 [-1; -1; -1; -1] = Some v →
  ∃ s0 s1, sextet c0 = Some s0 ∧ sextet c1 = Some s1 ∧
  ((∃ s2 s3, sextet c2 = Some s2 ∧ sextet c3 = Some s3 ∧ v = [s0; s1; s2; s3])
   ∨ (last = true ∧ c3 = "="%char ∧
      ((∃ s2, sextet c2 = Some s2 ∧ v = [s0; s1; s2; -2])
       ∨ (c2 = "="%char ∧ v = [s0; s1; -2; -2])))).
Proof.
  intros H. apply quartet_round_inv in H as [(s0 & H0 & _ & H)|(_ & _ & ? & _)]; [|lia].
  apply quartet_round_inv in H as [(s1 & H1 & _ & H)|(_ & _ & ? & _)]; [|lia].
  exists s0, s1. split; [done|]. split; [done|].
  apply quartet_round_inv in H as [(s2 & H2 & _ & H)|(-> & Hl2 & _ & H)];
  apply quartet_round_inv in H as [(s3 & H3 & Hk & H)|(-> & Hl3 & _ & H)].
  - left. exists s2, s3. by injection H as <-.
  - right. split; [done|]. split; [done|]. left. exists s2. by injection H as <-.
  - simpl in Hk. destruct Hk; done.
  - right. split; [done|]. split; [done|]. right. by injection H as <-.
Qed.

Section emit.
Context (s0 s1 s2 s3 : Z).
Context (H0 : 0 <= s0 < 64) (H1 : 0 <= s1 < 64) (H2 : 0 <= s2 < 64) (H3 : 0 <= s3 < 64).

Lemma emit_byte a b n k :
  0 <= a → 0 <= n → 0 <= b < 2 ^ n → a * 2 ^ n + b < 256 → b = k →
  u8 (Z.lor (u32 (Z.shiftl a n)) b) = a * 2 ^ n + k.
Proof using.
  intros Ha Hn Hb Hlt <-. rewrite u32_small.
  2: { rewrite Z.shiftl_mul_pow2 by lia. lia. }
  rewrite lor_shiftl_add by lia. apply u8_id. unfold byte_ok. lia.
Qed.

Lemma land_mod a n : 0 <= n → Z.land a (Z.ones n) = a mod 2 ^ n.
Proof using. apply Z.land_ones. Qed.

Lemma emit_full out :
  emit [s0; s1; s2; s3] out
  = out ++ [s0 * 4 + s1 / 16; s1 mod 16 * 16 + s2 / 4; s2 mod 4 * 64 + s3].
Proof.
  unfold emit. cbn [nth]. rewrite (proj2 (Z.eqb_neq s2 (-2))), (proj2 (Z.eqb_neq s3 (-2))) by lia. cbn [negb].
  rewrite !(u32_small s0), !(u32_small s1), !(u32_small s2), !(u32_small s3) by lia.
  change 15 with (Z.ones 4). change 3 with (Z.ones 2). rewrite !land_mod by lia.
  rewrite !Z.shiftr_div_pow2 by lia.
  rewrite (emit_byte s0 (s1 / 2 ^ 4) 2 (s1 / 16)), (emit_byte (s1 mod 2 ^ 4) (s2 / 2 ^ 2) 4 (s2 / 4)),
    (emit_byte (s2 mod 2 ^ 2) s3 6 s3); try (Z.to_euclidean_division_equations; lia).
  by rewrite <- !app_assoc.
Qed.

Lemma emit_pad1 out :
  emit [s0; s1; s2; -2] out = out ++ [s0 * 4 + s1 / 16; s1 mod 16 * 16 + s2 / 4].
Proof using H0 H1 H2.
  clear s3 H3. unfold emit. cbn [nth]. rewrite (proj2 (Z.eqb_neq s2 _)) by lia. cbn [negb Z.eqb].
  rewrite !(u32_small s0), !(u32_small s1), !(u32_small s2) by lia.
  change 15 with (Z.ones 4). rewrite !land_mod by lia. rewrite !Z.shiftr_div_pow2 by lia.
  rewrite (emit_byte s0 (s1 / 2 ^ 4) 2 (s1 / 16)), (emit_byte (s1 mod 2 ^ 4) (s2 / 2 ^ 2) 4 (s2 / 4));
    try (Z.to_euclidean_division_equations; lia).
  by rewrite <- !app_assoc.
Qed.

Lemma emit_pad2 out : emit [s0; s1; -2; -2] out = out ++ [s0 * 4 + s1 / 16].
Proof using H0 H1.
  clear s2 H2 s3 H3. unfold emit. cbn [nth negb Z.eqb].
  rewrite !(u32_small s0), !(u32_small s1) by lia. rewrite !Z.shiftr_div_pow2 by lia.
  rewrite (emit_byte s0 (s1 / 2 ^ 4) 2 (s1 / 16)); try (Z.to_euclidean_division_equations; lia).
  done.
Qed.
End emit.

(** The loop, as a recursion on the characters left. *)
Fixpoint b64_rec (s : text) (out : list Z) : bool * list Z :=
  match s with
  | c0 :: c1 :: c2 :: c3 :: s' =>
      match quartet_loop (bool_decide (s' = [])) [c0; c1; c2; c3] 0 [-1; -1; -1; -1] with
      | None => (false, out)
      | Some v => b64_rec s' (emit v out)
      end
  | _ => (true, out)
  end.

Lemma b64_loop_rec n i s out :
  length (drop i s) = (4 * n)%nat → b64_loop n i s out = b64_rec (drop i s) out.
Proof.
  revert i out. induction n as [|n IH]; intros i out Hl; [by destruct (drop i s)|].
  cbn [b64_loop]. destruct (drop i s) as [|c0 [|c1 [|c2 [|c3 r]]]] eqn:Hd;
    simpl in Hl; try lia.
  assert (Hr : drop (i + 4) s = r) by by rewrite <- drop_drop, Hd.
  assert (Hlast : (i + 4 =? length s)%nat = bool_decide (r = [])).
  { apply (f_equal length) in Hd. rewrite length_drop in Hd. simpl in Hd.
    apply eq_true_iff_eq. rewrite Nat.eqb_eq, bool_decide_eq_true.
    split; [intros; destruct r; [done|simpl in *; lia]|intros ->; simpl in Hd; lia]. }
  rewrite Hlast. cbn [take b64_rec]. destruct (quartet_loop _ _ _ _) as [v|]; [|done].
  rewrite IH, Hr; [done|]. rewrite Hr. lia.
Qed.

Lemma base64_decode_rec s out :
  base64_decode s out
  = if bool_decide ((length s mod 4)%nat = 0%nat) then b64_rec s out else (false, out).
Proof.
  unfold base64_decode. case_bool_decide as Hm.
  - rewrite Hm. cbn [Nat.eqb negb]. rewrite b64_loop_rec, drop_0; [done|].
    rewrite drop_0. pose proof (Nat.div_mod_eq (length s) 4). lia.
  - by rewrite (proj2 (Nat.eqb_neq _ _)).
Qed.

(** Induction on texts by quartets. *)
Lemma quartet_ind (P : text → Prop) :
  P [] → (∀ c0 c1 c2 c3 s, P s → P (c0 :: c1 :: c2 :: c3 :: s)) →
  ∀ s, (length s mod 4)%nat = 0%nat → P s.
Proof.
  intros H0 H4 s Hs.
  assert (∃ n, length s = (4 * n)%nat) as [n Hn].
  { exists (length s / 4)%nat. pose proof (Nat.div_mod_eq (length s) 4). lia. }
  clear Hs. revert s Hn. induction n as [|n IH]; intros s Hn; [by destruct s|].
  destruct s as [|c0 [|c1 [|c2 [|c3 r]]]]; simpl in Hn; try lia.
  apply H4, IH. lia.
Qed.

Lemma b64_rec_appends s out : ∃ bs, (b64_rec s out).2 = out ++ bs.
Proof.
  revert s out. fix IH 1. intros s out.
  destruct s as [|c0 [|c1 [|c2 [|c3 r]]]]; cbn [b64_rec];
    try (exists []; by rewrite app_nil_r).
  destruct (quartet_loop (bool_decide (r = [])) [c0; c1; c2; c3] 0 _) as [v|];
    [|exists []; by rewrite app_nil_r].
  destruct (IH r (emit v out)) as [bs ->].
  unfold emit. repeat case_match; rewrite <- !app_assoc; by eexists.
Qed.

(** A quartet of letters, and the two padded quartets that may come last. *)
Lemma quartet_letters last c0 c1 c2 c3 s0 s1 s2 s3 :
  sextet c0 = Some s0 → sextet c1 = Some s1 → sextet c2 = Some s2 → sextet c3 = Some s3 →
  quartet_loop last [c0; c1; c2; c3] 0 [-1; -1; -1; -1] = Some [s0; s1; s2; s3].
Proof.
  intros H0 H1 H2 H3. pose proof (sextet_bounds _ _ H0).
  pose proof (sextet_bounds _ _ H1). pose proof (sextet_bounds _ _ H2).
  rewrite (quartet_letter _ _ _ _ _ s0), (quartet_letter _ _ _ _ _ s1),
    (quartet_letter _ _ _ _ _ s2), (quartet_letter _ _ _ _ _ s3); try done;
    right; simpl; lia.
Qed.

Lemma quartet_pad1 c0 c1 c2 s0 s1 s2 :
  sextet c0 = Some s0 → sextet c1 = Some s1 → sextet c2 = Some s2 →
  quartet_loop true [c0; c1; c2; "="%char] 0 [-1; -1; -1; -1] = Some [s0; s1; s2; -2].
Proof.
  intros H0 H1 H2. pose proof (sextet_bounds _ _ H0). pose proof (sextet_bounds _ _ H1).
  rewrite (quartet_letter _ _ _ _ _ s0), (quartet_letter _ _ _ _ _ s1),
    (quartet_letter _ _ _ _ _ s2), quartet_pad; try done; try lia; right; simpl; lia.
Qed.

Lemma quartet_pad2 c0 c1 s0 s1 :
  sextet c0 = Some s0 → sextet c1 = Some s1 →
  quartet_loop true [c0; c1; "="%char; "="%char] 0 [-1; -1; -1; -1] = Some [s0; s1; -2; -2].
Proof.
  intros H0 H1. pose proof (sextet_bounds _ _ H0).
  rewrite (quartet_letter _ _ _ _ _ s0), (quartet_letter _ _ _ _ _ s1), !quartet_pad;
    try done; try lia; right; simpl; lia.
Qed.

Lemma b64_encode_length bs : (length (b64_encode bs) mod 4)%nat = 0%nat.
Proof.
  revert bs. fix IH 1. intros [|b0 [|b1 [|b2 bs]]]; [done..|].
  etrans; [|exact (IH bs)]. cbn [b64_encode length].
  replace (S (S (S (S (length (b64_encode bs)))))) with (length (b64_encode bs) + 1 * 4)%nat
    by lia.
  apply Nat.Div0.mod_add.
Qed.

Lemma b64_rec_encode bs out : bytes_ok bs → b64_rec (b64_encode bs) out = (true, out ++ bs).
Proof.
  revert bs out. fix IH 1. intros [|b0 [|b1 [|b2 bs]]] out Hb; cbn [b64_encode b64_rec].
  - by rewrite app_nil_r.
  - apply Forall_cons in Hb as [H0 _]. unfold byte_ok in H0.
    rewrite bool_decide_eq_true_2 by done.
    rewrite (quartet_pad2 _ _ (b0 / 4) (b0 mod 4 * 16));
      [|apply sextet_char; Z.to_euclidean_division_equations; lia..].
    rewrite emit_pad2 by (Z.to_euclidean_division_equations; lia).
    do 3 f_equal. Z.to_euclidean_division_equations; lia.
  - apply Forall_cons in Hb as [H0 [H1 _]%Forall_cons]. unfold byte_ok in *.
    rewrite bool_decide_eq_true_2 by done.
    rewrite (quartet_pad1 _ _ _ (b0 / 4) (b0 mod 4 * 16 + b1 / 16) (b1 mod 16 * 4));
      [|apply sextet_char; Z.to_euclidean_division_equations; lia..].
    rewrite emit_pad1 by (Z.to_euclidean_division_equations; lia).
    do 3 f_equal; [|f_equal]; Z.to_euclidean_division_equations; lia.
  - apply Forall_cons in Hb as [H0 [H1 [H2 Hb]%Forall_cons]%Forall_cons]. unfold byte_ok in *.
    rewrite (quartet_letters _ _ _ _ _ (b0 / 4) (b0 mod 4 * 16 + b1 / 16)
      (b1 mod 16 * 4 + b2 / 64) (b2 mod 64));
      [|apply sextet_char; Z.to_euclidean_division_equations; lia..].
    rewrite emit_full by (Z.to_euclidean_division_equations; lia).
    rewrite IH by done. rewrite <- app_assoc. simpl. do 2 f_equal.
    repeat f_equal; Z.to_euclidean_division_equations; lia.
Qed.

(** C26: [base64_decode] appends to its output exactly the bytes whose RFC 4648
    encoding, with padding, it is given. *)
Theorem base64_round_trip bs out :
  bytes_ok bs → base64_decode (b64_encode bs) out = (true, out ++ bs).
Proof.
  intros Hb. rewrite base64_decode_rec, bool_decide_eq_true_2 by apply b64_encode_length.
  by apply b64_rec_encode.
Qed.

Lemma quartets_mod (s : text) c0 c1 c2 c3 :
  (length (c0 :: c1 :: c2 :: c3 :: s) mod 4 = length s mod 4)%nat.
Proof.
  replace (length (c0 :: c1 :: c2 :: c3 :: s)) with (length s + 1 * 4)%nat by (simpl; lia).
  apply Nat.Div0.mod_add.
Qed.

Lemma b64_form_nil : b64_form [] 0.
Proof. split_and!; [done|lia|]. by exists []. Qed.

Lemma b64_form_quartet c0 c1 c2 c3 r pad :
  is_Some (sextet c0) → is_Some (sextet c1) → is_Some (sextet c2) → is_Some (sextet c3) →
  b64_form r pad → b64_form (c0 :: c1 :: c2 :: c3 :: r) pad.
Proof.
  intros H0 H1 H2 H3 (Hm & Hp & body & -> & Hb). split_and!; [|done|].
  - by rewrite quartets_mod.
  - exists (c0 :: c1 :: c2 :: c3 :: body). split; [done|].
    by repeat (apply Forall_cons; split).
Qed.

(** The reverse: a quartet is all letters, or the text's padded end. *)
Lemma b64_form_quartet_inv c0 c1 c2 c3 r pad :
  b64_form (c0 :: c1 :: c2 :: c3 :: r) pad →
  is_Some (sextet c0) ∧ is_Some (sextet c1) ∧
  ((is_Some (sextet c2) ∧ is_Some (sextet c3) ∧ b64_form r pad)
   ∨ (r = [] ∧ c3 = "="%char ∧ (is_Some (sextet c2) ∧ pad = 1%nat
                                ∨ c2 = "="%char ∧ pad = 2%nat))).
Proof.
  intros (Hm & Hp & body & Hs & Hb).
  assert (Hr : (length r mod 4)%nat = 0%nat) by by rewrite quartets_mod in Hm.
  pose proof (f_equal length Hs) as Hl. rewrite length_app, length_replicate in Hl.
  simpl in Hl. destruct body as [|a0 [|a1 [|a2 [|a3 body]]]]; simpl in Hl; try lia.
  - assert (pad = 2%nat) as -> by lia. injection Hs as -> -> -> -> ->.
    apply Forall_cons in Hb as [? [? _]%Forall_cons]. split_and!; try done. right. auto.
  - assert (pad = 1%nat ∨ pad = 2%nat) as [-> | ->] by lia.
    + injection Hs as -> -> -> -> ->.
      apply Forall_cons in Hb as [? [? [? _]%Forall_cons]%Forall_cons].
      split_and!; try done. right. auto.
    + injection Hs as -> -> -> -> ->. done.
  - simpl in Hs. injection Hs as -> -> -> -> Hs.
    do 4 apply Forall_cons in Hb as [? Hb].
    split_and!; try done. left. split_and!; try done. unfold b64_form. eauto.
Qed.

Lemma quartets_length (s : text) c0 c1 c2 c3 :
  (length (c0 :: c1 :: c2 :: c3 :: s) / 4 = S (length s / 4))%nat.
Proof.
  replace (length (c0 :: c1 :: c2 :: c3 :: s)) with (length s + 1 * 4)%nat by (simpl; lia).
  rewrite Nat.div_add by lia. lia.
Qed.

Lemma b64_rec_form s :
  (length s mod 4)%nat = 0%nat → ∀ pad out, b64_form s pad →
  ∃ bs, b64_rec s out = (true, out ++ bs) ∧ (length bs + pad = length s / 4 * 3)%nat.
Proof.
  revert s. refine (quartet_ind _ _ _); [intros pad out Hf|intros c0 c1 c2 c3 r IH pad out Hf].
  - destruct Hf as (_ & _ & body & He & _). symmetry in He.
    apply app_nil in He as [-> He]. destruct pad; [|done].
    exists []. by rewrite app_nil_r.
  - rewrite quartets_length. cbn [b64_rec].
    apply b64_form_quartet_inv in Hf as ([s0 Hs0] & [s1 Hs1] & Hf).
    pose proof (sextet_bounds _ _ Hs0). pose proof (sextet_bounds _ _ Hs1).
    destruct Hf as [([s2 Hs2] & [s3 Hs3] & Hf)|(-> & -> & [[[s2 Hs2] ->]|[-> ->]])].
    + pose proof (sextet_bounds _ _ Hs2). pose proof (sextet_bounds _ _ Hs3).
      rewrite (quartet_letters _ _ _ _ _ s0 s1 s2 s3), emit_full by done.
      destruct (IH pad (out ++ [s0 * 4 + s1 / 16; s1 mod 16 * 16 + s2 / 4; s2 mod 4 * 64 + s3]) Hf)
        as (bs & -> & Hl).
      eexists. rewrite <- app_assoc. split; [done|]. rewrite length_app. cbn [length]. lia.
    + pose proof (sextet_bounds _ _ Hs2). rewrite bool_decide_eq_true_2 by done.
      rewrite (quartet_pad1 _ _ _ s0 s1 s2), emit_pad1 by done. by eexists.
    + rewrite bool_decide_eq_true_2 by done.
      rewrite (quartet_pad2 _ _ s0 s1), emit_pad2 by done. by eexists.
Qed.

Lemma b64_rec_true s :
  (length s mod 4)%nat = 0%nat → ∀ out, (b64_rec s out).1 = true → ∃ pad, b64_form s pad.
Proof.
  revert s. refine (quartet_ind _ _ _); [intros out Ht|intros c0 c1 c2 c3 r IH out Ht].
  - exists 0%nat. apply b64_form_nil.
  - cbn [b64_rec] in Ht. destruct (quartet_loop (bool_decide (r = [])) [c0; c1; c2; c3] 0 _) as [v|] eqn:Hv; [|done].
    apply quartet_inv in Hv as (s0 & s1 & H0 & H1 & Hv).
    destruct Hv as [(s2 & s3 & H2 & H3 & _)|(Hr & -> & Hv)].
    + destruct (IH _ Ht) as [pad Hf]. exists pad. by apply b64_form_quartet.
    + apply bool_decide_eq_true in Hr as ->.
      destruct Hv as [(s2 & H2 & _)|(-> & _)]; [exists 1%nat|exists 2%nat];
        (split_and!; [done|lia|]).
      * exists [c0; c1; c2]. split; [done|]. by repeat (apply Forall_cons; split).
      * exists [c0; c1]. split; [done|]. by repeat (apply Forall_cons; split).
Qed.

(** [base64_decode] accepts exactly the texts of RFC 4648: whole quartets
    over the alphabet with padding only as the last one or two characters; it
    then appends three bytes for each quartet less one for each padding
    character, and it never touches the bytes already in the output, accepting
    or not. *)
Theorem base64_decode_accepts s out :
  ((base64_decode s out).1 = true ↔ ∃ pad, b64_form s pad)
  ∧ (∀ pad, b64_form s pad →
       ∃ bs, base64_decode s out = (true, out ++ bs)
             ∧ (length bs + pad = length s / 4 * 3)%nat)
  ∧ (∃ bs, (base64_decode s out).2 = out ++ bs).
Proof.
  rewrite base64_decode_rec. case_bool_decide as Hm.
  - split_and!; [split| |apply b64_rec_appends].
    + by apply b64_rec_true.
    + intros [pad Hf]. by destruct (b64_rec_form s Hm pad out Hf) as (bs & -> & _).
    + intros pad Hf. by apply b64_rec_form.
  - split_and!; [split; [done|]| |exists []; by rewrite app_nil_r].
    + by intros (? & ? & _).
    + by intros ? (? & _).
Qed.

Lemma base64_round_trip_witness :
  base64_decode (b64_encode [104; 101; 108; 108; 111]) [7]
  = (true, [7] ++ [104; 101; 108; 108; 111]).
Proof. apply (base64_round_trip [104; 101; 108; 108; 111] [7]). solve_bytes. Defined.

Lemma base64_decode_accepts_witness :
  ∃ bs, base64_decode (str "aGVsbG8=") [] = (true, [] ++ bs)
        ∧ (length bs + 1 = length (str "aGVsbG8=") / 4 * 3)%nat.
Proof.
  apply (base64_decode_accepts (str "aGVsbG8=") []). split_and!; [done|lia|].
  exists (str "aGVsbG8"). split; [done|]. apply (bool_decide_eq_true_1 (Forall _ _)).
  by vm_compute.
Defined.

(** The texts of [tests/test_registration.cpp]. *)
Example base64_examples :
  (base64_decode (str "AAECAwQF") [], base64_decode (str "aGVsbG8=") [],
   (λ s, (base64_decode (str s) []).1) <$>
     ["!!!!"; "abc"; "===="; "=AAA"; "A=AA"; "AAA=AAA="; "AAAA"; "AA=="; "AAA="]%string)
  = ((true, [0; 1; 2; 3; 4; 5]), (true, [104; 101; 108; 108; 111]),
     [false; false; false; false; false; false; true; true; true]).
Proof. vm_compute. reflexivity. Qed.
