(* ===== verification/Config.v ===== *)
(** * The configuration file

    [include/cfd/config.hpp] and [src/config.cpp]: the record [Config] and the
    line-by-line parser [Config::load_from_file]. The text of the file is an
    argument; [None] is a file that cannot be opened. *)
From S2P Require Import Prelude Cidr.
Local Open Scope Z_scope.

(** ** Data *)

Record Config := mkConfig {
  tunnel_id : text;
  account_tag : text;
  tunnel_secret_b64 : text;
  edge_host : text;
  edge_port : Z;
  tun_name : text;
  tun_local : Cidr;
  routed_cidrs : list Cidr;
  ca_bundle_path : text;
  client_cert_path : text;
  client_key_path : text;
}.

(** [Config{}], with the default member initialisers. *)
Definition Config_default : Config :=
  mkConfig [] [] [] (str "region1.argotunnel.com") 7844 (str "cfd0")
    (mkCidr (mkIpAddr V4 zero16) 0) [] [] [] [].

(** ** [trim] *)

(** [std::isspace] in the C locale. *)
Definition isspace (c : ascii) : bool :=
  (code c =? 32) || ((9 <=? code c) && (code c <=? 13)).

(** The [pop_back] loop; each round removes a character. *)
Fixpoint trim_back (fuel : nat) (s : text) : text :=
  match fuel with
  | O => s
  | S fuel' =>
      match last s with
      | Some c => if isspace c then trim_back fuel' (removelast s) else s
      | None => s
      end
  end.

(** The scan for the first character that stays, and [substr] from it. *)
Fixpoint trim_front (s : text) : text :=
  match s with
  | [] => []
  | c :: s' => if isspace c then trim_front s' else s
  end.

Definition trim (s : text) : text := trim_front (trim_back (length s) s).

(** ** The standard library's readers *)

(** The lines [std::getline] returns one after the other: a last piece that is
    empty is not a line. *)
Definition newline : ascii := "010"%char.

Definition getlines (content : text) : list text :=
  let ws := split_on newline content in
  match last ws with
  | Some [] => removelast ws
  | _ => ws
  end.

(** [std::from_chars] for [unsigned], base 10: the error, the number of
    characters consumed and the value stored. *)
Inductive errc := invalid_argument | result_out_of_range.

Fixpoint digit_prefix (s : text) : text :=
  match s with
  | c :: s' => if is_digit c then c :: digit_prefix s' else []
  | [] => []
  end.

Definition from_chars (s : text) (value : Z) : option errc * nat * Z :=
  let ds := digit_prefix s in
  match ds with
  | [] => (Some invalid_argument, 0%nat, value)
  | _ =>
      if 2 ^ 32 <=? dec_value ds then (Some result_out_of_range, length ds, value)
      else (None, length ds, dec_value ds)
  end.

(** ** [Config::load_from_file] *)

Section load.
Context `{Inet}.

(** The branch of [edge_port]: the port, [None] for the error. *)
Definition parse_port (v : text) : option Z :=
  let '(ec, p, port) := from_chars v 0 in
  match ec with
  | Some _ => None
  | None =>
      if negb (p =? length v)%nat || (port =? 0) || (65535 <? port) then None
      else Some (u16 port)
  end.

Definition is_key (k : text) (name : string) : bool := bool_decide (k = str name).

(** The chain of [if ... else if] on the key: the new configuration, or the
    error message of [return false]. *)
Definition set_key (k v : text) (c : Config) : text + Config :=
  let '(mkConfig ti at_ ts eh ep tn tl rc ca cc ck) := c in
  if is_key k "tunnel_id" then inr (mkConfig v at_ ts eh ep tn tl rc ca cc ck)
  else if is_key k "account_tag" then inr (mkConfig ti v ts eh ep tn tl rc ca cc ck)
  else if is_key k "tunnel_secret_b64" then inr (mkConfig ti at_ v eh ep tn tl rc ca cc ck)
  else if is_key k "edge_host" then inr (mkConfig ti at_ ts v ep tn tl rc ca cc ck)
  else if is_key k "edge_port" then
    match parse_port v with
    | None => inl (str "bad edge_port: " ++ v)
    | Some port => inr (mkConfig ti at_ ts eh port tn tl rc ca cc ck)
    end
  else if is_key k "tun_name" then inr (mkConfig ti at_ ts eh ep v tl rc ca cc ck)
  else if is_key k "tun_local" then
    match Cidr_parse v with
    | None => inl (str "bad tun_local: " ++ v)
    | Some l => inr (mkConfig ti at_ ts eh ep tn l rc ca cc ck)
    end
  else if is_key k "route" then
    match Cidr_parse v with
    | None => inl (str "bad route: " ++ v)
    | Some r => inr (mkConfig ti at_ ts eh ep tn tl (rc ++ [r]) ca cc ck)
    end
  else if is_key k "ca_bundle_path" then inr (mkConfig ti at_ ts eh ep tn tl rc v cc ck)
  else if is_key k "client_cert_path" then inr (mkConfig ti at_ ts eh ep tn tl rc ca v ck)
  else if is_key k "client_key_path" then inr (mkConfig ti at_ ts eh ep tn tl rc ca cc v)
  else inl (str "unknown key: " ++ k).

(** One round of the [while] loop. *)
Definition load_line (lineno : Z) (line : text) (out : Config) : text + Config :=
  let line := trim line in
  match line with
  | [] => inr out
  | c :: _ =>
      if bool_decide (c = "#"%char) then inr out
      else
        match find_char "=" line with
        | None => inl (str "line " ++ dec_of lineno ++ str ": missing '='")
        | Some eq =>
            let k := trim (take eq line) in
            let v := trim (drop (S eq) line) in
            set_key k v out
        end
  end.

(** The loop: the result, the configuration and the error text it leaves. *)
Fixpoint load_lines (lines : list text) (lineno : Z) (out : Config) (err : text)
    : bool * Config * text :=
  match lines with
  | [] => (true, out, err)
  | line :: lines' =>
      let lineno := u32 (lineno + 1) in
      match load_line lineno line out with
      | inl e => (false, out, e)
      | inr out' => load_lines lines' lineno out' err
      end
  end.

Definition load_from_file (path : text) (file : option text) (out : Config) (err : text)
    : bool * Config * text :=
  match file with
  | None => (false, out, str "cannot open " ++ path)
  | Some content => load_lines (getlines content) 0 out err
  end.

End load.

(** ** Specifications *)

(** The type of a configuration: a port and blocks in range. *)
Definition config_ok (c : Config) : Prop :=
  1 <= edge_port c <= 65535 ∧ cidr_ok (tun_local c) ∧ Forall cidr_ok (routed_cidrs c).

(** The assignments of a file: the key and the value of each significant line. *)
Definition assignment (line : text) : option (text * text) :=
  let line := trim line in
  match line with
  | [] => None
  | c :: _ =>
      if bool_decide (c = "#"%char) then None
      else
        (λ eq, (trim (take eq line), trim (drop (S eq) line))) <$> find_char "=" line
  end.

Definition assignments (lines : list text) : list (text * text) := omap assignment lines.

(** The values assigned to a key, in order. *)
Definition values_of (key : string) (lines : list text) : list text :=
  (assignments lines) ≫= λ kv, if is_key kv.1 key then [kv.2] else [].

(** The value a scalar key ends with. *)
Definition final_value (key : string) (lines : list text) (old : text) : text :=
  default old (last (values_of key lines)).

(** ** [trim] *)

Abbreviation spaces := (Forall (λ c, isspace c = true)).

Lemma trim_back_spec fuel s :
  ∃ b, s = trim_back fuel s ++ b ∧ spaces b
       ∧ ((length s ≤ fuel)%nat → ∀ c, last (trim_back fuel s) = Some c → isspace c = false).
Proof.
  revert s. induction fuel as [|fuel IH]; intros s; simpl.
  - exists []. rewrite app_nil_r. split_and!; try done. intros Hl. by destruct s; simpl in Hl; [|lia].
  - destruct (last s) as [c|] eqn:Hc.
    2: { exists []. rewrite app_nil_r. split_and!; try done. by rewrite Hc. }
    apply last_Some in Hc as [s' ->].
    destruct (isspace c) eqn:Hsp.
    + rewrite removelast_last. destruct (IH s') as (b & Hs & Hb & Hl).
      exists (b ++ [c]). rewrite app_assoc, <- Hs. split_and!; [done| |].
      * apply Forall_app. split; [done|by repeat constructor].
      * rewrite length_app. simpl. intros. eapply Hl; [lia|done].
    + exists []. rewrite app_nil_r. split_and!; try done. intros _ c'.
      rewrite last_snoc. by intros [= <-].
Qed.

Lemma trim_front_spec s :
  ∃ a, s = a ++ trim_front s ∧ spaces a
       ∧ ∀ c, head (trim_front s) = Some c → isspace c = false.
Proof.
  induction s as [|c s (a & Hs & Ha & Hh)]; simpl; [by exists []|].
  destruct (isspace c) eqn:Hc.
  - exists (c :: a). simpl. rewrite <- Hs. split_and!; [done|by constructor|done].
  - exists []. split_and!; try done. simpl. by intros ? [= <-].
Qed.

(** [trim] removes white space at both ends and nothing else: the text is
    the result with only white space around it, and the result neither starts
    nor ends with white space. *)
Theorem trim_spec s :
  ∃ a b, s = a ++ trim s ++ b ∧ spaces a ∧ spaces b
    ∧ (∀ c, head (trim s) = Some c → isspace c = false)
    ∧ (∀ c, last (trim s) = Some c → isspace c = false).
Proof.
  unfold trim. destruct (trim_back_spec (length s) s) as (b & Hs & Hb & Hl).
  destruct (trim_front_spec (trim_back (length s) s)) as (a & Ht & Ha & Hh).
  exists a, b. split_and!; try done.
  - by rewrite app_assoc, <- Ht.
  - intros c Hc. apply Hl; [done|]. rewrite Ht, last_app, Hc. done.
Qed.

(** ** The port *)

Lemma digit_prefix_digits s : digits (digit_prefix s).
Proof.
  induction s as [|c s IH]; simpl; [done|]. destruct (is_digit c) eqn:Hc; by constructor.
Qed.

Lemma digit_prefix_all s : length (digit_prefix s) = length s ↔ digits s.
Proof.
  split.
  - induction s as [|c s IH]; simpl; [done|]. destruct (is_digit c) eqn:Hc; simpl; [|done].
    intros [= Hl]. constructor; auto.
  - intros Hs. induction Hs as [|c s Hc Hs IH]; simpl; [done|]. rewrite Hc. simpl. lia.
Qed.

Lemma digit_prefix_id s : digits s → digit_prefix s = s.
Proof. induction 1 as [|c s Hc Hs IH]; simpl; [done|]. by rewrite Hc, IH. Qed.

Lemma parse_port_range v p : parse_port v = Some p → 1 <= p <= 65535.
Proof.
  unfold parse_port, from_chars. destruct (digit_prefix v) as [|d ds] eqn:Hd; [done|].
  rewrite <- Hd. case_if. destruct (_ || _)%bool eqn:Hb; [done|]. intros [= <-]. bool_facts.
  pose proof (dec_value_from_ge 0 _ ltac:(lia) (digit_prefix_digits v)).
  rewrite u16_small; lia.
Qed.

(** The [edge_port] branch accepts exactly the non-empty strings of digits
    with a value between 1 and 65535, whatever their length (so neither the
    32-bit [from_chars] nor the 16-bit cast can wrap), and stores that value. *)
Theorem parse_port_spec v p :
  parse_port v = Some p ↔ v ≠ [] ∧ digits v ∧ dec_value v = p ∧ 1 <= p <= 65535.
Proof.
  unfold parse_port, from_chars. split.
  - destruct (digit_prefix v) as [|d ds] eqn:Hd; [done|]. rewrite <- Hd.
    case_if. destruct (length (digit_prefix v) =? length v)%nat eqn:Hl; [|done].
    apply Nat.eqb_eq, digit_prefix_all in Hl as Hv. rewrite (digit_prefix_id v Hv) in *.
    pose proof (dec_value_from_ge 0 v ltac:(lia) Hv).
    cbn [negb orb]. destruct (_ || _)%bool eqn:Hb; [done|]. intros [= <-]. bool_facts.
    rewrite u16_small by lia. split_and!; try done; try lia. by intros ->.
  - intros (Hne & Hv & <- & Hr). rewrite (digit_prefix_id v Hv).
    destruct v as [|d v]; [done|]. rewrite (proj2 (Z.leb_gt _ _)) by lia.
    rewrite Nat.eqb_refl, (proj2 (Z.eqb_neq _ _)), (proj2 (Z.ltb_ge _ _)) by lia. cbn [negb orb].
    by rewrite u16_small by lia.
Qed.

(** ** The keys *)

Lemma is_key_true k name : is_key k name = true → k = str name.
Proof. apply bool_decide_eq_true. Qed.

(** Case on the key of a successful assignment. *)
Ltac key_cases H :=
  unfold set_key in H;
  repeat match type of H with
  | context [is_key ?k ?name] =>
      let E := fresh "Ek" in destruct (is_key k name) eqn:E;
      [apply is_key_true in E; subst k|clear E]
  end.

Section fields.
Context `{Inet}.

(** A successful assignment sets its own field and no other. *)
Lemma set_key_fields k v c c' :
  set_key k v c = inr c' →
  tunnel_id c' = (if is_key k "tunnel_id" then v else tunnel_id c)
  ∧ account_tag c' = (if is_key k "account_tag" then v else account_tag c)
  ∧ tunnel_secret_b64 c' = (if is_key k "tunnel_secret_b64" then v else tunnel_secret_b64 c)
  ∧ edge_host c' = (if is_key k "edge_host" then v else edge_host c)
  ∧ tun_name c' = (if is_key k "tun_name" then v else tun_name c)
  ∧ ca_bundle_path c' = (if is_key k "ca_bundle_path" then v else ca_bundle_path c)
  ∧ client_cert_path c' = (if is_key k "client_cert_path" then v else client_cert_path c)
  ∧ client_key_path c' = (if is_key k "client_key_path" then v else client_key_path c)
  ∧ (if is_key k "edge_port" then parse_port v = Some (edge_port c')
     else edge_port c' = edge_port c)
  ∧ (if is_key k "tun_local" then Cidr_parse v = Some (tun_local c')
     else tun_local c' = tun_local c)
  ∧ (if is_key k "route" then ∃ r, Cidr_parse v = Some r ∧ routed_cidrs c' = routed_cidrs c ++ [r]
     else routed_cidrs c' = routed_cidrs c).
Proof.
  destruct c as [ti at_ ts eh ep tn tl rc ca cc ck]. intros Hk. key_cases Hk; try done;
    try (destruct (parse_port v) as [x|] eqn:Hv; [|done]);
    try (destruct (Cidr_parse v) as [x|] eqn:Hv; [|done]);
    injection Hk as <-; split_and!; try reflexivity; try exact Hv.
  by exists x.
Qed.

Lemma set_key_ok `{!InetLaws} k v c c' : config_ok c → set_key k v c = inr c' → config_ok c'.
Proof.
  intros (Hp & Hl & Hr) Hk. apply set_key_fields in Hk as (_&_&_&_&_&_&_&_&Kp&Kl&Kr).
  split_and!.
  1,2: destruct (is_key k "edge_port"); [apply parse_port_range in Kp|]; lia.
  - destruct (is_key k "tun_local"); [by eapply Cidr_parse_ok|by rewrite Kl].
  - destruct (is_key k "route"); [|by rewrite Kr]. destruct Kr as (r & Hpr & ->).
    apply Forall_app. split; [done|]. constructor; [by eapply Cidr_parse_ok|done].
Qed.

Lemma load_line_inv n line c c' :
  load_line n line c = inr c' →
  (assignment line = None ∧ c' = c)
  ∨ ∃ k v, assignment line = Some (k, v) ∧ set_key k v c = inr c'.
Proof.
  unfold load_line, assignment. intros Hl.
  destruct (trim line) as [|x l]; [left; by simplify_eq|].
  case_bool_decide; [left; by simplify_eq|].
  destruct (find_char _ _) as [eq|]; [|done]. right. by do 2 eexists.
Qed.

(** However a load ends, an in-range configuration stays in range: the port is
    between 1 and 65535 and every block has a prefix length valid for its family
    (the default configuration is in range). *)
Lemma load_from_file_ok `{!InetLaws} path file out err b out' err' :
  config_ok out → load_from_file path file out err = (b, out', err') → config_ok out'.
Proof.
  intros Hok. unfold load_from_file. destruct file as [content|]; [|by intros [= <- <- <-]].
  generalize 0 as n. revert out Hok.
  induction (getlines content) as [|line lines IH]; intros out Hok n; simpl.
  - by intros [= <- <- <-].
  - destruct (load_line _ line out) as [e|out1] eqn:Hl; [by intros [= <- <- <-]|].
    apply IH. apply load_line_inv in Hl as [[_ ->]|(k & v & _ & Hk)]; [done|].
    by eapply set_key_ok.
Qed.

Lemma values_of_cons key line lines :
  values_of key (line :: lines)
  = match assignment line with
    | Some (k, v) => if is_key k key then [v] else []
    | None => []
    end ++ values_of key lines.
Proof.
  unfold values_of, assignments. simpl. by destruct (assignment line) as [[k v]|].
Qed.

Lemma final_value_cons key line lines old :
  final_value key (line :: lines) old
  = final_value key lines
      (match assignment line with
       | Some (k, v) => if is_key k key then v else old
       | None => old
       end).
Proof.
  unfold final_value. rewrite values_of_cons, last_app.
  destruct (last (values_of key lines)); [done|].
  destruct (assignment line) as [[k v]|]; [|done]. by destruct (is_key k key).
Qed.


(** C28: a load fails exactly at the first line that is not accepted: the lines
    before it were loaded, their configuration is what is left in the output,
    the message is that line's (a missing "=" is reported with the line's
    number), and the lines after it are not looked at. *)
Theorem load_lines_failure lines n out err out' err' :
  0 <= n → n + Z.of_nat (length lines) < 2 ^ 32 →
  load_lines lines n out err = (false, out', err') ↔
  ∃ before line after,
    lines = before ++ line :: after
    ∧ load_lines before n out err = (true, out', err)
    ∧ load_line (n + Z.of_nat (length before) + 1) line out' = inl err'.
Proof.
  revert n out. induction lines as [|l lines IH]; intros n out Hn Hlen.
  { split; [done|]. intros (before & line & after & He & _). by destruct before. }
  cbn [load_lines length] in *. rewrite u32_small by lia.
  destruct (load_line (n + 1) l out) as [e|out1] eqn:Hl.
  - split.
    + intros [= <- <-]. exists [], l, lines. split_and!; try done.
      simpl. by rewrite Z.add_0_r.
    + intros (before & line & after & He & Hb & Hline). destruct before as [|l' before].
      * injection He as <- <-. injection Hb as <-. simpl in Hline.
        rewrite Z.add_0_r, Hl in Hline. by simplify_eq.
      * injection He as <- ->. cbn [load_lines] in Hb.
        rewrite u32_small, Hl in Hb by lia. done.
  - rewrite IH by lia. split.
    + intros (before & line & after & -> & Hb & Hline). exists (l :: before), line, after.
      cbn [load_lines length]. rewrite u32_small, Hl by lia. split_and!; try done.
      by replace (n + Z.of_nat (S (length before)) + 1)
        with (n + 1 + Z.of_nat (length before) + 1) by lia.
    + intros (before & line & after & He & Hb & Hline). destruct before as [|l' before].
      * injection He as <- <-. injection Hb as <-. simpl in Hline.
        rewrite Z.add_0_r in Hline. congruence.
      * injection He as <- ->. cbn [load_lines length] in Hb, Hline.
        rewrite u32_small, Hl in Hb by lia. exists before, line, after. split_and!; try done.
        by replace (n + 1 + Z.of_nat (length before) + 1)
          with (n + Z.of_nat (S (length before)) + 1) by lia.
Qed.
End fields.

(** ** Witnesses *)
From S2P Require Import InetModel.

Definition sample_file : text :=
  str "# home" ++ [newline] ++ str "tunnel_id = abc" ++ [newline]
  ++ str "route = 10.0.0.0/8" ++ [newline] ++ str " tunnel_id=x " ++ [newline].

Definition sample_config : Config :=
  mkConfig (str "x") [] [] (str "region1.argotunnel.com") 7844 (str "cfd0")
    (mkCidr (mkIpAddr V4 zero16) 0) [block_10] [] [] [].

Lemma Config_default_ok : config_ok Config_default.
Proof.
  split; [simpl; lia|]. split; [|by constructor].
  split; [split; [done|solve_bytes]|simpl; lia].
Qed.


Lemma load_lines_failure_witness :
  load_lines [str "a"] 0 Config_default [] = (false, Config_default, str "line 1: missing '='").
Proof.
  apply (load_lines_failure [str "a"] 0 Config_default [] Config_default
           (str "line 1: missing '='")); [lia|simpl; lia|].
  exists [], (str "a"), []. by vm_compute.
Defined.
