(* ===== verification/UniqueFd.v ===== *)
(** * Owned file descriptors

    [include/cfd/unique_fd.hpp]: the class [UniqueFd]. Its objects live in a
    store, the descriptors in the kernel's table, and every operation of the
    class is a function on both; a client is a sequence of operations that
    respects the class's contract. *)
From S2P Require Import Prelude.
Local Open Scope Z_scope.
Local Open Scope cfd_scope.

(** ** State *)

(** [objs]: the live objects and their [fd_]; [opened]: the descriptors open in
    the kernel; [loose]: those the client holds as plain integers, outside any
    object; [closed]: the descriptors closed so far; [bad]: the calls of
    [::close] on a descriptor that was not open. *)
Record world := mkWorld {
  objs : gmap nat Z;
  opened : gset Z;
  loose : gset Z;
  closed : list Z;
  bad : list Z;
}.

Definition world0 : world := mkWorld ∅ ∅ ∅ [] [].

(** [::close(fd)]. *)
Definition close (fd : Z) (w : world) : world :=
  if decide (fd ∈ opened w)
  then mkWorld (objs w) (opened w ∖ {[fd]}) (loose w) (closed w ++ [fd]) (bad w)
  else mkWorld (objs w) (opened w) (loose w) (closed w) (bad w ++ [fd]).

Definition set_obj (i : nat) (fd : Z) (w : world) : world :=
  mkWorld (<[i := fd]> (objs w)) (opened w) (loose w) (closed w) (bad w).

(** ** The class *)

(** [UniqueFd()] and [UniqueFd(int)] at the address [i]. *)
Definition ctor_default (i : nat) (w : world) : run world := Done (set_obj i (-1) w).
Definition ctor (i : nat) (fd : Z) (w : world) : run world := Done (set_obj i fd w).

(** [get], [valid]; an operation on an object that is not alive is undefined. *)
Definition get (i : nat) (w : world) : run Z := run_opt (objs w !! i).
Definition valid (i : nat) (w : world) : run bool := let! fd := get i w in Done (0 <=? fd).

(** [reset]. *)
Definition reset (i : nat) (new_fd : Z) (w : world) : run world :=
  let! fd := get i w in
  Done (set_obj i new_fd (if (0 <=? fd) && negb (fd =? new_fd) then close fd w else w)).

(** [release]: the descriptor goes back to the client. *)
Definition release (i : nat) (w : world) : run (Z * world) :=
  let! t := get i w in Done (t, set_obj i (-1) w).

(** [UniqueFd(UniqueFd&&)]. *)
Definition move_ctor (i j : nat) (w : world) : run world :=
  let! fd := get j w in Done (set_obj j (-1) (set_obj i fd w)).

(** [operator=(UniqueFd&&)]. *)
Definition move_assign (i j : nat) (w : world) : run world :=
  if (i =? j)%nat then Done w
  else
    let! fd := get j w in
    let! w := reset i fd w in
    Done (set_obj j (-1) w).

(** [~UniqueFd()]. *)
Definition dtor (i : nat) (w : world) : run world :=
  let! w := reset i (-1) w in
  Done (mkWorld (delete i (objs w)) (opened w) (loose w) (closed w) (bad w)).

(** ** Clients *)

Inductive op :=
| OpOpen (fd : Z)               (** the kernel opens a descriptor *)
| OpDefault (i : nat)
| OpCtor (i : nat) (fd : Z)
| OpMoveCtor (i j : nat)
| OpMoveAssign (i j : nat)
| OpReset (i : nat) (fd : Z)
| OpRelease (i : nat)
| OpDtor (i : nat).

Definition set_opened (fd : Z) (w : world) : world :=
  mkWorld (objs w) ({[fd]} ∪ opened w) ({[fd]} ∪ loose w) (closed w) (bad w).

(** The client gives a descriptor away, or takes one back. *)
Definition give (fd : Z) (w : world) : world :=
  mkWorld (objs w) (opened w) (loose w ∖ {[fd]}) (closed w) (bad w).
Definition take_back (fd : Z) (w : world) : world :=
  mkWorld (objs w) (opened w) (if 0 <=? fd then {[fd]} ∪ loose w else loose w)
    (closed w) (bad w).

Definition step (o : op) (w : world) : run world :=
  match o with
  | OpOpen fd => Done (set_opened fd w)
  | OpDefault i => ctor_default i w
  | OpCtor i fd => ctor i fd (give fd w)
  | OpMoveCtor i j => move_ctor i j w
  | OpMoveAssign i j => move_assign i j w
  | OpReset i fd => reset i fd (give fd w)
  | OpRelease i => let! r := release i w in Done (take_back r.1 r.2)
  | OpDtor i => dtor i w
  end.

(** A descriptor a client may hand to an object: no descriptor, or one it
    holds. *)
Definition may_give (fd : Z) (w : world) : Prop := fd < 0 ∨ fd ∈ loose w.

(** The contract: constructors take a fresh address, the other operations a
    live object; the kernel opens descriptors that are not open. *)
Definition allowed (o : op) (w : world) : Prop :=
  match o with
  | OpOpen fd => 0 <= fd ∧ fd ∉ opened w
  | OpDefault i => objs w !! i = None
  | OpCtor i fd => objs w !! i = None ∧ may_give fd w
  | OpMoveCtor i j => objs w !! i = None ∧ is_Some (objs w !! j)
  | OpMoveAssign i j => is_Some (objs w !! i) ∧ is_Some (objs w !! j)
  | OpReset i fd => is_Some (objs w !! i) ∧ (may_give fd w ∨ objs w !! i = Some fd)
  | OpRelease i | OpDtor i => is_Some (objs w !! i)
  end.

#[export] Instance allowed_dec o w : Decision (allowed o w).
Proof. destruct o; unfold allowed, may_give; apply _. Defined.

(** A run of a client that keeps the contract. *)
Inductive client : world → list op → world → Prop :=
| client_nil w : client w [] w
| client_cons w o w1 os w' :
    allowed o w → step o w = Done w1 → client w1 os w' → client w (o :: os) w'.

(** ** Invariant *)

(** Valid descriptors of different objects differ, an object's descriptor is
    open and not loose, and the open descriptors are those of the objects and
    the loose ones; nothing was closed twice or while closed. *)
Definition owned (w : world) (fd : Z) : Prop := 0 <= fd ∧ ∃ i, objs w !! i = Some fd.

Record inv (w : world) : Prop := {
  inv_inj i j fd : 0 <= fd → objs w !! i = Some fd → objs w !! j = Some fd → i = j;
  inv_open fd : fd ∈ opened w ↔ owned w fd ∨ fd ∈ loose w;
  inv_loose fd : fd ∈ loose w → 0 <= fd ∧ ¬ owned w fd;
  inv_bad : bad w = [];
}.

(** The descriptors a run opens. *)
Fixpoint opens (os : list op) : nat :=
  match os with
  | [] => O
  | OpOpen _ :: os' => S (opens os')
  | _ :: os' => opens os'
  end.

(** ** Preservation *)

(** [i] gives its descriptor up to the client. *)
Lemma inv_release w i fd :
  inv w → objs w !! i = Some fd → inv (take_back fd (set_obj i (-1) w)).
Proof.
  intros [Hinj Hopen Hloose Hbad] Hi. split; unfold owned in *; simpl.
  - intros a b x Hx Ha Hb. destruct (decide (a = i)) as [->|], (decide (b = i)) as [->|];
      simplify_map_eq; try lia. by eapply Hinj.
  - intros x. rewrite Hopen. destruct (0 <=? fd) eqn:Hfd; bool_facts.
    + rewrite elem_of_union, elem_of_singleton. split.
      * intros [[Hx [j Hj]]|Hl]; [|auto]. destruct (decide (j = i)) as [->|]; simplify_eq; [auto|].
        left. split; [done|]. exists j. by simplify_map_eq.
      * intros [[Hx [j Hj]]|[->|Hl]]; [|by left; eauto|by right].
        destruct (decide (j = i)) as [->|]; simplify_map_eq; [lia|]. left. eauto.
    + split; (intros [[Hx [j Hj]]|Hl]; [left; split; [done|]|by right]); exists j;
        destruct (decide (j = i)) as [->|]; simplify_map_eq; done || lia.
  - intros x Hx. destruct (decide (x = fd)) as [->|Hne].
    + destruct (0 <=? fd) eqn:Hfd; bool_facts; [|by apply Hloose in Hx as [? _]; lia].
      split; [done|]. intros [_ [j Hj]].
      destruct (decide (j = i)) as [->|Hji]; simplify_map_eq; [lia|]. by apply Hji, (Hinj j i fd).
    + assert (x ∈ loose w) as Hl by (destruct (0 <=? fd); set_solver).
      apply Hloose in Hl as [? Hno]. split; [done|]. intros [_ [j Hj]]. apply Hno.
      split; [done|]. exists j. destruct (decide (j = i)) as [->|]; simplify_map_eq; done || lia.
  - done.
Qed.

(** [i] holds nothing and takes a descriptor of the client. *)
Lemma inv_adopt w i fd :
  inv w → (∀ x, objs w !! i = Some x → x < 0) → may_give fd w →
  inv (set_obj i fd (give fd w)).
Proof.
  intros [Hinj Hopen Hloose Hbad] Hi Hfd. split; unfold owned in *; simpl.
  - intros a b x Hx Ha Hb. destruct (decide (a = i)) as [->|], (decide (b = i)) as [->|];
      simplify_map_eq; try done; [| |by eapply Hinj]; exfalso;
      (destruct Hfd as [?|Hl]; [lia|]); apply Hloose in Hl as [_ Hno]; apply Hno; eauto.
  - intros x. rewrite Hopen, elem_of_difference, elem_of_singleton. split.
    + intros [[Hx [j Hj]]|Hl].
      * left. split; [done|]. exists j. destruct (decide (j = i)) as [->|]; simplify_map_eq; [|done].
        apply Hi in Hj. lia.
      * destruct (decide (x = fd)) as [->|]; [|auto]. left.
        split; [by apply Hloose in Hl as [? _]|]. exists i. by simplify_map_eq.
    + intros [[Hx [j Hj]]|[Hl _]]; [|auto]. destruct (decide (j = i)) as [->|]; simplify_map_eq.
      * destruct Hfd; [lia|auto].
      * left. eauto.
  - intros x [Hl Hne]%elem_of_difference. apply Hloose in Hl as [? Hno]. split; [done|].
    intros [_ [j Hj]]. apply Hno. split; [done|]. exists j.
    destruct (decide (j = i)) as [->|]; simplify_map_eq; [set_solver|done].
  - done.
Qed.

(** The client's own [close]. *)
Lemma inv_close w fd : inv w → fd ∈ loose w → inv (close fd (give fd w)).
Proof.
  intros [Hinj Hopen Hloose Hbad] Hl. unfold close. simpl.
  rewrite decide_True by (apply Hopen; auto). split; unfold owned in *; simpl; try done.
  - intros x. rewrite !elem_of_difference, Hopen, elem_of_singleton. split; [tauto|].
    intros [[Hx Ho]|[? ?]]; [|auto]. split; [auto|]. intros ->. apply Hloose in Hl. tauto.
  - intros x [Hx _]%elem_of_difference. by apply Hloose.
Qed.

Lemma inv_open_step w fd : inv w → 0 <= fd → fd ∉ opened w → inv (set_opened fd w).
Proof.
  intros [Hinj Hopen Hloose Hbad] Hfd Hno. split; unfold owned in *; simpl; try done.
  - intros x. rewrite !elem_of_union, Hopen. tauto.
  - intros x [->%elem_of_singleton|Hx]%elem_of_union; [|by apply Hloose]. split; [done|].
    intros Ho. apply Hno, Hopen. auto.
Qed.

Lemma inv_delete w i fd :
  inv w → objs w !! i = Some fd → fd < 0 →
  inv (mkWorld (delete i (objs w)) (opened w) (loose w) (closed w) (bad w)).
Proof.
  intros [Hinj Hopen Hloose Hbad] Hi Hfd.
  assert (Howned : ∀ x, (0 <= x ∧ ∃ j, delete i (objs w) !! j = Some x) ↔ owned w x).
  { intros x. split; intros [Hx [j Hj]]; (split; [done|]); exists j.
    - by apply lookup_delete_Some in Hj as [_ Hj].
    - rewrite lookup_delete_Some. split; [|done]. intros ->. simplify_eq. lia. }
  split; unfold owned in *; simpl; try done.
  - intros a b x Hx [_ Ha]%lookup_delete_Some [_ Hb]%lookup_delete_Some. by eapply Hinj.
  - intros x. by rewrite Hopen, Howned.
  - intros x Hx. rewrite Howned. by apply Hloose.
Qed.

(** [reset] is a release, a close and an adoption. *)
Lemma inv_reset w i old fd :
  inv w → objs w !! i = Some old → may_give fd w ∨ old = fd →
  ∃ w', reset i fd (give fd w) = Done w' ∧ inv w'
    ∧ objs w' = <[i := fd]> (objs w)
    ∧ (if (0 <=? old) && negb (old =? fd)
       then opened w' = opened w ∖ {[old]} ∧ old ∈ opened w ∧ closed w' = closed w ++ [old]
       else opened w' = opened w ∧ closed w' = closed w).
Proof.
  intros Hw Hi Hfd. unfold reset, get. simpl. rewrite Hi. simpl.
  pose proof (inv_release _ _ _ Hw Hi) as Hrel.
  destruct ((0 <=? old) && negb (old =? fd)) eqn:Ht; bool_facts; eexists; (split; [done|]).
  - assert (Hin : old ∈ opened w) by (apply (inv_open _ Hw); left; split; eauto).
    unfold close. simpl. rewrite !decide_True by done. simpl. split_and!; try done.
    assert (Hl : old ∉ loose w).
    { intros [_ Hno]%(inv_loose _ Hw). apply Hno. split; eauto. }
    assert (Hcl : inv (close old (give old (take_back old (set_obj i (-1) w))))).
    { apply inv_close; [done|]. simpl. rewrite (proj2 (Z.leb_le _ _)) by done. set_solver. }
    unfold close in Hcl. simpl in Hcl. rewrite decide_True in Hcl by done.
    rewrite (proj2 (Z.leb_le _ _)) in Hcl by done.
    eapply (inv_adopt _ i fd) in Hcl; simpl.
    + unfold set_obj, give in Hcl |- *. simpl in Hcl.
      rewrite insert_insert_eq in Hcl.
      by replace (({[old]} ∪ loose w) ∖ {[old]} ∖ {[fd]}) with (loose w ∖ {[fd]})
        in Hcl by set_solver.
    + intros x. rewrite lookup_insert_eq. intros [= <-]. lia.
    + unfold may_give in *. simpl. destruct Hfd as [[?|?]|?]; [by left| |lia]. right. set_solver.
  - split_and!; try done. destruct (decide (old = fd)) as [->|Hne].
    + unfold set_obj. simpl. rewrite insert_id by done. unfold give. simpl.
      assert (fd ∉ loose w).
      { intros [? Hno]%(inv_loose _ Hw). apply Hno. split; eauto. }
      replace (loose w ∖ {[fd]}) with (loose w) by set_solver. by destruct w.
    + apply inv_adopt; [done| |by destruct Hfd]. intros x Hx. simplify_eq.
      apply andb_false_iff in Ht as [?|?]; bool_facts; lia.
Qed.

Lemma give_negative w fd : inv w → fd < 0 → give fd w = w.
Proof.
  intros Hw Hfd. unfold give. replace (loose w ∖ {[fd]}) with (loose w); [by destruct w|].
  assert (fd ∉ loose w) by (intros [? _]%(inv_loose _ Hw); lia). set_solver.
Qed.

(** [release] followed by the adoption of the same descriptor. *)
Lemma take_back_give w fd : inv w → ¬ fd ∈ loose w → give fd (take_back fd w) = w.
Proof.
  intros Hw Hfd. unfold give, take_back. simpl. destruct w as [o op l c b]; simpl in *.
  f_equal. destruct (0 <=? fd); set_solver.
Qed.

Lemma may_give_released w fd : may_give fd (take_back fd w).
Proof.
  unfold may_give, take_back. simpl. destruct (0 <=? fd) eqn:Hf; bool_facts; [|by left].
  right. set_solver.
Qed.

Lemma inv_move_ctor w i j fd :
  inv w → objs w !! i = None → objs w !! j = Some fd →
  inv (set_obj j (-1) (set_obj i fd w)).
Proof.
  intros Hw Hi Hj. assert (i ≠ j) by congruence.
  pose proof (inv_release _ _ _ Hw Hj) as Hr.
  eapply (inv_adopt _ i fd) in Hr; [| |by apply may_give_released].
  - unfold set_obj, give, take_back in Hr |- *. simpl in *. rewrite insert_insert_ne by done.
    replace (loose w) with ((if 0 <=? fd then {[fd]} ∪ loose w else loose w) ∖ {[fd]}); [done|].
    destruct (0 <=? fd) eqn:Hf; bool_facts.
    + assert (fd ∉ loose w); [|set_solver]. intros [_ Hno]%(inv_loose _ Hw).
      apply Hno. split; eauto.
    + assert (fd ∉ loose w); [|set_solver]. intros [? _]%(inv_loose _ Hw). lia.
  - intros x. simpl. rewrite lookup_insert_ne by done. by rewrite Hi.
Qed.

(** The move assignment: the descriptor moves, the old one is closed. *)
Lemma inv_move_assign w i j x y :
  inv w → i ≠ j → objs w !! i = Some x → objs w !! j = Some y →
  ∃ w', move_assign i j w = Done w' ∧ inv w'
    ∧ objs w' = <[j := -1]> (<[i := y]> (objs w))
    ∧ (if 0 <=? x then opened w' = opened w ∖ {[x]} ∧ x ∈ opened w ∧ closed w' = closed w ++ [x]
       else opened w' = opened w ∧ closed w' = closed w).
Proof.
  intros Hw Hij Hi Hj. pose proof (inv_release _ _ _ Hw Hj) as Hr.
  destruct (inv_reset _ i x y Hr) as (w' & Hreset & Hw' & Ho & Hc).
  { simpl. by rewrite lookup_insert_ne. }
  { left. apply may_give_released. }
  assert (Hl : 0 <= y → y ∉ loose w).
  { intros ? [_ Hno]%(inv_loose _ Hw). apply Hno. split; eauto. }
  assert (Hxy : 0 <= x → x ≠ y).
  { intros Hx ->. apply Hij. by eapply (inv_inj _ Hw). }
  assert (Hgive : give y (take_back y (set_obj j (-1) w)) = set_obj j (-1) w).
  { unfold give, take_back. simpl. destruct (0 <=? y) eqn:Hy; bool_facts; unfold set_obj;
      simpl; f_equal; [set_solver|].
    assert (y ∉ loose w) by (intros [? _]%(inv_loose _ Hw); lia). set_solver. }
  rewrite Hgive in Hreset. revert Hreset. unfold move_assign, reset, get. simpl.
  rewrite (proj2 (Nat.eqb_neq _ _)), Hj, lookup_insert_ne, Hi by done. simpl.
  intros [= Hw'']. eexists. split; [done|].
  assert (Heq : w' = set_obj j (-1)
      (set_obj i y (if (0 <=? x) && negb (x =? y) then close x w else w))).
  { rewrite <- Hw''. unfold close. simpl.
    destruct ((0 <=? x) && negb (x =? y)); [destruct (decide _)|]; unfold set_obj; simpl;
      by rewrite insert_insert_ne. }
  rewrite <- Heq. split; [done|].
  rewrite Ho. simpl. rewrite insert_insert_ne by done. split; [done|].
  destruct (0 <=? x) eqn:Hx; simpl in Hc; [|exact Hc]. bool_facts.
  rewrite (proj2 (Z.eqb_neq _ _)) in Hc by auto. exact Hc.
Qed.

(** ** Properties *)

(** One allowed step: it is defined, keeps the invariant, and changes the
    kernel's table by what it opens and what it closes. *)
Lemma step_inv o w :
  inv w → allowed o w →
  ∃ w', step o w = Done w' ∧ inv w'
    ∧ (length (closed w') + size (opened w')
       = length (closed w) + size (opened w) + opens [o])%nat.
Proof.
  intros Hw Ha.
  assert (Hsize : ∀ x (s : gset Z), x ∈ s → size s = S (size (s ∖ {[x]} : gset Z))).
  { intros x s Hx. rewrite (union_difference_L {[x]} s) at 1 by set_solver.
    rewrite size_union by set_solver. by rewrite size_singleton. }
  destruct o as [fd|i|i fd|i j|i j|i fd|i|i]; simpl in Ha |- *.
  - destruct Ha. eexists. split; [done|]. split; [by apply inv_open_step|]. simpl.
    rewrite size_union by set_solver. rewrite size_singleton. lia.
  - eexists. split; [done|]. split; [|simpl; lia].
    rewrite <- (give_negative w (-1)) by done.
    apply inv_adopt; [done| |by left]. by rewrite Ha.
  - destruct Ha as [Hi Hfd]. eexists. split; [done|]. split; [|simpl; lia].
    apply inv_adopt; [done| |done]. by rewrite Hi.
  - destruct Ha as [Hi [fd Hj]]. unfold move_ctor, get. rewrite Hj. eexists.
    split; [done|]. split; [by apply inv_move_ctor|simpl; lia].
  - destruct Ha as [[x Hi] [y Hj]]. destruct (decide (i = j)) as [->|Hij].
    + unfold move_assign. rewrite Nat.eqb_refl. eexists. split; [done|]. split; [done|lia].
    + destruct (inv_move_assign w i j x y) as (w' & Hs & Hw' & _ & Hc); try done.
      exists w'. split; [done|]. split; [done|]. destruct (0 <=? x).
      * destruct Hc as (-> & Hin & ->). rewrite length_app. simpl. rewrite (Hsize x (opened w)) by done. lia.
      * destruct Hc as [-> ->]. lia.
  - destruct Ha as [[old Hi] Hfd].
    destruct (inv_reset w i old fd) as (w' & Hs & Hw' & _ & Hc); [done|done| |].
    { destruct Hfd as [?|Hfd]; [by left|right; congruence]. }
    exists w'. split; [done|]. split; [done|]. destruct (_ && _).
    * destruct Hc as (-> & Hin & ->). rewrite length_app. simpl. rewrite (Hsize old (opened w)) by done. lia.
    * destruct Hc as [-> ->]. lia.
  - destruct Ha as [fd Hi]. unfold release, get. rewrite Hi. simpl. eexists. split; [done|].
    split; [by apply inv_release|simpl; lia].
  - destruct Ha as [fd Hi]. unfold dtor.
    destruct (inv_reset w i fd (-1)) as (w' & Hs & Hw' & Ho & Hc); [done|done|by left; left|].
    rewrite (give_negative w) in Hs by done. rewrite Hs. simpl. eexists. split; [done|].
    split; [eapply inv_delete; [done| |]; [by rewrite Ho, lookup_insert_eq|lia]|]. simpl.
    destruct (_ && _).
    * destruct Hc as (-> & Hin & ->). rewrite length_app. simpl. rewrite (Hsize fd (opened w)) by done. lia.
    * destruct Hc as [-> ->]. lia.
Qed.

Lemma inv_world0 : inv world0.
Proof. split; unfold owned; simpl; set_solver. Qed.

Lemma client_inv w os w' :
  client w os w' → inv w →
  inv w' ∧ (length (closed w') + size (opened w')
            = length (closed w) + size (opened w) + opens os)%nat.
Proof.
  induction 1 as [w|w o w1 os w' Ha Hs _ IH]; intros Hw; [split; [done|simpl; lia]|].
  destruct (step_inv o w Hw Ha) as (w1' & Hs' & Hw1 & Hn). rewrite Hs in Hs'. injection Hs' as <-.
  destruct (IH Hw1) as [? Hn']. split; [done|].
  change (o :: os) with ([o] ++ os).
  assert (opens ([o] ++ os) = opens [o] + opens os)%nat as -> by (by destruct o). lia.
Qed.

(** C7: whatever a client that keeps the contract does with its [UniqueFd]
    objects, no operation is undefined, [::close] is never called on a
    descriptor that is not open (no double close), two live objects never hold
    the same descriptor, and every descriptor opened is either still open or
    was closed exactly once. *)
Theorem client_safe os w :
  client world0 os w →
  bad w = []
  ∧ (∀ i j fd, 0 <= fd → objs w !! i = Some fd → objs w !! j = Some fd → i = j)
  ∧ (length (closed w) + size (opened w) = opens os)%nat
  ∧ ∀ o, allowed o w → ∃ w', step o w = Done w'.
Proof.
  intros Hc. destruct (client_inv _ _ _ Hc inv_world0) as [Hw Hn]. simpl in Hn.
  split_and!; [apply Hw|apply Hw|exact Hn|].
  intros o Ha. destruct (step_inv o w Hw Ha) as (w' & Hs & _). by exists w'.
Qed.

(** Descriptors do not leak: once every object is destroyed, the only
    descriptors still open are those the client holds itself (which it never
    handed to an object, or took back with [release]). *)
Theorem client_no_leak os w :
  client world0 os w → objs w = ∅ → opened w = loose w.
Proof.
  intros Hc Ho. destruct (client_inv _ _ _ Hc inv_world0) as [[_ Hopen _ _] _].
  apply set_eq. intros fd. rewrite Hopen. split; [|auto]. intros [[_ [i Hi]]|?]; [|done].
  rewrite Ho in Hi. done.
Qed.

(** The move assignment, in a state reached by a client: the target closes
    the descriptor it held, takes the source's, and the source is left empty;
    assigning an object to itself changes nothing (and closes nothing). *)
Theorem move_assign_spec os w i j x y :
  client world0 os w → objs w !! i = Some x → objs w !! j = Some y →
  ∃ w', move_assign i j w = Done w'
    ∧ (i = j → w' = w)
    ∧ (i ≠ j → objs w' = <[j := -1]> (<[i := y]> (objs w))
        ∧ closed w' = closed w ++ (if 0 <=? x then [x] else [])
        ∧ (0 <= x → x ∉ opened w') ∧ (0 <= y → y ∈ opened w')).
Proof.
  intros Hc Hi Hj. destruct (client_inv _ _ _ Hc inv_world0) as [Hw _].
  destruct (decide (i = j)) as [->|Hij].
  { exists w. unfold move_assign. rewrite Nat.eqb_refl. by split. }
  destruct (inv_move_assign w i j x y) as (w' & Hs & Hw' & Ho & Hcl); try done.
  exists w'. split; [done|]. split; [done|]. intros _. split; [done|].
  split; [destruct (0 <=? x); [apply Hcl|by destruct Hcl as [_ ->]; rewrite app_nil_r]|].
  split.
  - intros Hx. rewrite (proj2 (Z.leb_le _ _)) in Hcl by done. destruct Hcl as [-> _]. set_solver.
  - intros Hy. apply (inv_open _ Hw'). left. split; [done|]. exists i. rewrite Ho.
    rewrite lookup_insert_ne, lookup_insert_eq by done. done.
Qed.

(** ** Witnesses *)

Definition sample_ops : list op :=
  [OpOpen 3; OpOpen 4; OpCtor 0 3; OpCtor 1 4; OpMoveAssign 0 1; OpDtor 1; OpRelease 0; OpDtor 0].

Definition sample_world : world := mkWorld ∅ {[4]} {[4]} [3] [].

(** Run a client. *)
Ltac run_client :=
  repeat (eapply client_cons;
          [apply (bool_decide_eq_true_1 _); vm_compute; reflexivity
          |vm_compute; reflexivity|]); apply client_nil.

Lemma sample_client : client world0 sample_ops sample_world.
Proof. unfold sample_ops, sample_world. run_client. Qed.

Lemma client_safe_witness :
  bad sample_world = [] ∧ (length (closed sample_world) + size (opened sample_world))%nat = 2%nat.
Proof.
  destruct (client_safe sample_ops sample_world sample_client) as (Hb & _ & Hn & _).
  split; [exact Hb|exact Hn].
Defined.

Lemma client_no_leak_witness : opened sample_world = {[4]} ∧ loose sample_world = {[4]}.
Proof.
  split; [|done]. exact (client_no_leak sample_ops sample_world sample_client eq_refl).
Defined.

Definition moving_world : world :=
  mkWorld {[0%nat := 3; 1%nat := 4]} {[3; 4]} ∅ [] [].

Lemma moving_client :
  client world0 [OpOpen 3; OpOpen 4; OpCtor 0 3; OpCtor 1 4] moving_world.
Proof. unfold moving_world. run_client. Qed.

Lemma move_assign_spec_witness :
  ∃ w', move_assign 0 1 moving_world = Done w' ∧ closed w' = [3].
Proof.
  destruct (move_assign_spec _ _ 0 1 3 4 moving_client eq_refl eq_refl) as (w' & Hs & _ & Hm).
  exists w'. split; [exact Hs|]. by apply Hm.
Defined.
