(* ===== verification/Router.v ===== *)
(** * The packet router

    [include/cfd/router.hpp] and [src/router/router.cpp]: the destination of a
    packet, the routing decision, the reader loop between the TUN device and
    the tunnel, and the start and stop of the reader thread. The kernel (poll,
    read, pipe) is an input: the list of what each call answers. *)
From S2P Require Import Prelude Cidr Lpm Buffer UniqueFd.
Local Open Scope Z_scope.
Local Open Scope cfd_scope.

Inductive Action := Drop | ToTunnel | ToTun.

#[export] Instance Action_eq_dec : EqDecision Action.
Proof. solve_decision. Defined.

(** ** [dst_from_packet] *)

Definition kPacketMtu : Z := 1500.

(** [std::memcpy(dst, p + off, n)], the source side: the bytes read. *)
Definition memcpy_from (off n : nat) (p : list Z) : run (list Z) :=
  if (off + n <=? length p)%nat then Done (take n (drop off p)) else UB.

(** The result and the address left in [out]; [p] holds the readable bytes. *)
Definition dst_from_packet (p : list Z) (len : Z) (out : IpAddr) : run (bool * IpAddr) :=
  if len <? 1 then Done (false, out)
  else
    let! b0 := run_opt (p !! 0%nat) in
    let version := u8 (Z.shiftr b0 4) in
    if version =? 4 then
      if len <? 20 then Done (false, out)
      else
        let! d := memcpy_from 16 4 p in
        let! bs := run_opt (memcpy_at 0 d zero16) in
        Done (true, mkIpAddr V4 bs)
    else if version =? 6 then
      if len <? 40 then Done (false, out)
      else
        let! d := memcpy_from 24 16 p in
        let! bs := run_opt (memcpy_at 0 d (bytes out)) in
        Done (true, mkIpAddr V6 bs)
    else Done (false, out).

(** ** The reader loop *)

Inductive errno := EINTR | EAGAIN | EOther (code : Z).

#[export] Instance errno_eq_dec : EqDecision errno.
Proof. solve_decision. Defined.

(** What [read_packet] returns: an error, or a packet (the empty one is a return
    value of 0). *)
Inductive read_in := ReadFail (e : errno) | ReadOk (pkt : list Z).

(** What [poll] returns: an error, 0 for a timeout, or ready descriptors; the
    flag is [POLLIN] on the wake pipe. The read is only looked at when the loop
    reads. *)
Inductive poll_in := PollFail (e : errno) | PollTimeout | PollReady (wake : bool) (r : read_in).

(** One round: [running_] as the loop loads it, and the answer of [poll]. *)
Record round_in := mkRound { running_now : bool; polled : poll_in }.

Section reader.
(** [routes_], and whether [tunnel_] is set. *)
Context (routes : LpmTrie Action) (tunnel : bool).

Inductive next := Continue | Break.

(** One round: whether the loop goes on, the buffer, and the packet handed to
    [tunnel_->on_packet], if any. *)
Definition reader_round (buf : list Z) (i : round_in) : run (next * list Z * list (list Z)) :=
  if negb (running_now i) then Done (Break, buf, [])
  else
    match polled i with
    | PollFail e => Done (if bool_decide (e = EINTR) then Continue else Break, buf, [])
    | PollTimeout => Done (Continue, buf, [])
    | PollReady true _ => Done (Break, buf, [])
    | PollReady false (ReadFail e) =>
        Done (if bool_decide (e = EINTR) || bool_decide (e = EAGAIN) then Continue else Break,
              buf, [])
    | PollReady false (ReadOk pkt) =>
        let n := Z.of_nat (length pkt) in
        let! buf := run_opt (memcpy_at 0 pkt buf) in
        if n <=? 0 then Done (Break, buf, [])
        else
          let! r := dst_from_packet buf n (mkIpAddr V4 zero16) in
          if negb r.1 then Done (Continue, buf, [])
          else
            match LpmTrie_lookup routes r.2 with
            | None => Done (Continue, buf, [])
            | Some act =>
                if bool_decide (act = Drop) then Done (Continue, buf, [])
                else if bool_decide (act = ToTunnel) && tunnel
                then Done (Continue, buf, [take (Z.to_nat n) buf])
                else Done (Continue, buf, [])
            end
    end.

(** The loop over the answers of the kernel: the packets sent, in order, and
    whether the loop has ended. *)
Fixpoint reader_rounds (buf : list Z) (evs : list round_in) : run (list (list Z) * bool) :=
  match evs with
  | [] => Done ([], false)
  | i :: evs' =>
      let! r := reader_round buf i in
      match r.1.1 with
      | Break => Done (r.2, true)
      | Continue => let! rest := reader_rounds r.1.2 evs' in Done (r.2 ++ rest.1, rest.2)
      end
  end.

Definition tun_reader_loop (evs : list round_in) : run (list (list Z) * bool) :=
  reader_rounds (data_ (Buffer_new kPacketMtu)) evs.
End reader.

(** [inject_from_tunnel]: the packet written to the device, if there is one. *)
Definition inject_from_tunnel (tun : bool) (pkt : list Z) : option (list Z) :=
  if negb tun then None else Some pkt.

(** ** Start and stop *)

(** The state of a router: [wake_r_] is the descriptor object 0 and [wake_w_]
    the object 1 of [fds]; [reader_] is whether the thread object is joinable;
    [woken] counts the bytes written to the wake pipe. *)
Record Router := mkRouter {
  routes_ : LpmTrie Action;
  running_ : bool;
  reader_ : bool;
  fds : world;
  woken : nat;
}.

Definition with_fds (f : world) (r : Router) : Router :=
  mkRouter (routes_ r) (running_ r) (reader_ r) f (woken r).

Definition Router_new (w : world) : run Router :=
  let! w := step (OpDefault 0) w in
  let! w := step (OpDefault 1) w in
  Done (mkRouter LpmTrie_new false false w 0).

Definition add_route (c : Cidr) (a : Action) (r : Router) : Router :=
  mkRouter (LpmTrie_insert Drop c a (routes_ r)) (running_ r) (reader_ r) (fds r) (woken r).

(** A call is a list of atomic parts. Each part changes the state and says
    whether the call returns there; [UB] also stands for [std::terminate]. *)
Definition atom : Type := Router → run (Router * bool).

(** [running_.compare_exchange_strong(was, true)] *)
Definition start_cas : atom := λ r,
  if running_ r then Done (r, true)
  else Done (mkRouter (routes_ r) true (reader_ r) (fds r) (woken r), false).

(** [pipe2(p, ...)], [None] for a failure: then [running_.store(false)]. *)
Definition start_pipe (p : option (Z * Z)) : atom := λ r,
  match p with
  | None => Done (mkRouter (routes_ r) false (reader_ r) (fds r) (woken r), true)
  | Some (p0, p1) =>
      let! w := step (OpOpen p0) (fds r) in
      let! w := step (OpOpen p1) w in
      Done (with_fds w r, false)
  end.

(** [wake_r_.reset(p[0])] and [wake_w_.reset(p[1])] *)
Definition start_wake (i : nat) (fd : Z) : atom := λ r,
  let! w := step (OpReset i fd) (fds r) in Done (with_fds w r, false).

(** [reader_ = std::thread(...)]: assigning to a joinable thread terminates. *)
Definition start_thread : atom := λ r,
  if reader_ r then UB
  else Done (mkRouter (routes_ r) (running_ r) true (fds r) (woken r), true).

Definition start_atoms (p : option (Z * Z)) : list atom :=
  match p with
  | None => [start_cas; start_pipe None]
  | Some (p0, p1) =>
      [start_cas; start_pipe p; start_wake 0 p0; start_wake 1 p1; start_thread]
  end.

(** [running_.exchange(false)] *)
Definition stop_exchange : atom := λ r,
  Done (mkRouter (routes_ r) false (reader_ r) (fds r) (woken r), negb (running_ r)).

(** [if (wake_w_.valid()) write(wake_w_.get(), &b, 1)] *)
Definition stop_wake : atom := λ r,
  let! v := valid 1 (fds r) in
  Done (mkRouter (routes_ r) (running_ r) (reader_ r) (fds r)
          (if v then S (woken r) else woken r), false).

(** [if (reader_.joinable()) reader_.join()] *)
Definition stop_join : atom := λ r,
  Done (mkRouter (routes_ r) (running_ r) false (fds r) (woken r), false).

(** [wake_w_.reset()] and [wake_r_.reset()] *)
Definition stop_reset (i : nat) : atom := λ r,
  let! w := step (OpReset i (-1)) (fds r) in Done (with_fds w r, false).

Definition stop_atoms : list atom :=
  [stop_exchange; stop_wake; stop_join; stop_reset 1; stop_reset 0].

(** A call that is not interrupted. *)
Fixpoint call (as_ : list atom) (r : Router) : run Router :=
  match as_ with
  | [] => Done r
  | a :: as' => let! x := a r in if x.2 then Done x.1 else call as' x.1
  end.

Definition start (p : option (Z * Z)) : Router → run Router := call (start_atoms p).
Definition stop : Router → run Router := call stop_atoms.

(** [~Router()]: [stop()], then the members; destroying a joinable thread
    terminates. *)
Definition Router_dtor (r : Router) : run world :=
  let! r := stop r in
  let! w := step (OpDtor 1) (fds r) in
  let! w := step (OpDtor 0) w in
  if reader_ r then UB else Done w.

(** Two calls made by two threads: the schedule says who moves next. *)
Fixpoint interleave (sched : list bool) (as1 as2 : list atom) (r : Router)
    : run (list atom * list atom * Router) :=
  match sched with
  | [] => Done (as1, as2, r)
  | b :: sched' =>
      match (if (b : bool) then as1 else as2) with
      | [] => interleave sched' as1 as2 r
      | a :: as' =>
          let! x := a r in
          let as' := if (x.2 : bool) then [] else as' in
          if (b : bool) then interleave sched' as' as2 x.1
          else interleave sched' as1 as' x.1
      end
  end.

(** ** Specification of the data path *)

(** The destination of a packet: byte 16 on of an IPv4 header of at least 20
    bytes, byte 24 on of an IPv6 header of at least 40. *)
Definition dst_of (pkt : list Z) : option IpAddr :=
  match pkt with
  | [] => None
  | b0 :: _ =>
      if (b0 / 16 =? 4) && (20 <=? length pkt)%nat
      then Some (mkIpAddr V4 (take 4 (drop 16 pkt) ++ replicate 12 0))
      else if (b0 / 16 =? 6) && (40 <=? length pkt)%nat
      then Some (mkIpAddr V6 (take 16 (drop 24 pkt)))
      else None
  end.

(** Whether a packet goes to the tunnel under the routes [rs]. *)
Definition forwarded (rs : list (Cidr * Action)) (tunnel : bool) (pkt : list Z) : bool :=
  match dst_of pkt with
  | None => false
  | Some a => bool_decide (snd <$> best_route rs a = Some ToTunnel) && tunnel
  end.

(** Whether the loop ends at a round, and the packet it reads otherwise. *)
Definition exits (i : round_in) : bool :=
  negb (running_now i) ||
  match polled i with
  | PollFail e => negb (bool_decide (e = EINTR))
  | PollTimeout => false
  | PollReady true _ => true
  | PollReady false (ReadFail e) => negb (bool_decide (e = EINTR) || bool_decide (e = EAGAIN))
  | PollReady false (ReadOk pkt) => bool_decide (pkt = [])
  end.

Definition packet_of (i : round_in) : option (list Z) :=
  match polled i with PollReady false (ReadOk pkt) => Some pkt | _ => None end.

Fixpoint until_exit (evs : list round_in) : list round_in :=
  match evs with
  | [] => []
  | i :: evs' => if exits i then [] else i :: until_exit evs'
  end.

(** [read] returns no more bytes than asked for. *)
Definition round_ok (i : round_in) : Prop :=
  ∀ pkt, packet_of i = Some pkt → Z.of_nat (length pkt) <= kPacketMtu ∧ bytes_ok pkt.

(** ** The destination *)

Lemma memcpy_from_prefix off n pkt rest :
  (off + n ≤ length pkt)%nat →
  memcpy_from off n (pkt ++ rest) = Done (take n (drop off pkt)).
Proof.
  intros Hl. unfold memcpy_from. rewrite length_app, (proj2 (Nat.leb_le _ _)) by lia.
  rewrite drop_app_le, take_app_le; [done| |lia]. rewrite length_drop. lia.
Qed.

Lemma dst_from_packet_dst pkt rest :
  bytes_ok pkt →
  dst_from_packet (pkt ++ rest) (Z.of_nat (length pkt)) (mkIpAddr V4 zero16)
  = Done (match dst_of pkt with
          | Some a => (true, a)
          | None => (false, mkIpAddr V4 zero16)
          end).
Proof.
  intros Hb. unfold dst_from_packet. destruct pkt as [|b0 pkt]; [done|].
  rewrite (proj2 (Z.ltb_ge _ _)) by (simpl; lia). cbn [app lookup list_lookup run_opt run_bind].
  assert (u8 (Z.shiftr b0 4) = b0 / 16) as ->.
  { apply Forall_cons in Hb as [Hb0 _]. rewrite Z.shiftr_div_pow2 by lia. change (2 ^ 4) with 16.
    apply u8_id. word_lia. }
  change (b0 :: pkt ++ rest) with ((b0 :: pkt) ++ rest). unfold dst_of.
  set (p := b0 :: pkt) in *. destruct (b0 / 16 =? 4) eqn:H4; bool_facts.
  - rewrite H4. cbn [Z.eqb Pos.eqb andb].
    destruct (20 <=? length p)%nat eqn:Hl; bool_facts.
    + rewrite (proj2 (Z.ltb_ge _ _)), memcpy_from_prefix by lia. cbn [run_bind].
      rewrite memcpy_at_Some by (cbn [bytes]; unfold zero16; rewrite length_take, length_drop, length_replicate; lia).
      cbn [run_opt run_bind take app]. do 3 f_equal. rewrite length_take, length_drop.
      replace (0 + _)%nat with 4%nat by lia. done.
    + by rewrite (proj2 (Z.ltb_lt _ _)) by lia.
  - cbn [andb]. destruct (b0 / 16 =? 6) eqn:H6; bool_facts; [|done]. cbn [andb].
    destruct (40 <=? length p)%nat eqn:Hl; bool_facts.
    + rewrite (proj2 (Z.ltb_ge _ _)), memcpy_from_prefix by lia. cbn [run_bind].
      rewrite memcpy_at_Some by (cbn [bytes]; unfold zero16; rewrite length_take, length_drop, length_replicate; lia).
      cbn [run_opt run_bind take app]. do 3 f_equal. rewrite length_take, length_drop.
      replace (0 + _)%nat with 16%nat by lia. cbn [bytes]. by rewrite app_nil_r.
    + by rewrite (proj2 (Z.ltb_lt _ _)) by lia.
Qed.

Lemma dst_of_ok pkt a : bytes_ok pkt → dst_of pkt = Some a → ip_ok a.
Proof.
  intros Hb. destruct pkt as [|b0 pkt]; [done|]. unfold dst_of.
  set (p := b0 :: pkt) in *.
  repeat case_if; intros Ha; apply (inj Some) in Ha; subst a; unfold ip_ok; cbn [bytes].
  - rewrite length_app, length_take, length_drop, length_replicate. split; [lia|].
    apply Forall_app. split; [by apply Forall_take, Forall_drop|solve_bytes].
  - rewrite length_take, length_drop. split; [lia|]. by apply Forall_take, Forall_drop.
Qed.

(** ** The loop *)

Section loop.
Context (rs : list (Cidr * Action)) (Hrs : Forall (λ r, cidr_ok r.1) rs) (tunnel : bool).
Abbreviation routes := (LpmTrie_of Drop rs).

Lemma lookup_best a : ip_ok a → LpmTrie_lookup routes a = snd <$> best_route rs a.
Proof. intros Ha. rewrite lookup_found, found_best by done. by destruct (best_route rs a). Qed.

(** One round: it ends the loop or sends the packet it reads if it must. *)
Lemma reader_round_spec buf i :
  Z.of_nat (length buf) = kPacketMtu → round_ok i →
  ∃ buf', Z.of_nat (length buf') = kPacketMtu ∧
    reader_round routes tunnel buf i
    = Done (if exits i then Break else Continue, buf',
            if exits i then []
            else List.filter (forwarded rs tunnel) (option_list (packet_of i))).
Proof.
  intros Hbuf Hi. unfold reader_round, exits, round_ok, packet_of in *.
  destruct i as [[] p]; simpl in *; [|by exists buf].
  destruct p as [e| |[] [e|pkt]]; simpl; try (by exists buf).
  - exists buf. split; [done|]. by case_bool_decide.
  - exists buf. split; [done|]. by repeat case_bool_decide.
  - destruct (Hi pkt eq_refl) as [Hl Hb]. clear Hi.
    rewrite memcpy_at_Some by (unfold kPacketMtu in *; lia). cbn [run_opt run_bind take app plus].
    set (rest := drop (length pkt) buf).
    exists (pkt ++ rest). split; [subst rest; rewrite length_app, length_drop; unfold kPacketMtu in *; lia|].
    destruct pkt as [|b0 pkt]; [done|]. set (p := b0 :: pkt) in *.
    rewrite (proj2 (Z.leb_gt _ _)) by (simpl; lia).
    rewrite bool_decide_eq_false_2 by done.
    change (take 0 buf) with (@nil Z). cbn [app].
    rewrite dst_from_packet_dst by done. cbn [run_bind]. unfold forwarded.
    destruct (dst_of p) as [a|] eqn:Ha; [|done]. cbn [negb fst snd].
    rewrite lookup_best by (by eapply dst_of_ok).
    destruct (snd <$> best_route rs a) as [act|]; [|done].
    rewrite Nat2Z.id, take_app_length. destruct act, tunnel; done.
Qed.

(** The packets that are forwarded, by the route that is chosen. *)
Lemma forwarded_chosen pkt :
  forwarded rs tunnel pkt = true ↔
  tunnel = true ∧ ∃ a i c, dst_of pkt = Some a ∧ chosen rs a i (c, ToTunnel).
Proof.
  unfold forwarded. destruct (dst_of pkt) as [a|]; [|naive_solver].
  pose proof (best_route_chosen rs a) as Hb. rewrite andb_true_iff, bool_decide_eq_true.
  split.
  - intros [Hr Ht]. split; [done|]. destruct (best_route rs a) as [[c act]|]; simplify_eq/=.
    destruct Hb as [i Hb]. by exists a, i, c.
  - intros (Ht & a' & i & c & [= <-] & Hc). split; [|done].
    destruct (best_route rs a) as [r|].
    + destruct Hb as [j Hb]. by destruct (chosen_unique _ _ _ _ _ _ Hb Hc) as [_ ->].
    + destruct Hc as (Hi & Hin & _). by destruct (Hb _ _ Hi).
Qed.

(** C8: the reader loop, for any answers of the kernel: it never reads or writes
    outside the packet buffer, it ends exactly at the first round that sees the
    stop flag, the wake pipe, an end of file or an error other than EINTR or
    EAGAIN, and it hands to the tunnel, in order and unchanged, exactly the
    packets read before that whose destination has the tunnel as its
    longest-prefix route; everything else is dropped, the packets of a route
    with the action [ToTun] included. *)
Theorem tun_reader_loop_spec evs :
  Forall round_ok evs →
  tun_reader_loop routes tunnel evs
  = Done (List.filter (forwarded rs tunnel) (omap packet_of (until_exit evs)),
          existsb exits evs)
  ∧ ∀ pkt, forwarded rs tunnel pkt = true ↔
           tunnel = true ∧ ∃ a i c, dst_of pkt = Some a ∧ chosen rs a i (c, ToTunnel).
Proof.
  intros Hevs. split; [|exact forwarded_chosen]. revert Hevs.
  unfold tun_reader_loop. assert (Z.of_nat (length (data_ (Buffer_new kPacketMtu))) = kPacketMtu)
    as Hbuf by done.
  revert Hbuf. generalize (data_ (Buffer_new kPacketMtu)) as buf.
  intros buf Hbuf His. revert buf Hbuf. induction His as [|i evs Hi His IH]; intros buf Hbuf; [done|].
  cbn [reader_rounds existsb until_exit].
  destruct (reader_round_spec buf i Hbuf Hi) as (buf' & Hbuf' & ->). cbn [run_bind fst snd].
  destruct (exits i); [done|]. rewrite IH by done. cbn [run_bind fst snd orb omap list_omap].
  destruct (packet_of i) as [pkt|]; [|done]. simpl option_list.
  cbn [List.filter]. by destruct (forwarded rs tunnel pkt).
Qed.

End loop.

(** ** Start and stop *)

(** The type of a router whose calls do not overlap: the two descriptor objects
    and nothing else, set exactly while the reader thread exists. *)
Definition router_ok (r : Router) : Prop :=
  inv (fds r) ∧ loose (fds r) = ∅ ∧ reader_ r = running_ r
  ∧ ∃ a b, objs (fds r) = {[0%nat := a; 1%nat := b]}
           ∧ if running_ r then 0 <= a ∧ 0 <= b else a = -1 ∧ b = -1.

(** What the kernel answers: two new descriptors, or a failure. *)
Definition pipe_ok (p : option (Z * Z)) (w : world) : Prop :=
  match p with
  | None => True
  | Some (p0, p1) => 0 <= p0 ∧ 0 <= p1 ∧ p0 ≠ p1 ∧ p0 ∉ opened w ∧ p1 ∉ opened w
  end.

Lemma reset_step w i old fd :
  inv w → objs w !! i = Some old → may_give fd w ∨ old = fd →
  ∃ w', step (OpReset i fd) w = Done w' ∧ inv w' ∧ objs w' = <[i := fd]> (objs w)
        ∧ loose w' = loose w ∖ {[fd]}.
Proof.
  intros Hw Hi Hfd. destruct (inv_reset w i old fd Hw Hi Hfd) as (w' & Hs & Hw' & Ho & _).
  exists w'. split_and!; try done. revert Hs. unfold reset, get. simpl. rewrite Hi. simpl.
  intros [= <-]. destruct (_ && _); simpl; [|done]. unfold close. by destruct (decide _).
Qed.

#[local] Arguments step : simpl never.

Lemma loose_empty w fd : loose w = ∅ → loose w ∖ {[fd]} = ∅.
Proof. intros ->. set_solver. Qed.

Lemma start_ok p r :
  router_ok r → pipe_ok p (fds r) →
  ∃ r', start p r = Done r' ∧ router_ok r'
    ∧ running_ r' = running_ r || bool_decide (is_Some p)
    ∧ (running_ r = true → r' = r).
Proof.
  intros (Hw & Hl & Hr & a & b & Ho & Hab) Hp. unfold start. destruct r as [t run_ rd w k].
  simpl in *. subst rd. destruct run_.
  { exists (mkRouter t true true w k). destruct p as [[p0 p1]|]; simpl; split_and!; try done;
      split_and!; try done; by exists a, b. }
  destruct Hab as [-> ->]. destruct p as [[p0 p1]|]; simpl.
  - destruct Hp as (H0 & H1 & Hne & Hn0 & Hn1).
    pose proof (inv_open_step w p0 Hw H0 Hn0) as Hw0.
    assert (Hn1' : p1 ∉ opened (set_opened p0 w)) by (simpl; set_solver).
    pose proof (inv_open_step _ p1 Hw0 H1 Hn1') as Hw1.
    destruct (reset_step _ 0 (-1) p0 Hw1) as (w2 & Hs2 & Hw2 & Ho2 & Hl2).
    { simpl. by rewrite Ho. } { left. right. simpl. set_solver. }
    destruct (reset_step _ 1 (-1) p1 Hw2) as (w3 & Hs3 & Hw3 & Ho3 & Hl3).
    { rewrite Ho2. simpl. by rewrite Ho. } { left. right. rewrite Hl2. simpl. set_solver. }
    unfold start_wake. simpl.
    rewrite Hs2. simpl. rewrite Hs3. simpl. eexists. split; [done|]. simpl. split_and!; try done.
    unfold router_ok. simpl. split_and!; try done.
    + rewrite Hl3, Hl2. simpl. rewrite Hl. set_solver.
    + exists p0, p1. split; [|done]. rewrite Ho3, Ho2. simpl. rewrite Ho. by vm_compute.
  - eexists. split; [done|]. simpl. split_and!; try done. unfold router_ok. simpl.
    split_and!; try done. by exists (-1), (-1).
Qed.

Lemma stop_ok r :
  router_ok r →
  ∃ r', stop r = Done r' ∧ router_ok r' ∧ running_ r' = false
    ∧ (running_ r = false → r' = r) ∧ (running_ r = true → woken r' = S (woken r)).
Proof.
  intros (Hw & Hl & Hr & a & b & Ho & Hab). unfold stop. destruct r as [t run_ rd w k].
  simpl in *. subst rd. destruct run_; cbn [negb].
  2: { eexists. split; [done|]. simpl. split_and!; try done. unfold router_ok. simpl.
       split_and!; try done. by exists a, b. }
  destruct Hab as [Ha Hb].
  assert (Hv : valid 1 w = Done true).
  { unfold valid, get. rewrite Ho. change (Done (0 <=? b) = Done true).
    by rewrite (proj2 (Z.leb_le 0 b)). }
  destruct (reset_step w 1 b (-1) Hw) as (w2 & Hs2 & Hw2 & Ho2 & Hl2).
  { by rewrite Ho. } { by left; left. }
  destruct (reset_step w2 0 a (-1) Hw2) as (w3 & Hs3 & Hw3 & Ho3 & Hl3).
  { rewrite Ho2, Ho. done. } { by left; left. }
  cbn [call stop_atoms stop_exchange stop_join run_bind fst snd negb routes_ running_ reader_ fds woken].
  unfold stop_wake, stop_join, stop_reset.
  cbn [run_bind fst snd routes_ running_ reader_ fds woken]. rewrite Hv.
  cbn [run_bind fst snd routes_ running_ reader_ fds woken]. rewrite Hs2.
  cbn [run_bind fst snd routes_ running_ reader_ fds woken with_fds]. rewrite Hs3.
  eexists. split; [done|]. simpl. split_and!; try done. unfold router_ok. simpl.
  split_and!; try done.
  - rewrite Hl3. apply loose_empty. rewrite Hl2. by apply loose_empty.
  - exists (-1), (-1). split; [|done]. rewrite Ho3, Ho2, Ho. by vm_compute.
Qed.

(** The calls of a client with one thread. *)
Inductive rcall :=
| CallStart (p : option (Z * Z))
| CallStop
| CallAddRoute (c : Cidr) (a : Action).

Definition do_call (c : rcall) : Router → run Router :=
  match c with
  | CallStart p => start p
  | CallStop => stop
  | CallAddRoute c a => λ r, Done (add_route c a r)
  end.

Definition rcall_ok (c : rcall) (r : Router) : Prop :=
  match c with CallStart p => pipe_ok p (fds r) | _ => True end.

Inductive session : Router → list rcall → Router → Prop :=
| session_nil r : session r [] r
| session_cons r c r1 cs r' :
    rcall_ok c r → do_call c r = Done r1 → session r1 cs r' → session r (c :: cs) r'.

Definition router0 : Router :=
  mkRouter LpmTrie_new false false (mkWorld {[0%nat := -1; 1%nat := -1]} ∅ ∅ [] []) 0.

Lemma Router_new_world0 : Router_new world0 = Done router0.
Proof. by vm_compute. Qed.

Lemma router0_ok : router_ok router0.
Proof.
  unfold router_ok. simpl. split_and!; [|done..|].
  - assert (allowed (OpDefault 0) world0) as H0 by done.
    destruct (step_inv _ _ inv_world0 H0) as (w & Hs & Hw & _). injection Hs as <-.
    assert (allowed (OpDefault 1) (set_obj 0 (-1) world0)) as H1 by (by vm_compute).
    destruct (step_inv _ _ Hw H1) as (w & Hs & Hw' & _). injection Hs as <-. exact Hw'.
  - by exists (-1), (-1).
Qed.

Lemma do_call_ok c r :
  router_ok r → rcall_ok c r → ∃ r', do_call c r = Done r' ∧ router_ok r'.
Proof.
  intros Hr Hc. destruct c as [p| |c a]; simpl in *.
  - destruct (start_ok p r Hr Hc) as (r' & ? & ? & _). by exists r'.
  - destruct (stop_ok r Hr) as (r' & ? & ? & _). by exists r'.
  - by exists (add_route c a r).
Qed.

Lemma session_ok r cs r' : session r cs r' → router_ok r → router_ok r'.
Proof.
  induction 1 as [|r c r1 cs r' Hc Hs _ IH]; [done|]. intros Hr.
  destruct (do_call_ok c r Hr Hc) as (r1' & Hs' & Hr1). rewrite Hs in Hs'. simplify_eq. auto.
Qed.

Lemma Router_dtor_ok r :
  router_ok r → ∃ w, Router_dtor r = Done w ∧ opened w = ∅ ∧ bad w = [].
Proof.
  intros Hr. destruct (stop_ok r Hr) as (r' & Hs & (Hw & Hl & Hrd & a & b & Ho & Hab) & Hrun & _).
  unfold Router_dtor. rewrite Hs. cbn [run_bind]. rewrite Hrun in Hrd, Hab.
  destruct Hab as [-> ->].
  assert (allowed (OpDtor 1) (fds r')) as H1.
  { simpl. rewrite Ho. by vm_compute; eexists. }
  destruct (step_inv _ _ Hw H1) as (w1 & Hs1 & Hw1 & _).
  assert (w1 = mkWorld {[0%nat := -1]} (opened (fds r')) ∅ (closed (fds r')) (bad (fds r'))) as ->.
  { revert Hs1. unfold step, dtor, reset, get. rewrite Ho.
    change (({[0%nat := -1; 1%nat := -1]} : gmap nat Z) !! 1%nat) with (Some (-1)).
    simpl. rewrite Ho. intros [= <-]. rewrite Hl. f_equal; by vm_compute. }
  assert (allowed (OpDtor 0) (mkWorld {[0%nat := -1]} (opened (fds r')) ∅ (closed (fds r'))
    (bad (fds r')))) as H0 by (by eexists).
  destruct (step_inv _ _ Hw1 H0) as (w2 & Hs2 & Hw2 & _).
  rewrite Hs1. cbn [run_bind]. rewrite Hs2, Hrd. cbn [run_bind]. exists w2.
  split; [done|]. split; [|apply Hw2].
  revert Hs2. unfold step, dtor, reset, get. simpl. intros [= Hs2].
  apply set_eq. intros fd. rewrite (inv_open _ Hw2). subst w2. unfold owned. simpl.
  split; [|set_solver]. intros [[? [i Hi]]|?]; [|set_solver]. exfalso.
  change (delete 0%nat ({[0%nat := -1]} : gmap nat Z) !! i = Some fd) in Hi. by destruct i.
Qed.


(** [stop] on a running router writes to the wake pipe once, and then the
    reader, which sees the flag or the byte, ends at its next round whatever
    else the kernel answers: the join returns. On a stopped router it does
    nothing. *)
Theorem stop_wakes_reader cs r :
  session router0 cs r →
  ∃ r', stop r = Done r' ∧ running_ r' = false ∧ reader_ r' = false
    ∧ (running_ r = false → r' = r)
    ∧ (running_ r = true → woken r' = S (woken r))
    ∧ ∀ t tunnel i evs x,
        (running_now i = false ∨ polled i = PollReady true x) →
        tun_reader_loop t tunnel (i :: evs) = Done ([], true).
Proof.
  intros Hs. pose proof (session_ok _ _ _ Hs router0_ok) as Hr.
  destruct (stop_ok r Hr) as (r' & Hst & Hr' & Hrun & Hno & Hyes).
  exists r'. split_and!; try done. { destruct Hr' as (_ & _ & -> & _). done. }
  intros t tunnel [run_ p] evs x Hi. unfold tun_reader_loop. cbn [reader_rounds].
  unfold reader_round. simpl in *. destruct Hi as [Hi|Hi]; rewrite Hi; [done|]. by destruct run_.
Qed.

(** ** Overlapping calls *)

(** [stop] overtakes [start] between the exchange and the thread. *)
Definition race_sched : list bool :=
  [true; true; false; false; false; false; false; true; true; true].

Definition race (sched : list bool) : run (list atom * list atom * Router) :=
  interleave sched (start_atoms (Some (3, 4))) stop_atoms router0.

Definition race_end : Router :=
  match race race_sched with Done (_, _, r) => r | _ => router0 end.

(** Two threads are not safe: there is a schedule of one [start] and one
    [stop] after which the router is not running but its thread object is
    joinable, so that the next [start], and the destructor, terminate the
    program. *)
Theorem start_stop_race :
  ∃ sched r, race sched = Done ([], [], r)
    ∧ running_ r = false ∧ reader_ r = true
    ∧ start (Some (5, 6)) r = UB ∧ Router_dtor r = UB.
Proof.
  exists race_sched, race_end. split_and!; vm_compute; reflexivity.
Qed.

(** ** Witnesses *)

Definition sample_session : list rcall := [CallStart (Some (3, 4)); CallStart None; CallStop].

Ltac run_session :=
  repeat (eapply session_cons;
    [cbn [rcall_ok pipe_ok];
     first [exact I
           |split_and!; first [done|lia|by apply (bool_decide_eq_true_1 _); vm_compute]]
    |vm_compute; reflexivity|]).

Definition stopped_router : Router :=
  mkRouter LpmTrie_new false false
    (mkWorld {[0%nat := -1; 1%nat := -1]} ∅ ∅ [4; 3] []) 1.

Lemma sample_session_ok : session router0 sample_session stopped_router.
Proof.
  unfold sample_session. run_session. apply session_nil.
Qed.


Lemma stop_wakes_reader_witness : ∃ r', stop stopped_router = Done r' ∧ running_ r' = false.
Proof.
  destruct (stop_wakes_reader sample_session stopped_router sample_session_ok)
    as (r' & Hs & Hr & _). exists r'. split; [exact Hs|exact Hr].
Defined.

(** A packet to 10.99.5.7 of 20 bytes, and one that is too short. *)
Definition sample_packet : list Z := 69 :: replicate 15 0 ++ [10; 99; 5; 7].

Definition sample_rounds : list round_in :=
  [mkRound true (PollReady false (ReadOk sample_packet)); mkRound true PollTimeout;
   mkRound true (PollReady false (ReadOk [69; 0])); mkRound true (PollReady true (ReadFail EAGAIN));
   mkRound true (PollReady false (ReadOk sample_packet))].

Definition sample_routes : list (Cidr * Action) :=
  [(mkCidr (v4 10 0 0 0) 8, Drop); (mkCidr (v4 10 99 0 0) 16, ToTunnel)].

Lemma tun_reader_loop_spec_witness :
  tun_reader_loop (LpmTrie_of Drop sample_routes) true sample_rounds
  = Done ([sample_packet], true).
Proof.
  destruct (tun_reader_loop_spec sample_routes
    ltac:(repeat constructor; simpl; try lia; unfold byte_ok; lia) true sample_rounds) as [-> _].
  - assert (Hb : bytes_ok sample_packet ∧ bytes_ok [69; 0]) by (split; unfold sample_packet; simpl; solve_bytes).
    unfold sample_rounds, kPacketMtu.
    repeat (apply Forall_cons; split); try apply Forall_nil; done || idtac;
      intros pkt [= <-]; (split; [unfold kPacketMtu; simpl; lia|apply Hb]).
  - by vm_compute.
Defined.
