(* ===== verification/Supervisor.v ===== *)
(** * The reconnect supervisor

    [src/main.cpp], lines 252-426: the threads that keep the [kNumHaConns]
    connections registered, the thread that runs the registrations one at a
    time, and the main thread that waits for the first healthy connection,
    pumps packets and shuts everything down. The threads are one transition
    system: a label says which thread moves and what its environment answers.
    Condition variables are ideal here: a waiting thread moves as soon as its
    predicate holds; [LostWakeup] below looks at the notifications. *)
From S2P Require Import Prelude.
Local Open Scope Z_scope.

Definition kNumHaConns : nat := 4.
Definition kInitBackoffMs : Z := 1000.
Definition kMaxBackoffMs : Z := 32000.

(** [std::min(backoff_ms * 2, kMaxBackoffMs)] *)
Definition next_backoff (backoff_ms : Z) : Z := Z.min (backoff_ms * 2) kMaxBackoffMs.

(** [static_cast<int>(x)] for the 64-bit argument. *)
Definition to_int (x : Z) : Z := (x + 2 ^ 31) mod 2 ^ 32 - 2 ^ 31.

(** The pause after a failed registration; [retry] is the 64-bit
    [retry_after_seconds]. *)
Definition wait_ms (retry backoff_ms : Z) : Z :=
  if 0 <? retry then to_int (Z.min retry (kMaxBackoffMs / 1000)) * 1000 else backoff_ms.

(** ** State *)

(** Where a connection thread is: at the test of the loop, in [connect], about
    to submit the registration, in [fut.get()], in the wait for a disconnect,
    after it, in [interruptible_sleep(ms)], or returned. *)
Inductive conn_pc :=
| Top | Connecting | Submit | WaitFut | Registered | Woken | Sleeping (ms : Z) | Exited.

(** The answer of a registration: whether it succeeded, and
    [retry_after_seconds]. *)
Definition answer : Type := bool * Z.

(** The locals of a connection thread; [fut] is its future once it is set. *)
Record conn := mkConn {
  pc : conn_pc;
  backoff_ms : Z;
  disc_fired : bool;
  fut : option answer;
}.

(** One [RegWork]: the client it is for and its [conn_index]. *)
Record RegWork := mkRegWork { cl : nat; conn_index : Z }.

(** The registration thread: in the wait for work, in [register_connection], in
    the drain after the loop, or returned. *)
Inductive kj_pc := KjWait | KjBusy (w : RegWork) | KjDrain | KjDone.

(** The main thread: in the wait for the first connection, at the two tests
    after it, in the pump, in the parts of [shutdown_all], or returned. *)
Inductive main_pc :=
| MainWait | MainTest | MainPump
| MainClose (code : Z) | MainJoin (code : Z) (joined : nat) | MainKjStop (code : Z)
| MainKjJoin (code : Z) | MainReturn (code : Z).

(** [argc] is the count of arguments: the [i] of [main] that the lambdas
    capture has this value when the threads start. *)
Record sys := mkSys {
  conns : list conn;
  g_stop : bool;
  ok_count : Z;
  kj_queue : list RegWork;
  kj_stop : bool;
  kj : kj_pc;
  main : main_pc;
  captured_i : Z;
  submitted : list RegWork;    (** every work item ever queued *)
  answered : list nat;         (** the clients whose promise was set, in order *)
}.

Definition new_conn : conn := mkConn Top kInitBackoffMs false None.

Definition sys0 (argc : Z) : sys :=
  mkSys (replicate kNumHaConns new_conn) false 0 [] false KjWait MainWait argc [] [].

(** ** Steps *)

Inductive label :=
| LTop (i : nat)                     (** the test of the loop *)
| LConnect (i : nat) (ok : bool)     (** [close()] and [connect()] *)
| LSubmit (i : nat)
| LGet (i : nat)                     (** [fut.get()] returns *)
| LWake (i : nat)                    (** the wait for a disconnect ends *)
| LAfter (i : nat)
| LAwake (i : nat)                   (** the sleep ends *)
| LDisconnect (i : nat)              (** the disconnect handler *)
| LSignal                            (** [on_signal] *)
| LKjTake | LKjAnswer (a : answer) | LKjExit | LKjDrained
| LMainWake | LMainTimeout | LMainTest | LMainPump
| LMainClose | LMainJoin | LMainKjStop | LMainKjJoin.

Definition set_conn (i : nat) (c : conn) (s : sys) : sys :=
  mkSys (<[i := c]> (conns s)) (g_stop s) (ok_count s) (kj_queue s) (kj_stop s) (kj s) (main s)
    (captured_i s) (submitted s) (answered s).
Definition set_stop (s : sys) : sys :=
  mkSys (conns s) true (ok_count s) (kj_queue s) (kj_stop s) (kj s) (main s)
    (captured_i s) (submitted s) (answered s).
Definition add_ok (d : Z) (s : sys) : sys :=
  mkSys (conns s) (g_stop s) (ok_count s + d) (kj_queue s) (kj_stop s) (kj s) (main s)
    (captured_i s) (submitted s) (answered s).
Definition set_kj (q : list RegWork) (k : kj_pc) (s : sys) : sys :=
  mkSys (conns s) (g_stop s) (ok_count s) q (kj_stop s) k (main s)
    (captured_i s) (submitted s) (answered s).
Definition set_main (m : main_pc) (s : sys) : sys :=
  mkSys (conns s) (g_stop s) (ok_count s) (kj_queue s) (kj_stop s) (kj s) m
    (captured_i s) (submitted s) (answered s).
Definition set_kj_stop (s : sys) : sys :=
  mkSys (conns s) (g_stop s) (ok_count s) (kj_queue s) true (kj s) (main s)
    (captured_i s) (submitted s) (answered s).
Definition submit (w : RegWork) (s : sys) : sys :=
  mkSys (conns s) (g_stop s) (ok_count s) (kj_queue s ++ [w]) (kj_stop s) (kj s) (main s)
    (captured_i s) (submitted s ++ [w]) (answered s).

(** [promise.set_value(a)] for the client [j]. *)
Definition set_value (j : nat) (a : answer) (s : sys) : sys :=
  let s :=
    match conns s !! j with
    | Some c => set_conn j (mkConn (pc c) (backoff_ms c) (disc_fired c) (Some a)) s
    | None => s
    end in
  mkSys (conns s) (g_stop s) (ok_count s) (kj_queue s) (kj_stop s) (kj s) (main s)
    (captured_i s) (submitted s) (answered s ++ [j]).

(** The [while] loop of a connection thread, one step; [None] when the label is
    not the thread's next step. *)
Definition conn_step (l : label) (i : nat) (s : sys) : option sys :=
  match conns s !! i with
  | None => None
  | Some c =>
      match pc c, l with
      | Top, LTop _ =>
          if g_stop s then Some (set_conn i (mkConn Exited (backoff_ms c) (disc_fired c) (fut c)) s)
          else Some (set_conn i (mkConn Connecting (backoff_ms c) false (fut c)) s)
      | Connecting, LConnect _ false =>
          Some (set_conn i (mkConn (Sleeping (backoff_ms c)) (next_backoff (backoff_ms c))
                              (disc_fired c) (fut c)) s)
      | Connecting, LConnect _ true =>
          Some (set_conn i (mkConn Submit (backoff_ms c) (disc_fired c) (fut c)) s)
      | Submit, LSubmit _ =>
          let w := mkRegWork i (u8 (captured_i s)) in
          Some (submit w (set_conn i (mkConn WaitFut (backoff_ms c) (disc_fired c) None) s))
      | WaitFut, LGet _ =>
          match fut c with
          | None => None
          | Some (false, retry) =>
              Some (set_conn i (mkConn (Sleeping (wait_ms retry (backoff_ms c)))
                                  (next_backoff (backoff_ms c)) (disc_fired c) None) s)
          | Some (true, _) =>
              Some (add_ok 1 (set_conn i (mkConn Registered kInitBackoffMs (disc_fired c) None) s))
          end
      | Registered, LWake _ =>
          if disc_fired c || g_stop s
          then Some (set_conn i (mkConn Woken (backoff_ms c) (disc_fired c) (fut c)) s)
          else None
      | Woken, LAfter _ =>
          let s := add_ok (-1) s in
          if disc_fired c && negb (g_stop s)
          then Some (set_conn i (mkConn (Sleeping (backoff_ms c)) (next_backoff (backoff_ms c))
                                   (disc_fired c) (fut c)) s)
          else Some (set_conn i (mkConn Top (backoff_ms c) (disc_fired c) (fut c)) s)
      | Sleeping _, LAwake _ =>
          Some (set_conn i (mkConn Top (backoff_ms c) (disc_fired c) (fut c)) s)
      | _, _ => None
      end
  end.

(** The disconnect handler of [i], installed until the thread returns. *)
Definition disconnect_step (i : nat) (s : sys) : option sys :=
  match conns s !! i with
  | None => None
  | Some c =>
      match pc c with
      | Exited => None
      | _ => Some (set_conn i (mkConn (pc c) (backoff_ms c) true (fut c)) s)
      end
  end.

(** The registration thread. *)
Definition kj_step (l : label) (s : sys) : option sys :=
  match kj s, l with
  | KjWait, LKjTake =>
      match kj_queue s with
      | [] => None
      | w :: q => Some (set_kj q (KjBusy w) s)
      end
  | KjWait, LKjExit =>
      match kj_queue s with
      | [] => if kj_stop s then Some (set_kj [] KjDrain s) else None
      | _ => None
      end
  | KjBusy w, LKjAnswer a => Some (set_value (cl w) a (set_kj (kj_queue s) KjWait s))
  | KjDrain, LKjDrained =>
      Some (set_kj [] KjDone (foldl (λ s w, set_value (cl w) (false, 0) s) s (kj_queue s)))
  | _, _ => None
  end.

(** The main thread from the wait for the first connection on. *)
Definition main_step (l : label) (s : sys) : option sys :=
  match main s, l with
  | MainWait, LMainWake =>
      if (0 <? ok_count s) || g_stop s then Some (set_main MainTest s) else None
  | MainWait, LMainTimeout => Some (set_main MainTest s)
  | MainTest, LMainTest =>
      if g_stop s then Some (set_main (MainClose 1) (set_stop s))
      else if ok_count s =? 0 then Some (set_main (MainClose 1) (set_stop s))
      else Some (set_main MainPump s)
  | MainPump, LMainPump => if g_stop s then Some (set_main (MainClose 0) (set_stop s)) else None
  | MainClose code, LMainClose => Some (set_main (MainJoin code 0) s)
  | MainJoin code n, LMainJoin =>
      match conns s !! n with
      | None => Some (set_main (MainKjStop code) s)
      | Some c =>
          match pc c with
          | Exited => Some (set_main (MainJoin code (S n)) s)
          | _ => None
          end
      end
  | MainKjStop code, LMainKjStop => Some (set_main (MainKjJoin code) (set_kj_stop s))
  | MainKjJoin code, LMainKjJoin =>
      match kj s with
      | KjDone => Some (set_main (MainReturn code) s)
      | _ => None
      end
  | _, _ => None
  end.

Definition step (l : label) (s : sys) : option sys :=
  match l with
  | LTop i | LConnect i _ | LSubmit i | LGet i | LWake i | LAfter i | LAwake i => conn_step l i s
  | LDisconnect i => disconnect_step i s
  | LSignal => Some (set_stop s)
  | LKjTake | LKjAnswer _ | LKjExit | LKjDrained => kj_step l s
  | _ => main_step l s
  end.

Fixpoint steps (ls : list label) (s : sys) : option sys :=
  match ls with
  | [] => Some s
  | l :: ls' => step l s ≫= steps ls'
  end.

Definition reachable (argc : Z) (s : sys) : Prop := ∃ ls, steps ls (sys0 argc) = Some s.

(** ** Invariants *)

Definition is_registered (c : conn) : bool :=
  match pc c with Registered | Woken => true | _ => false end.

(** Blocked in [fut.get()]. *)
Definition is_waiting (c : conn) : bool :=
  match pc c, fut c with WaitFut, None => true | _, _ => false end.

Definition sumf (f : conn → Z) (l : list conn) : Z := foldr (λ c n, f c + n) 0 l.

Definition healthy (l : list conn) : Z := sumf (λ c, Z.b2z (is_registered c)) l.

(** The delays are the powers of two from one second to 32. *)
Definition backoffs : list Z := [1000; 2000; 4000; 8000; 16000; 32000].

Definition conn_ok (c : conn) : Prop :=
  backoff_ms c ∈ backoffs
  ∧ (∀ ms, pc c = Sleeping ms → kInitBackoffMs <= ms <= kMaxBackoffMs)
  ∧ (pc c ≠ WaitFut → fut c = None).

Definition busy (k : kj_pc) : list RegWork := match k with KjBusy w => [w] | _ => [] end.

(** The clients whose registration is not answered yet, in the order the
    registration thread takes them. *)
Definition pending (s : sys) : list nat := cl <$> busy (kj s) ++ kj_queue s.

Definition exited (s : sys) (i : nat) : Prop := ∀ c, conns s !! i = Some c → pc c = Exited.

Definition code_ok (code : Z) : Prop := code = 0 ∨ code = 1.

Definition main_ok (s : sys) : Prop :=
  match main s with
  | MainWait | MainTest | MainPump => kj_stop s = false
  | MainClose code => code_ok code ∧ g_stop s = true ∧ kj_stop s = false
  | MainJoin code n =>
      code_ok code ∧ g_stop s = true ∧ kj_stop s = false
      ∧ (n ≤ kNumHaConns)%nat ∧ ∀ i, (i < n)%nat → exited s i
  | MainKjStop code =>
      code_ok code ∧ g_stop s = true ∧ kj_stop s = false ∧ ∀ i, exited s i
  | MainKjJoin code => code_ok code ∧ g_stop s = true ∧ kj_stop s = true ∧ ∀ i, exited s i
  | MainReturn code =>
      code_ok code ∧ g_stop s = true ∧ kj_stop s = true ∧ (∀ i, exited s i) ∧ kj s = KjDone
  end.

Definition kj_ok (s : sys) : Prop :=
  match kj s with
  | KjDrain | KjDone => kj_queue s = [] ∧ kj_stop s = true
  | _ => True
  end.

Record inv (argc : Z) (s : sys) : Prop := {
  inv_len : length (conns s) = kNumHaConns;
  inv_conn i c : conns s !! i = Some c → conn_ok c;
  inv_count : ok_count s = healthy (conns s);
  inv_nodup : NoDup (pending s);
  inv_pending i : i ∈ pending s ↔ ∃ c, conns s !! i = Some c ∧ is_waiting c = true;
  inv_fifo : cl <$> submitted s = answered s ++ pending s;
  inv_index : Forall (λ w, conn_index w = u8 argc) (submitted s);
  inv_captured : captured_i s = argc;
  inv_kj : kj_ok s;
  inv_main : main_ok s;
}.

(** The work left to do once [g_stop] is set. *)
Definition rank (c : conn) : Z :=
  match pc c with
  | Exited => 0 | Top => 1 | Sleeping _ => 2 | Woken => 2 | Registered => 3 | WaitFut => 4
  | Submit => 7 | Connecting => 8
  end.

Definition kj_rank (k : kj_pc) : Z :=
  match k with KjBusy _ => 3 | KjWait => 2 | KjDrain => 1 | KjDone => 0 end.

Definition main_rank (m : main_pc) : Z :=
  match m with
  | MainWait => 12 | MainTest => 11 | MainPump => 10 | MainClose _ => 9
  | MainJoin _ n => 8 - Z.of_nat n | MainKjStop _ => 3 | MainKjJoin _ => 2 | MainReturn _ => 1
  end.

Definition measure (s : sys) : Z :=
  sumf rank (conns s) + 2 * Z.of_nat (length (kj_queue s)) + kj_rank (kj s) + main_rank (main s).

(** Labels of the environment: a signal, the connection dropping. *)
Definition own (l : label) : bool :=
  match l with LDisconnect _ | LSignal => false | _ => true end.

(** ** Lemmas *)

Lemma sumf_insert f l i c c' :
  l !! i = Some c → sumf f (<[i := c']> l) = sumf f l - f c + f c'.
Proof.
  revert i. induction l as [|x l IH]; intros [|i] Hi; simplify_eq/=; [lia|].
  rewrite IH by done. lia.
Qed.

Lemma sumf_nonneg f l : (∀ c, 0 <= f c) → 0 <= sumf f l.
Proof. intros Hf. induction l as [|x l IH]; simpl; [lia|]. specialize (Hf x). lia. Qed.

Lemma sumf_le f l b : (∀ c, f c <= b) → 0 <= b → sumf f l <= b * Z.of_nat (length l).
Proof. intros Hf Hb. induction l as [|x l IH]; simpl length; simpl sumf; [lia|]. specialize (Hf x). lia. Qed.

Lemma next_backoff_ok b : b ∈ backoffs → next_backoff b ∈ backoffs.
Proof.
  unfold backoffs, next_backoff, kMaxBackoffMs. rewrite !elem_of_cons, elem_of_nil. lia.
Qed.

Lemma backoff_bounds b : b ∈ backoffs → kInitBackoffMs <= b <= kMaxBackoffMs.
Proof.
  unfold backoffs, kInitBackoffMs, kMaxBackoffMs. rewrite !elem_of_cons, elem_of_nil. lia.
Qed.

Lemma wait_ms_bounds retry b :
  b ∈ backoffs → kInitBackoffMs <= wait_ms retry b <= kMaxBackoffMs.
Proof.
  intros Hb%backoff_bounds. unfold wait_ms. case_if.
  unfold to_int, kInitBackoffMs, kMaxBackoffMs in *. change (32000 / 1000) with 32.
  rewrite Z.mod_small by lia. lia.
Qed.

(** A step that submits nothing, in the form of the lemma below. *)
Lemma quiet_conn_step i c' d s :
  add_ok d (set_conn i c' s)
  = mkSys (<[i := c']> (conns s)) (g_stop s) (ok_count s + d) (kj_queue s ++ [])
      (kj_stop s) (kj s) (main s) (captured_i s) (submitted s ++ []) (answered s).
Proof. by rewrite !app_nil_r. Qed.

Lemma add_ok_0 i c' s : set_conn i c' s = add_ok 0 (set_conn i c' s).
Proof. unfold add_ok, set_conn. simpl. by rewrite Z.add_0_r. Qed.

Lemma set_conn_add_ok i c' d s : set_conn i c' (add_ok d s) = add_ok d (set_conn i c' s).
Proof. done. Qed.

Ltac quiet_step d :=
  eexists _, _, d, []; split_and!;
    try (by etransitivity; [apply quiet_conn_step|f_equal; congruence]); try done; try (by right).

Ltac conn_ok_step :=
  intros (? & ? & ?); split_and!; simpl in *;
    try (by apply next_backoff_ok);
    try (intros ? [= <-]; first [by apply backoff_bounds|by apply wait_ms_bounds]);
    try done; naive_solver.

(** One step of a connection thread. *)
Lemma conn_step_inv l i s s' :
  conn_step l i s = Some s' →
  ∃ c c' d ws,
    conns s !! i = Some c
    ∧ s' = mkSys (<[i := c']> (conns s)) (g_stop s) (ok_count s + d) (kj_queue s ++ ws)
             (kj_stop s) (kj s) (main s) (captured_i s) (submitted s ++ ws) (answered s)
    ∧ Z.b2z (is_registered c') = Z.b2z (is_registered c) + d
    ∧ is_waiting c = false
    ∧ ((ws = [mkRegWork i (u8 (captured_i s))] ∧ is_waiting c' = true)
       ∨ (ws = [] ∧ is_waiting c' = false))
    ∧ (conn_ok c → conn_ok c')
    ∧ pc c ≠ Exited
    ∧ (g_stop s = true → rank c' + 2 * Z.of_nat (length ws) < rank c).
Proof.
  unfold conn_step. intros Hs. destruct (conns s !! i) as [c|] eqn:Hi; [|done].
  destruct c as [p b dsc f]. simpl in Hs.
  destruct p as [| | | | | |ms|], l; simplify_eq/=.
  - (* the test of the loop *)
    destruct (g_stop s) eqn:Hg; simplify_eq/=; rewrite add_ok_0; quiet_step 0; conn_ok_step.
  - (* connect *)
    destruct ok; simplify_eq/=; rewrite add_ok_0; quiet_step 0; conn_ok_step.
  - (* submit *)
    eexists _, (mkConn WaitFut b dsc None), 0, [mkRegWork i (u8 (captured_i s))]. split_and!; try done.
    + unfold submit. simpl. by rewrite Z.add_0_r.
    + by left.
    + conn_ok_step.
  - (* get *)
    destruct f as [[[] retry]|]; simplify_eq/=.
    + quiet_step 1. intros (? & ? & ?); split_and!; simpl in *; try done. by left.
    + rewrite add_ok_0. quiet_step 0. conn_ok_step.
  - (* the wait for a disconnect *)
    case_if_in Hs. injection Hs as <-. rewrite add_ok_0. quiet_step 0. conn_ok_step.
  - (* after it *)
    case_if_in Hs; injection Hs as <-; rewrite set_conn_add_ok; quiet_step (-1);
      try congruence; conn_ok_step.
  - (* the sleep *)
    rewrite add_ok_0. quiet_step 0. conn_ok_step.
Qed.

Lemma inv_sys0 argc : inv argc (sys0 argc).
Proof.
  assert (Hnew : ∀ i c, conns (sys0 argc) !! i = Some c → c = new_conn).
  { intros i c Hc. by apply lookup_replicate in Hc as [-> _]. }
  split; try done.
  - intros i c ->%Hnew. split_and!; simpl; try done. unfold backoffs, kInitBackoffMs. by left.
  - constructor.
  - intros i. split; [by intros ?%elem_of_nil|]. by intros (c & ->%Hnew & ?).
Qed.

(** The lookups after an insertion at a position that exists. *)
Lemma lookup_insert_conn (l : list conn) i c c' j x :
  l !! i = Some c → <[i := c']> l !! j = Some x ↔ (j = i ∧ x = c') ∨ (j ≠ i ∧ l !! j = Some x).
Proof.
  intros Hi%lookup_lt_Some. rewrite list_lookup_insert_Some. naive_solver.
Qed.

(** Who waits after a thread's step: the ones that did, and it when it submitted. *)
Lemma waiting_insert (l : list conn) i c c' (ws : list RegWork) n P :
  l !! i = Some c → is_waiting c = false →
  (ws = [mkRegWork i n] ∧ is_waiting c' = true) ∨ (ws = [] ∧ is_waiting c' = false) →
  ∀ j, (P j ↔ ∃ x, l !! j = Some x ∧ is_waiting x = true) →
  P j ∨ j ∈ (cl <$> ws) ↔ ∃ x, <[i := c']> l !! j = Some x ∧ is_waiting x = true.
Proof.
  intros Hi Hw Hws j HP. rewrite HP. setoid_rewrite (lookup_insert_conn _ _ _ _ _ _ Hi).
  destruct Hws as [[-> Hw']|[-> Hw']]; simpl.
  - rewrite list_elem_of_singleton. split.
    + intros [(x & Hx & Hwx)| ->]; [|by exists c'; auto]. exists x. split; [|done].
      right. split; [|done]. intros ->. congruence.
    + intros (x & [[-> ->]|[Hj Hx]] & Hwx); [by right|left; eauto].
  - rewrite elem_of_nil. split.
    + intros [(x & Hx & Hwx)|Hf]; [|done]. exists x. split; [|done].
      right. split; [|done]. intros ->. congruence.
    + intros (x & [[-> ->]|[Hj Hx]] & Hwx); [congruence|left; eauto].
Qed.

Lemma inv_conn_step argc l i s s' : inv argc s → conn_step l i s = Some s' → inv argc s'.
Proof.
  intros [Hlen Hconn Hcount Hnd Hpend Hfifo Hidx Hcap Hkj Hmain] Hs.
  apply conn_step_inv in Hs as (c & c' & d & ws & Hi & -> & Hd & Hw & Hws & Hok & Hex & _).
  assert (Hni : i ∉ pending s).
  { rewrite Hpend. intros (x & Hx & Hwx). congruence. }
  assert (Hpre : ∀ j, exited s j → j ≠ i).
  { intros j Hj ->. by apply Hex, Hj. }
  assert (Hexit : ∀ j, exited s j → ∀ x, <[i := c']> (conns s) !! j = Some x → pc x = Exited).
  { intros j Hj x Hx. rewrite list_lookup_insert_ne in Hx by (by apply not_eq_sym, Hpre).
    by apply Hj. }
  assert (Hq : kj s = KjDrain ∨ kj s = KjDone → ws = []).
  { intros Hk. destruct Hws as [[-> _]|[-> _]]; [|done]. exfalso. unfold main_ok in Hmain.
    assert (kj_stop s = true) as Hst.
    { unfold kj_ok in Hkj. destruct Hk as [Hk|Hk]; rewrite Hk in Hkj; apply Hkj. }
    destruct (main s); try (by destruct_and?; congruence);
      [destruct Hmain as (_ & _ & _ & Hall)|destruct Hmain as (_ & _ & _ & Hall & _)];
      by apply Hex, (Hall i). }
  split; simpl.
  - by rewrite length_insert.
  - intros j x [[-> ->]|[_ Hj]]%(lookup_insert_conn _ _ _ _ _ _ Hi); [|by eapply Hconn].
    by eapply Hok, Hconn.
  - unfold healthy. rewrite (sumf_insert _ _ _ _ _ Hi). rewrite Hcount. unfold healthy. lia.
  - unfold pending. simpl. rewrite app_assoc, fmap_app. fold (pending s).
    destruct Hws as [[-> _]|[-> _]]; simpl; [|by rewrite app_nil_r].
    apply NoDup_app. split; [done|]. split; [|by apply NoDup_singleton].
    intros x Hx ->%list_elem_of_singleton. done.
  - intros j. unfold pending. simpl. rewrite app_assoc, fmap_app, elem_of_app. fold (pending s).
    by eapply (waiting_insert _ _ c _ _ _ (.∈ pending s)).
  - unfold pending. simpl. rewrite fmap_app, Hfifo, app_assoc, fmap_app. unfold pending.
    by rewrite <- !app_assoc.
  - apply Forall_app. split; [done|]. rewrite Hcap in Hws.
    destruct Hws as [[-> _]|[-> _]]; by repeat constructor.
  - done.
  - unfold kj_ok in *. simpl. destruct (kj s); try done; rewrite (Hq ltac:(auto)), app_nil_r; done.
  - unfold main_ok in *. simpl. destruct (main s); try done; unfold exited in *; simpl; naive_solver.
Qed.

(** Only one connection changes, and neither its place nor the queue. *)
Lemma inv_disconnect_step argc i s s' : inv argc s → disconnect_step i s = Some s' → inv argc s'.
Proof.
  intros [Hlen Hconn Hcount Hnd Hpend Hfifo Hidx Hcap Hkj Hmain] Hs. unfold disconnect_step in Hs.
  destruct (conns s !! i) as [c|] eqn:Hi; [|done].
  assert (∃ c', s' = set_conn i c' s ∧ pc c' = pc c ∧ fut c' = fut c ∧ backoff_ms c' = backoff_ms c)
    as (c' & -> & Hp & Hf & Hb) by (destruct (pc c); simplify_eq; by eexists).
  assert (Hr : is_registered c' = is_registered c) by (unfold is_registered; by rewrite Hp).
  assert (Hw : is_waiting c' = is_waiting c) by (unfold is_waiting; by rewrite Hp, Hf).
  assert (Hexit : ∀ j, exited s j → exited (set_conn i c' s) j).
  { intros j Hj x. simpl. rewrite (lookup_insert_conn _ _ _ _ _ _ Hi).
    intros [[-> ->]|[_ Hx]]; [rewrite Hp|]; by apply Hj. }
  split; simpl; try done.
  - by rewrite length_insert.
  - intros j x [[-> ->]|[_ Hj]]%(lookup_insert_conn _ _ _ _ _ _ Hi); [|by eapply Hconn].
    destruct (Hconn _ _ Hi) as (? & ? & ?). unfold conn_ok. by rewrite Hp, Hf, Hb.
  - unfold healthy. rewrite (sumf_insert _ _ _ _ _ Hi), Hr, Hcount. unfold healthy. lia.
  - intros j. rewrite Hpend. setoid_rewrite (lookup_insert_conn _ _ _ _ _ _ Hi). split.
    + intros (x & Hx & Hwx). destruct (decide (j = i)) as [->|]; [|by exists x; auto].
      exists c'. simplify_eq. rewrite Hw. auto.
    + intros (x & [[-> ->]|[_ Hx]] & Hwx); [exists c; by rewrite <- Hw|by exists x].
  - unfold main_ok in *. simpl. destruct (main s); naive_solver.
Qed.

(** [set_value] for a client that waits. *)
Lemma inv_answer argc w a s :
  inv argc s → kj s = KjBusy w → inv argc (set_value (cl w) a (set_kj (kj_queue s) KjWait s)).
Proof.
  intros [Hlen Hconn Hcount Hnd Hpend Hfifo Hidx Hcap Hkj Hmain] Hk.
  assert (Hpe : pending s = cl w :: (cl <$> kj_queue s)) by (unfold pending; by rewrite Hk).
  rewrite Hpe in Hnd, Hpend, Hfifo. apply NoDup_cons in Hnd as [Hni Hnd].
  destruct (proj1 (Hpend (cl w)) ltac:(by left)) as (c & Hi & Hwait).
  assert (Hp : pc c = WaitFut) by (unfold is_waiting in Hwait; by destruct (pc c)).
  unfold set_value, set_kj. cbn [conns]. rewrite Hi.
  set (c' := mkConn (pc c) (backoff_ms c) (disc_fired c) (Some a)).
  assert (Hw' : is_waiting c' = false) by (unfold is_waiting, c'; simpl; by rewrite Hp).
  assert (Hne : ∀ j, exited s j → j ≠ cl w) by (intros j Hj ->; apply Hj in Hi; congruence).
  assert (Hexit : ∀ j, exited s j → ∀ x, <[cl w := c']> (conns s) !! j = Some x → pc x = Exited).
  { intros j Hj x Hx. rewrite list_lookup_insert_ne in Hx by (by apply not_eq_sym, Hne).
    by apply Hj. }
  split; simpl; try done.
  - by rewrite length_insert.
  - intros j x [[-> ->]|[_ Hj]]%(lookup_insert_conn _ _ _ _ _ _ Hi); [|by eapply Hconn].
    destruct (Hconn _ _ Hi) as (? & ? & ?). unfold conn_ok, c'. simpl. by rewrite Hp.
  - unfold healthy. rewrite (sumf_insert _ _ _ _ _ Hi), Hcount. unfold healthy.
    unfold is_registered, c'. simpl. lia.
  - intros j. unfold pending. simpl. setoid_rewrite (lookup_insert_conn _ _ _ _ _ _ Hi). split.
    + intros Hj. destruct (proj1 (Hpend j) ltac:(by right)) as (x & Hx & Hwx).
      exists x. split; [|done]. right. split; [|done]. intros ->. done.
    + intros (x & [[-> ->]|[Hji Hx]] & Hwx); [congruence|].
      assert (j ∈ cl w :: (cl <$> kj_queue s)) as Hj by (apply Hpend; eauto).
      apply elem_of_cons in Hj as [?|?]; done.
  - unfold pending. simpl. by rewrite Hfifo, <- app_assoc.
  - unfold main_ok in *. simpl. destruct (main s); try done; unfold exited in *; simpl; naive_solver.
Qed.

Lemma inv_kj_step argc l s s' : inv argc s → kj_step l s = Some s' → inv argc s'.
Proof.
  intros Hinv Hs. unfold kj_step in Hs. destruct (kj s) as [|w| |] eqn:Hk, l; simplify_eq/=;
    try (by eapply inv_answer); destruct Hinv as [Hlen Hconn Hcount Hnd Hpend Hfifo Hidx Hcap Hkj Hmain].
  - destruct (kj_queue s) as [|w q] eqn:Hq; simplify_eq/=.
    unfold pending in *. rewrite Hk, Hq in *.
    split; try done. unfold main_ok in *. simpl. destruct (main s); try done. naive_solver congruence.
  - destruct (kj_queue s) as [|w q] eqn:Hq; simplify_eq/=. case_if_in Hs. injection Hs as <-.
    unfold pending in *. rewrite Hk, Hq in *.
    split; try done. unfold main_ok in *. simpl. destruct (main s); try done. naive_solver congruence.
  - unfold kj_ok in Hkj. rewrite Hk in Hkj. destruct Hkj as [Hq Hst]. rewrite Hq. simpl.
    unfold pending in *. rewrite Hk, Hq in *.
    split; try done. unfold main_ok in *. simpl. destruct (main s); try done. naive_solver congruence.
Qed.

Lemma inv_set_main argc m s :
  inv argc s → main_ok (set_main m s) → inv argc (set_main m s).
Proof. intros [Hlen Hconn Hcount Hnd Hpend Hfifo Hidx Hcap Hkj Hmain] Hm. by split. Qed.

Lemma inv_set_stop argc s : inv argc s → inv argc (set_stop s).
Proof.
  intros [Hlen Hconn Hcount Hnd Hpend Hfifo Hidx Hcap Hkj Hmain]. split; try done.
  unfold main_ok in *. simpl. destruct (main s); try done; unfold exited in *; simpl; naive_solver.
Qed.

Lemma inv_main_step argc l s s' : inv argc s → main_step l s = Some s' → inv argc s'.
Proof.
  intros Hinv Hs. pose proof (inv_main _ _ Hinv) as Hm. unfold main_ok in Hm.
  unfold main_step in Hs. destruct (main s) as [| | |code|code n|code|code|code] eqn:Hmain, l;
    simplify_eq/=.
  - case_if_in Hs. simplify_eq. by apply inv_set_main.
  - by apply inv_set_main.
  - repeat case_if_in Hs; simplify_eq; apply inv_set_main; try done; try by apply inv_set_stop.
    all: unfold main_ok; simpl; split_and!; try done; by right.
  - case_if_in Hs. simplify_eq. apply inv_set_main; [by apply inv_set_stop|].
    unfold main_ok; simpl; split_and!; try done; by left.
  - destruct Hm as (? & ? & ?). apply inv_set_main; [done|]. unfold main_ok. simpl.
    split_and!; try done; lia.
  - destruct Hm as (? & ? & ? & Hn & Hex).
    destruct (conns s !! n) as [c|] eqn:Hc.
    + destruct (pc c) eqn:Hp; simplify_eq. apply inv_set_main; [done|]. unfold main_ok. simpl.
      apply lookup_lt_Some in Hc as Hlt. rewrite (inv_len _ _ Hinv) in Hlt.
      split_and!; try done. intros i Hi. destruct (decide (i = n)) as [->|]; [|apply Hex; lia].
      intros x Hx. simpl in Hx. congruence.
    + simplify_eq. apply inv_set_main; [done|]. unfold main_ok. simpl. split_and!; try done.
      intros i x Hx. simpl in Hx. apply lookup_ge_None in Hc.
      apply (Hex i); [|done]. apply lookup_lt_Some in Hx. lia.
  - destruct Hm as (? & ? & ? & Hex).
    destruct Hinv as [Hlen Hconn Hcount Hnd Hpend Hfifo Hidx Hcap Hkj Hm'].
    split; try done; unfold kj_ok, main_ok in *; simpl.
    destruct (kj s); naive_solver.
  - destruct Hm as (? & ? & ? & Hex). destruct (kj s) eqn:Hk; simplify_eq.
    apply inv_set_main; [done|]. unfold main_ok. simpl. by rewrite Hk.
Qed.

Lemma inv_step argc l s s' : inv argc s → step l s = Some s' → inv argc s'.
Proof.
  intros Hinv Hs. destruct l; simpl in Hs;
    first [by eapply inv_conn_step|by eapply inv_disconnect_step|by eapply inv_kj_step
          |by eapply inv_main_step|simplify_eq; by apply inv_set_stop].
Qed.

Lemma inv_steps argc ls s s' : inv argc s → steps ls s = Some s' → inv argc s'.
Proof.
  revert s. induction ls as [|l ls IH]; intros s Hinv; simpl; [by intros [= <-]|].
  intros (s1 & Hs1 & Hs)%bind_Some. eapply IH; [|done]. by eapply inv_step.
Qed.

Lemma reachable_inv argc s : reachable argc s → inv argc s.
Proof. intros [ls Hs]. eapply inv_steps; [apply inv_sys0|done]. Qed.

(** ** Termination of the shutdown *)

Lemma drain_stop q s :
  g_stop (foldl (λ s w, set_value (cl w) (false, 0) s) s q) = g_stop s.
Proof.
  revert s. induction q as [|w q IH]; intros s; [done|]. simpl. rewrite IH. unfold set_value.
  by case_match.
Qed.

Lemma step_stop l s s' : step l s = Some s' → g_stop s = true → g_stop s' = true.
Proof.
  intros Hs Hg. destruct l; simpl in Hs;
    first [apply conn_step_inv in Hs as (c & c' & d & ws & _ & -> & _); exact Hg
          |unfold disconnect_step, kj_step, main_step in Hs;
           repeat case_match; simplify_eq; simpl; try done; unfold set_value;
           first [by case_match|by rewrite drain_stop]].
Qed.

Lemma measure_nonneg s : 0 <= sumf rank (conns s) ∧ 0 <= kj_rank (kj s).
Proof.
  split; [apply sumf_nonneg; intros c; unfold rank; by destruct (pc c)|by destruct (kj s)].
Qed.

(** The environment does not add work. *)
Lemma measure_env l s s' : step l s = Some s' → own l = false → measure s' = measure s.
Proof.
  intros Hs Hl. destruct l; simplify_eq/=; [|done].
  unfold disconnect_step in Hs. destruct (conns s !! i) as [c|] eqn:Hi; [|done].
  assert (∃ c', s' = set_conn i c' s ∧ rank c' = rank c) as (c' & -> & Hr)
    by (unfold rank; destruct (pc c) eqn:Hp; simplify_eq; eexists; split; try done; simpl; by rewrite ?Hp).
  unfold measure. simpl. rewrite (sumf_insert _ _ _ _ _ Hi). lia.
Qed.

(** Every other step is work done. *)
Lemma measure_own argc l s s' :
  inv argc s → g_stop s = true → step l s = Some s' → own l = true → measure s' < measure s.
Proof.
  intros Hinv Hg Hs Hl. unfold measure. destruct l; simpl in Hl, Hs; try done;
    try (apply conn_step_inv in Hs as (c & c' & d & ws & Hi & -> & _ & _ & _ & _ & _ & Hr);
         specialize (Hr Hg); simpl; rewrite (sumf_insert _ _ _ _ _ Hi), length_app; lia).
  - unfold kj_step in Hs. destruct (kj s) eqn:Hk; simplify_eq/=.
    destruct (kj_queue s) as [|w q] eqn:Hq; simplify_eq/=. lia.
  - unfold kj_step in Hs. destruct (kj s) as [|w| |] eqn:Hk; simplify_eq/=.
    unfold set_value. destruct (conns _ !! cl w) as [c|] eqn:Hi; simpl in Hi |- *; [|lia].
    rewrite (sumf_insert _ _ _ _ _ Hi). unfold rank at 3. simpl. unfold rank. lia.
  - unfold kj_step in Hs. destruct (kj s) eqn:Hk; simplify_eq/=.
    destruct (kj_queue s) as [|w q] eqn:Hq; simplify_eq/=. case_if_in Hs. simplify_eq/=. lia.
  - unfold kj_step in Hs. destruct (kj s) eqn:Hk; simplify_eq/=.
    pose proof (inv_kj _ _ Hinv) as Hkj. unfold kj_ok in Hkj. rewrite Hk in Hkj.
    destruct Hkj as [-> _]. simpl. lia.
  - unfold main_step in Hs. destruct (main s) eqn:Hm; simplify_eq/=.
    case_if_in Hs; simplify_eq/=; lia.
  - unfold main_step in Hs. destruct (main s) eqn:Hm; simplify_eq/=. lia.
  - unfold main_step in Hs. destruct (main s) eqn:Hm; simplify_eq/=.
    rewrite Hg in Hs. simplify_eq/=. lia.
  - unfold main_step in Hs. destruct (main s) eqn:Hm; simplify_eq/=.
    rewrite Hg in Hs. simplify_eq/=. lia.
  - unfold main_step in Hs. destruct (main s) eqn:Hm; simplify_eq/=. lia.
  - unfold main_step in Hs. destruct (main s) as [| | |code|code n|code|code|code] eqn:Hm; simplify_eq/=.
    pose proof (inv_main _ _ Hinv) as Hmain. unfold main_ok in Hmain. rewrite Hm in Hmain.
    destruct Hmain as (_ & _ & _ & Hn & _). unfold kNumHaConns in Hn.
    repeat case_match; simplify_eq/=; lia.
  - unfold main_step in Hs. destruct (main s) eqn:Hm; simplify_eq/=. lia.
  - unfold main_step in Hs. destruct (main s) eqn:Hm; simplify_eq/=.
    destruct (kj s) eqn:Hk; simplify_eq/=. rewrite Hk. simpl. lia.
Qed.

(** A thread that has not returned, and is not in [fut.get()], can move. *)
Lemma conn_can_move s i c :
  g_stop s = true → conns s !! i = Some c → pc c ≠ Exited → is_waiting c = false →
  ∃ l s', own l = true ∧ step l s = Some s'.
Proof.
  intros Hg Hi Hex Hw. destruct c as [p b d f]. simpl in Hex.
  destruct p as [| | | | | |ms|]; try done.
  - exists (LTop i). simpl. unfold conn_step. rewrite Hi. simpl. rewrite Hg. eauto.
  - exists (LConnect i true). simpl. unfold conn_step. rewrite Hi. simpl. eauto.
  - exists (LSubmit i). simpl. unfold conn_step. rewrite Hi. simpl. eauto.
  - exists (LGet i). simpl. unfold conn_step. rewrite Hi. simpl.
    destruct f as [[[] r]|]; [eauto|eauto|done].
  - exists (LWake i). simpl. unfold conn_step. rewrite Hi. simpl. rewrite Hg, orb_true_r. eauto.
  - exists (LAfter i). simpl. unfold conn_step. rewrite Hi. simpl.
    destruct (d && negb (g_stop s)); eauto.
  - exists (LAwake i). simpl. unfold conn_step. rewrite Hi. simpl. eauto.
Qed.

(** The registration thread moves while a registration is pending. *)
Lemma kj_can_move argc s :
  inv argc s → (pending s ≠ [] ∨ (kj_stop s = true ∧ kj s ≠ KjDone)) →
  ∃ l s', own l = true ∧ step l s = Some s'.
Proof.
  intros Hinv Hp. pose proof (inv_kj _ _ Hinv) as Hkj. unfold kj_ok, pending in *.
  destruct (kj s) as [|w| |] eqn:Hk; simpl in Hp.
  - destruct (kj_queue s) as [|w q] eqn:Hq.
    + destruct Hp as [|[Hst _]]; [done|]. exists LKjExit. simpl. unfold kj_step.
      rewrite Hk, Hq, Hst. eauto.
    + exists LKjTake. simpl. unfold kj_step. rewrite Hk, Hq. eauto.
  - exists (LKjAnswer (true, 0)). simpl. unfold kj_step. rewrite Hk. eauto.
  - exists LKjDrained. simpl. unfold kj_step. rewrite Hk. eauto.
  - destruct Hkj as [Hq _]. rewrite Hq in Hp. by destruct Hp as [?|[_ ?]].
Qed.

Lemma stop_progress argc s :
  inv argc s → g_stop s = true → (∀ code, main s ≠ MainReturn code) →
  ∃ l s', own l = true ∧ step l s = Some s'.
Proof.
  intros Hinv Hg Hnr. pose proof (inv_main _ _ Hinv) as Hm. unfold main_ok in Hm.
  destruct (main s) as [| | |code|code n|code|code|code] eqn:Hmain.
  - exists LMainTimeout. simpl. unfold main_step. rewrite Hmain. eauto.
  - exists LMainTest. simpl. unfold main_step. rewrite Hmain, Hg. eauto.
  - exists LMainPump. simpl. unfold main_step. rewrite Hmain, Hg. eauto.
  - exists LMainClose. simpl. unfold main_step. rewrite Hmain. eauto.
  - destruct (conns s !! n) as [c|] eqn:Hc.
    2: { exists LMainJoin. simpl. unfold main_step. rewrite Hmain, Hc. eauto. }
    destruct (is_waiting c) eqn:Hw.
    { eapply kj_can_move; [done|]. left. intros Hp.
      apply (not_elem_of_nil n). rewrite <- Hp. apply (inv_pending _ _ Hinv). eauto. }
    destruct (pc c) eqn:Hp; try (eapply conn_can_move; [done|done|by rewrite Hp|done]).
    exists LMainJoin. simpl. unfold main_step. rewrite Hmain, Hc, Hp. eauto.
  - exists LMainKjStop. simpl. unfold main_step. rewrite Hmain. eauto.
  - destruct (kj s) eqn:Hk.
    4: { exists LMainKjJoin. simpl. unfold main_step. rewrite Hmain, Hk. eauto. }
    all: eapply kj_can_move; [done|]; right; rewrite Hk; split; [apply Hm|done].
  - naive_solver.
Qed.

(** How much work there can be. *)
Lemma main_rank_nonneg argc s : inv argc s → 0 <= main_rank (main s) <= 12.
Proof.
  intros Hinv. pose proof (inv_main _ _ Hinv) as Hm. unfold main_ok in Hm.
  destruct (main s); simpl; try lia. destruct Hm as (_ & _ & _ & Hn & _).
  unfold kNumHaConns in Hn. lia.
Qed.

Lemma measure_bound argc s : inv argc s → 0 <= measure s <= 55.
Proof.
  intros Hinv. pose proof (measure_nonneg s). pose proof (main_rank_nonneg _ _ Hinv).
  unfold measure. split; [lia|]. pose proof (sumf_le rank (conns s) 8) as H8.
  rewrite (inv_len _ _ Hinv) in H8. unfold kNumHaConns in H8.
  assert (Hq : (length (pending s) ≤ 4)%nat).
  { change 4%nat with (length (seq 0 4)). apply submseteq_length, NoDup_submseteq; [apply Hinv|].
    intros i (c & Hc & _)%(inv_pending _ _ Hinv). apply lookup_lt_Some in Hc.
    rewrite (inv_len _ _ Hinv) in Hc. apply elem_of_seq. unfold kNumHaConns in Hc. lia. }
  unfold pending in Hq. rewrite length_fmap, length_app in Hq.
  assert (∀ c, rank c <= 8) as Hr by (intros c; unfold rank; by destruct (pc c)).
  specialize (H8 Hr ltac:(lia)). destruct (kj s); simpl in *; lia.
Qed.

Lemma steps_stop ls s s' : steps ls s = Some s' → g_stop s = true → g_stop s' = true.
Proof.
  revert s. induction ls as [|l ls IH]; intros s; simpl; [by intros [= <-]|].
  intros (s1 & Hs1 & Hs)%bind_Some Hg. eapply IH; [done|]. by eapply step_stop.
Qed.

(** A stopped state that cannot go on is the end. *)
Lemma stuck_returned argc s :
  inv argc s → g_stop s = true → (∀ l, own l = true → step l s = None) →
  ∃ code, main s = MainReturn code ∧ (code = 0 ∨ code = 1) ∧ (∀ i, exited s i) ∧ kj s = KjDone.
Proof.
  intros Hinv Hg Hstuck. pose proof (inv_main _ _ Hinv) as Hm. unfold main_ok in Hm.
  destruct (main s) as [| | |code|code n|code|code|code] eqn:Hmain;
    try (destruct (stop_progress _ _ Hinv Hg) as (l & s2 & Hl & Hs2);
         [by rewrite Hmain|rewrite (Hstuck l Hl) in Hs2; done]).
  exists code. split; [done|]. by destruct Hm as (? & _ & _ & ? & ?).
Qed.

(** ** Properties *)

(** C4: in every reachable state of the supervisor, [ok_count] is the number of
    connections that are registered, between 0 and 4 (the two racy atomics never
    drift), every back-off delay is a power of two of seconds between 1 s and
    32 s, and every pause, the one the server asks for included, lasts between
    1 s and 32 s: no retry-after value, negative or huge, overflows it. *)
Theorem supervisor_safe argc s :
  reachable argc s →
  ok_count s = healthy (conns s) ∧ 0 <= ok_count s <= 4
  ∧ ∀ i c, conns s !! i = Some c →
      backoff_ms c ∈ backoffs
      ∧ ∀ ms, pc c = Sleeping ms → kInitBackoffMs <= ms <= kMaxBackoffMs.
Proof.
  intros Hinv%reachable_inv. rewrite (inv_count _ _ Hinv). split; [done|]. split.
  - unfold healthy. split; [apply sumf_nonneg; intros c; by destruct (is_registered c)|].
    replace 4 with (1 * Z.of_nat (length (conns s))) by (by rewrite (inv_len _ _ Hinv)).
    apply sumf_le; [|lia]. intros c. by destruct (is_registered c).
  - intros i c Hc. by destruct (inv_conn _ _ Hinv i c Hc) as (? & ? & _).
Qed.

(** C37: the registrations are answered one at a time and in the order they were
    submitted; a thread blocks in [fut.get()] exactly while its registration is
    pending, and none is pending twice. No promise is broken: when the
    registration thread leaves its loop the queue is empty, so the drain after
    the loop never finds an entry. *)
Theorem registrations_fifo argc s :
  reachable argc s →
  cl <$> submitted s = answered s ++ pending s
  ∧ NoDup (pending s)
  ∧ (∀ i, i ∈ pending s ↔ ∃ c, conns s !! i = Some c ∧ is_waiting c = true)
  ∧ (kj s = KjDrain ∨ kj s = KjDone → kj_queue s = [] ∧ answered s = cl <$> submitted s).
Proof.
  intros Hinv%reachable_inv. split_and!; [apply Hinv..|].
  intros Hk. pose proof (inv_kj _ _ Hinv) as Hkj. unfold kj_ok in Hkj.
  rewrite (inv_fifo _ _ Hinv). unfold pending.
  destruct Hk as [Hk|Hk]; rewrite Hk in Hkj |- *; destruct Hkj as [-> _]; by rewrite app_nil_r.
Qed.


(** The four connections submit their first registration. *)
Definition all_submit : list label :=
  flat_map (λ i, [LTop i; LConnect i true; LSubmit i]) [0; 1; 2; 3]%nat.

Definition all_submitted (argc : Z) : sys :=
  let ws := (λ i, mkRegWork i (u8 argc)) <$> [0; 1; 2; 3]%nat in
  mkSys (replicate 4 (mkConn WaitFut kInitBackoffMs false None)) false 0 ws false KjWait MainWait
    argc ws [].

(** Every registration carries the same [conn_index], the low byte of the
    argument count: the lambda uses [i], the captured argument index of [main],
    in place of its own [conn_idx]. The four connections do submit: their
    registrations differ in the client and agree in the index. *)
Theorem conn_index_not_distinct argc :
  (∀ s, reachable argc s → Forall (λ w, conn_index w = u8 argc) (submitted s))
  ∧ ∃ s, reachable argc s ∧ submitted s = (λ i, mkRegWork i (u8 argc)) <$> [0; 1; 2; 3]%nat.
Proof.
  split; [intros s Hs; apply (reachable_inv _ _ Hs)|].
  exists (all_submitted argc). split; [|reflexivity]. exists all_submit.
  unfold all_submit, sys0. cbn -[u8]. reflexivity.
Qed.

(** ** Notifications *)

(** A waiter and a notifier of one condition variable. The waiter is
    [cv.wait(lk, pred)], or [wait_for]; the notifier sets the flag of the
    predicate and calls [notify_all], with or without the mutex of the waiter.
    [WPark] is the waiter that found the predicate false and is about to block,
    still with the mutex. *)
Inductive waiter := WLock | WTest | WPark | WBlocked | WDone.
Inductive notifier := NLock | NStore | NUnlock | NNotify | NDone.
Inductive owner := Free | ByWaiter | ByNotifier.

Record cv := mkCv { flag : bool; wpc : waiter; npc : notifier; mu : owner }.

Inductive cv_label := CvWaiter | CvNotifier | CvTimeout.

(** [timed]: the wait is a [wait_for]; [locked]: the notifier stores the flag
    under the mutex. *)
Definition cv_step (timed locked : bool) (l : cv_label) (c : cv) : option cv :=
  match l with
  | CvWaiter =>
      match wpc c with
      | WLock => match mu c with Free => Some (mkCv (flag c) WTest (npc c) ByWaiter) | _ => None end
      | WTest =>
          if flag c then Some (mkCv true WDone (npc c) Free)
          else Some (mkCv false WPark (npc c) ByWaiter)
      | WPark => Some (mkCv (flag c) WBlocked (npc c) Free)
      | WBlocked | WDone => None
      end
  | CvNotifier =>
      match npc c with
      | NLock =>
          if locked then
            match mu c with
            | Free => Some (mkCv (flag c) (wpc c) NStore ByNotifier)
            | _ => None
            end
          else Some (mkCv (flag c) (wpc c) NStore (mu c))
      | NStore => Some (mkCv true (wpc c) NUnlock (mu c))
      | NUnlock => Some (mkCv (flag c) (wpc c) NNotify (if locked then Free else mu c))
      | NNotify =>
          Some (mkCv (flag c) (match wpc c with WBlocked => WLock | w => w end) NDone (mu c))
      | NDone => None
      end
  | CvTimeout =>
      match wpc c with
      | WBlocked => if timed then Some (mkCv (flag c) WDone (npc c) (mu c)) else None
      | _ => None
      end
  end.

Fixpoint cv_steps (timed locked : bool) (ls : list cv_label) (c : cv) : option cv :=
  match ls with
  | [] => Some c
  | l :: ls' => cv_step timed locked l c ≫= cv_steps timed locked ls'
  end.

Definition cv0 : cv := mkCv false WLock NLock Free.

Definition cv_reachable (timed locked : bool) (c : cv) : Prop :=
  ∃ ls, cv_steps timed locked ls cv0 = Some c.

(** Nothing moves any more. *)
Definition cv_stuck (timed locked : bool) (c : cv) : Prop :=
  ∀ l, cv_step timed locked l c = None.

Definition stored (n : notifier) : bool :=
  match n with NLock | NStore => false | _ => true end.

Definition cv_inv (locked : bool) (c : cv) : bool :=
  match wpc c, mu c with
  | (WTest | WPark), ByWaiter => true
  | (WTest | WPark), _ => false
  | _, ByWaiter => false
  | _, _ => true
  end
  && match npc c, mu c with
     | (NStore | NUnlock), ByNotifier => locked
     | (NStore | NUnlock), _ => negb locked
     | _, ByNotifier => false
     | _, _ => true
     end
  && eqb (flag c) (stored (npc c))
  && (negb locked || match wpc c with
                     | WPark => negb (stored (npc c))
                     | WBlocked => match npc c with NDone => false | _ => true end
                     | _ => true
                     end).

Lemma cv_inv_step timed locked l c c' :
  cv_inv locked c = true → cv_step timed locked l c = Some c' → cv_inv locked c' = true.
Proof.
  destruct c as [[] [] [] []], locked; try discriminate; intros _; destruct l;
    try discriminate; simpl; try destruct timed; try discriminate; by intros [= <-].
Qed.

Lemma cv_reachable_inv timed locked c : cv_reachable timed locked c → cv_inv locked c = true.
Proof.
  intros [ls Hs]. assert (cv_inv locked cv0 = true) as H0 by (by destruct locked).
  revert H0 Hs. generalize cv0 as c0. induction ls as [|l ls IH]; intros c0 H0; simpl.
  - by intros [= <-].
  - intros (c1 & Hc1 & Hs)%bind_Some. eapply IH; [|done]. by eapply cv_inv_step.
Qed.

(** A waiter is never left behind when the notifier stores its flag under
    the mutex, as the registration queue does, or when the wait has a timeout,
    as [interruptible_sleep] and the wait for the first connection have: when
    nothing moves any more, the waiter has returned. *)
Theorem no_lost_wakeup timed locked c :
  timed || locked = true → cv_reachable timed locked c → cv_stuck timed locked c → wpc c = WDone.
Proof.
  intros Htl Hi%cv_reachable_inv Hst. pose proof (Hst CvWaiter) as Hw.
  pose proof (Hst CvNotifier) as Hn. pose proof (Hst CvTimeout) as Ht.
  destruct c as [[] [] [] []], timed, locked; try discriminate; done.
Qed.

(** The wait of a registered connection has neither: [on_signal] and the
    disconnect handler set their flag without [g_wakeup_mu], and the wait has no
    timeout. There is a schedule in which the flag is set and notified between
    the waiter's test and its block, and the waiter sleeps with the flag set. *)
Theorem lost_wakeup :
  ∃ c, cv_reachable false false c ∧ cv_stuck false false c
       ∧ flag c = true ∧ wpc c = WBlocked ∧ npc c = NDone.
Proof.
  exists (mkCv true WBlocked NDone Free). split_and!; try done.
  - by exists [CvWaiter; CvWaiter; CvNotifier; CvNotifier; CvNotifier; CvNotifier; CvWaiter].
  - by intros [].
Qed.

(** ** Witnesses *)

(** One connection registers and is told to stop; the others never start. *)
Definition sample_labels : list label :=
  [LTop 0; LConnect 0 true; LSubmit 0; LKjTake; LKjAnswer (true, 0); LGet 0; LMainWake;
   LMainTest; LSignal].

Definition sample_sys : sys := default (sys0 3) (steps sample_labels (sys0 3)).

Lemma sample_reachable : reachable 3 sample_sys.
Proof. exists sample_labels. by vm_compute. Qed.

(** The rest of the shutdown. *)
Definition sample_shutdown : list label :=
  [LWake 0; LAfter 0; LTop 0; LTop 1; LTop 2; LTop 3; LMainPump; LMainClose; LMainJoin; LMainJoin;
   LMainJoin; LMainJoin; LMainJoin; LMainKjStop; LKjExit; LKjDrained; LMainKjJoin].

Definition sample_end : sys := default (sys0 3) (steps sample_shutdown sample_sys).

Lemma supervisor_safe_witness : ok_count sample_sys = 1 ∧ healthy (conns sample_sys) = 1.
Proof.
  destruct (supervisor_safe 3 sample_sys sample_reachable) as [Hc _].
  split; [by vm_compute|]. rewrite <- Hc. by vm_compute.
Defined.

Lemma registrations_fifo_witness :
  cl <$> submitted sample_sys = answered sample_sys ++ pending sample_sys
  ∧ answered sample_sys = [0%nat].
Proof.
  split; [exact (proj1 (registrations_fifo 3 sample_sys sample_reachable))|by vm_compute].
Defined.

Lemma sample_end_stuck l : own l = true → step l sample_end = None.
Proof.
  replace sample_end with (ltac:(let x := eval vm_compute in sample_end in exact x))
    by (vm_compute; reflexivity).
  destruct l as [i|i ok|i|i|i|i|i|i| | |a| | | | | | | | | |]; try done;
    intros _; by destruct i as [|[|[|[|i]]]].
Qed.


Lemma conn_index_not_distinct_witness :
  Forall (λ w, conn_index w = 3) (submitted sample_sys).
Proof. exact (proj1 (conn_index_not_distinct 3) sample_sys sample_reachable). Defined.

Lemma no_lost_wakeup_witness :
  wpc (mkCv true WDone NDone Free) = WDone.
Proof.
  apply (no_lost_wakeup false true (mkCv true WDone NDone Free)); [done| |].
  - by exists [CvNotifier; CvNotifier; CvNotifier; CvNotifier; CvWaiter; CvWaiter].
  - by intros [].
Defined.
