(* ===== verification/Netlink.v ===== *)
(** * The RTNETLINK client

    [include/cfd/netlink.hpp] and [src/net/netlink.cpp], the Linux build: the
    class [Client] builds its requests by hand in a scratch buffer. The buffer
    is a list of bytes that the code writes at offsets, the layouts and constants
    are those of the Linux UAPI on a little-endian machine, and the kernel is a
    parameter: a function from its state and the bytes sent to what [recv]
    returns. *)
From S2P Require Import Prelude Cidr.
Local Open Scope Z_scope.
Local Open Scope cfd_scope.

(** ** Little-endian fields *)

Definition le16 (v : Z) : list Z := [u8 v; u8 (Z.shiftr v 8)].
Definition le32 (v : Z) : list Z :=
  [u8 v; u8 (Z.shiftr v 8); u8 (Z.shiftr v 16); u8 (Z.shiftr v 24)].

(** [static_cast<int>] of a 32-bit word. *)
Definition i32 (v : Z) : Z := (v + 2 ^ 31) mod 2 ^ 32 - 2 ^ 31.

(** ** Constants of the kernel interface *)

Definition kScratch : nat := 4096.
Definition IFNAMSIZ : nat := 16.
Definition RTM_NEWLINK : Z := 16.
Definition RTM_NEWADDR : Z := 20.
Definition RTM_NEWROUTE : Z := 24.
Definition NLMSG_ERROR : Z := 2.
Definition NLM_F_REQUEST : Z := 1.
Definition NLM_F_ACK : Z := 4.
Definition NLM_F_REPLACE : Z := 256.
Definition NLM_F_CREATE : Z := 1024.
Definition IFF_UP : Z := 1.
Definition IFF_RUNNING : Z := 64.
Definition IFLA_MTU : Z := 4.
Definition IFA_ADDRESS : Z := 1.
Definition IFA_LOCAL : Z := 2.
Definition RTA_DST : Z := 1.
Definition RTA_OIF : Z := 4.
Definition RT_TABLE_MAIN : Z := 254.
Definition RTPROT_BOOT : Z := 3.
Definition RT_SCOPE_LINK : Z := 253.
Definition RTN_UNICAST : Z := 1.
Definition EEXIST : Z := 17.
Definition EINVAL : Z := 22.
Definition EPROTO : Z := 71.
Definition EMSGSIZE : Z := 90.

(** [AF_INET] and [AF_INET6]; the number of address bytes is [addr_len]. *)
Definition af (f : Family) : Z := match f with V4 => 2 | V6 => 10 end.

(** [NLMSG_ALIGN] of a 32-bit length, and [RTA_LENGTH]. *)
Definition NLMSG_ALIGN (len : Z) : Z := Z.ldiff (u32 (len + 3)) 3.
Definition RTA_LENGTH (len : Z) : Z := 4 + len.

(** ** Writing a message *)

(** A write of a field at an offset of the buffer. *)
Definition put (off : nat) (bs : list Z) (buf : list Z) : run (list Z) :=
  run_opt (memcpy_at off bs buf).

Definition nlmsg_len (buf : list Z) : Z := of_le (take 4 buf).

(** [nla_put]: the bool of the C++ function, and the buffer. *)
Definition nla_put (cap : Z) (type : Z) (data : list Z) (buf : list Z) : run (bool * list Z) :=
  let len := Z.of_nat (length data) in
  let aligned := NLMSG_ALIGN (nlmsg_len buf) in
  let need := aligned + RTA_LENGTH len in
  if cap <? need then Done (false, buf)
  else
    let at_ := Z.to_nat aligned in
    let! buf := put (at_ + 2) (le16 type) buf in
    let! buf := put at_ (le16 (u16 (RTA_LENGTH len))) buf in
    let! buf := put (at_ + 4) data buf in
    let! buf := put 0 (le32 need) buf in
    Done (true, buf).

(** ** The client *)

(** [fd_] (-1 when there is no socket), [seq_] and [pid_]. *)
Record Client := mkClient { fd_ : Z; seq_ : Z; pid_ : Z }.

(** [Client{}] *)
Definition Client_new : Client := mkClient (-1) 0 0.

(** What [send] and [recv] return: an error number of either, or the bytes. *)
Inductive sendrecv := SendFail (e : Z) | RecvFail (e : Z) | Received (bs : list Z).

(** An [std::error_code] of the generic category: 0 is success. *)
Abbreviation error_code := Z.

(** The system calls the client makes on a socket. The first component of a sum
    is [errno]; [sys_bind] answers [errno], or 0. *)
Class Kernel (K : Type) := {
  sys_socket : K → K * (Z + Z);
  sys_bind : K → Z → K * Z;
  (** the port id [getsockname] reads *)
  sys_getsockname : K → Z → K * (Z + Z);
  sys_close : K → Z → K;
  if_nametoindex : K → text → K * (Z + Z);
  (** [send] of a datagram, then [recv] *)
  exchange : K → Z → list Z → K * sendrecv;
  (** what the stack held where [recv] puts its bytes *)
  stack : K → list Z;
}.

Section client.
Context {K : Type} `{Kernel K}.

(** [UniqueFd::reset(-1)], the destructor of a socket. *)
Definition close_fd (fd : Z) (k : K) : K := if 0 <=? fd then sys_close k fd else k.

(** [Client::open]: the local [s] is closed on the error paths, and moved into
    [fd_] at the end, which closes the socket there was. *)
Definition open (c : Client) (k : K) : error_code * Client * K :=
  let '(k, r) := sys_socket k in
  match r with
  | inl e => (e, c, k)
  | inr s =>
      let '(k, e) := sys_bind k s in
      if negb (e =? 0) then (e, c, close_fd s k)
      else
        let '(k, r) := sys_getsockname k s in
        match r with
        | inl e => (e, c, close_fd s k)
        | inr pid =>
            (0, mkClient s (seq_ c) pid, if fd_ c =? s then k else close_fd (fd_ c) k)
        end
  end.

(** [~Client()] *)
Definition Client_dtor (c : Client) (k : K) : K := close_fd (fd_ c) k.

(** What [talk] makes of the [n] bytes of a reply at the start of [buf]. *)
Definition check_ack (buf : list Z) (n : Z) : error_code :=
  let len := nlmsg_len buf in
  if negb ((16 <=? n) && (16 <=? len) && (len <=? n)) then EPROTO
  else if negb (of_le (take 2 (drop 4 buf)) =? NLMSG_ERROR) then EPROTO
  else
    let err := i32 (of_le (take 4 (drop 16 buf))) in
    if err =? 0 then 0 else i32 (- err).

Definition talk (fd : Z) (req : list Z) (len : Z) (k : K) : run (error_code * K) :=
  let garbage := stack k in
  let '(k, r) := exchange k fd (take (Z.to_nat len) req) in
  match r with
  | SendFail e => Done (e, k)
  | RecvFail e => Done (e, k)
  | Received bs =>
      let! buf := put 0 bs garbage in
      Done (check_ack buf (Z.of_nat (length bs)), k)
  end.

(** [Client::if_index]: the error, and the index written to [out]. *)
Definition if_index (name : text) (out : Z) (k : K) : run (error_code * Z * K) :=
  if (IFNAMSIZ <=? length name)%nat then Done (EINVAL, out, k)
  else
    let! tmp := run_opt (memcpy_at 0 name (replicate IFNAMSIZ nul)) in
    let '(k, r) := if_nametoindex k (c_str tmp) in
    match r with
    | inl e => Done (e, out, k)
    | inr idx => Done (0, i32 idx, k)
    end.

(** The header every request starts with, in a zeroed buffer; [++seq_]. *)
Definition start_msg (body type flags : Z) (c : Client) : run (list Z * Client) :=
  let c := mkClient (fd_ c) (u32 (seq_ c + 1)) (pid_ c) in
  let! buf := put 0 (le32 (16 + body)) (replicate kScratch 0) in
  let! buf := put 4 (le16 type) buf in
  let! buf := put 6 (le16 flags) buf in
  let! buf := put 8 (le32 (seq_ c)) buf in
  let! buf := put 12 (le32 (pid_ c)) buf in
  Done (buf, c).

(** [talk(buf, nlh->nlmsg_len)] *)
Definition send_msg (buf : list Z) (c : Client) (k : K) : run (error_code * Client * K) :=
  let! r := talk (fd_ c) buf (nlmsg_len buf) k in Done (r.1, c, r.2).

(** [Client::link_up] *)
Definition link_up (ifindex : Z) (c : Client) (k : K) : run (error_code * Client * K) :=
  let! r := start_msg 16 RTM_NEWLINK (Z.lor NLM_F_REQUEST NLM_F_ACK) c in
  let! buf := put 16 [0] r.1 in
  let! buf := put 20 (le32 ifindex) buf in
  let! buf := put 24 (le32 (Z.lor IFF_UP IFF_RUNNING)) buf in
  let! buf := put 28 (le32 (Z.lor IFF_UP IFF_RUNNING)) buf in
  send_msg buf r.2 k.

(** [Client::set_mtu] *)
Definition set_mtu (ifindex mtu : Z) (c : Client) (k : K) : run (error_code * Client * K) :=
  let! r := start_msg 16 RTM_NEWLINK (Z.lor NLM_F_REQUEST NLM_F_ACK) c in
  let! buf := put 16 [0] r.1 in
  let! buf := put 20 (le32 ifindex) buf in
  let! p := nla_put (Z.of_nat kScratch) IFLA_MTU (le32 mtu) buf in
  if negb p.1 then Done (EMSGSIZE, r.2, k) else send_msg p.2 r.2 k.

(** The flags of [add_addr] and [add_route]. *)
Definition create_flags : Z :=
  Z.lor (Z.lor (Z.lor NLM_F_REQUEST NLM_F_ACK) NLM_F_CREATE) NLM_F_REPLACE.

(** The address bytes [nla_put] copies. *)
Definition addr_data (a : IpAddr) : list Z := take (addr_len (family a)) (bytes a).

(** [Client::add_addr] *)
Definition add_addr (ifindex : Z) (a : Cidr) (c : Client) (k : K)
    : run (error_code * Client * K) :=
  let! r := start_msg 8 RTM_NEWADDR create_flags c in
  let! buf := put 16 [af (family (addr a))] r.1 in
  let! buf := put 17 [prefix_len a] buf in
  let! buf := put 18 [0] buf in
  let! buf := put 19 [0] buf in
  let! buf := put 20 (le32 ifindex) buf in
  let! p := nla_put (Z.of_nat kScratch) IFA_LOCAL (addr_data (addr a)) buf in
  if negb p.1 then Done (EMSGSIZE, r.2, k)
  else
    let! p := nla_put (Z.of_nat kScratch) IFA_ADDRESS (addr_data (addr a)) p.2 in
    if negb p.1 then Done (EMSGSIZE, r.2, k) else send_msg p.2 r.2 k.

(** [Client::add_route] *)
Definition add_route (ifindex : Z) (dst : Cidr) (c : Client) (k : K)
    : run (error_code * Client * K) :=
  let! r := start_msg 12 RTM_NEWROUTE create_flags c in
  let! buf := put 16 [af (family (addr dst))] r.1 in
  let! buf := put 17 [prefix_len dst] buf in
  let! buf := put 20 [RT_TABLE_MAIN] buf in
  let! buf := put 21 [RTPROT_BOOT] buf in
  let! buf := put 22 [RT_SCOPE_LINK] buf in
  let! buf := put 23 [RTN_UNICAST] buf in
  let! p := nla_put (Z.of_nat kScratch) RTA_DST (addr_data (addr dst)) buf in
  if negb p.1 then Done (EMSGSIZE, r.2, k)
  else
    let! p := nla_put (Z.of_nat kScratch) RTA_OIF (le32 (u32 ifindex)) p.2 in
    if negb p.1 then Done (EMSGSIZE, r.2, k) else send_msg p.2 r.2 k.
End client.

(** ** The wire format *)

(** A message: type, flags, sequence number, port id, the fixed body of its type
    and the attributes. *)
Record message := mkMessage {
  m_type : Z; m_flags : Z; m_seq : Z; m_pid : Z;
  m_body : list Z; m_attrs : list (Z * list Z);
}.

(** The receiver's side: read the attributes, each aligned to 4. *)
Fixpoint parse_attrs (fuel : nat) (bs : list Z) : option (list (Z * list Z)) :=
  match fuel, bs with
  | _, [] => Some []
  | O, _ => None
  | S fuel', _ =>
      let len := of_le (take 2 bs) in
      if (len <? 4) || (Z.of_nat (length bs) <? len) then None
      else
        let data := take (Z.to_nat (len - 4)) (drop 4 bs) in
        cons (of_le (take 2 (drop 2 bs)), data)
        <$> parse_attrs fuel' (drop (Z.to_nat (NLMSG_ALIGN len)) bs)
  end.

(** Read a message whose body has [body] bytes; the length field must be that of
    the datagram. *)
Definition parse_message (body : nat) (bs : list Z) : option message :=
  if negb (nlmsg_len bs =? Z.of_nat (length bs)) || (length bs <? 16 + body)%nat then None
  else
    mkMessage (of_le (take 2 (drop 4 bs))) (of_le (take 2 (drop 6 bs)))
      (of_le (take 4 (drop 8 bs))) (of_le (take 4 (drop 12 bs))) (take body (drop 16 bs))
    <$> parse_attrs (length bs) (drop (16 + body) bs).

(** The sender's side. *)
Definition encode_attr (a : Z * list Z) : list Z :=
  le16 (RTA_LENGTH (Z.of_nat (length a.2))) ++ le16 a.1 ++ a.2.

Definition encode_message (m : message) : list Z :=
  let attrs := m_attrs m ≫= encode_attr in
  le32 (Z.of_nat (16 + length (m_body m) + length attrs))
  ++ le16 (m_type m) ++ le16 (m_flags m) ++ le32 (m_seq m) ++ le32 (m_pid m)
  ++ m_body m ++ attrs.

(** ** Fields *)

#[local] Arguments u8 : simpl never.
#[local] Arguments u16 : simpl never.
#[local] Arguments u32 : simpl never.
#[local] Arguments Z.shiftr : simpl never.

Lemma of_le_le16 v : of_le (le16 v) = u16 v.
Proof. unfold le16, of_le. rewrite Z.shiftr_div_pow2 by lia. word_lia. Qed.

Lemma of_le_le32 v : of_le (le32 v) = u32 v.
Proof.
  unfold le32, of_le. rewrite !Z.shiftr_div_pow2 by lia.
  change (2 ^ 8) with 256. change (2 ^ 16) with 65536. change (2 ^ 24) with 16777216.
  unfold u8, u32. change (2 ^ 8) with 256. change (2 ^ 32) with 4294967296.
  Z.to_euclidean_division_equations. lia.
Qed.

Lemma le16_ok v : bytes_ok (le16 v).
Proof. repeat constructor; apply u8_byte_ok. Qed.

Lemma le32_ok v : bytes_ok (le32 v).
Proof. repeat constructor; apply u8_byte_ok. Qed.

Lemma NLMSG_ALIGN_id len : 0 <= len < 2 ^ 31 → len mod 4 = 0 → NLMSG_ALIGN len = len.
Proof.
  intros Hl Hm. unfold NLMSG_ALIGN. rewrite u32_small by lia.
  change 3 with (Z.ones 2) at 2. rewrite Z.ldiff_ones_r by lia.
  rewrite Z.shiftr_div_pow2, Z.shiftl_mul_pow2 by lia. change (2 ^ 2) with 4.
  Z.to_euclidean_division_equations. lia.
Qed.

(** Writes inside a prefix, and after one. *)
Lemma put_prefix off bs m z :
  (off + length bs ≤ length m)%nat →
  put off bs (m ++ z) = Done ((take off m ++ bs ++ drop (off + length bs) m) ++ z).
Proof.
  intros Hl. unfold put. rewrite memcpy_at_Some by (rewrite length_app; lia). simpl.
  by rewrite take_app_le, drop_app_le, <- !app_assoc by lia.
Qed.

Lemma put_suffix off bs m z :
  put (length m + off) bs (m ++ z) = let! z' := put off bs z in Done (m ++ z').
Proof.
  unfold put, memcpy_at. rewrite length_app.
  destruct (off + length bs <=? length z)%nat eqn:Hl; bool_facts.
  - rewrite (proj2 (Nat.leb_le _ _)) by lia. simpl.
    rewrite take_app_add, <- Nat.add_assoc, drop_app_add. by rewrite <- app_assoc.
  - by rewrite (proj2 (Nat.leb_gt _ _)) by lia.
Qed.

(** ** Building a message *)

Abbreviation zeros k := (replicate k 0).

Definition encode_attrs (l : list (Z * list Z)) : list Z := l ≫= encode_attr.

Definition add_attr (t : Z) (data : list Z) (m : message) : message :=
  mkMessage (m_type m) (m_flags m) (m_seq m) (m_pid m) (m_body m) (m_attrs m ++ [(t, data)]).

Lemma length_encode m :
  length (encode_message m) = (16 + length (m_body m) + length (encode_attrs (m_attrs m)))%nat.
Proof. unfold encode_message. rewrite !length_app. simpl. fold (encode_attrs (m_attrs m)). lia. Qed.

Lemma nlmsg_len_encode m z :
  Z.of_nat (length (encode_message m)) < 2 ^ 32 →
  nlmsg_len (encode_message m ++ z) = Z.of_nat (length (encode_message m)).
Proof.
  intros Hl. unfold nlmsg_len, encode_message at 1. rewrite <- app_assoc.
  rewrite take_app_length' by done. rewrite of_le_le32.
  rewrite length_encode in Hl |- *. unfold encode_attrs in *. apply u32_small. lia.
Qed.

(** What follows the length field. *)
Definition after_len (m : message) : list Z :=
  le16 (m_type m) ++ le16 (m_flags m) ++ le32 (m_seq m) ++ le32 (m_pid m)
  ++ m_body m ++ encode_attrs (m_attrs m).

Lemma encode_after_len m :
  encode_message m = le32 (Z.of_nat (length (encode_message m))) ++ after_len m.
Proof. rewrite length_encode. reflexivity. Qed.

Lemma after_len_add t data m :
  after_len (add_attr t data m) = after_len m ++ encode_attr (t, data).
Proof.
  unfold after_len. simpl m_attrs. unfold encode_attrs. rewrite bind_app.
  cbn [mbind list_bind]. rewrite app_nil_r. by rewrite <- !app_assoc.
Qed.

(** The state of the buffer: a message, then zeros. *)
Lemma nla_put_encode t data m k :
  (length (encode_message m) + k)%nat = kScratch →
  Z.of_nat (length (encode_message m)) mod 4 = 0 →
  (4 + length data ≤ k)%nat →
  nla_put (Z.of_nat kScratch) t data (encode_message m ++ zeros k)
  = Done (true, encode_message (add_attr t data m) ++ zeros (k - (4 + length data))).
Proof.
  intros Hk Hm Hd. unfold kScratch in Hk. set (L := length (encode_message m)) in *.
  unfold nla_put. rewrite nlmsg_len_encode by (subst L; lia). fold L.
  rewrite NLMSG_ALIGN_id by lia. unfold RTA_LENGTH.
  rewrite (proj2 (Z.ltb_ge _ _)) by (unfold kScratch; lia). rewrite Nat2Z.id.
  set (n := length data) in *.
  assert (zeros k = zeros 4 ++ zeros n ++ zeros (k - (4 + n))) as ->.
  { rewrite <- !replicate_add. f_equal. lia. }
  unfold L at 1. rewrite put_suffix. rewrite put_prefix by (simpl; lia).
  cbn [run_bind].
  replace L with (length (encode_message m) + 0)%nat at 1 by lia. rewrite put_suffix.
  rewrite put_prefix by (simpl; lia). cbn [run_bind].
  unfold L at 1. rewrite put_suffix.
  match goal with |- context [put 4 data ?z] =>
    replace z with ((le16 (u16 (4 + Z.of_nat n)) ++ le16 t) ++ zeros n ++ zeros (k - (4 + n)))
      by reflexivity end.
  rewrite (put_suffix 0 data (le16 _ ++ le16 t)).
  rewrite put_prefix by (rewrite length_replicate; done). cbn [run_bind].
  rewrite drop_ge by (rewrite length_replicate; done).
  cbn [take app]. rewrite app_nil_r.
  rewrite put_prefix by (rewrite length_encode; change (length (le32 _)) with 4%nat; lia).
  cbn [run_bind].
  do 2 f_equal. rewrite u16_small by lia.
  rewrite (encode_after_len (add_attr t data m)), after_len_add.
  change (drop (0 + _) (encode_message m)) with (after_len m).
  rewrite !take_0. cbn [app]. rewrite <- !app_assoc. f_equal.
  subst L. rewrite !length_encode. unfold encode_attrs. simpl m_attrs. simpl m_body.
  rewrite bind_app, length_app. simpl. rewrite app_nil_r. fold n. f_equal. lia.
Qed.

Lemma length_encode_add t data m :
  length (encode_message (add_attr t data m)) = (length (encode_message m) + (4 + length data))%nat.
Proof.
  rewrite !length_encode. simpl m_attrs. simpl m_body. unfold encode_attrs.
  rewrite bind_app, length_app. simpl. rewrite app_nil_r. lia.
Qed.

Definition set_body (body : list Z) (m : message) : message :=
  mkMessage (m_type m) (m_flags m) (m_seq m) (m_pid m) body (m_attrs m).

(** A write into the body of a message without attributes. *)
Lemma put_body off bs m z :
  m_attrs m = [] → (off + length bs ≤ length (m_body m))%nat →
  put (16 + off) bs (encode_message m ++ z)
  = Done (encode_message
            (set_body (take off (m_body m) ++ bs ++ drop (off + length bs) (m_body m)) m) ++ z).
Proof.
  intros Ha Hl.
  assert (∀ b, encode_message (set_body b m)
    = (le32 (Z.of_nat (16 + length b)) ++ le16 (m_type m) ++ le16 (m_flags m) ++ le32 (m_seq m)
       ++ le32 (m_pid m)) ++ b) as He.
  { intros b. unfold encode_message, set_body. simpl m_attrs. rewrite Ha.
    simpl. rewrite app_nil_r, Nat.add_0_r. done. }
  assert (m = set_body (m_body m) m) as Hm by (by destruct m).
  rewrite Hm at 1. rewrite He.
  set (h := le32 _ ++ _). assert (length h = 16%nat) as Hh by done.
  rewrite <- app_assoc, <- Hh, put_suffix, put_prefix by done. cbn [run_bind].
  set (b := take off _ ++ _).
  assert (length b = length (m_body m)) as Hb.
  { unfold b. rewrite !length_app, length_take, length_drop. lia. }
  rewrite He, Hb. fold h. by rewrite <- !app_assoc.
Qed.

(** The same at an offset of the buffer. *)
Lemma put_field pos bs m z :
  m_attrs m = [] → (16 ≤ pos)%nat → (pos - 16 + length bs ≤ length (m_body m))%nat →
  put pos bs (encode_message m ++ z)
  = Done (encode_message
            (set_body (take (pos - 16) (m_body m) ++ bs
                       ++ drop (pos - 16 + length bs) (m_body m)) m) ++ z).
Proof.
  intros Ha Hp Hl. replace pos with (16 + (pos - 16))%nat at 1 by lia. by apply put_body.
Qed.

Lemma start_msg_encode body type flags c :
  (body ≤ 64)%nat →
  start_msg (Z.of_nat body) type flags c
  = Done (encode_message (mkMessage type flags (u32 (seq_ c + 1)) (pid_ c) (zeros body) [])
            ++ zeros (kScratch - (16 + body)),
          mkClient (fd_ c) (u32 (seq_ c + 1)) (pid_ c)).
Proof.
  intros Hb. unfold start_msg.
  assert (zeros kScratch = zeros 16 ++ zeros body ++ zeros (kScratch - (16 + body))) as ->.
  { rewrite <- !replicate_add. f_equal. unfold kScratch. lia. }
  rewrite put_prefix by (simpl; lia). cbn [run_bind].
  rewrite put_prefix by (simpl; lia). cbn [run_bind].
  rewrite put_prefix by (simpl; lia). cbn [run_bind].
  rewrite put_prefix by (simpl; lia). cbn [run_bind].
  rewrite put_prefix by (simpl; lia). cbn [run_bind].
  match goal with |- Done (?x ++ _, _) = _ =>
    change x with (le32 (16 + Z.of_nat body) ++ le16 type ++ le16 flags
                   ++ le32 (u32 (seq_ c + 1)) ++ le32 (pid_ c)) end.
  do 2 f_equal. unfold encode_message. simpl m_attrs. simpl m_body.
  rewrite length_replicate. cbn [mbind list_bind length m_type m_flags m_seq m_pid].
  rewrite Nat.add_0_r, app_nil_r.
  replace (Z.of_nat (16 + body)) with (16 + Z.of_nat body) by lia.
  by rewrite <- !app_assoc.
Qed.

(** ** Reading a message back *)

Lemma parse_attrs_encode l fuel :
  Forall (λ a, 0 <= a.1 < 2 ^ 16 ∧ Z.of_nat (length a.2) < 2 ^ 15 ∧ Z.of_nat (length a.2) mod 4 = 0) l →
  (length l ≤ fuel)%nat →
  parse_attrs fuel (encode_attrs l) = Some l.
Proof.
  intros Hl. revert fuel. induction Hl as [|[t d] l (Ht & Hd & Hm) Hl IH]; intros fuel Hf.
  { by destruct fuel. }
  destruct fuel as [|fuel]; simpl in Hf; [lia|]. simpl fst in *. simpl snd in *.
  set (n := length d) in *.
  assert (encode_attrs ((t, d) :: l)
    = le16 (4 + Z.of_nat n) ++ le16 t ++ d ++ encode_attrs l) as ->.
  { unfold encode_attrs. cbn [mbind list_bind]. unfold encode_attr at 1. unfold RTA_LENGTH.
    simpl fst. simpl snd. by rewrite <- !app_assoc. }
  cbn [parse_attrs le16 app]. fold (le16 (4 + Z.of_nat n)).
  change (take 2 (_ :: _ :: ?x)) with (le16 (4 + Z.of_nat n)).
  rewrite of_le_le16, u16_small by lia.
  match goal with |- context [length ?x] =>
    match x with _ :: _ => assert (length x = (4 + n + length (encode_attrs l))%nat) as Hx
      by (cbn [length]; rewrite length_app; fold n; lia); rewrite Hx end end.
  rewrite (proj2 (Z.ltb_ge _ _)), (proj2 (Z.ltb_ge _ _)) by lia. cbn [orb].
  rewrite NLMSG_ALIGN_id; [|lia|rewrite Z.add_mod, Hm by lia; done].
  replace (Z.to_nat (4 + Z.of_nat n - 4)) with n by lia.
  replace (Z.to_nat (4 + Z.of_nat n)) with (4 + n)%nat by lia.
  cbn [drop Nat.add]. rewrite drop_0, drop_app_length', take_app_length' by done.
  rewrite IH by lia.
  change (take 2 (_ :: _ :: ?x)) with (le16 t). rewrite of_le_le16, u16_small by lia.
  done.
Qed.

(** The messages whose fields fit their width, with aligned attributes. *)
Definition message_ok (m : message) : Prop :=
  0 <= m_type m < 2 ^ 16 ∧ 0 <= m_flags m < 2 ^ 16 ∧ 0 <= m_seq m < 2 ^ 32
  ∧ 0 <= m_pid m < 2 ^ 32
  ∧ Z.of_nat (length (encode_message m)) < 2 ^ 32
  ∧ Forall (λ a, 0 <= a.1 < 2 ^ 16 ∧ Z.of_nat (length a.2) < 2 ^ 15 ∧ Z.of_nat (length a.2) mod 4 = 0)
      (m_attrs m).

Lemma encode_attrs_length l : (length l ≤ length (encode_attrs l))%nat.
Proof.
  induction l as [|a l IH]; [done|]. unfold encode_attrs. cbn [mbind list_bind length].
  fold (encode_attrs l). rewrite length_app. unfold encode_attr at 1. simpl. lia.
Qed.

Lemma parse_encode m :
  message_ok m → parse_message (length (m_body m)) (encode_message m) = Some m.
Proof.
  intros (Ht & Hf & Hs & Hp & Hl & Ha). unfold parse_message.
  rewrite <- (app_nil_r (encode_message m)) at 1. rewrite nlmsg_len_encode by done.
  rewrite Z.eqb_refl. cbn [negb orb]. pose proof (length_encode m) as Hle.
  rewrite (proj2 (Nat.ltb_ge _ _)) by lia.
  assert (drop (16 + length (m_body m)) (encode_message m) = encode_attrs (m_attrs m)) as ->.
  { change (drop (16 + length (m_body m)) (encode_message m))
      with (drop (length (m_body m)) (m_body m ++ encode_attrs (m_attrs m))).
    by rewrite drop_app_length. }
  rewrite parse_attrs_encode; [|done|].
  2: { pose proof (encode_attrs_length (m_attrs m)). lia. }
  change (take 2 (drop 4 (encode_message m))) with (le16 (m_type m)).
  change (take 2 (drop 6 (encode_message m))) with (le16 (m_flags m)).
  change (take 4 (drop 8 (encode_message m))) with (le32 (m_seq m)).
  change (take 4 (drop 12 (encode_message m))) with (le32 (m_pid m)).
  change (drop 16 (encode_message m)) with (m_body m ++ encode_attrs (m_attrs m)).
  rewrite take_app_length, !of_le_le16, !of_le_le32, !u16_small, !u32_small by done.
  by destruct m.
Qed.

(** ** The requests *)

(** The message of each operation. *)
Definition next_client (c : Client) : Client :=
  mkClient (fd_ c) (u32 (seq_ c + 1)) (pid_ c).

Definition link_up_msg (idx : Z) (c : Client) : message :=
  mkMessage RTM_NEWLINK 5 (u32 (seq_ c + 1)) (pid_ c)
    ([0; 0; 0; 0] ++ le32 idx ++ le32 65 ++ le32 65) [].

Definition set_mtu_msg (idx mtu : Z) (c : Client) : message :=
  mkMessage RTM_NEWLINK 5 (u32 (seq_ c + 1)) (pid_ c)
    ([0; 0; 0; 0] ++ le32 idx ++ zeros 8) [(IFLA_MTU, le32 mtu)].

Definition add_addr_msg (idx : Z) (a : Cidr) (c : Client) : message :=
  mkMessage RTM_NEWADDR 1285 (u32 (seq_ c + 1)) (pid_ c)
    ([af (family (addr a)); prefix_len a; 0; 0] ++ le32 idx)
    [(IFA_LOCAL, addr_data (addr a)); (IFA_ADDRESS, addr_data (addr a))].

Definition add_route_msg (idx : Z) (dst : Cidr) (c : Client) : message :=
  mkMessage RTM_NEWROUTE 1285 (u32 (seq_ c + 1)) (pid_ c)
    ([af (family (addr dst)); prefix_len dst; 0; 0; 254; 3; 253; 1] ++ zeros 4)
    [(RTA_DST, addr_data (addr dst)); (RTA_OIF, le32 (u32 idx))].

Section requests.
Context {K : Type} `{Kernel K}.

(** Send one message and read its acknowledgement. *)
Definition request (m : message) (c : Client) (k : K) : run (error_code * Client * K) :=
  let! r := talk (fd_ c) (encode_message m) (Z.of_nat (length (encode_message m))) k in
  Done (r.1, next_client c, r.2).

Lemma send_msg_encode m z c k :
  Z.of_nat (length (encode_message m)) < 2 ^ 32 →
  send_msg (encode_message m ++ z) (next_client c) k = request m c k.
Proof.
  intros Hl. unfold send_msg, request, talk. rewrite nlmsg_len_encode, Nat2Z.id by done.
  by rewrite take_app_length, take_ge by done.
Qed.

Lemma addr_data_length a :
  ip_ok a → length (addr_data a) = addr_len (family a).
Proof.
  intros [Hl _]. unfold addr_data. rewrite length_take, Hl. by destruct (family a).
Qed.

(** Run the writes of an operation into the body of the message. *)
Ltac write_fields :=
  repeat (rewrite put_field by (cbn; done || lia);
          cbn [run_bind set_body m_type m_flags m_seq m_pid m_body m_attrs fst snd
               Nat.sub Nat.add length take drop app replicate le32 le16]).

Lemma link_up_request idx c k : link_up idx c k = request (link_up_msg idx c) c k.
Proof.
  unfold link_up. rewrite (start_msg_encode 16) by lia. cbn [run_bind fst snd].
  write_fields. fold (next_client c).
  rewrite send_msg_encode; [reflexivity|cbn; lia].
Qed.

Lemma length_encode_attr a : length (encode_attr a) = (4 + length a.2)%nat.
Proof. done. Qed.

(** The sizes that the attributes need: [Hl] bounds the length of the data. *)
Ltac solve_sizes Hl :=
  rewrite ?length_encode_add, ?length_encode; cbn [m_body m_attrs encode_attrs mbind list_bind];
  rewrite ?length_app, ?length_replicate, ?length_encode_attr; cbn [snd]; cbn [length le16 le32]; unfold kScratch;
  destruct Hl as [Hl|Hl]; rewrite ?Hl; done || lia.

Lemma set_mtu_request idx mtu c k : set_mtu idx mtu c k = request (set_mtu_msg idx mtu c) c k.
Proof.
  unfold set_mtu. rewrite (start_msg_encode 16) by lia. cbn [run_bind fst snd].
  write_fields. fold (next_client c).
  assert (length (le32 mtu) = 4 ∨ length (le32 mtu) = 16)%nat as Hl by (by left).
  rewrite nla_put_encode by solve_sizes Hl. cbn [run_bind fst snd negb].
  rewrite send_msg_encode; [reflexivity|solve_sizes Hl].
Qed.

Lemma add_addr_request idx a c k :
  cidr_ok a → add_addr idx a c k = request (add_addr_msg idx a c) c k.
Proof.
  intros [Hok _]. pose proof (addr_data_length _ Hok) as Hd.
  unfold add_addr. rewrite (start_msg_encode 8) by lia. cbn [run_bind fst snd].
  write_fields. fold (next_client c).
  set (d := addr_data (addr a)) in *.
  assert (length d = 4 ∨ length d = 16)%nat as Hl by (rewrite Hd; destruct (family _); auto).
  rewrite nla_put_encode by solve_sizes Hl. cbn [run_bind fst snd negb].
  rewrite nla_put_encode by solve_sizes Hl. cbn [run_bind fst snd negb].
  rewrite send_msg_encode; [reflexivity|solve_sizes Hl].
Qed.

Lemma add_route_request idx dst c k :
  cidr_ok dst → add_route idx dst c k = request (add_route_msg idx dst c) c k.
Proof.
  intros [Hok _]. pose proof (addr_data_length _ Hok) as Hd.
  unfold add_route. rewrite (start_msg_encode 12) by lia. cbn [run_bind fst snd].
  write_fields. fold (next_client c).
  set (d := addr_data (addr dst)) in *.
  assert (length d = 4 ∨ length d = 16)%nat as Hl by (rewrite Hd; destruct (family _); auto).
  rewrite nla_put_encode by solve_sizes Hl. cbn [run_bind fst snd negb].
  rewrite nla_put_encode by solve_sizes Hl. cbn [run_bind fst snd negb].
  rewrite send_msg_encode; [reflexivity|solve_sizes Hl].
Qed.

(** The client's fields are those of the class. *)
Definition client_ok (c : Client) : Prop := 0 <= seq_ c < 2 ^ 32 ∧ 0 <= pid_ c < 2 ^ 32.

(** An operation is one request for the message [m], which fits the scratch
    buffer and which a reader of the netlink format gets back. *)
Definition sends (op : Client → K → run (error_code * Client * K)) (m : message) (c : Client)
    : Prop :=
  (∀ k, op c k = request m c k)
  ∧ (length (encode_message m) ≤ kScratch)%nat
  ∧ parse_message (length (m_body m)) (encode_message m) = Some m.

(** C22: each operation of the netlink client never writes outside its 4096-byte
    buffer and sends exactly one datagram: the bytes of the message with the type,
    flags, next sequence number (modulo 2^32), port id, body and attributes that
    the operation means, in the format a receiver parses back to that message.
    [EMSGSIZE] is never returned. *)
Theorem requests_well_formed c idx mtu a :
  client_ok c → cidr_ok a →
  sends (link_up idx) (link_up_msg idx c) c
  ∧ sends (set_mtu idx mtu) (set_mtu_msg idx mtu c) c
  ∧ sends (add_addr idx a) (add_addr_msg idx a c) c
  ∧ sends (add_route idx a) (add_route_msg idx a c) c.
Proof.
  intros [Hs Hp] Ha. pose proof (addr_data_length _ (proj1 Ha)) as Hd.
  assert (length (addr_data (addr a)) = 4 ∨ length (addr_data (addr a)) = 16)%nat as Hl
    by (rewrite Hd; destruct (family _); auto).
  assert (0 <= u32 (seq_ c + 1) < 2 ^ 32) as Hn by (apply Z.mod_pos_bound; lia).
  assert (∀ m, Z.of_nat (length (encode_message m)) <= 4096 →
    0 <= m_type m < 2 ^ 16 → 0 <= m_flags m < 2 ^ 16 → m_seq m = u32 (seq_ c + 1) → m_pid m = pid_ c →
    Forall (λ a, 0 <= a.1 < 2 ^ 16 ∧ Z.of_nat (length a.2) < 2 ^ 15
                 ∧ Z.of_nat (length a.2) mod 4 = 0) (m_attrs m) →
    (length (encode_message m) ≤ kScratch)%nat
    ∧ parse_message (length (m_body m)) (encode_message m) = Some m) as Hm.
  { intros m Hlen Ht Hf Hseq Hpid Hattrs. split; [unfold kScratch; lia|]. apply parse_encode.
    unfold message_ok. rewrite Hseq, Hpid. split_and!; done || lia. }
  assert (∀ d : list Z, (length d = 4 ∨ length d = 16)%nat →
    Z.of_nat (length d) < 2 ^ 15 ∧ Z.of_nat (length d) mod 4 = 0) as Hok.
  { intros d [-> | ->]; done. }
  assert (∀ x : Z, (length (le32 x) = 4 ∨ length (le32 x) = 16)%nat) as H4 by (by left).
  split; [|split; [|split]].
  - split; [apply link_up_request|]. by apply Hm.
  - split; [apply set_mtu_request|]. specialize (H4 mtu). apply Hm; [done..|].
    apply Forall_cons; split; [split; [done|by apply Hok]|by apply Forall_nil].
  - split; [intros k; by apply add_addr_request|].
    apply Hm; [unfold add_addr_msg, add_route_msg; solve_sizes Hl|done|done|done|done|].
    apply Forall_cons; split; [split; [done|by apply Hok]|].
    apply Forall_cons; split; [split; [done|by apply Hok]|by apply Forall_nil].
  - split; [intros k; by apply add_route_request|].
    apply Hm; [unfold add_addr_msg, add_route_msg; solve_sizes Hl|done|done|done|done|].
    apply Forall_cons; split; [split; [done|by apply Hok]|].
    apply Forall_cons; split; [split; [done|apply Hok; by left]|by apply Forall_nil].
Qed.
End requests.

(** ** The acknowledgement *)

(** The kernel's answer to a request: [NLMSG_ERROR] with the error code, 0 or a
    negated errno, and the request's header (or all of it) after that. *)
Definition ack (flags seq pid err : Z) (tail : list Z) : list Z :=
  le32 (Z.of_nat (20 + length tail)) ++ le16 NLMSG_ERROR ++ le16 flags ++ le32 seq ++ le32 pid
  ++ le32 err ++ tail.

(** What [socket], [send] and [recv] promise: the buffer has room for what [recv]
    returns. *)
Class KernelLaws (K : Type) `{Kernel K} := {
  stack_length k : length (stack k) = kScratch;
  received_length k k' fd req bs :
    exchange k fd req = (k', Received bs) → (length bs ≤ kScratch)%nat;
}.

Lemma i32_le32 e : - 2 ^ 31 <= e < 2 ^ 31 → i32 (of_le (le32 e)) = e.
Proof.
  intros He. rewrite of_le_le32. unfold i32, u32.
  change (2 ^ 31) with 2147483648 in *. change (2 ^ 32) with 4294967296.
  Z.to_euclidean_division_equations. lia.
Qed.

Section ack.
Context {K : Type} `{KernelLaws K}.

(** [talk] on what the kernel answers. *)
Lemma talk_received fd req len k k' bs :
  exchange k fd (take (Z.to_nat len) req) = (k', Received bs) →
  talk fd req len k
  = Done (check_ack (bs ++ drop (length bs) (stack k)) (Z.of_nat (length bs)), k').
Proof.
  intros He. unfold talk. rewrite He. unfold put.
  rewrite memcpy_at_Some; [done|]. rewrite stack_length. simpl. by eapply received_length.
Qed.


(** The length check is for a header only: a reply that is a bare
    [NLMSG_ERROR] header of 16 bytes passes it, and the error code is then read
    past what the kernel sent, from whatever the stack held: any errno can come
    out of it. *)
Theorem bare_header_reads_stack fd req len k k' flags seq pid err :
  exchange k fd (take (Z.to_nat len) req)
    = (k', Received (le32 16 ++ le16 NLMSG_ERROR ++ le16 flags ++ le32 seq ++ le32 pid)) →
  take 4 (drop 16 (stack k)) = le32 err → - 2 ^ 31 < err < 2 ^ 31 →
  talk fd req len k = Done (- err, k').
Proof.
  intros He Hst Herr. rewrite (talk_received _ _ _ _ _ _ He). do 2 f_equal.
  set (h := le32 16 ++ _) in *.
  assert (length h = 16%nat) as Hh by done. rewrite Hh.
  unfold check_ack. change (nlmsg_len (h ++ drop 16 (stack k))) with 16.
  change (of_le (take 2 (drop 4 (h ++ drop 16 (stack k))))) with 2. cbn [Z.leb Z.of_nat].
  change (take 4 (drop 16 (h ++ drop 16 (stack k)))) with (take 4 (drop 16 (stack k))).
  rewrite Hst, i32_le32 by lia.
  change (negb ((16 <=? Z.of_nat 16) && (16 <=? 16) && (16 <=? Z.of_nat 16))) with false.
  change (negb (2 =? NLMSG_ERROR)) with false. cbn iota.
  case_if; [lia|]. unfold i32. rewrite Z.mod_small; lia.
Qed.
End ack.

(** ** A kernel to run against, and the witnesses *)

(** It logs the requests and the closed sockets, and answers with a script;
    [recv] cuts a reply to the size of the buffer. *)
Record scripted := mkScripted {
  requests : list (list Z);
  closed : list Z;
  replies : list sendrecv;
}.

Definition scripted_exchange (k : scripted) (fd : Z) (req : list Z) : scripted * sendrecv :=
  let log := requests k ++ [req] in
  match replies k with
  | [] => (mkScripted log (closed k) [], SendFail 105)
  | Received bs :: rs => (mkScripted log (closed k) rs, Received (take kScratch bs))
  | r :: rs => (mkScripted log (closed k) rs, r)
  end.

(** The stack holds the error code -17 where a short reply would leave it. *)
#[export] Instance scripted_kernel : Kernel scripted := {
  sys_socket k := (k, inr 3);
  sys_bind k fd := (k, 0);
  sys_getsockname k fd := (k, inr 4242);
  sys_close k fd := mkScripted (requests k) (closed k ++ [fd]) (replies k);
  if_nametoindex k name := (k, if bool_decide (name = str "cfd0") then inr 7 else inl 19);
  exchange := scripted_exchange;
  stack k := zeros 16 ++ le32 (-17) ++ zeros 4076;
}.

#[export] Instance scripted_laws : KernelLaws scripted.
Proof.
  split; [done|]. intros k k' fd req bs. simpl. unfold scripted_exchange.
  destruct (replies k) as [|[e|e|bs'] rs]; try done. intros [= _ <-]. rewrite length_take. lia.
Qed.

Definition ok_reply : sendrecv := Received (ack 0 1 4242 0 (zeros 16)).
Definition exists_reply : sendrecv := Received (ack 0 1 4242 (-17) (zeros 16)).
Definition short_reply : sendrecv :=
  Received (le32 16 ++ le16 NLMSG_ERROR ++ le16 0 ++ le32 1 ++ le32 4242).

Definition sample_client : Client := mkClient 3 0 4242.
Definition sample_cidr : Cidr := mkCidr (mkIpAddr V4 ([10; 99; 0; 1] ++ replicate 12 0)) 32.

Lemma sample_cidr_ok : cidr_ok sample_cidr.
Proof. split; [split; [done|simpl; solve_bytes]|simpl; lia]. Qed.

Lemma requests_well_formed_witness :
  sends (K := scripted) (link_up 7) (link_up_msg 7 sample_client) sample_client.
Proof.
  refine (proj1 (requests_well_formed (K := scripted) sample_client 7 1280 sample_cidr
                   _ sample_cidr_ok)).
  split; simpl; lia.
Defined.


Lemma bare_header_reads_stack_witness :
  talk 3 (zeros 32) 32 (mkScripted [] [] [short_reply])
  = Done (17, mkScripted [zeros 32] [] []).
Proof.
  refine (bare_header_reads_stack (K := scripted) 3 (zeros 32) 32
            (mkScripted [] [] [short_reply]) (mkScripted [zeros 32] [] []) 0 1 4242 (-17) _ _ _).
  - vm_compute. reflexivity.
  - vm_compute. reflexivity.
  - lia.
Defined.
