(* ===== verification/Tun.v ===== *)
(** * The TUN device

    [include/cfd/tun.hpp] and [src/tun/tun_device_linux.cpp], the Linux build:
    opening the device and configuring it through the netlink client. The class
    [TunOps] is what the program uses of a device; the last part of the file
    shows that [TunDevice] implements it. *)
From S2P Require Import Prelude Cidr Netlink.
Local Open Scope Z_scope.
Local Open Scope cfd_scope.

(** ** The interface *)

(** The operations of a device [D] over a kernel [K]: the error code (0 is
    success), the device and the kernel they leave. *)
Class TunOps (K D : Type) := {
  dev_new : D;
  dev_open : text → D → K → run (Z * D * K);
  dev_configure : Cidr → Cidr → D → K → run (Z * K);
  dev_add_route : Cidr → D → K → run (Z * K);
}.

(** They are defined for well-formed blocks. *)
Class TunLaws (K D : Type) `{TunOps K D} := {
  dev_open_defined name d k : ∃ r, dev_open name d k = Done r;
  dev_configure_defined l r d k : cidr_ok l → cidr_ok r → ∃ x, dev_configure l r d k = Done x;
  dev_add_route_defined r d k : cidr_ok r → ∃ x, dev_add_route r d k = Done x;
}.

(** ** The device *)

(** The system calls on the device: [open("/dev/net/tun")], and
    [ioctl(TUNSETIFF)] with the flags and the name of the request, which answers
    [errno] or the name the kernel leaves in it. *)
Class TunKernel (K : Type) := {
  open_tun : K → K * (Z + Z);
  tunsetiff : K → Z → Z → list ascii → K * (Z + list ascii);
  sys_read : K → Z → Z → K * (Z + list Z);
  sys_write : K → Z → list Z → K * (Z + Z);
}.

Definition IFF_TUN : Z := 1.
Definition IFF_NO_PI : Z := 4096.

Record TunDevice := mkTunDevice { fd_ : Z; name_ : text }.

Definition TunDevice_new : TunDevice := mkTunDevice (-1) [].

Section tun.
Context {K : Type} `{Kernel K} `{TunKernel K}.

(** The name of the request: cut to 15 characters, in a zeroed field of 16. *)
Definition request_name (requested_name : text) : run (list ascii) :=
  let ifr_name := replicate IFNAMSIZ nul in
  match requested_name with
  | [] => Done ifr_name
  | _ =>
      let n := Nat.min (length requested_name) (IFNAMSIZ - 1) in
      let! ifr_name := run_opt (memcpy_at 0 (take n requested_name) ifr_name) in
      run_opt (memcpy_at n [nul] ifr_name)
  end.

(** [TunDevice::open] *)
Definition open (requested_name : text) (d : TunDevice) (k : K) : run (error_code * TunDevice * K) :=
  let '(k, r) := open_tun k in
  match r with
  | inl e => Done (e, d, k)
  | inr fd =>
      let! name := request_name requested_name in
      let '(k, r) := tunsetiff k fd (Z.lor IFF_TUN IFF_NO_PI) name in
      match r with
      | inl e => Done (e, d, close_fd fd k)
      | inr name =>
          Done (0, mkTunDevice fd (c_str name),
                if fd_ d =? fd then k else close_fd (fd_ d) k)
      end
  end.

(** [TunDevice::configure] *)
Definition configure (local route : Cidr) (d : TunDevice) (k : K) : run (error_code * K) :=
  let '(ec, nl, k) := Netlink.open Client_new k in
  if negb (ec =? 0) then Done (ec, Client_dtor nl k)
  else
    let! r := if_index (name_ d) 0 k in
    let '(ec, idx, k) := r in
    if negb (ec =? 0) then Done (ec, Client_dtor nl k)
    else
      let! r := set_mtu idx 1280 nl k in
      let '(_, nl, k) := r in
      let! r := link_up idx nl k in
      let '(ec, nl, k) := r in
      if negb (ec =? 0) then Done (ec, Client_dtor nl k)
      else
        let! r := add_addr idx local nl k in
        let '(ec, nl, k) := r in
        if negb (ec =? 0) then Done (ec, Client_dtor nl k)
        else
          let! r := Netlink.add_route idx route nl k in
          let '(ec, nl, k) := r in
          if negb (ec =? 0) && negb (ec =? EEXIST) then Done (ec, Client_dtor nl k)
          else Done (0, Client_dtor nl k).

(** [TunDevice::add_route] *)
Definition add_route (route : Cidr) (d : TunDevice) (k : K) : run (error_code * K) :=
  let '(ec, nl, k) := Netlink.open Client_new k in
  if negb (ec =? 0) then Done (ec, Client_dtor nl k)
  else
    let! r := if_index (name_ d) 0 k in
    let '(ec, idx, k) := r in
    if negb (ec =? 0) then Done (ec, Client_dtor nl k)
    else
      let! r := Netlink.add_route idx route nl k in
      let '(ec, nl, k) := r in
      if negb (ec =? 0) && negb (ec =? EEXIST) then Done (ec, Client_dtor nl k)
      else Done (0, Client_dtor nl k).

(** [read_packet] and [write_packet] *)
Definition read_packet (cap : Z) (d : TunDevice) (k : K) : K * (Z + list Z) :=
  sys_read k (fd_ d) cap.
Definition write_packet (pkt : list Z) (d : TunDevice) (k : K) : K * (Z + Z) :=
  sys_write k (fd_ d) pkt.

(** ** Specification: a script of requests *)

(** One request of a script: the message, made from the interface and the client
    it is sent by, and the errors that do not stop the script. *)
Record action := mkAction { act_msg : Z → Client → message; tolerated : error_code → bool }.

Definition never (ec : error_code) : bool := false.
Definition always (ec : error_code) : bool := true.
Definition if_exists (ec : error_code) : bool := ec =? EEXIST.

(** Send the messages in order, up to the first error that is not tolerated. *)
Fixpoint script (as_ : list action) (idx : Z) (c : Client) (k : K)
    : run (error_code * Client * K) :=
  match as_ with
  | [] => Done (0, c, k)
  | a :: as' =>
      let! r := request (act_msg a idx c) c k in
      let '(ec, c, k) := r in
      if (ec =? 0) || tolerated a ec then script as' idx c k else Done (ec, c, k)
  end.

(** A script for the interface of a device, over a socket of its own that is
    closed at the end, however it ends. *)
Definition on_interface (as_ : list action) (d : TunDevice) (k : K) : run (error_code * K) :=
  let '(ec, nl, k) := Netlink.open Client_new k in
  if negb (ec =? 0) then Done (ec, Client_dtor nl k)
  else
    let! r := if_index (name_ d) 0 k in
    let '(ec, idx, k) := r in
    if negb (ec =? 0) then Done (ec, Client_dtor nl k)
    else let! r := script as_ idx nl k in Done (r.1.1, Client_dtor r.1.2 r.2).

Definition configure_script (local route : Cidr) : list action :=
  [mkAction (λ idx c, set_mtu_msg idx 1280 c) always;
   mkAction link_up_msg never;
   mkAction (λ idx c, add_addr_msg idx local c) never;
   mkAction (λ idx c, add_route_msg idx route c) if_exists].

Definition add_route_script (route : Cidr) : list action :=
  [mkAction (λ idx c, add_route_msg idx route c) if_exists].

(** ** Refinement *)

(** The operations are scripts. *)
Lemma configure_scripts local route d k :
  cidr_ok local → cidr_ok route →
  configure local route d k = on_interface (configure_script local route) d k
  ∧ add_route route d k = on_interface (add_route_script route) d k.
Proof.
  intros Hl Hr. unfold configure, add_route, on_interface. simpl script.
  destruct (Netlink.open Client_new k) as [[ec nl] k1].
  destruct (ec =? 0); cbn [negb]; [|done].
  destruct (if_index _ _ _) as [[[ec1 idx] k2]| |]; cbn [run_bind]; try done.
  destruct (ec1 =? 0); cbn [negb]; [|done].
  assert (∀ r : error_code * Client * K,
    (let '(e, c, k') := r in
     if negb (e =? 0) && negb (e =? EEXIST) then Done (e, Client_dtor c k')
     else Done (0, Client_dtor c k'))
    = let! x := (let '(e, c, k') := r in
                 if (e =? 0) || if_exists e then Done (0, c, k') else Done (e, c, k')) in
      Done (x.1.1, Client_dtor x.1.2 x.2)) as Hlast.
  { intros [[e c] k']. unfold if_exists. by destruct (e =? 0), (e =? EEXIST). }
  split.
  - rewrite set_mtu_request.
    destruct (request (set_mtu_msg idx 1280 nl) nl k2) as [[[e2 c2] k3]| |]; cbn [run_bind]; try done.
    rewrite orb_true_r, link_up_request.
    destruct (request (link_up_msg idx c2) c2 k3) as [[[e3 c3] k4]| |]; cbn [run_bind]; try done.
    rewrite orb_false_r. destruct (e3 =? 0); cbn [negb]; [|done].
    rewrite add_addr_request by done.
    destruct (request (add_addr_msg idx local c3) c3 k4) as [[[e4 c4] k5]| |]; cbn [run_bind]; try done.
    rewrite orb_false_r. destruct (e4 =? 0); cbn [negb]; [|done].
    rewrite add_route_request by done.
    destruct (request (add_route_msg idx route c4) c4 k5) as [r| |]; cbn [run_bind]; try done.
  - rewrite add_route_request by done.
    destruct (request (add_route_msg idx route nl) nl k2) as [r| |]; cbn [run_bind]; try done.
Qed.

Context `{!KernelLaws K}.

(** A request is always defined. *)
Lemma request_defined m c k : ∃ ec k', request m c k = Done (ec, next_client c, k').
Proof.
  unfold request, talk. destruct (exchange k _ _) as [k' [e|e|bs]] eqn:He; [by do 2 eexists..|].
  unfold put. rewrite memcpy_at_Some; [by do 2 eexists|].
  rewrite stack_length. simpl. by eapply received_length.
Qed.

(** The script succeeds exactly when every request succeeds or fails with an
    error it tolerates; it fails with the first other error. *)
Lemma script_defined as_ idx c k : ∃ ec c' k', script as_ idx c k = Done (ec, c', k').
Proof.
  revert c k. induction as_ as [|a as' IH]; intros c k; simpl; [by do 3 eexists|].
  destruct (request_defined (act_msg a idx c) c k) as (ec & k' & ->). simpl.
  case_match; [apply IH|by do 3 eexists].
Qed.

Lemma if_index_defined name k : ∃ ec idx k', if_index name 0 k = Done (ec, idx, k').
Proof.
  unfold if_index. destruct (_ <=? _)%nat eqn:Hl; [by do 3 eexists|]. bool_facts.
  rewrite memcpy_at_Some by (rewrite length_replicate; simpl; lia). simpl.
  destruct (if_nametoindex _ _) as [k' [e|i]]; by do 3 eexists.
Qed.

Lemma on_interface_defined as_ d k : ∃ x, on_interface as_ d k = Done x.
Proof.
  unfold on_interface. destruct (Netlink.open _ _) as [[ec nl] k1].
  destruct (ec =? 0); [|by eexists]. cbn [negb].
  destruct (if_index_defined (name_ d) k1) as (ec1 & idx & k2 & ->). cbn [run_bind].
  destruct (ec1 =? 0); [|by eexists]. cbn [negb].
  destruct (script_defined as_ idx nl k2) as (ec2 & c & k3 & ->). by eexists.
Qed.


Lemma request_name_ok name :
  ∃ f, request_name name = Done f ∧ length f = IFNAMSIZ
       ∧ c_str f = c_str (take (IFNAMSIZ - 1) name).
Proof.
  unfold request_name. destruct name as [|c name]; [by eexists|].
  set (s := c :: name) in *. set (n := Nat.min (length s) (IFNAMSIZ - 1)).
  assert (n ≤ 15)%nat as Hn by (unfold n, IFNAMSIZ; lia).
  assert (length (take n s) = n) as Hlen by (rewrite length_take; unfold n; lia).
  rewrite memcpy_at_Some by (rewrite Hlen, length_replicate; unfold IFNAMSIZ; lia).
  cbn [run_opt run_bind]. rewrite take_0, Hlen. cbn [app].
  rewrite memcpy_at_Some.
  2: { rewrite length_app, Hlen, length_drop, length_replicate. unfold IFNAMSIZ. simpl. lia. }
  cbn [run_opt]. eexists. split; [done|].
  rewrite take_app_le, (take_ge (take n s)) by (rewrite Hlen; lia). split.
  - rewrite !length_app, Hlen, length_drop, length_app, Hlen, length_drop, length_replicate.
    unfold IFNAMSIZ. simpl. lia.
  - assert (take (IFNAMSIZ - 1) s = take n s) as ->.
    { unfold n. destruct (decide (length s <= IFNAMSIZ - 1)%nat).
      - rewrite Nat.min_l by done. by rewrite !take_ge by lia.
      - by rewrite Nat.min_r by lia. }
    assert (∀ l r, c_str (l ++ nul :: r) = c_str l) as Hc.
    { induction l as [|x l IH]; intros r; simpl.
      - done.
      - case_bool_decide; [done|]. by rewrite IH. }
    apply Hc.
Qed.

(** [open] asks for the first 15 characters of the name, in a field that is
    always terminated; when a step fails the device is as it was and the
    descriptor just opened is closed, and when it succeeds the device holds the
    new descriptor and the name the kernel chose. *)
Theorem open_spec name d k :
  ∃ field, length field = IFNAMSIZ ∧ c_str field = c_str (take 15 name)
    ∧ open name d k
      = match open_tun k with
        | (k1, inl e) => Done (e, d, k1)
        | (k1, inr fd) =>
            match tunsetiff k1 fd 4097 field with
            | (k2, inl e) => Done (e, d, close_fd fd k2)
            | (k2, inr chosen) =>
                Done (0, mkTunDevice fd (c_str chosen),
                      if fd_ d =? fd then k2 else close_fd (fd_ d) k2)
            end
        end.
Proof.
  destruct (request_name_ok name) as (f & Hf & Hl & Hc). exists f. split_and!; try done.
  unfold open. destruct (open_tun k) as [k1 [e|fd]]; [done|]. rewrite Hf. done.
Qed.

(** ** [TunDevice] implements the interface *)

#[export] Instance TunDevice_ops : TunOps K TunDevice := {
  dev_new := TunDevice_new;
  dev_open := open;
  dev_configure := configure;
  dev_add_route := add_route;
}.

(** No operation is undefined. *)
#[export] Instance TunDevice_laws : TunLaws K TunDevice.
Proof.
  split; simpl.
  - intros name d k. unfold open. destruct (request_name_ok name) as (f & Hf & _).
    destruct (open_tun k) as [k1 [e|fd]]; [by eexists|]. rewrite Hf. cbn [run_bind].
    destruct (tunsetiff _ _ _ _) as [k2 [e|n]]; by eexists.
  - intros l r d k Hl Hr. rewrite (proj1 (configure_scripts l r d k Hl Hr)).
    apply on_interface_defined.
  - intros r d k Hr. rewrite (proj2 (configure_scripts r r d k Hr Hr)).
    apply on_interface_defined.
Qed.
End tun.

(** ** Witnesses *)

#[export] Instance scripted_tun : TunKernel scripted := {
  open_tun k := (k, inr 5);
  tunsetiff k fd flags name := (k, inr name);
  sys_read k fd cap := (k, inr []);
  sys_write k fd pkt := (k, inr (Z.of_nat (length pkt)));
}.

Definition sample_device : TunDevice := mkTunDevice 5 (str "cfd0").


Lemma open_spec_witness :
  open (str "a-name-of-more-than-fifteen") TunDevice_new (mkScripted [] [] [])
  = Done (0, mkTunDevice 5 (str "a-name-of-more-"), mkScripted [] [] []).
Proof.
  destruct (open_spec (str "a-name-of-more-than-fifteen") TunDevice_new (mkScripted [] [] []))
    as (f & Hl & Hc & ->).
  simpl. rewrite Hc. reflexivity.
Defined.
