(* ===== verification/AsyncStream.v ===== *)
(** * The control stream

    [MsquicAsyncStream] of [src/tunnel/quic_client.cpp]: a QUIC stream seen as a
    kj asynchronous stream. The worker thread of msquic delivers events, the
    thread of the event loop reads and writes; each critical section of [mu_] is
    one step of the model, so that the steps of the two threads interleave as the
    locks let them. *)
From S2P Require Import Prelude.
Local Open Scope Z_scope.
Local Open Scope cfd_scope.

(** ** State *)

Record Chunk := mkChunk { data : list Z; off : nat }.

(** Where the reading thread is in a [tryRead(dst, minBytes, maxBytes)]: not
    reading, between its two critical sections, suspended on the promise, or
    about to run the continuation after the promise was fulfilled. *)
Inductive reader :=
| NotReading
| Between (minBytes maxBytes : nat)
| Parked (minBytes maxBytes : nat)
| Resumed (minBytes maxBytes : nat).

(** [read_wakeup_] is whether the member holds a fulfiller. The contexts of
    writes are numbered: [live] are those allocated, [inflight] those msquic
    holds. *)
Record stream := mkStream {
  recv_queue_ : list Chunk;
  eof_ : bool;
  read_wakeup_ : bool;
  who : reader;
  live : gset nat;
  inflight : gset nat;
}.

Definition stream0 : stream := mkStream [] false false NotReading ∅ ∅.

(** ** Reading *)

(** The [while] loop of [drainLocked]: [copied] holds the bytes copied so far. *)
Fixpoint drain_loop (fuel maxBytes : nat) (copied : list Z) (q : list Chunk)
    : run (list Z * list Chunk) :=
  match q with
  | [] => Done (copied, [])
  | front :: q' =>
      if negb (length copied <? maxBytes)%nat then Done (copied, q)
      else
        match fuel with
        | O => Fuel
        | S fuel' =>
            if (length (data front) <? off front)%nat then UB
            else
              let avail := (length (data front) - off front)%nat in
              let n := Nat.min avail (maxBytes - length copied) in
              let copied := copied ++ take n (drop (off front) (data front)) in
              let off' := (off front + n)%nat in
              if (off' =? length (data front))%nat then drain_loop fuel' maxBytes copied q'
              else drain_loop fuel' maxBytes copied (mkChunk (data front) off' :: q')
        end
  end.

Definition drainLocked (maxBytes : nat) (q : list Chunk) : run (list Z * list Chunk) :=
  drain_loop (S (length q)) maxBytes [] q.

(** A critical section of [tryRead]: the bytes if there are some or the stream
    ended, [None] otherwise. *)
Definition try_drain (maxBytes : nat) (s : stream) : run (option (list Z) * stream) :=
  match recv_queue_ s, eof_ s with
  | [], false => Done (None, s)
  | q, _ =>
      let! r := drainLocked maxBytes q in
      Done (Some r.1, mkStream r.2 (eof_ s) (read_wakeup_ s) NotReading (live s) (inflight s))
  end.

Definition set_who (w : reader) (s : stream) : stream :=
  mkStream (recv_queue_ s) (eof_ s) (read_wakeup_ s) w (live s) (inflight s).

(** ** Writing *)

(** [write(src, size)] with a context allocated at [id], and whether [StreamSend]
    accepts it; the bytes handed to msquic, [None] for the exception. *)
Definition write (src : list Z) (id : nat) (accepted : bool) (s : stream)
    : option (list Z) * stream :=
  if accepted
  then (Some (take (Z.to_nat (u32 (Z.of_nat (length src)))) src),
        mkStream (recv_queue_ s) (eof_ s) (read_wakeup_ s) (who s) ({[id]} ∪ live s)
          ({[id]} ∪ inflight s))
  else (None, s).

(** [write(pieces)] *)
Definition write_pieces (pieces : list (list Z)) : nat → bool → stream → option (list Z) * stream :=
  write (foldl (λ flat p, flat ++ p) [] pieces).

(** ** Events and steps *)

(** The events msquic delivers: the buffers of a RECEIVE and its FIN flag; a
    SEND_COMPLETE with the context, or null; an abort by the peer or the end of
    the shutdown; anything else. *)
Inductive event :=
| EvReceive (bufs : list (list Z)) (fin : bool)
| EvSendComplete (ctx : option nat)
| EvAbort
| EvOther.

(** [wakeup = mv(read_wakeup_); if (wakeup) wakeup->fulfill()]: the suspended
    reader becomes runnable. *)
Definition wake (s : stream) : stream :=
  mkStream (recv_queue_ s) (eof_ s) false
    (match who s with
     | Parked mn mx => if read_wakeup_ s then Resumed mn mx else Parked mn mx
     | w => w
     end) (live s) (inflight s).

Definition push_bufs (bufs : list (list Z)) (q : list Chunk) : list Chunk :=
  foldl (λ q b, if (0 <? length b)%nat then q ++ [mkChunk b 0] else q) q bufs.

(** [onEvent]. Freeing a context that is not allocated is undefined. *)
Definition onEvent (ev : event) (s : stream) : run stream :=
  match ev with
  | EvReceive bufs fin =>
      Done (wake (mkStream (push_bufs bufs (recv_queue_ s)) (eof_ s || fin) (read_wakeup_ s)
                    (who s) (live s) (inflight s)))
  | EvSendComplete None => Done s
  | EvSendComplete (Some id) =>
      if decide (id ∈ live s)
      then Done (mkStream (recv_queue_ s) (eof_ s) (read_wakeup_ s) (who s) (live s ∖ {[id]})
                   (inflight s ∖ {[id]}))
      else UB
  | EvAbort => Done (wake (mkStream (recv_queue_ s) true (read_wakeup_ s) (who s) (live s) (inflight s)))
  | EvOther => Done s
  end.

(** The labels: an event; [tryRead] is called; the next critical section, or the
    continuation, of a read that is under way; a write. *)
Inductive label :=
| LEvent (ev : event)
| LTryRead (minBytes maxBytes : nat)
| LReader
| LWrite (src : list Z) (id : nat) (accepted : bool).

(** What a step gives to the callers: the bytes a read returns. *)
Definition step (l : label) (s : stream) : run (option (list Z) * stream) :=
  match l with
  | LEvent ev => let! s := onEvent ev s in Done (None, s)
  | LTryRead mn mx =>
      let! r := try_drain mx s in
      Done (match r.1 with Some bs => (Some bs, r.2) | None => (None, set_who (Between mn mx) s) end)
  | LReader =>
      match who s with
      | Between mn mx =>
          let! r := try_drain mx s in
          Done (match r.1 with
                | Some bs => (Some bs, r.2)
                | None => (None, mkStream (recv_queue_ s) (eof_ s) true (Parked mn mx)
                                   (live s) (inflight s))
                end)
      | Resumed mn mx =>
          let! r := try_drain mx s in
          Done (match r.1 with
                | Some bs => (Some bs, r.2)
                | None => (None, set_who (Between mn mx) s)
                end)
      | _ => Done (None, s)
      end
  | LWrite src id accepted => Done (None, (write src id accepted s).2)
  end.

(** The contract: kj reads one at a time and keeps the stream while it reads,
    [new] gives a fresh context, and msquic completes each accepted send once. *)
Definition allowed (l : label) (s : stream) : Prop :=
  match l with
  | LEvent (EvSendComplete (Some id)) => id ∈ inflight s
  | LEvent _ => True
  | LTryRead _ _ => who s = NotReading
  | LReader => True
  | LWrite _ id _ => id ∉ live s
  end.

(** A run, with the bytes received from the network and the reads that returned,
    in order: the minimum asked for, and the bytes. *)
Inductive trace : stream → list Z → list (nat * list Z) → Prop :=
| trace_start : trace stream0 [] []
| trace_step s rx rs l r s' :
    trace s rx rs → allowed l s → step l s = Done (r, s') →
    trace s' (rx ++ match l with LEvent (EvReceive bufs _) => concat bufs | _ => [] end)
      (rs ++ match r, l, who s with
             | Some bs, LTryRead mn _, _ => [(mn, bs)]
             | Some bs, _, (Between mn _ | Resumed mn _) => [(mn, bs)]
             | _, _, _ => []
             end).

(** ** Invariant *)

(** The bytes waiting in the queue. *)
Definition chunk_bytes (c : Chunk) : list Z := drop (off c) (data c).
Definition queued (q : list Chunk) : list Z := q ≫= chunk_bytes.

(** A chunk in the queue is not used up. *)
Definition chunk_ok (c : Chunk) : Prop := (off c < length (data c))%nat.

(** A suspended read can be woken, and has nothing to wait for; no fulfiller is
    kept for a read that is not suspended; the contexts allocated are those msquic
    holds. *)
Record inv (s : stream) : Prop := {
  inv_chunks : Forall chunk_ok (recv_queue_ s);
  inv_parked mn mx : who s = Parked mn mx →
    read_wakeup_ s = true ∧ recv_queue_ s = [] ∧ eof_ s = false;
  inv_wakeup : read_wakeup_ s = true → ∃ mn mx, who s = Parked mn mx;
  inv_live : live s = inflight s;
}.

(** ** Draining *)

Lemma queued_cons c q : queued (c :: q) = chunk_bytes c ++ queued q.
Proof. done. Qed.

Lemma drain_loop_spec fuel mx copied q :
  Forall chunk_ok q → (length q < fuel)%nat → (length copied ≤ mx)%nat →
  ∃ q', drain_loop fuel mx copied q
        = Done (copied ++ take (mx - length copied) (queued q), q')
        ∧ queued q' = drop (mx - length copied) (queued q) ∧ Forall chunk_ok q'.
Proof.
  intros Hq. revert fuel copied. induction Hq as [|c q Hc Hq IH]; intros fuel copied Hf Hl.
  { exists []. destruct fuel; simpl; rewrite take_nil, drop_nil, app_nil_r; done. }
  destruct fuel as [|fuel]; [simpl in Hf; lia|]. cbn [drain_loop].
  destruct (length copied <? mx)%nat eqn:Hlt; bool_facts; cbn [negb].
  2: { exists (c :: q). replace (mx - length copied)%nat with 0%nat by lia.
       rewrite take_0, drop_0, app_nil_r. split_and!; try done. by constructor. }
  unfold chunk_ok in Hc. rewrite (proj2 (Nat.ltb_ge _ _)) by lia.
  set (avail := (length (data c) - off c)%nat). set (room := (mx - length copied)%nat).
  assert (length (chunk_bytes c) = avail) as Hav by (unfold chunk_bytes; by rewrite length_drop).
  fold (chunk_bytes c). rewrite queued_cons.
  destruct (decide (avail <= room)%nat) as [Hle|Hgt].
  - rewrite (Nat.min_l avail room) by done.
    rewrite (proj2 (Nat.eqb_eq _ _)) by (unfold avail; lia).
    rewrite (take_ge (chunk_bytes c)) by lia.
    destruct (IH fuel (copied ++ chunk_bytes c)) as (q' & Hd & Hq' & Hok).
    { simpl in Hf. lia. } { rewrite length_app, Hav. unfold room in Hle. lia. }
    rewrite length_app, Hav in Hd, Hq'. exists q'. split_and!; [|..|done].
    + rewrite Hd, <- app_assoc. do 2 f_equal. rewrite take_app, (take_ge (chunk_bytes c)) by lia.
      rewrite Hav. do 3 f_equal. unfold room. lia.
    + rewrite Hq', drop_app, (drop_ge (chunk_bytes c)) by lia. rewrite Hav. simpl. f_equal.
      unfold room. lia.
  - rewrite (Nat.min_r avail room) by lia.
    rewrite (proj2 (Nat.eqb_neq _ _)) by (unfold avail in *; lia).
    exists (mkChunk (data c) (off c + room) :: q).
    assert (length (copied ++ take room (chunk_bytes c)) = mx) as Hmx.
    { rewrite length_app, length_take, Hav. unfold room in *. lia. }
    split_and!.
    + destruct fuel; cbn [drain_loop]; rewrite Hmx, Nat.ltb_irrefl; cbn [negb];
        by rewrite take_app_le by lia.
    + rewrite queued_cons, drop_app_le by lia. f_equal. unfold chunk_bytes. simpl.
      by rewrite drop_drop.
    + constructor; [unfold chunk_ok, avail in *; simpl; lia|done].
Qed.

Lemma drainLocked_spec mx q :
  Forall chunk_ok q →
  ∃ q', drainLocked mx q = Done (take mx (queued q), q')
        ∧ queued q' = drop mx (queued q) ∧ Forall chunk_ok q'.
Proof.
  intros Hq. destruct (drain_loop_spec (S (length q)) mx [] q Hq) as (q' & Hd & Hq' & Hok);
    [lia|simpl; lia|].
  cbn [length app] in Hd, Hq'. rewrite Nat.sub_0_r in Hd, Hq'. by exists q'.
Qed.

Lemma queued_nil q : Forall chunk_ok q → queued q = [] ↔ q = [].
Proof.
  intros Hq. split; [|by intros ->]. destruct Hq as [|c q Hc Hq]; [done|].
  rewrite queued_cons. intros [Hnil _]%app_nil. apply (f_equal length) in Hnil.
  unfold chunk_bytes, chunk_ok in *. rewrite length_drop in Hnil. simpl in Hnil. lia.
Qed.

Lemma push_bufs_spec bufs q :
  queued (push_bufs bufs q) = queued q ++ concat bufs
  ∧ (Forall chunk_ok q → Forall chunk_ok (push_bufs bufs q)).
Proof.
  unfold push_bufs. revert q. induction bufs as [|b bufs IH]; intros q; simpl.
  { by rewrite app_nil_r. }
  destruct (0 <? length b)%nat eqn:Hb; bool_facts.
  - destruct (IH (q ++ [mkChunk b 0])) as [-> Hok]. split.
    + unfold queued. rewrite bind_app. simpl. unfold chunk_bytes at 2. simpl.
      by rewrite app_nil_r, <- app_assoc.
    + intros Hq. apply Hok, Forall_app. split; [done|]. by repeat constructor.
  - destruct (IH q) as [-> Hok]. split; [|done]. destruct b; [done|simpl in Hb; lia].
Qed.

(** ** Steps *)

(** A critical section of a read, whatever the reader does next. *)
Lemma try_drain_spec mx s :
  Forall chunk_ok (recv_queue_ s) →
  (recv_queue_ s = [] ∧ eof_ s = false ∧ try_drain mx s = Done (None, s))
  ∨ ((recv_queue_ s ≠ [] ∨ eof_ s = true) ∧
     ∃ q', try_drain mx s
           = Done (Some (take mx (queued (recv_queue_ s))),
                   mkStream q' (eof_ s) (read_wakeup_ s) NotReading (live s) (inflight s))
       ∧ queued q' = drop mx (queued (recv_queue_ s)) ∧ Forall chunk_ok q').
Proof.
  intros Hq. destruct (drainLocked_spec mx _ Hq) as (q' & Hd & Hq' & Hok).
  unfold try_drain. destruct (recv_queue_ s) as [|c q] eqn:Hs.
  - destruct (eof_ s) eqn:He; [right|by left]. split; [by right|].
    rewrite Hd. exists q'. by rewrite <- He.
  - right. split; [by left|]. exists q'. rewrite Hd. by destruct (eof_ s).
Qed.

Lemma inv_stream0 : inv stream0.
Proof. by split. Qed.

Lemma inv_wake s :
  Forall chunk_ok (recv_queue_ s) → live s = inflight s →
  (∀ mn mx, who s = Parked mn mx → read_wakeup_ s = true) → inv (wake s).
Proof.
  intros Hq Hl Hp. split; simpl; try done. intros mn mx Hw. exfalso.
  destruct (who s) as [| |mn' mx'|] eqn:Hwho; try done. by rewrite (Hp _ _ eq_refl) in Hw.
Qed.

(** A read that is not suspended leaves no fulfiller behind. *)
Lemma inv_no_wakeup s : inv s → (∀ mn mx, who s ≠ Parked mn mx) → read_wakeup_ s = false.
Proof.
  intros Hs Hw. destruct (read_wakeup_ s) eqn:Hr; [|done].
  destruct (inv_wakeup _ Hs Hr) as (mn & mx & Hp). by destruct (Hw mn mx).
Qed.

(** The part [await_ready] and [await_resume] share: drain the queue, or go on
    to a state that only registers the reader. *)
Lemma try_drain_or_spec mx s s1 :
  inv s → (∀ mn mx, who s ≠ Parked mn mx) →
  (recv_queue_ s = [] → eof_ s = false → inv s1 ∧ recv_queue_ s1 = recv_queue_ s) →
  ∃ r s', (let! r := try_drain mx s in
           Done (match r.1 with Some bs => (Some bs, r.2) | None => (None, s1) end))
          = Done (r, s') ∧ inv s'
  ∧ queued (recv_queue_ s) ++ [] = default [] r ++ queued (recv_queue_ s')
  ∧ (∀ bs, r = Some bs → recv_queue_ s ≠ [] ∨ eof_ s = true)
  ∧ (∀ bs, r = Some bs → bs = take mx (queued (recv_queue_ s))).
Proof.
  intros Hs Hnp H1. pose proof Hs as [Hq Hp Hw Hl].
  destruct (try_drain_spec mx s Hq) as [(Hn & He & Hd)|(Hne & q' & Hd & Hq' & Hok)];
    rewrite Hd; cbn [run_bind fst snd]; do 2 eexists; (split; [done|]).
  - destruct (H1 Hn He) as [Hi Hr]. rewrite Hr, app_nil_r. by split_and!.
  - split; [|split; [|split]].
    + split; simpl; try done. rewrite (inv_no_wakeup s Hs Hnp). done.
    + simpl. by rewrite Hq', take_drop, app_nil_r.
    + by intros bs _.
    + by intros bs [= <-].
Qed.

(** An event of the library: the queue grows by what a receive brings. *)
Lemma event_step_spec ev s :
  inv s → allowed (LEvent ev) s →
  ∃ s', step (LEvent ev) s = Done (None, s') ∧ inv s'
    ∧ queued (recv_queue_ s) ++ match ev with EvReceive bufs _ => concat bufs | _ => [] end
      = queued (recv_queue_ s').
Proof.
  intros Hs Ha. pose proof Hs as [Hq Hp Hw Hl].
  destruct ev as [bufs fin|[id|]| |]; simpl.
  - eexists. split; [done|]. destruct (push_bufs_spec bufs (recv_queue_ s)) as [Hpb Hok].
    split.
    + apply inv_wake; simpl; [by apply Hok|done|]. intros mn mx Hpk. by eapply Hp.
    + simpl. by rewrite Hpb.
  - simpl in Ha. rewrite decide_True by (by rewrite Hl). eexists. split; [done|].
    split; [|by rewrite app_nil_r]. split; simpl; try done. by rewrite Hl.
  - eexists. split; [done|]. by rewrite app_nil_r.
  - eexists. split; [done|]. split; [|by rewrite app_nil_r].
    apply inv_wake; simpl; [done|done|]. intros mn mx Hpk. by eapply Hp.
  - eexists. split; [done|]. by rewrite app_nil_r.
Qed.

(** What an allowed step does: it is defined, keeps the invariant and accounts
    for the bytes. *)
Lemma stream_step_spec l s :
  inv s → allowed l s →
  ∃ r s', step l s = Done (r, s') ∧ inv s'
    ∧ queued (recv_queue_ s) ++ match l with LEvent (EvReceive bufs _) => concat bufs | _ => [] end
      = default [] r ++ queued (recv_queue_ s')
    ∧ (∀ bs, r = Some bs →
        recv_queue_ s ≠ [] ∨ eof_ s = true)
    ∧ (∀ bs, r = Some bs → ∃ mx, bs = take mx (queued (recv_queue_ s))
         ∧ (l = LReader → ∃ mn, who s = Between mn mx ∨ who s = Resumed mn mx)
         ∧ (∀ mn mx', l = LTryRead mn mx' → mx = mx')).
Proof.
  intros Hs Ha. pose proof Hs as [Hq Hp Hw Hl].
  destruct l as [ev|mn mx| |src id acc]; simpl.
  - destruct (event_step_spec ev s Hs Ha) as (s' & Hst & Hi & Hb). simpl in Hst. rewrite Hst.
    exists None, s'. by split_and!.
  - destruct (try_drain_or_spec mx s (set_who (Between mn mx) s) Hs) as (r & s' & Hs' & Hi & Hb & Hr & Hm).
    { simpl in Ha. by rewrite Ha. }
    { intros _ _. split; [|done]. split; simpl; try done.
      rewrite (inv_no_wakeup s Hs); [done|]. simpl in Ha. by rewrite Ha. }
    exists r, s'. split_and!; try done. intros bs Hbs. exists mx. split_and!; [by apply Hm|done|].
    by intros mn' mx' [= _ <-].
  - destruct (who s) as [|mn mx|mn mx|mn mx] eqn:Hwho.
    + exists None, s. by rewrite app_nil_r.
    + destruct (try_drain_or_spec mx s (mkStream (recv_queue_ s) (eof_ s) true (Parked mn mx) (live s)
        (inflight s)) Hs) as (r & s' & Hs' & Hi & Hb & Hr & Hm); [by rewrite Hwho| |].
      { intros Hn He. split; [|done]. split; simpl; try done.
        intros _. by do 2 eexists. }
      exists r, s'. split_and!; try done. intros bs Hbs. exists mx.
      split_and!; [by apply Hm|by exists mn; left|done].
    + exists None, s. by rewrite app_nil_r.
    + destruct (try_drain_or_spec mx s (set_who (Between mn mx) s) Hs) as (r & s' & Hs' & Hi & Hb & Hr & Hm); [by rewrite Hwho| |].
      { intros _ _. split; [|done]. split; simpl; try done.
        rewrite (inv_no_wakeup s Hs); [done|by rewrite Hwho]. }
      exists r, s'. split_and!; try done. intros bs Hbs. exists mx.
      split_and!; [by apply Hm|by exists mn; right|done].
  - do 2 eexists. split; [done|]. unfold write. destruct acc; simpl; rewrite app_nil_r; [|by split_and!].
    split; [|done]. split; simpl; try done. by rewrite Hl.
Qed.

(** ** Properties *)

Lemma trace_inv s rx rs :
  trace s rx rs → inv s ∧ rx = concat (snd <$> rs) ++ queued (recv_queue_ s).
Proof.
  induction 1 as [|s rx rs l r s' Ht [Hs IH] Ha Hstep]; [by split; [apply inv_stream0|]|].
  destruct (stream_step_spec l s Hs Ha) as (r1 & s1 & Hs1 & Hi & Hb & _ & Hm).
  rewrite Hstep in Hs1. injection Hs1 as <- <-. split; [done|].
  rewrite IH, <- app_assoc, Hb, fmap_app, concat_app, <- app_assoc. f_equal.
  destruct r as [bs|]; simpl; [|by destruct l].
  destruct (Hm bs eq_refl) as (mx & _ & Hr & _).
  destruct l as [ev|mn mx'| |src id acc]; simpl in Hstep |- *.
  - exfalso. by destruct ev as [| [|]| |]; simpl in Hstep; try case_decide; simplify_eq/=.
  - by rewrite app_nil_r.
  - destruct (Hr eq_refl) as (mn & [-> | ->]); simpl; by rewrite app_nil_r.
  - done.
Qed.

(** C12: the reads return the bytes received, in order, each exactly once, and
    what no read has returned yet is in the queue, whatever way the worker's
    events and the reader's critical sections interleave. Every step is defined:
    no read outside a chunk, no context freed twice; and the contexts that are
    allocated are those msquic holds (none leaks). *)
Theorem stream_fifo s rx rs :
  trace s rx rs →
  rx = concat (snd <$> rs) ++ queued (recv_queue_ s)
  ∧ live s = inflight s
  ∧ ∀ l, allowed l s → ∃ r s', step l s = Done (r, s').
Proof.
  intros [Hs Hrx]%trace_inv. split; [done|]. split; [apply Hs|].
  intros l Ha. destruct (stream_step_spec l s Hs Ha) as (r & s' & Hs' & _). by exists r, s'.
Qed.

(** C33: no wake-up is lost: a suspended read has its fulfiller in place, an empty
    queue and an open stream; the next event that brings bytes, a FIN or an abort
    resumes it, and the resumed read then returns at once, with bytes or at the
    end of the stream. *)
Theorem parked_read_wakes s rx rs mn mx ev :
  trace s rx rs → who s = Parked mn mx →
  recv_queue_ s = [] ∧ eof_ s = false
  ∧ (match ev with
     | EvReceive bufs fin => concat bufs ≠ [] ∨ fin = true
     | EvAbort => True
     | _ => False
     end →
     ∃ s1 bs s2, step (LEvent ev) s = Done (None, s1) ∧ who s1 = Resumed mn mx
       ∧ step LReader s1 = Done (Some bs, s2) ∧ who s2 = NotReading
       ∧ bs = take mx (match ev with EvReceive bufs _ => concat bufs | _ => [] end)).
Proof.
  intros [Hs _]%trace_inv Hw. destruct (inv_parked _ Hs _ _ Hw) as (Hr & Hq & He).
  split; [done|]. split; [done|]. intros Hev.
  assert (∀ s1, who s1 = Resumed mn mx → Forall chunk_ok (recv_queue_ s1) →
    recv_queue_ s1 ≠ [] ∨ eof_ s1 = true →
    ∃ bs s2, step LReader s1 = Done (Some bs, s2) ∧ who s2 = NotReading
             ∧ bs = take mx (queued (recv_queue_ s1))) as Hread.
  { intros s1 Hw1 Hq1 Hne. simpl. rewrite Hw1.
    destruct (try_drain_spec mx s1 Hq1) as [(? & ? & _)|(_ & q' & Hd & _)].
    { destruct Hne as [Hne|Hne]; congruence. }
    rewrite Hd. simpl. by do 2 eexists. }
  destruct ev as [bufs fin| | |]; try done; simpl.
  - destruct (push_bufs_spec bufs (recv_queue_ s)) as [Hpb Hok].
    eexists. destruct (Hread (wake (mkStream (push_bufs bufs (recv_queue_ s)) (eof_ s || fin)
      (read_wakeup_ s) (who s) (live s) (inflight s)))) as (bs & s2 & Hs2 & Hw2 & ->); simpl.
    + by rewrite Hw, Hr.
    + apply Hok, Hs.
    + destruct Hev as [Hne| ->]; [left|right; by rewrite orb_true_r]. intros Hn.
      rewrite Hn, Hq in Hpb. simpl in Hpb. by rewrite <- Hpb in Hne.
    + eexists _, s2. rewrite Hw, Hr. split_and!; [done|done| |done|].
      * simpl in Hs2. rewrite Hw, Hr in Hs2. exact Hs2.
      * by rewrite Hpb, Hq.
  - eexists. destruct (Hread (wake (mkStream (recv_queue_ s) true (read_wakeup_ s) (who s)
      (live s) (inflight s)))) as (bs & s2 & Hs2 & Hw2 & ->); simpl.
    + by rewrite Hw, Hr.
    + apply Hs.
    + by right.
    + eexists _, s2. rewrite Hw, Hr. split_and!; [done|done| |done|].
      * simpl in Hs2. rewrite Hw, Hr in Hs2. exact Hs2.
      * by rewrite Hq.
Qed.

(** [tryRead] does not honour [minBytes]: a read of at least 8 bytes returns
    the 3 bytes of the first event while the stream is open, which the caller
    takes for the end of the stream. *)
Theorem short_read_before_eof :
  ∃ s, trace s [1; 2; 3] [(8%nat, [1; 2; 3])] ∧ eof_ s = false ∧ recv_queue_ s = [].
Proof.
  exists (mkStream [] false false NotReading ∅ ∅). split; [|done].
  assert (trace (mkStream [mkChunk [1; 2; 3] 0] false false NotReading ∅ ∅) [1; 2; 3] []) as H1.
  { refine (trace_step stream0 [] [] (LEvent (EvReceive [[1; 2; 3]] false)) None _ trace_start I eq_refl). }
  exact (trace_step _ _ _ (LTryRead 8 64) (Some [1; 2; 3]) _ H1 eq_refl eq_refl).
Qed.

(** ** The handle *)

(** The constructor, the shutdowns and the destructor only concern the handle of the
    stream: what they call of the library. *)
Module Handle.
Inductive shutdown := Graceful | AbortReceive | AbortImmediate.

Inductive stream_call :=
| StreamOpen
| StreamStart (h : Z)
| StreamShutdown (h : Z) (how : shutdown)
| StreamClose (h : Z).

(** The constructor, with the handle that [StreamOpen] gives and whether the start
    succeeds; [None] when it throws, and [stream_.reset()] has closed the handle
    then. *)
Definition construct_stream (opened : option Z) (started : bool) : option Z * list stream_call :=
  match opened with
  | None => (None, [StreamOpen])
  | Some h =>
      if started then (Some h, [StreamOpen; StreamStart h])
      else (None, [StreamOpen; StreamStart h; StreamClose h])
  end.

Definition shutdownWrite (h : Z) : stream_call := StreamShutdown h Graceful.
Definition abortRead (h : Z) : stream_call := StreamShutdown h AbortReceive.
Definition abort (h : Z) : stream_call := StreamShutdown h AbortImmediate.
Definition stream_dtor (h : Z) : list stream_call := [StreamClose h].

(** The life of an object: the constructor, any shutdowns, the destructor, which
    does not run when the constructor throws. *)
Definition lifetime (opened : option Z) (started : bool) (ms : list (Z → stream_call))
    : list stream_call :=
  let '(o, calls) := construct_stream opened started in
  match o with
  | None => calls
  | Some h => calls ++ ((λ m, m h) <$> ms) ++ stream_dtor h
  end.

Definition closes (c : stream_call) : bool := match c with StreamClose _ => true | _ => false end.

(** A handle that was opened is closed by the last call and by no other, on every
    path; without a handle nothing is closed. *)
Theorem closed_last opened started ms :
  Forall (λ m, m = shutdownWrite ∨ m = abortRead ∨ m = abort) ms →
  match opened with
  | Some h =>
      ∃ cs, lifetime opened started ms = cs ++ [StreamClose h]
            ∧ Forall (λ c, closes c = false) cs
  | None => lifetime opened started ms = [StreamOpen]
  end.
Proof.
  intros Hms. destruct opened as [h|]; [|done]. unfold lifetime. destruct started; cbn [construct_stream].
  - exists ([StreamOpen; StreamStart h] ++ ((λ m, m h) <$> ms)).
    split; [by rewrite <- app_assoc|]. repeat constructor. apply Forall_fmap.
    apply (Forall_impl _ _ _ Hms). by intros m [->|[->| ->]].
  - exists [StreamOpen; StreamStart h]. split; [done|]. by repeat constructor.
Qed.
End Handle.

(** ** Witnesses *)

(** A read that is suspended, after a write. *)
Definition parked_stream : stream :=
  mkStream [] false true (Parked 1 64) ({[0%nat]} ∪ ∅) ({[0%nat]} ∪ ∅).

Lemma parked_trace : trace parked_stream [] [].
Proof.
  pose proof (trace_step _ _ _ (LTryRead 1 64) None _ trace_start eq_refl eq_refl) as H1.
  pose proof (trace_step _ _ _ LReader None _ H1 I eq_refl) as H2.
  assert (allowed (LWrite [9] 0 true) (mkStream [] false true (Parked 1 64) ∅ ∅)) as Ha
    by (apply not_elem_of_empty).
  exact (trace_step _ _ _ (LWrite [9] 0 true) None _ H2 Ha eq_refl).
Qed.

Lemma stream_fifo_witness :
  live parked_stream = inflight parked_stream
  ∧ ∃ r s', step (LEvent (EvSendComplete (Some 0%nat))) parked_stream = Done (r, s').
Proof.
  destruct (stream_fifo parked_stream [] [] parked_trace) as (_ & Hl & Hs).
  split; [exact Hl|]. apply Hs. simpl. set_solver.
Defined.

Lemma parked_read_wakes_witness :
  ∃ s1 bs s2, step (LEvent (EvReceive [[7; 8]] false)) parked_stream = Done (None, s1)
    ∧ step LReader s1 = Done (Some bs, s2) ∧ bs = [7; 8].
Proof.
  destruct (parked_read_wakes parked_stream [] [] 1 64 (EvReceive [[7; 8]] false) parked_trace eq_refl)
    as (_ & _ & Hev).
  destruct Hev as (s1 & bs & s2 & Hs1 & _ & Hs2 & _ & Hbs); [by left|].
  by exists s1, bs, s2.
Defined.
