(* ===== verification/QuicClient.v ===== *)
(** * The QUIC client

    [include/cfd/quic_client.hpp], [include/cfd/msquic_raii.hpp] and the class
    [QuicClientImpl] of [src/tunnel/quic_client.cpp], the build with msquic. The
    library is a parameter: the answers of its calls are arguments, its events
    are inputs, and the calls the client makes are logged, with the handles that
    are open, so that a double close or the use of a closed handle is visible. *)
From S2P Require Import Prelude Frame Registration.
Local Open Scope Z_scope.
Local Open Scope cfd_scope.

(** ** The table of the library *)

(** [g_refcount], and whether [g_msquic] is set; [opens] and [closes] count the
    calls of [MsQuicOpen2] that succeeded and of [MsQuicClose]. *)
Record ApiTable := mkApiTable { g_refcount : Z; g_msquic : bool; opens : nat; closes : nat }.

Definition ApiTable0 : ApiTable := mkApiTable 0 false 0 0.

(** [api_table_init]; [open2] is whether [MsQuicOpen2] succeeds. *)
Definition api_table_init (open2 : bool) (t : ApiTable) : bool * ApiTable :=
  let old := g_refcount t in
  let t := mkApiTable (old + 1) (g_msquic t) (opens t) (closes t) in
  if old =? 0 then
    if negb open2 then (false, mkApiTable (g_refcount t - 1) (g_msquic t) (opens t) (closes t))
    else (true, mkApiTable (g_refcount t) true (S (opens t)) (closes t))
  else (true, t).

(** [api_table_release] *)
Definition api_table_release (t : ApiTable) : ApiTable :=
  let old := g_refcount t in
  let t := mkApiTable (old - 1) (g_msquic t) (opens t) (closes t) in
  if old =? 1 then mkApiTable (g_refcount t) false (opens t) (S (closes t)) else t.

(** ** Configuration *)

Record QuicConfig := mkQuicConfig {
  edge_host : text;
  edge_port : Z;
  server_name : text;
  alpn : text;
  tunnel_id : text;
  account_tag : text;
  tunnel_secret : list Z;
  ca_bundle_path : text;
  client_cert_path : text;
  client_key_path : text;
}.

(** [QuicConfig{}] *)
Definition QuicConfig_default : QuicConfig :=
  mkQuicConfig [] 7844 (str "quic.cftunnel.com") (str "argotunnel") [] [] [] [] [] [].

(** [embedded_ca_path]: the descriptors of [memfd_create] and of [open] on the
    fallback file, negative for a failure; [None] is the null pointer. *)
Definition dec_of_int (n : Z) : text :=
  if n <? 0 then "-"%char :: dec_of (- n) else dec_of n.

Definition embedded_ca_path (memfd tfd : Z) : option text :=
  let path : text := [] in
  let path :=
    if 0 <=? memfd then take 47 (str "/proc/self/fd/" ++ dec_of_int memfd)
    else if 0 <=? tfd then str "/tmp/cfd_cf_ca.pem"
    else path in
  match path with [] => None | _ => Some path end.

(** [QUIC_CREDENTIAL_CONFIG], as the code fills it: the flags it sets, the client
    certificate and key, and the CA file. *)
Record credentials := mkCredentials {
  flag_client : bool;
  flag_builtin_validation : bool;
  flag_no_validation : bool;
  flag_set_ca_file : bool;
  certificate_file : option (text * text);
  ca_file : option text;
}.

(** The TLS policy of [connect]; [embedded] is the answer of
    [embedded_ca_path]. *)
Definition tls_credentials (cfg : QuicConfig) (embedded : option text) : credentials :=
  let cert :=
    if negb (bool_decide (client_cert_path cfg = [])) && negb (bool_decide (client_key_path cfg = []))
    then Some (client_cert_path cfg, client_key_path cfg) else None in
  if bool_decide (ca_bundle_path cfg = str "INSECURE")
  then mkCredentials true true true false cert None
  else
    let ca_path :=
      if bool_decide (ca_bundle_path cfg = []) then embedded else Some (ca_bundle_path cfg) in
    match ca_path with
    | Some p => mkCredentials true true false true cert (Some p)
    | None => mkCredentials true true false false cert None
    end.

(** The name [ConnectionStart] gets. *)
Definition sni (cfg : QuicConfig) : text :=
  match server_name cfg with [] => edge_host cfg | s => s end.

(** ** State *)

(** [enum class HandleKind], and a handle of the library. *)
Inductive HandleKind := KRegistration | KConfiguration | KConnection | KStream.

#[export] Instance HandleKind_eq_dec : EqDecision HandleKind.
Proof. solve_decision. Defined.

Definition handle : Type := Z.

(** [QUIC_SETTINGS], the fields that [connect] sets. *)
Record quic_settings := mkQuicSettings {
  IdleTimeoutMs : Z;
  HandshakeIdleTimeoutMs : Z;
  KeepAliveIntervalMs : Z;
  DatagramReceiveEnabled : bool;
  PeerBidiStreamCount : Z;
}.

Definition kIdleTimeoutMs : Z := 30000.
Definition kHandshakeTimeoutMs : Z := 10000.
Definition kKeepAliveMs : Z := 5000.

Definition connect_settings : quic_settings :=
  mkQuicSettings kIdleTimeoutMs kHandshakeTimeoutMs kKeepAliveMs true 0.

(** The calls the client makes on the library's handles. *)
Inductive api_call :=
| AConfigurationOpen (reg : handle) (alpn : text) (settings : quic_settings)
| AOpen (k : HandleKind) (h : handle)
| AClose (k : HandleKind) (h : handle)
| ALoadCredential (h : handle) (c : credentials)
| ASetRemoteAddress (h : handle) (port : Z)
| AConnectionStart (h conf : handle) (name : text) (port : Z)
| AConnectionShutdown (h : handle)
| ADatagramSend (h : handle) (bytes : list Z) (ctx : nat)
| AStreamAbort (h : handle).

(** The members of [QuicClientImpl] that change; for the handlers, whether one is
    set. Outside it: the handles of the client that are open in the library; the
    streams of the peer that are not closed yet; the contexts of datagrams, allocated ([live]) and held by msquic ([inflight]); the log of the
    calls; how often the disconnect handler ran, and what the inbound handler
    got. *)
Record client := mkClient {
  api_held_ : bool;
  handshake_done_ : bool;
  handshake_ok_ : bool;
  disc_notified_ : bool;
  handler_ : bool;
  disconnect_handler_ : bool;
  registration_ : option handle;
  configuration_ : option handle;
  connection_ : option handle;
  handles : gset handle;
  streams : gset handle;
  live : gset nat;
  inflight : gset nat;
  calls : list api_call;
  fired : nat;
  delivered : list (list Z);
}.

Definition client0 : client :=
  mkClient false false false false false false None None None ∅ ∅ ∅ ∅ [] 0 [].

Definition set_flags (done ok notified : bool) (s : client) : client :=
  mkClient (api_held_ s) done ok notified (handler_ s) (disconnect_handler_ s) (registration_ s)
    (configuration_ s) (connection_ s) (handles s) (streams s) (live s) (inflight s) (calls s) (fired s)
    (delivered s).
Definition set_held (b : bool) (s : client) : client :=
  mkClient b (handshake_done_ s) (handshake_ok_ s) (disc_notified_ s) (handler_ s)
    (disconnect_handler_ s) (registration_ s) (configuration_ s) (connection_ s) (handles s)
    (streams s) (live s) (inflight s) (calls s) (fired s) (delivered s).
Definition set_members (r c n : option handle) (s : client) : client :=
  mkClient (api_held_ s) (handshake_done_ s) (handshake_ok_ s) (disc_notified_ s) (handler_ s)
    (disconnect_handler_ s) r c n (handles s) (streams s) (live s) (inflight s) (calls s) (fired s)
    (delivered s).
Definition set_handles (hs : gset handle) (a : api_call) (s : client) : client :=
  mkClient (api_held_ s) (handshake_done_ s) (handshake_ok_ s) (disc_notified_ s) (handler_ s)
    (disconnect_handler_ s) (registration_ s) (configuration_ s) (connection_ s) hs (streams s) (live s)
    (inflight s) (calls s ++ [a]) (fired s) (delivered s).
Definition set_ctxs (l i : gset nat) (s : client) : client :=
  mkClient (api_held_ s) (handshake_done_ s) (handshake_ok_ s) (disc_notified_ s) (handler_ s)
    (disconnect_handler_ s) (registration_ s) (configuration_ s) (connection_ s) (handles s) (streams s) l i
    (calls s) (fired s) (delivered s).
Definition set_streams (ss : gset handle) (s : client) : client :=
  mkClient (api_held_ s) (handshake_done_ s) (handshake_ok_ s) (disc_notified_ s) (handler_ s)
    (disconnect_handler_ s) (registration_ s) (configuration_ s) (connection_ s) (handles s) ss
    (live s) (inflight s) (calls s) (fired s) (delivered s).
Definition log_call (a : api_call) (s : client) : client := set_handles (handles s) a s.

(** [set_handler] and [set_handler_disconnect] *)
Definition set_handler (h : bool) (s : client) : client :=
  mkClient (api_held_ s) (handshake_done_ s) (handshake_ok_ s) (disc_notified_ s) h
    (disconnect_handler_ s) (registration_ s) (configuration_ s) (connection_ s) (handles s)
    (streams s) (live s) (inflight s) (calls s) (fired s) (delivered s).
Definition set_handler_disconnect (h : bool) (s : client) : client :=
  mkClient (api_held_ s) (handshake_done_ s) (handshake_ok_ s) (disc_notified_ s) (handler_ s) h
    (registration_ s) (configuration_ s) (connection_ s) (handles s) (streams s) (live s) (inflight s)
    (calls s) (fired s) (delivered s).

(** ** Handles *)

(** [HandleDeleter]: closing a handle that is not open is undefined. *)
Definition close_handle (k : HandleKind) (h : handle) (s : client) : run client :=
  if decide (h ∈ handles s) then Done (set_handles (handles s ∖ {[h]}) (AClose k h) s) else UB.

(** The destructor or the reset of a [UniqueHandle]. *)
Definition reset_handle (k : HandleKind) (m : option handle) (s : client) : run client :=
  match m with Some h => close_handle k h s | None => Done s end.

Definition open_handle (k : HandleKind) (h : handle) (s : client) : client :=
  set_handles ({[h]} ∪ handles s) (AOpen k h) s.

(** ** [close] *)

Definition close (s : client) : run client :=
  let s := match connection_ s with Some h => log_call (AConnectionShutdown h) s | None => s end in
  let old := connection_ s in
  let! s := reset_handle KConnection old (set_members (registration_ s) (configuration_ s) None s) in
  let old := configuration_ s in
  let! s := reset_handle KConfiguration old (set_members (registration_ s) None (connection_ s) s) in
  let old := registration_ s in
  reset_handle KRegistration old (set_members None (configuration_ s) (connection_ s) s).

(** ** Events of the connection *)

(** The states of a datagram, as the code tells them apart. *)
Inductive send_state := SendSent | SendCanceled | SendInformational.

Inductive conn_event :=
| EvConnected
| EvShutdownByTransport
| EvShutdownByPeer
| EvShutdownComplete
| EvDatagramReceived (bytes : list Z)
| EvSendState (st : send_state) (ctx : nat)
| EvPeerStreamStarted (h : handle)
| EvOther.

(** [fire_disconnect_locked_] *)
Definition fire_disconnect_locked_ (s : client) : client :=
  let first := handshake_ok_ s && negb (disc_notified_ s) in
  let s' := set_flags true (handshake_ok_ s) (disc_notified_ s || first) s in
  if first && disconnect_handler_ s then
    mkClient (api_held_ s') (handshake_done_ s') (handshake_ok_ s') (disc_notified_ s') (handler_ s')
      (disconnect_handler_ s') (registration_ s') (configuration_ s') (connection_ s') (handles s')
      (streams s') (live s') (inflight s') (calls s') (S (fired s')) (delivered s')
  else s'.

(** [deliver_inbound] *)
Definition deliver_inbound (bytes : list Z) (s : client) : client :=
  let '(ok, dr) := decode bytes (mkDecodeResult (mkFrameType 0) 0 []) in
  if negb ok then s
  else if negb (bool_decide (dr_type dr = IpPacket)) then s
  else if handler_ s then
    mkClient (api_held_ s) (handshake_done_ s) (handshake_ok_ s) (disc_notified_ s) (handler_ s)
      (disconnect_handler_ s) (registration_ s) (configuration_ s) (connection_ s) (handles s)
      (streams s) (live s) (inflight s) (calls s) (fired s) (delivered s ++ [dr_payload dr])
  else s.

(** [on_conn_event]. Freeing a context that is not allocated is undefined. *)
Definition on_conn_event (ev : conn_event) (s : client) : run client :=
  match ev with
  | EvConnected => Done (set_flags true true (disc_notified_ s) s)
  | EvShutdownByTransport => Done (fire_disconnect_locked_ s)
  | EvShutdownByPeer => Done (fire_disconnect_locked_ s)
  | EvShutdownComplete => Done (fire_disconnect_locked_ s)
  | EvDatagramReceived bytes => Done (deliver_inbound bytes s)
  | EvSendState SendInformational _ => Done s
  | EvSendState _ ctx =>
      if decide (ctx ∈ live s)
      then Done (set_ctxs (live s ∖ {[ctx]}) (inflight s ∖ {[ctx]}) s)
      else UB
  | EvPeerStreamStarted h => Done (set_streams ({[h]} ∪ streams s) (log_call (AStreamAbort h) s))
  | EvOther => Done s
  end.

(** [s_null_stream_cb] on the SHUTDOWN_COMPLETE of a stream of the peer. *)
Definition s_null_stream_cb (h : handle) (shutdown_complete : bool) (s : client) : run client :=
  if negb shutdown_complete then Done s
  else if decide (h ∈ streams s)
  then Done (set_streams (streams s ∖ {[h]}) (log_call (AClose KStream h) s))
  else UB.

Fixpoint on_events (evs : list conn_event) (s : client) : run client :=
  match evs with
  | [] => Done s
  | ev :: evs' => let! s := on_conn_event ev s in on_events evs' s
  end.

(** ** [connect] *)

(** The error codes of the client. *)
Inductive errc :=
| success | protocol_error | host_unreachable | connection_refused | connection_aborted
| not_connected | permission_denied
(** Only of the build without msquic. *)
| not_supported.

#[export] Instance errc_eq_dec : EqDecision errc.
Proof. solve_decision. Defined.

(** What the library and the resolver answer: the handles of the three opens, the
    credentials, the resolver, the start, and the events delivered before the
    wait for the handshake returns. *)
Record answers := mkAnswers {
  a_open2 : bool;
  a_registration : option handle;
  a_configuration : option handle;
  a_embedded : option text;
  a_credential : bool;
  a_connection : option handle;
  a_resolved : bool;
  a_start : bool;
  a_events : list conn_event;
}.

(** [registration_ = wrap(raw, ...)]: the member takes the new handle, and the old
    one is closed. *)
Definition assign_registration (h : handle) (s : client) : run client :=
  let old := registration_ s in
  reset_handle KRegistration old (set_members (Some h) (configuration_ s) (connection_ s) s).
Definition assign_configuration (h : handle) (s : client) : run client :=
  let old := configuration_ s in
  reset_handle KConfiguration old (set_members (registration_ s) (Some h) (connection_ s) s).
Definition assign_connection (h : handle) (s : client) : run client :=
  let old := connection_ s in
  reset_handle KConnection old (set_members (registration_ s) (configuration_ s) (Some h) s).

(** From the opened connection on: the address, the start and the wait. *)
Definition connect_start (cfg : QuicConfig) (a : answers) (conf conn : handle) (s : client)
    : run (errc * client) :=
  if negb (a_resolved a) then Done (host_unreachable, s)
  else
    let s := log_call (ASetRemoteAddress conn (edge_port cfg)) s in
    let s := log_call (AConnectionStart conn conf (sni cfg) (edge_port cfg)) s in
    if negb (a_start a) then Done (connection_refused, s)
    else
      let! s := on_events (a_events a) s in
      if negb (handshake_ok_ s) then Done (connection_aborted, s) else Done (success, s).

(** From the registration on. *)
Definition connect_open (cfg : QuicConfig) (a : answers) (s : client) : run (errc * client) :=
  match a_registration a with
  | None => Done (protocol_error, s)
  | Some reg =>
      let! s := assign_registration reg (open_handle KRegistration reg s) in
      let s := log_call (AConfigurationOpen reg (alpn cfg) connect_settings) s in
      match a_configuration a with
      | None => Done (protocol_error, s)
      | Some conf =>
          let! s := assign_configuration conf (open_handle KConfiguration conf s) in
          let s := log_call (ALoadCredential conf (tls_credentials cfg (a_embedded a))) s in
          if negb (a_credential a) then Done (protocol_error, s)
          else
            match a_connection a with
            | None => Done (protocol_error, s)
            | Some conn =>
                let! s := assign_connection conn (open_handle KConnection conn s) in
                connect_start cfg a conf conn s
            end
      end
  end.

Definition connect (cfg : QuicConfig) (a : answers) (t : ApiTable) (s : client)
    : run (errc * client * ApiTable) :=
  let s := set_flags false false false s in
  let '(held, t) := if api_held_ s then (true, t) else api_table_init (a_open2 a) t in
  if negb held then Done (protocol_error, s, t)
  else
    let! r := connect_open cfg a (set_held true s) in
    Done (r.1, r.2, t).

(** [~QuicClientImpl()] *)
Definition client_dtor (t : ApiTable) (s : client) : run (client * ApiTable) :=
  let! s := close s in
  Done (s, if api_held_ s then api_table_release t else t).

(** ** [send_packet] *)

(** The context is allocated at [ctx]; [accepted] is whether [DatagramSend]
    takes it. *)
Definition send_packet (pkt : list Z) (ctx : nat) (accepted : bool) (s : client) : client :=
  match connection_ s with
  | None => s
  | Some h =>
      if negb (handshake_ok_ s) then s
      else
        let f := mkFrame IpPacket 0 pkt in
        let bytes := (encode f []).2 in
        let s := log_call (ADatagramSend h (take (Z.to_nat (u32 (Z.of_nat (length bytes)))) bytes) ctx) s in
        if accepted then set_ctxs ({[ctx]} ∪ live s) ({[ctx]} ∪ inflight s) s else s
  end.

(** ** [register_connection] *)

(** How the remote call ends: an exception, the details of the connection, or an
    error of the edge. *)
Inductive rpc_result :=
| RpcException
| RpcDetails (uuid : list Z) (location : text)
| RpcError (cause : text) (retry_after : Z) (retry : bool).

(** The request as the fields of the message. *)
Record rpc_request := mkRpcRequest {
  rpc_account_tag : text;
  rpc_tunnel_secret : list Z;
  rpc_tunnel_id : list Z;
  rpc_conn_index : Z;
  rpc_client_id : list Z;
  rpc_version : text;
  rpc_arch : text;
  rpc_features : list text;
}.

Definition build_request (req : RegisterRequest) : rpc_request :=
  mkRpcRequest (Registration.account_tag (auth req)) (Registration.tunnel_secret (auth req))
    (tunnel_uuid req) (conn_index req) (tunnel_uuid req) (version req) (arch req) (features req).

(** The answer of the edge in [resp_out]. *)
Definition read_response (r : rpc_result) (out : RegisterResponse) : RegisterResponse :=
  match r with
  | RpcException => out
  | RpcDetails uuid loc =>
      mkRegisterResponse true
        (if (length uuid =? 16)%nat then uuid else assigned_uuid out)
        (c_str loc) (error_cause out) (retry_after_seconds out) (should_retry out)
  | RpcError cause after retry =>
      mkRegisterResponse false (assigned_uuid out) (location_name out) (c_str cause) after retry
  end.

(** [rpc] is the remote call: what the edge answers to a request. *)
Definition register_connection (rpc : rpc_request → rpc_result) (req : RegisterRequest)
    (out : RegisterResponse) (s : client) : errc * RegisterResponse :=
  match connection_ s with
  | None => (not_connected, out)
  | Some _ =>
      if negb (handshake_ok_ s) then (not_connected, out)
      else
        match rpc (build_request req) with
        | RpcException => (protocol_error, out)
        | r =>
            let out := read_response r out in
            if negb (ok out) then (permission_denied, out) else (success, out)
        end
  end.

(** ** Clients of the class *)

Inductive label :=
| LConnect (cfg : QuicConfig) (a : answers)
| LClose
| LEvent (ev : conn_event)
| LStreamDone (h : handle)
| LSend (pkt : list Z) (ctx : nat) (accepted : bool)
| LSetHandler (h : bool)
| LSetDisconnect (h : bool).

(** The table of the library is not part of a client's state: [connect] finds it
    open or opens it, as [a_open2] says. *)
Definition step (l : label) (s : client) : run client :=
  match l with
  | LConnect cfg a => let! r := connect cfg a ApiTable0 s in Done r.1.2
  | LClose => close s
  | LEvent ev => on_conn_event ev s
  | LStreamDone h => s_null_stream_cb h true s
  | LSend pkt ctx accepted => Done (send_packet pkt ctx accepted s)
  | LSetHandler h => Done (set_handler h s)
  | LSetDisconnect h => Done (set_handler_disconnect h s)
  end.

(** msquic reports SENT or CANCELED once for each datagram it took, and starts a
    stream with a new handle. *)
Definition event_ok (ev : conn_event) (s : client) : Prop :=
  match ev with
  | EvSendState (SendSent | SendCanceled) ctx => ctx ∈ inflight s
  | EvPeerStreamStarted h => h ∉ streams s
  | _ => True
  end.

Fixpoint events_ok (evs : list conn_event) (s : client) : Prop :=
  match evs with
  | [] => True
  | ev :: evs' => event_ok ev s ∧ ∀ s', on_conn_event ev s = Done s' → events_ok evs' s'
  end.

(** The handles of the three opens are new; the events are in order: only the
    flags, the contexts and the streams matter to them. *)
Definition answers_ok (a : answers) (s : client) : Prop :=
  NoDup (omap id [a_registration a; a_configuration a; a_connection a])
  ∧ (∀ h, h ∈ omap id [a_registration a; a_configuration a; a_connection a] → h ∉ handles s)
  ∧ ∀ s', inflight s' = inflight s → streams s' = streams s → live s' = live s →
          events_ok (a_events a) s'.

Definition allowed (l : label) (s : client) : Prop :=
  match l with
  | LConnect _ a => answers_ok a s
  | LEvent ev => event_ok ev s
  | LStreamDone h => h ∈ streams s
  | LSend _ ctx _ => ctx ∉ live s
  | _ => True
  end.

Inductive session : client → list label → client → Prop :=
| session_nil s : session s [] s
| session_cons s l s1 ls s' :
    allowed l s → step l s = Done s1 → session s1 ls s' → session s (l :: ls) s'.

(** ** Invariant *)

Definition members (s : client) : list handle :=
  omap id [connection_ s; configuration_ s; registration_ s].

(** The open handles are those the members hold, and the contexts allocated are
    those msquic holds. *)
Record inv (s : client) : Prop := {
  inv_nodup : NoDup (members s);
  inv_handles h : h ∈ handles s ↔ h ∈ members s;
  inv_live : live s = inflight s;
}.

(** What [close] calls. *)
Definition close_calls (s : client) : list api_call :=
  match connection_ s with
  | Some h => [AConnectionShutdown h; AClose KConnection h] | None => []
  end ++ match configuration_ s with Some h => [AClose KConfiguration h] | None => [] end
  ++ match registration_ s with Some h => [AClose KRegistration h] | None => [] end.

Lemma inv_client0 : inv client0.
Proof. split; [constructor| |done]. intros h. simpl. set_solver. Qed.

Lemma close_handle_open k h s :
  h ∈ handles s → close_handle k h s = Done (set_handles (handles s ∖ {[h]}) (AClose k h) s).
Proof. intros Hh. unfold close_handle. by rewrite decide_True. Qed.

(** Compute the fields of a state built by updates. *)
Ltac open_records :=
  cbv [set_flags set_held set_members set_handles set_streams set_ctxs log_call set_handler
       set_handler_disconnect open_handle api_held_ handshake_done_ handshake_ok_ disc_notified_
       handler_ disconnect_handler_ registration_ configuration_ connection_ handles streams live
       inflight calls fired delivered].

(** [close] empties the members, closes each handle once, innermost first, and
    touches nothing else. *)
Lemma close_spec s :
  inv s →
  ∃ hs, hs = ∅ ∧ close s
    = Done (mkClient (api_held_ s) (handshake_done_ s) (handshake_ok_ s) (disc_notified_ s)
              (handler_ s) (disconnect_handler_ s) None None None hs (streams s) (live s)
              (inflight s) (calls s ++ close_calls s) (fired s) (delivered s)).
Proof.
  intros [Hnd Hh Hl].
  destruct s as [held done ok not hd dh reg conf conn hs ss lv infl cs fd dl].
  unfold members, close, close_calls in *. simpl in Hnd, Hh, Hl |- *.
  destruct conn as [n|], conf as [c|], reg as [r|]; simpl in Hnd, Hh |- *;
    rewrite ?NoDup_cons, ?elem_of_cons, ?elem_of_nil in Hnd;
    unfold close_handle; simpl;
    repeat (match goal with
            | |- context [decide (_ ∈ _)] => idtac
            | |- context [close_handle _ _ _] => unfold close_handle; simpl
            end;
            rewrite decide_True by
              (rewrite ?elem_of_difference, ?elem_of_singleton, Hh, ?elem_of_cons, ?elem_of_nil;
               intuition congruence); simpl);
    eexists; (split; [|open_records; rewrite <- ?app_assoc, ?app_nil_r; reflexivity]);
    apply set_eq; intros x;
    rewrite ?elem_of_difference, ?elem_of_singleton, Hh, ?elem_of_cons, ?elem_of_nil, elem_of_empty;
    tauto.
Qed.

(** What a step without [connect] may add to the calls of the disconnect
    handler: one, if none was made since the flags were reset. *)
Definition may_fire (s : client) : nat := if disc_notified_ s then 0 else 1.

(** [s'] keeps the handles of [s], and fired at most what it could. *)
Definition same_handles (s s' : client) : Prop :=
  members s' = members s ∧ handles s' = handles s
  ∧ (fired s' + may_fire s' ≤ fired s + may_fire s)%nat.

Lemma inv_same_handles s s' :
  inv s → same_handles s s' → live s' = inflight s' → inv s'.
Proof.
  intros [Hnd Hh Hl] (Hm & Hhs & _) Hl'. split; [by rewrite Hm| |done].
  intros h. by rewrite Hhs, Hm.
Qed.

Lemma fire_disconnect_same s :
  same_handles s (fire_disconnect_locked_ s)
  ∧ live (fire_disconnect_locked_ s) = live s ∧ inflight (fire_disconnect_locked_ s) = inflight s
  ∧ streams (fire_disconnect_locked_ s) = streams s.
Proof.
  destruct s as [held done ok notif hd dh reg conf conn hs ss lv infl cs fd dl].
  unfold fire_disconnect_locked_, same_handles, may_fire, members.
  destruct ok, notif, dh; simpl; split_and!; done || lia.
Qed.

Lemma deliver_inbound_same bytes s :
  same_handles s (deliver_inbound bytes s)
  ∧ live (deliver_inbound bytes s) = live s ∧ inflight (deliver_inbound bytes s) = inflight s.
Proof.
  unfold deliver_inbound. destruct (decode bytes _) as [[] dr]; simpl; [|done].
  case_bool_decide; simpl; [|done]. by destruct (handler_ s).
Qed.

Lemma event_spec ev s :
  inv s → event_ok ev s →
  ∃ s', on_conn_event ev s = Done s' ∧ inv s' ∧ same_handles s s'.
Proof.
  intros Hs Hev. pose proof (inv_live _ Hs) as Hl.
  destruct ev as [| | | |bytes|st ctx|h|]; simpl in *.
  - eexists. split; [done|]. split; [|done]. by eapply inv_same_handles.
  - destruct (fire_disconnect_same s) as (Hsame & Hlv & Hin & _). eexists. split; [done|].
    split; [|done]. eapply inv_same_handles; [done|done|congruence].
  - destruct (fire_disconnect_same s) as (Hsame & Hlv & Hin & _). eexists. split; [done|].
    split; [|done]. eapply inv_same_handles; [done|done|congruence].
  - destruct (fire_disconnect_same s) as (Hsame & Hlv & Hin & _). eexists. split; [done|].
    split; [|done]. eapply inv_same_handles; [done|done|congruence].
  - destruct (deliver_inbound_same bytes s) as (Hsame & Hlv & Hin). eexists. split; [done|].
    split; [|done]. eapply inv_same_handles; [done|done|congruence].
  - destruct st; [| |by eexists]; simpl in Hev; rewrite decide_True by (by rewrite Hl);
      (eexists; split; [done|]); (split; [|done]);
      (eapply inv_same_handles; [done|done|]); simpl; by rewrite Hl.
  - eexists. split; [done|]. split; [|done]. by eapply inv_same_handles.
  - by eexists.
Qed.

Lemma same_handles_trans s1 s2 s3 : same_handles s1 s2 → same_handles s2 s3 → same_handles s1 s3.
Proof. intros (? & ? & ?) (? & ? & ?). split_and!; [congruence|congruence|lia]. Qed.

Lemma events_spec evs s :
  inv s → events_ok evs s →
  ∃ s', on_events evs s = Done s' ∧ inv s' ∧ same_handles s s'.
Proof.
  revert s. induction evs as [|ev evs IH]; intros s Hs Hev; simpl; [by exists s|].
  destruct Hev as [Hev Hevs]. destruct (event_spec ev s Hs Hev) as (s1 & Hs1 & Hi1 & Hsame1).
  rewrite Hs1. simpl. destruct (IH s1 Hi1 (Hevs s1 Hs1)) as (s' & Hs' & Hi' & Hsame').
  exists s'. split_and!; [done|done|]. by eapply same_handles_trans.
Qed.

(** Two states that differ in their handles and members only. *)
Definition same_rest (s s' : client) : Prop :=
  live s' = live s ∧ inflight s' = inflight s ∧ streams s' = streams s
  ∧ fired s' = fired s ∧ disc_notified_ s' = disc_notified_ s ∧ handshake_ok_ s' = handshake_ok_ s
  ∧ disconnect_handler_ s' = disconnect_handler_ s.

Lemma same_rest_trans s1 s2 s3 : same_rest s1 s2 → same_rest s2 s3 → same_rest s1 s3.
Proof. intros (?&?&?&?&?&?&?) (?&?&?&?&?&?&?). split_and!; congruence. Qed.

(** A member takes a new handle: the old one is closed. *)
Ltac solve_assign s :=
  intros [Hnd Hh Hl] Hnew;
  unfold members, assign_registration, assign_configuration, assign_connection,
    reset_handle, close_handle in *;
  simpl;
  destruct (connection_ s) eqn:?, (configuration_ s) eqn:?, (registration_ s) eqn:?;
  simpl in Hnd, Hh; rewrite ?NoDup_cons, ?elem_of_cons, ?elem_of_nil in Hnd;
  rewrite Hh, ?elem_of_cons, ?elem_of_nil in Hnew;
  try (rewrite decide_True by
         (rewrite elem_of_union, elem_of_singleton, Hh, ?elem_of_cons, ?elem_of_nil; tauto));
  eexists; (split; [reflexivity|]);
  (split; [|split; [by split_and!|intros x; simpl; rewrite ?elem_of_difference, elem_of_union,
                                    elem_of_singleton; tauto]]);
  (split; unfold members; simpl;
   [rewrite ?NoDup_cons, ?elem_of_cons, ?elem_of_nil;
    pose proof (@NoDup_nil_2 handle); intuition congruence
   |intros x; rewrite ?elem_of_difference, ?elem_of_union, ?elem_of_singleton, Hh,
      ?elem_of_cons, ?elem_of_nil; intuition congruence
   |done]).

Lemma assign_registration_spec h s :
  inv s → h ∉ handles s →
  ∃ s', assign_registration h (open_handle KRegistration h s) = Done s' ∧ inv s' ∧ same_rest s s'
        ∧ ∀ x, x ∈ handles s' → x = h ∨ x ∈ handles s.
Proof. solve_assign s. Qed.

Lemma assign_configuration_spec h s :
  inv s → h ∉ handles s →
  ∃ s', assign_configuration h (open_handle KConfiguration h s) = Done s' ∧ inv s' ∧ same_rest s s'
        ∧ ∀ x, x ∈ handles s' → x = h ∨ x ∈ handles s.
Proof. solve_assign s. Qed.

Lemma assign_connection_spec h s :
  inv s → h ∉ handles s →
  ∃ s', assign_connection h (open_handle KConnection h s) = Done s' ∧ inv s' ∧ same_rest s s'
        ∧ ∀ x, x ∈ handles s' → x = h ∨ x ∈ handles s.
Proof. solve_assign s. Qed.

(** ** [connect] *)

Lemma connect_start_spec cfg a conf conn s :
  inv s → events_ok (a_events a) (log_call (AConnectionStart conn conf (sni cfg) (edge_port cfg))
                                    (log_call (ASetRemoteAddress conn (edge_port cfg)) s)) →
  ∃ r s', connect_start cfg a conf conn s = Done (r, s') ∧ inv s'
    ∧ (fired s' + may_fire s' ≤ fired s + may_fire s)%nat
    ∧ (r = success → handshake_ok_ s' = true).
Proof.
  intros Hs Hev. unfold connect_start.
  destruct (a_resolved a); cbn [negb]; [|by eexists _, s].
  set (s1 := log_call _ (log_call _ s)) in *.
  assert (inv s1) as Hs1 by (by destruct Hs).
  destruct (a_start a); cbn [negb]; [|by eexists _, s1].
  destruct (events_spec _ s1 Hs1 Hev) as (s' & -> & Hi & _ & _ & Hf). cbn [run_bind].
  destruct (handshake_ok_ s') eqn:Hok; cbn [negb]; by eexists _, s'.
Qed.

Lemma may_fire_le s : (may_fire s ≤ 1)%nat.
Proof. unfold may_fire. destruct (disc_notified_ s); lia. Qed.

(** [connect_open], whatever the library answers. *)
Lemma connect_open_spec cfg a s1 :
  inv s1 → answers_ok a s1 → disc_notified_ s1 = false →
  ∃ r s', connect_open cfg a s1 = Done (r, s') ∧ inv s'
    ∧ (fired s' + may_fire s' ≤ S (fired s1))%nat ∧ (r = success → handshake_ok_ s' = true).
Proof.
  intros Hs1 (Hnd & Hnew & Hev) Hno1. unfold connect_open. simpl in Hnd, Hnew.
  set (reg := a_registration a) in *. set (conf := a_configuration a) in *.
  set (conn := a_connection a) in *.
  destruct reg as [r|]; [|exists protocol_error, s1; pose proof (may_fire_le s1); split_and!; [done|done|lia|done]].
  assert (Hr : r ∉ handles s1) by (apply Hnew; simpl; by left).
  destruct (assign_registration_spec r s1 Hs1 Hr) as (s2' & -> & Hs2' & Hr2 & Hh2). cbn [run_bind].
  set (s2 := log_call _ s2'). assert (inv s2) as Hs2 by (by destruct Hs2').
  change (same_rest s1 s2) in Hr2. change (∀ x, x ∈ handles s2 → x = r ∨ x ∈ handles s1) in Hh2.
  destruct conf as [c|];
    [|exists protocol_error, s2; pose proof (may_fire_le s2); destruct Hr2 as (_&_&_&Hf2&_);
     rewrite Hf2; split_and!; [done|done|simpl; lia|done]].
  assert (Hc : c ∉ handles s2).
  { intros [-> |Hin]%Hh2; [by apply NoDup_cons in Hnd as [Hnd _]; apply Hnd; left|].
    apply (Hnew c); [|done]. simpl. right. by left. }
  destruct (assign_configuration_spec c s2 Hs2 Hc) as (s3 & -> & Hs3 & Hr3 & Hh3). cbn [run_bind].
  set (s4 := log_call _ s3). assert (inv s4) as Hs4 by (by destruct Hs3).
  assert (Hr4 : same_rest s1 s4) by (eapply same_rest_trans; [exact Hr2|exact Hr3]).
  assert (Hf4 : fired s4 = fired s1) by (destruct Hr4 as (_&_&_&->&_); done).
  pose proof (may_fire_le s4).
  destruct (a_credential a); cbn [negb];
    [|exists protocol_error, s4; rewrite Hf4; split_and!; [done|done|lia|done]].
  destruct conn as [n|]; [|exists protocol_error, s4; rewrite Hf4; split_and!; [done|done|lia|done]].
  assert (Hn : n ∉ handles s4).
  { simpl in Hnd. rewrite !NoDup_cons, !not_elem_of_cons in Hnd.
    intros [-> |[-> |Hin]%Hh2]%Hh3; [naive_solver..|].
    apply (Hnew n); [|done]. simpl. right. right. by left. }
  destruct (assign_connection_spec n s4 Hs4 Hn) as (s5 & -> & Hs5 & Hr5 & _). cbn [run_bind].
  assert (Hr' : same_rest s1 s5) by (eapply same_rest_trans; [exact Hr4|exact Hr5]).
  destruct Hr' as (Hl & Hi & Hst & Hf & Hno & _).
  destruct (connect_start_spec cfg a c n s5 Hs5) as (res & s' & He & Hs' & Hf' & Hok).
  { by apply Hev. }
  exists res, s'. split_and!; try done. unfold may_fire in Hf' at 2. rewrite Hno, Hf, Hno1 in Hf'. lia.
Qed.

(** [connect], whatever the library answers. *)
Lemma connect_spec cfg a t s :
  inv s → answers_ok a s →
  ∃ r s' t', connect cfg a t s = Done (r, s', t') ∧ inv s' ∧ (fired s' + may_fire s' ≤ S (fired s))%nat
    ∧ (r = success → handshake_ok_ s' = true).
Proof.
  intros Hs Ha. unfold connect.
  set (s0 := set_flags false false false s).
  assert (inv s0) as Hs0 by (by destruct Hs).
  destruct (if api_held_ s0 then _ else _) as [held t'].
  destruct held; cbn [negb]; [|exists protocol_error, s0, t'; split_and!; [done|done|unfold may_fire; simpl; lia|done]].
  set (s1 := set_held true s0). assert (inv s1) as Hs1 by (by destruct Hs).
  destruct (connect_open_spec cfg a s1 Hs1 Ha) as (r & s' & -> & ? & ? & ?); [done|].
  by exists r, s', t'.
Qed.

Lemma on_events_calls evs s s' : on_events evs s = Done s' → ∃ more, calls s' = calls s ++ more.
Proof.
  revert s. induction evs as [|ev evs IH]; intros s; simpl; [intros [= <-]; exists []; by rewrite app_nil_r|].
  destruct (on_conn_event ev s) as [s1| |] eqn:Hev; [|done..]. cbn [run_bind].
  intros (more & ->)%IH. unfold on_conn_event in Hev.
  assert (∃ m, calls s1 = calls s ++ m) as [m ->]; [|exists (m ++ more); by rewrite app_assoc].
  assert (calls (fire_disconnect_locked_ s) = calls s) as Hfire.
  { unfold fire_disconnect_locked_. by destruct (_ && disconnect_handler_ s). }
  assert (∀ bs, calls (deliver_inbound bs s) = calls s) as Hdel.
  { intros bs. unfold deliver_inbound. by destruct (decode _ _); repeat case_match. }
  destruct ev as [| | | |bs|[] ctx|h|]; try case_decide; simplify_eq/=;
    try (exists []; rewrite ?app_nil_r; (done || apply Hfire || apply Hdel)); by eexists.
Qed.

(** A connection that succeeds has made its calls in this order, on the handles the
    library returned, with the protocol, the settings, the credentials and the
    name that the configuration asks for. *)
Theorem connect_call_order cfg a t s s' t' :
  members s = [] → connect cfg a t s = Done (success, s', t') →
  ∃ reg conf conn more,
    a_registration a = Some reg ∧ a_configuration a = Some conf ∧ a_connection a = Some conn
    ∧ calls s' = calls s
        ++ [AOpen KRegistration reg; AConfigurationOpen reg (alpn cfg) connect_settings;
            AOpen KConfiguration conf; ALoadCredential conf (tls_credentials cfg (a_embedded a));
            AOpen KConnection conn; ASetRemoteAddress conn (edge_port cfg);
            AConnectionStart conn conf (sni cfg) (edge_port cfg)] ++ more.
Proof.
  unfold members, connect. intros Hm Hc. simpl in Hm.
  destruct (connection_ s) eqn:Hconn, (configuration_ s) eqn:Hconf, (registration_ s) eqn:Hreg; try done.
  destruct (if api_held_ _ then _ else _) as [[] t1]; cbn [negb] in Hc; [|done].
  unfold connect_open, connect_start, assign_registration, assign_configuration, assign_connection in Hc.
  destruct (a_registration a) as [r|]; [|done]. cbn in Hc. rewrite Hreg in Hc. cbn in Hc.
  destruct (a_configuration a) as [c|]; [|done]. cbn in Hc. rewrite Hconf in Hc. cbn in Hc.
  destruct (a_credential a); [|done]. cbn in Hc.
  destruct (a_connection a) as [n|]; [|done]. cbn in Hc. rewrite Hconn in Hc. cbn in Hc.
  destruct (a_resolved a); [|done]. destruct (a_start a); [|done]. cbn in Hc.
  destruct (on_events _ _) as [s1| |] eqn:Hev; [|done..]. cbn in Hc.
  destruct (handshake_ok_ s1); [|done]. injection Hc as <- <-.
  apply on_events_calls in Hev as [more Hev]. exists r, c, n, more. do 3 (split; [done|]).
  rewrite Hev. cbn. by rewrite <- !app_assoc.
Qed.

(** ** The other steps *)

Lemma send_packet_spec pkt ctx accepted s :
  inv s → ctx ∉ live s →
  inv (send_packet pkt ctx accepted s) ∧ same_handles s (send_packet pkt ctx accepted s).
Proof.
  intros Hs Hctx. unfold send_packet. destruct (connection_ s); [|by split].
  destruct (handshake_ok_ s); cbn [negb]; [|by split].
  destruct accepted; (split; [|done]); destruct Hs as [? ? Hl]; split; try done.
  simpl. by rewrite Hl.
Qed.

Lemma step_spec l s :
  inv s → allowed l s →
  ∃ s', step l s = Done s' ∧ inv s'
    ∧ (fired s' + may_fire s' ≤ fired s + match l with LConnect _ _ => 1 | _ => may_fire s end)%nat.
Proof.
  intros Hs Ha. destruct l as [cfg a| |ev|h|pkt ctx acc|h|h]; simpl in *.
  - destruct (connect_spec cfg a ApiTable0 s Hs Ha) as (r & s' & t' & -> & Hi & Hf & _).
    exists s'. split_and!; [done|done|]. lia.
  - destruct (close_spec s Hs) as (hs & -> & ->). eexists. split; [done|]. split; [|unfold may_fire; simpl; lia].
    split; [constructor| |apply Hs]. intros h. unfold members. simpl. set_solver.
  - destruct (event_spec ev s Hs Ha) as (s' & -> & Hi & _ & _ & Hf). by exists s'.
  - unfold s_null_stream_cb. cbn [negb]. rewrite decide_True by done.
    eexists. split; [done|]. split; [by destruct Hs|done].
  - destruct (send_packet_spec pkt ctx acc s Hs Ha) as [Hi (_ & _ & Hf)].
    eexists. by split_and!.
  - eexists. split; [done|]. split; [by destruct Hs|done].
  - eexists. split; [done|]. split; [by destruct Hs|done].
Qed.

Lemma session_inv s ls s' :
  session s ls s' → inv s →
  inv s' ∧ (Forall (λ l, ∀ cfg a, l ≠ LConnect cfg a) ls →
            fired s' + may_fire s' ≤ fired s + may_fire s)%nat.
Proof.
  induction 1 as [s|s l s1 ls s' Ha Hs _ IH]; intros Hi; [by split|].
  destruct (step_spec l s Hi Ha) as (s1' & Hs1 & Hi1 & Hf). rewrite Hs in Hs1. injection Hs1 as <-.
  destruct (IH Hi1) as [Hi' Hf']. split; [done|]. intros [Hl Hls]%Forall_cons.
  specialize (Hf' Hls). destruct l; [by edestruct Hl|lia..].
Qed.

(** ** Properties *)

(** C3: the handles of the library are paired: in every state that a client of the
    class reaches (connections that fail half way and repeated [connect]s
    included), the open handles are exactly those the members hold, all
    different; no call closes a handle that is not open; [close] leaves none, and
    closes the connection (after its shutdown), the configuration and the
    registration in that order; the contexts of datagrams that are allocated are
    exactly those msquic holds, so none leaks and none is freed twice. *)
Theorem handles_paired ls s :
  session client0 ls s →
  (∀ h, h ∈ handles s ↔ h ∈ members s) ∧ NoDup (members s)
  ∧ live s = inflight s
  ∧ (∀ l, allowed l s → ∃ s', step l s = Done s')
  ∧ ∃ s', close s = Done s' ∧ handles s' = ∅ ∧ members s' = []
          ∧ calls s' = calls s ++ close_calls s.
Proof.
  intros Hs. destruct (session_inv _ _ _ Hs inv_client0) as [Hi _].
  split_and!; [apply Hi..| |].
  - intros l Ha. destruct (step_spec l s Hi Ha) as (s' & ? & _). by exists s'.
  - destruct (close_spec s Hi) as (hs & -> & ->). by eexists.
Qed.

(** The disconnect handler fires at most once per [connect]: in the steps from
    one [connect] on, up to the next, whatever the events, it runs at most one
    time; and a shutdown event of a connection that was up and not reported yet
    runs it, if one is set, exactly once. *)
Theorem disconnect_at_most_once ls cfg a ls' s s' :
  session client0 ls s → session s (LConnect cfg a :: ls') s' →
  Forall (λ l, ∀ cfg a, l ≠ LConnect cfg a) ls' →
  (fired s' ≤ S (fired s))%nat
  ∧ (handshake_ok_ s' = true → disc_notified_ s' = false → disconnect_handler_ s' = true →
     ∀ ev, ev ∈ [EvShutdownByTransport; EvShutdownByPeer; EvShutdownComplete] →
       ∃ s1, on_conn_event ev s' = Done s1 ∧ fired s1 = S (fired s') ∧ disc_notified_ s1 = true).
Proof.
  intros Hs Hs' Hls. destruct (session_inv _ _ _ Hs inv_client0) as [Hi _]. split.
  - inversion Hs' as [|? ? s1 ? ? Ha Hstep Hrest]; subst.
    destruct (step_spec _ s Hi Ha) as (s1' & Hs1 & Hi1 & Hf). rewrite Hstep in Hs1.
    injection Hs1 as <-. destruct (session_inv _ _ _ Hrest Hi1) as [_ Hf'].
    specialize (Hf' Hls). simpl in Hf. lia.
  - intros Hok Hno Hd ev Hev. rewrite !elem_of_cons, elem_of_nil in Hev.
    enough (∃ s1, Done (A := client) (fire_disconnect_locked_ s') = Done s1
      ∧ fired s1 = S (fired s') ∧ disc_notified_ s1 = true) as Hfire
      by (by destruct Hev as [-> |[-> |[-> |Hf]]]).
    eexists. split; [done|]. unfold fire_disconnect_locked_. rewrite Hok, Hno. simpl.
    by rewrite Hd.
Qed.

(** TLS validation is disabled exactly when the CA path is the text
    "INSECURE"; otherwise a given CA file is the trust anchor, an empty path means
    the embedded CA, and the built-in validation flag is always set; a client
    certificate is used exactly when both its paths are given. The path of the
    embedded CA is null only when neither file could be made, and its 48-byte
    buffer never truncates it. *)
Theorem tls_policy cfg memfd tfd :
  let c := tls_credentials cfg (embedded_ca_path memfd tfd) in
  flag_builtin_validation c = true
  ∧ (flag_no_validation c = true ↔ ca_bundle_path cfg = str "INSECURE")
  ∧ (ca_bundle_path cfg ≠ str "INSECURE" → ca_bundle_path cfg ≠ [] →
     ca_file c = Some (ca_bundle_path cfg) ∧ flag_set_ca_file c = true)
  ∧ (ca_bundle_path cfg = [] → 0 <= memfd < 2 ^ 31 →
     ca_file c = Some (str "/proc/self/fd/" ++ dec_of memfd) ∧ flag_set_ca_file c = true)
  ∧ (ca_bundle_path cfg = [] → (ca_file c = None ↔ memfd < 0 ∧ tfd < 0))
  ∧ (certificate_file c = Some (client_cert_path cfg, client_key_path cfg)
     ↔ client_cert_path cfg ≠ [] ∧ client_key_path cfg ≠ []).
Proof.
  assert (Hpath : 0 <= memfd < 2 ^ 31 →
    embedded_ca_path memfd tfd = Some (str "/proc/self/fd/" ++ dec_of memfd)).
  { intros Hm. unfold embedded_ca_path, dec_of_int.
    rewrite (proj2 (Z.leb_le _ _)), (proj2 (Z.ltb_ge _ _)) by lia.
    destruct (dec_of_spec memfd) as (_ & _ & _ & Hl); [lia|].
    rewrite take_ge by (rewrite length_app; simpl; lia). done. }
  assert (Hnone : embedded_ca_path memfd tfd = None ↔ memfd < 0 ∧ tfd < 0).
  { unfold embedded_ca_path. destruct (0 <=? memfd) eqn:Hm; bool_facts; simpl; [split; [done|lia]|].
    destruct (0 <=? tfd) eqn:Ht; bool_facts; simpl; split; try done; lia. }
  unfold tls_credentials. cbv zeta.
  assert (Hcert : ∀ b1 b2 b3 b4 f, certificate_file (mkCredentials b1 b2 b3 b4
     (if negb (bool_decide (client_cert_path cfg = [])) && negb (bool_decide (client_key_path cfg = []))
      then Some (client_cert_path cfg, client_key_path cfg) else None) f)
     = Some (client_cert_path cfg, client_key_path cfg)
     ↔ client_cert_path cfg ≠ [] ∧ client_key_path cfg ≠ []).
  { intros. simpl. repeat case_bool_decide; simpl; naive_solver. }
  destruct (bool_decide (ca_bundle_path cfg = str "INSECURE")) eqn:Hi; bool_facts.
  - split_and!; try done; try apply Hcert; rewrite Hi; done.
  - destruct (bool_decide (ca_bundle_path cfg = [])) eqn:He; bool_facts.
    + destruct (embedded_ca_path memfd tfd) as [p|]; split_and!; try apply Hcert; try done.
      * intros _ Hm%Hpath. by injection Hm as ->.
      * intros _ Hm%Hpath. done.
    + split_and!; try apply Hcert; done.
Qed.

(** What [send_packet] hands to msquic for a packet, a peer's client turns
    back into that packet: the datagram is logged with the connection's handle,
    and a client that receives it passes exactly the packet to its inbound
    handler. Without a connection, or before the handshake, nothing is sent. *)
Theorem packet_round_trip pkt ctx accepted s peer :
  Z.of_nat (length pkt) + 4 < 2 ^ 32 →
  match connection_ s with
  | Some h =>
      if handshake_ok_ s then
        ∃ bytes, calls (send_packet pkt ctx accepted s) = calls s ++ [ADatagramSend h bytes ctx]
          ∧ (handler_ peer = true → ∃ peer', on_conn_event (EvDatagramReceived bytes) peer = Done peer'
               ∧ delivered peer' = delivered peer ++ [pkt])
      else send_packet pkt ctx accepted s = s
  | None => send_packet pkt ctx accepted s = s
  end.
Proof.
  intros Hl. unfold send_packet. destruct (connection_ s) as [h|]; [|done].
  destruct (handshake_ok_ s); cbn [negb]; [|done].
  exists (3 :: 1 :: 0 :: 0 :: pkt). split.
  - assert ((encode (mkFrame IpPacket 0 pkt) []).2 = 3 :: 1 :: 0 :: 0 :: pkt) as -> by done.
    rewrite u32_small by (simpl; lia). rewrite Nat2Z.id, take_ge by done. by destruct accepted.
  - intros Hh. eexists. split; [done|]. unfold deliver_inbound. simpl.
    by rewrite Hh.
Qed.

(** C32: [register_connection] succeeds exactly when the client is connected and
    the edge answers with the details of the connection; the answer then holds
    the location and, when it has 16 bytes, the connection's UUID. An error of
    the edge is [permission_denied], with its cause, retry delay and flag in the
    answer; an exception is [protocol_error]; without a connection nothing is
    sent. The request carries the credentials, the tunnel id (also as client id)
    and the index of the request. *)
Theorem register_connection_spec rpc req out s :
  let '(ec, out') := register_connection rpc req out s in
  (ec = success ↔ connection_ s ≠ None ∧ handshake_ok_ s = true
                  ∧ ∃ uuid loc, rpc (build_request req) = RpcDetails uuid loc)
  ∧ (connection_ s = None ∨ handshake_ok_ s = false → ec = not_connected ∧ out' = out)
  ∧ (connection_ s ≠ None → handshake_ok_ s = true →
     match rpc (build_request req) with
     | RpcException => ec = protocol_error ∧ out' = out
     | RpcDetails uuid loc =>
         ok out' = true ∧ location_name out' = c_str loc
         ∧ (length uuid = 16%nat → assigned_uuid out' = uuid)
         ∧ (length uuid ≠ 16%nat → assigned_uuid out' = assigned_uuid out)
     | RpcError cause after retry =>
         ec = permission_denied ∧ ok out' = false ∧ error_cause out' = c_str cause
         ∧ retry_after_seconds out' = after ∧ should_retry out' = retry
     end)
  ∧ rpc_tunnel_id (build_request req) = tunnel_uuid req
  ∧ rpc_client_id (build_request req) = tunnel_uuid req
  ∧ rpc_conn_index (build_request req) = conn_index req.
Proof.
  unfold register_connection. destruct (connection_ s) as [h|]; [|naive_solver].
  destruct (handshake_ok_ s); cbn [negb]; [|naive_solver].
  destruct (rpc (build_request req)) as [|uuid loc|cause after retry] eqn:Hr;
    cbn -[Nat.eqb].
  - naive_solver.
  - split; [naive_solver|]. split; [naive_solver|]. split; [|done]. intros _ _.
    split_and!; [done|done|..]; intros Hu; destruct (length uuid =? 16)%nat eqn:Hl; bool_facts; done.
  - naive_solver.
Qed.

(** ** The reference count of the table *)

(** [n] clients hold the table. *)
Inductive api_trace : nat → ApiTable → Prop :=
| api_start : api_trace 0 ApiTable0
| api_init n t open2 ok t' :
    api_trace n t → api_table_init open2 t = (ok, t') →
    api_trace (if (ok : bool) then S n else n) t'
| api_release n t : api_trace (S n) t → api_trace n (api_table_release t).

Lemma api_counted n t :
  api_trace n t →
  g_refcount t = Z.of_nat n ∧ g_msquic t = (0 <? n)%nat
  ∧ opens t = (closes t + if (0 <? n)%nat then 1 else 0)%nat.
Proof.
  induction 1 as [|n t open2 ok t' _ (Hr & Hm & Ho) Hi|n t _ (Hr & Hm & Ho)]; [done| |].
  - unfold api_table_init in Hi. rewrite Hr in Hi. destruct n as [|n].
    + simpl in Hi, Hm, Ho. destruct open2; simpl in Hi; injection Hi as <- <-; simpl; [|done].
      split_and!; [done|done|lia].
    + rewrite (proj2 (Z.eqb_neq _ _)) in Hi by lia. injection Hi as <- <-. simpl.
      split_and!; [lia|done|done].
  - unfold api_table_release. rewrite Hr. destruct n as [|n].
    + simpl in *. split_and!; [done|done|lia].
    + rewrite (proj2 (Z.eqb_neq (Z.of_nat (S (S n))) 1)) by lia. cbn [g_refcount g_msquic opens closes].
      split_and!; [lia|done|done].
Qed.

(** The table of the library is open exactly while some client holds it; the
    count is the number of holders, a failed open leaves it as it was, and
    [MsQuicClose] is called once for each successful [MsQuicOpen2], when the last
    holder leaves. *)
Theorem api_table_counted n t :
  api_trace n t →
  g_refcount t = Z.of_nat n ∧ g_msquic t = (0 <? n)%nat
  ∧ opens t = (closes t + if (0 <? n)%nat then 1 else 0)%nat.
Proof. apply api_counted. Qed.

(** ** [send_packet] against [close] *)

(** The parts of [send_packet] that look at the connection, and those of [close]
    on it: [connection_] is read and written without a lock that both hold. A use
    of a handle that is null or closed is undefined. *)
Inductive send_pc := SCheck | SGet | SSend (h : option handle) | SEnd.
Inductive close_pc := CShutdown | CNull | CClose (h : option handle) | CEnd.

Definition send_step (pkt : list Z) (ctx : nat) (pc : send_pc) (s : client) : run (send_pc * client) :=
  match pc with
  | SCheck =>
      Done (if bool_decide (is_Some (connection_ s)) && handshake_ok_ s then SGet else SEnd, s)
  | SGet => Done (SSend (connection_ s), s)
  | SSend None => UB
  | SSend (Some h) =>
      if decide (h ∈ handles s)
      then Done (SEnd, log_call (ADatagramSend h (encode (mkFrame IpPacket 0 pkt) []).2 ctx) s)
      else UB
  | SEnd => Done (SEnd, s)
  end.

Definition close_step (pc : close_pc) (s : client) : run (close_pc * client) :=
  match pc with
  | CShutdown =>
      Done (CNull, match connection_ s with Some h => log_call (AConnectionShutdown h) s | None => s end)
  | CNull =>
      Done (CClose (connection_ s), set_members (registration_ s) (configuration_ s) None s)
  | CClose h => let! s := reset_handle KConnection h s in Done (CEnd, s)
  | CEnd => Done (CEnd, s)
  end.

Fixpoint send_and_close (sched : list bool) (pkt : list Z) (ctx : nat) (p : send_pc) (q : close_pc)
    (s : client) : run (send_pc * close_pc * client) :=
  match sched with
  | [] => Done (p, q, s)
  | true :: sched' =>
      let! r := send_step pkt ctx p s in send_and_close sched' pkt ctx r.1 q r.2
  | false :: sched' =>
      let! r := close_step q s in send_and_close sched' pkt ctx p r.1 r.2
  end.

Definition connected : client :=
  mkClient true true true false true true (Some 1) (Some 2) (Some 3) {[1; 2; 3]} ∅ ∅ ∅ [] 0 [].

(** The reader thread that sends a packet and the thread that closes the
    connection are not synchronised: one after the other, in either order, they
    are fine, but there are schedules in which the datagram is sent on a null
    handle, or on a handle that was closed. *)
Theorem send_close_race pkt ctx :
  (∃ s, send_and_close [true; true; true; false; false; false] pkt ctx SCheck CShutdown connected
        = Done (SEnd, CEnd, s))
  ∧ (∃ s, send_and_close [false; false; false; true; true; true] pkt ctx SCheck CShutdown connected
          = Done (SEnd, CEnd, s))
  ∧ send_and_close [true; false; false; true; true] pkt ctx SCheck CShutdown connected = UB
  ∧ send_and_close [true; true; false; false; false; true] pkt ctx SCheck CShutdown connected = UB.
Proof. split_and!; [eexists; reflexivity..|reflexivity|reflexivity]. Qed.

(** ** Witnesses *)

Definition good_answers : answers :=
  mkAnswers true (Some 1) (Some 2) None true (Some 3) true true [EvConnected].

(** Connect, send a datagram, lose the connection, and close. *)
Definition sample_labels : list label :=
  [LSetDisconnect true; LConnect QuicConfig_default good_answers; LSend [69; 0] 0 true;
   LEvent EvShutdownByPeer; LEvent EvShutdownComplete; LEvent (EvSendState SendCanceled 0); LClose].

Fixpoint steps (ls : list label) (s : client) : run client :=
  match ls with [] => Done s | l :: ls' => let! s := step l s in steps ls' s end.

Definition sample_client : client :=
  match steps sample_labels client0 with Done s => s | _ => client0 end.

(** Answers whose events are the connection's only. *)
Lemma simple_answers_ok s : handles s = ∅ → answers_ok good_answers s.
Proof.
  intros Hh. split_and!.
  - simpl. apply (bool_decide_eq_true_1 _). by vm_compute.
  - intros h _. rewrite Hh. set_solver.
  - intros s' _ _ _. simpl. done.
Qed.

Ltac run_step := eapply session_cons; [|vm_compute; reflexivity|].

Lemma sample_session : session client0 sample_labels sample_client.
Proof.
  unfold sample_labels.
  run_step; [done|]. run_step; [by apply simple_answers_ok|].
  run_step; [cbn [allowed event_ok inflight live]; apply (bool_decide_eq_true_1 _); by vm_compute|].
  run_step; [done|]. run_step; [done|]. run_step; [reflexivity|].
  run_step; [done|]. apply session_nil.
Qed.

Lemma handles_paired_witness :
  live sample_client = inflight sample_client ∧ ∃ s', close sample_client = Done s' ∧ handles s' = ∅.
Proof.
  destruct (handles_paired sample_labels sample_client sample_session)
    as (_ & _ & Hl & _ & s' & Hc & Hh & _).
  split; [exact Hl|]. by exists s'.
Defined.

Definition lost_client : client :=
  match steps [LConnect QuicConfig_default good_answers; LEvent EvShutdownByPeer;
               LEvent EvShutdownComplete] (set_handler_disconnect true client0) with
  | Done s => s
  | _ => client0
  end.

Lemma sample_connect :
  session (set_handler_disconnect true client0)
    [LConnect QuicConfig_default good_answers; LEvent EvShutdownByPeer; LEvent EvShutdownComplete]
    lost_client.
Proof.
  run_step; [by apply simple_answers_ok|]. run_step; [done|]. run_step; [done|]. apply session_nil.
Qed.

Lemma disconnect_at_most_once_witness : (fired lost_client ≤ 1)%nat ∧ fired lost_client = 1%nat.
Proof.
  assert (session client0 [LSetDisconnect true] (set_handler_disconnect true client0)) as H0.
  { eapply session_cons; [exact I|reflexivity|apply session_nil]. }
  split; [|by vm_compute].
  refine (proj1 (disconnect_at_most_once _ _ _ _ _ _ H0 sample_connect _)).
  repeat constructor; done.
Defined.

Lemma packet_round_trip_witness :
  ∃ bytes, calls (send_packet [69; 0] 0 true connected) = [ADatagramSend 3 bytes 0]
    ∧ ∃ peer', on_conn_event (EvDatagramReceived bytes) connected = Done peer'
               ∧ delivered peer' = [[69; 0]].
Proof.
  destruct (packet_round_trip [69; 0] 0 true connected connected) as (bytes & Hc & Hp); [simpl; lia|].
  exists bytes. split; [exact Hc|]. apply Hp. reflexivity.
Defined.

Lemma api_table_counted_witness :
  g_msquic (api_table_release (mkApiTable 2 true 1 0)) = true.
Proof.
  pose proof (api_init _ _ true true _ api_start eq_refl) as H1.
  pose proof (api_init _ _ true true _ H1 eq_refl) as H2.
  exact (proj1 (proj2 (api_table_counted 1 _ (api_release _ _ H2)))).
Defined.
