(* ===== verification/Main.v ===== *)
(** * The program

    [src/main.cpp], lines 61-250: the command line, the resolution of the edge
    addresses, the round-robin sink, and the start-up that goes from the
    arguments to the clients and the router. The threads that run after that are
    in [Supervisor]. *)
From S2P Require Import Prelude Cidr Config Registration Lpm Router Tun QuicClient Supervisor.
Local Open Scope Z_scope.
Local Open Scope cfd_scope.

(** ** The command line *)

(** The exit code of [main], or the path, the flag and the value the index [i]
    is left with. *)
Inductive args_result :=
| ArgsExit (code : Z)
| ArgsRun (cfg_path : text) (verbose : bool) (i : nat).

(** The [while] loop over [argv], and the test after it. *)
Fixpoint args_loop (fuel : nat) (argv : list text) (cfg_path : text) (verbose : bool) (i : nat)
    : run args_result :=
  match fuel with
  | O => Fuel
  | S fuel' =>
      let argc := length argv in
      if (i <? argc)%nat then
        let! a := run_opt (argv !! i) in
        if bool_decide (a = str "--config") && (i + 1 <? argc)%nat then
          let! v := run_opt (argv !! (i + 1)%nat) in
          args_loop fuel' argv v verbose (i + 2)
        else if bool_decide (a = str "--verbose") then args_loop fuel' argv cfg_path true (i + 1)
        else if bool_decide (a = str "--help") || bool_decide (a = str "-h") then Done (ArgsExit 0)
        else Done (ArgsExit 2)
      else
        match cfg_path with
        | [] => Done (ArgsExit 2)
        | _ => Done (ArgsRun cfg_path verbose i)
        end
  end.

Definition parse_args (argv : list text) : run args_result :=
  args_loop (S (length argv)) argv [] false 1.

(** The same by recursion on the arguments. *)
Fixpoint read_args (argc : nat) (args : list text) (cfg_path : text) (verbose : bool)
    : args_result :=
  match args with
  | [] => match cfg_path with [] => ArgsExit 2 | _ => ArgsRun cfg_path verbose argc end
  | a :: args' =>
      if bool_decide (a = str "--verbose") then read_args argc args' cfg_path true
      else if bool_decide (a = str "--help") || bool_decide (a = str "-h") then ArgsExit 0
      else
        match args' with
        | v :: args'' =>
            if bool_decide (a = str "--config") then read_args argc args'' v verbose
            else ArgsExit 2
        | [] => ArgsExit 2
        end
  end.

(** ** The edge addresses *)

Section resolve.
Context `{Inet}.

(** One [addrinfo]: the family, when it is one of the two the code knows, and the
    bytes of the address. *)
Record addrinfo := mkAddrinfo { ai_family : option Family; ai_addr : list Z }.

(** The text in [buf], a zeroed array [inet_ntop] may write to. *)
Definition ai_text (a : addrinfo) : text :=
  match ai_family a with
  | Some f => default [] (inet_ntop f (ai_addr a))
  | None => []
  end.

(** The [for] loop over the list: [push_back] when [buf[0]] is set. *)
Definition collect (l : list addrinfo) : list text :=
  foldl (λ found a, match ai_text a with [] => found | s => found ++ [s] end) [] l.

(** [resolve_edge_ips]; the answer of [getaddrinfo] is [None] for an error, and the
    empty list for a null result. *)
Definition resolve_edge_ips (host : text) (answer : option (list addrinfo)) (want : nat)
    : run (list text) :=
  let found :=
    match answer with
    | Some (a :: l) => collect (a :: l)
    | _ => []
    end in
  let found := match found with [] => [host] | _ => found end in
  foldl (λ out i,
           let! out := out in
           let! s := run_opt (found !! (i mod length found)%nat) in
           Done (out ++ [s]))
    (Done []) (seq 0 want).
End resolve.

(** ** [MultiSink] *)

Section sink.
(** The width of [std::size_t]. *)
Context (w : Z).

Record MultiSink := mkMultiSink { sinks_ : nat; next_ : Z }.

(** [on_packet]: the index of the sink that gets the packet. *)
Definition on_packet (s : MultiSink) : option nat * MultiSink :=
  if (sinks_ s =? 0)%nat then (None, s)
  else
    (Some (Z.to_nat (next_ s mod Z.of_nat (sinks_ s))),
     mkMultiSink (sinks_ s) ((next_ s + 1) mod 2 ^ w)).

(** The sinks of [n] packets. *)
Fixpoint on_packets (n : nat) (s : MultiSink) : list nat :=
  match n with
  | O => []
  | S n' =>
      match on_packet s with
      | (Some i, s') => i :: on_packets n' s'
      | (None, s') => on_packets n' s'
      end
  end.
End sink.

(** ** Start-up *)

Section setup.
Context `{Inet} {K D : Type} `{TunOps K D}.

(** What [main] has made when the threads start. *)
Record program := mkProgram {
  p_argc : nat;
  p_verbose : bool;
  p_config : Config;
  p_device : D;
  p_clients : list QuicConfig;
  p_routes : LpmTrie Action;
  p_request : RegisterRequest;
}.

(** The loop of [add_route] over the routes from index 1 on; the exit code of an
    error. *)
Fixpoint add_routes (routes : list Cidr) (d : D) (k : K) : run (option Z * K) :=
  match routes with
  | [] => Done (None, k)
  | r :: routes' =>
      let! x := dev_add_route r d k in
      if negb (x.1 =? 0) then Done (Some 1, x.2) else add_routes routes' d x.2
  end.

(** One [QuicConfig] of the loop over the connections. *)
Definition client_config (cfg : Config) (edge_ip : text) : QuicConfig :=
  let q := QuicConfig_default in
  mkQuicConfig edge_ip (Config.edge_port cfg) (server_name q) (alpn q) (QuicClient.tunnel_id q)
    (QuicClient.account_tag q) (QuicClient.tunnel_secret q) (Config.ca_bundle_path cfg)
    (Config.client_cert_path cfg) (Config.client_key_path cfg).

(** From the resolved addresses on: the request template, the clients and the
    routes of the router. *)
Definition build (argc : nat) (verbose : bool) (cfg : Config) (d : D) (edge_ips : list text)
    : run (Z + program) :=
  let req := RegisterRequest_default in
  let! u := parse_uuid (Config.tunnel_id cfg) (tunnel_uuid req) in
  if negb u.1 then Done (inl 1)
  else
    let b := base64_decode (tunnel_secret_b64 cfg) (Registration.tunnel_secret (auth req)) in
    if negb b.1 then Done (inl 1)
    else
      let req := mkRegisterRequest (mkTunnelAuth (Config.account_tag cfg) b.2) u.2
                   (Registration.conn_index req) (version req) (str "linux")
                   [str "quic-datagram-v3"] in
      let! clients :=
        foldl (λ cs i, let! cs := cs in
                       let! ip := run_opt (edge_ips !! i) in
                       Done (cs ++ [client_config cfg ip]))
          (Done []) (seq 0 kNumHaConns) in
      let routes := foldl (λ t c, LpmTrie_insert Drop c ToTunnel t) LpmTrie_new (routed_cidrs cfg) in
      Done (inr (mkProgram argc verbose cfg d clients routes req)).

(** [main] up to the threads: the arguments, what the file of a path holds and
    what the resolver answers. *)
Definition setup (argv : list text) (file : text → option text)
    (dns : text → Z → option (list addrinfo)) (k : K) : run ((Z + program) * K) :=
  let! args := parse_args argv in
  match args with
  | ArgsExit code => Done (inl code, k)
  | ArgsRun path verbose i =>
      let '(ok, cfg, _) := load_from_file path (file path) Config_default [] in
      if negb ok then Done (inl 1, k)
      else
        let! o := dev_open (tun_name cfg) dev_new k in
        let '(ec, d, k) := o in
        if negb (ec =? 0) then Done (inl 1, k)
        else
          let route := match routed_cidrs cfg with [] => tun_local cfg | r :: _ => r end in
          let! c := dev_configure (tun_local cfg) route d k in
          if negb (c.1 =? 0) then Done (inl 1, c.2)
          else
            let! r := add_routes (drop 1 (routed_cidrs cfg)) d c.2 in
            match r.1 with
            | Some code => Done (inl code, r.2)
            | None =>
                let! ips := resolve_edge_ips (Config.edge_host cfg)
                              (dns (Config.edge_host cfg) (Config.edge_port cfg)) kNumHaConns in
                let! p := build i verbose cfg d ips in
                Done (p, r.2)
            end
  end.
End setup.

(** ** The command line: lemmas *)

(** What a command line can ask for, as the user writes it. *)
Inductive option_arg := OptConfig (path : text) | OptVerbose.

Definition print_option (o : option_arg) : list text :=
  match o with
  | OptConfig v => [str "--config"; v]
  | OptVerbose => [str "--verbose"]
  end.

Definition path_of (old : text) (o : option_arg) : text :=
  match o with OptConfig v => v | OptVerbose => old end.

Definition is_verbose (o : option_arg) : bool :=
  match o with OptConfig _ => false | OptVerbose => true end.

(** The loop reads the arguments in order. *)
Lemma args_loop_read fuel argv cfg_path verbose i :
  (length argv - i < fuel)%nat → (i ≤ length argv)%nat →
  args_loop fuel argv cfg_path verbose i
  = Done (read_args (length argv) (drop i argv) cfg_path verbose).
Proof.
  revert cfg_path verbose i. induction fuel as [|fuel IH]; intros p v i Hf Hi; [lia|].
  cbn [args_loop]. destruct (i <? length argv)%nat eqn:Hlt; bool_facts.
  2: { rewrite drop_ge by lia. replace i with (length argv) by lia. simpl. by destruct p. }
  destruct (lookup_lt_is_Some_2 argv i Hlt) as [a Ha]. rewrite Ha, (drop_S argv a i Ha).
  cbn [run_opt run_bind read_args].
  case_bool_decide as Hc; [subst a; change (bool_decide (str "--config" = str "--verbose")) with false;
    change (bool_decide (str "--config" = str "--help") || bool_decide (str "--config" = str "-h")) with false;
    cbn [andb]|].
  - destruct (i + 1 <? length argv)%nat eqn:Hlt'; bool_facts.
    + destruct (lookup_lt_is_Some_2 argv (S i)) as [b Hb]; [lia|].
      rewrite Nat.add_1_r, Hb. cbn [run_opt run_bind]. rewrite (drop_S argv b (S i) Hb).
      rewrite IH by lia. by rewrite Nat.add_comm.
    + by rewrite drop_ge by lia.
  - cbn [andb]. case_bool_decide; [rewrite IH by lia; by rewrite Nat.add_1_r|].
    case_match; [done|]. by destruct (drop (S i) argv).
Qed.

Lemma read_args_options argc args cfg_path verbose p v i :
  read_args argc args cfg_path verbose = ArgsRun p v i ↔
  ∃ os, args = os ≫= print_option ∧ p = foldl path_of cfg_path os ∧ p ≠ []
        ∧ v = verbose || existsb is_verbose os ∧ i = argc.
Proof.
  remember (length args) as n eqn:Hn. revert args cfg_path verbose Hn.
  induction n as [n IH] using lt_wf_ind. intros args cp vb ->. split.
  - destruct args as [|a args]; cbn [read_args].
    { destruct cp; intros Hr; [done|]. injection Hr as <- <- <-. exists []. split_and!; try done. by rewrite orb_false_r. }
    case_bool_decide as Hv; [|case_match; [done|]; destruct args as [|b args]; [done|];
      destruct (bool_decide (a = str "--config")) eqn:Hc; [|done]; bool_facts]; intros Hr.
    + apply (IH (length args)) in Hr as (os & -> & Hp & Hne & -> & ->); [|simpl; lia|done].
      exists (OptVerbose :: os). subst a. split_and!; try done. simpl. by rewrite orb_true_r.
    + apply (IH (length args)) in Hr as (os & -> & Hp & Hne & -> & ->); [|simpl; lia|done].
      exists (OptConfig b :: os). subst a. by split_and!.
  - intros (os & -> & Hp & Hne & -> & ->). destruct os as [|[w|] os]; cbn [mbind list_bind app print_option read_args].
    + simpl in Hp. subst p. destruct cp; [done|]. simpl. by rewrite orb_false_r.
    + change (bool_decide (str "--config" = str "--verbose")) with false.
      change (bool_decide (str "--config" = str "--help") || bool_decide (str "--config" = str "-h")) with false.
      change (bool_decide (str "--config" = str "--config")) with true. cbn iota.
      eapply IH; [|reflexivity|]; [rewrite bind_cons, length_app; cbn [print_option length]; lia|]. by exists os.
    + change (bool_decide (str "--verbose" = str "--verbose")) with true. cbn iota.
      eapply IH; [|reflexivity|]; [rewrite bind_cons, length_app; cbn [print_option length]; lia|]. exists os. split_and!; try done.
      simpl. by rewrite orb_true_r.
Qed.

(** The argument loop terminates without reading outside [argv]; it goes on
    to run exactly when the arguments are a sequence of [--config path] and
    [--verbose], with the last path, which must not be empty; the index it leaves
    behind, which the connection threads capture, is then [argc]. *)
Theorem parse_args_spec prog args :
  (∃ r, parse_args (prog :: args) = Done r)
  ∧ ∀ p v i,
      parse_args (prog :: args) = Done (ArgsRun p v i) ↔
      ∃ os, args = os ≫= print_option ∧ p = foldl path_of [] os ∧ p ≠ []
            ∧ v = existsb is_verbose os ∧ i = S (length args).
Proof.
  unfold parse_args. rewrite args_loop_read by (simpl; lia). cbn [drop].
  split; [by eexists|]. intros p v i. etrans; [|apply (read_args_options (S (length args)) args [] false p v i)].
  split; [by intros [= ?]|intros Hr; f_equal; exact Hr].
Qed.

(** ** The edge addresses: lemmas *)

Section resolve_spec.
Context `{Inet}.

(** The texts of the answer, those that could not be printed left out. *)
Definition addresses (answer : option (list addrinfo)) : list text :=
  List.filter (λ s, negb (bool_decide (s = []))) (ai_text <$> default [] answer).

Lemma collect_addresses l : collect l = addresses (Some l).
Proof.
  unfold collect, addresses. simpl.
  assert (∀ found, foldl (λ found a, match ai_text a with [] => found | s => found ++ [s] end) found l
    = found ++ List.filter (λ s, negb (bool_decide (s = []))) (ai_text <$> l)) as Hf; [|apply Hf].
  induction l as [|a l IH]; intros found; simpl; [by rewrite app_nil_r|].
  rewrite IH. destruct (ai_text a); simpl; [done|]. by rewrite <- app_assoc.
Qed.

(** The loop that cycles through a non-empty list. *)
Lemma cycle_spec (found : list text) want :
  found ≠ [] →
  ∃ out, foldl (λ out i, let! out := out in
                         let! s := run_opt (found !! (i mod length found)%nat) in
                         Done (out ++ [s])) (Done []) (seq 0 want) = Done out
         ∧ length out = want
         ∧ ∀ i, (i < want)%nat → out !! i = found !! (i mod length found)%nat.
Proof.
  intros Hne. assert (length found ≠ 0)%nat as Hlen by (by destruct found).
  induction want as [|n (out & Hf & Hl & IH)]; [exists []; split_and!; [done|done|lia]|].
  rewrite seq_S, foldl_app, Hf. cbn [foldl run_bind Nat.add].
  destruct (lookup_lt_is_Some_2 found (n mod length found)) as [s Hs];
    [apply Nat.mod_upper_bound; done|].
  rewrite Hs. eexists. split; [done|]. rewrite length_app. split; [simpl; lia|].
  intros i Hi. destruct (decide (i = n)) as [->|].
  - rewrite lookup_app_r, Hl, Nat.sub_diag by lia. by rewrite Hs.
  - rewrite lookup_app_l by lia. apply IH. lia.
Qed.

(** The list [resolve_edge_ips] cycles through. *)
Definition edge_candidates (host : text) (answer : option (list addrinfo)) : list text :=
  match addresses answer with [] => [host] | l => l end.

Lemma resolve_cycles host answer want :
  ∃ out, resolve_edge_ips host answer want = Done out ∧ length out = want
    ∧ ∀ i, (i < want)%nat →
        out !! i = edge_candidates host answer
                     !! (i mod length (edge_candidates host answer))%nat.
Proof.
  assert ((let found := match answer with Some (a :: l) => collect (a :: l) | _ => [] end in
           match found with [] => [host] | _ => found end) = edge_candidates host answer) as Hf.
  { unfold edge_candidates. destruct answer as [[|a l]|]; [done| |done].
    cbv zeta. rewrite collect_addresses. by destruct (addresses _). }
  unfold resolve_edge_ips. cbv zeta in *. rewrite Hf. apply cycle_spec.
  unfold edge_candidates. by destruct (addresses answer).
Qed.

(** A well-formed [addrinfo] of the families the code asks for. *)
Definition ai_ok (a : addrinfo) : Prop :=
  ∃ f, ai_family a = Some f ∧ length (ai_addr a) = addr_len f ∧ bytes_ok (ai_addr a).

(** [resolve_edge_ips] terminates with exactly [want] texts, the resolved
    addresses in the resolver's order, again and again; when there are none, the
    host name itself. Each address is a numeric one: the parser of addresses
    reads it back as the address that was resolved. *)
Theorem resolve_edge_ips_spec `{!InetLaws} host answer want :
  (∃ out, resolve_edge_ips host answer want = Done out ∧ length out = want
    ∧ ∀ i, (i < want)%nat →
        out !! i = edge_candidates host answer
                     !! (i mod length (edge_candidates host answer))%nat)
  ∧ (∀ s, s ∈ edge_candidates host answer →
       (s = host ∧ addresses answer = []) ∨ ∃ a, a ∈ default [] answer ∧ s = ai_text a)
  ∧ ∀ a, ai_ok a →
      ∃ f ip, ai_family a = Some f ∧ IpAddr_parse (ai_text a) = Some ip ∧ family ip = f
              ∧ take (addr_len f) (bytes ip) = ai_addr a.
Proof.
  split; [apply resolve_cycles|split].
  - intros s. unfold edge_candidates. destruct (addresses answer) as [|x l] eqn:Ha.
    + intros ->%list_elem_of_singleton. by left.
    + rewrite <- Ha. unfold addresses. intros Hs%list_elem_of_In%filter_In. right.
      destruct Hs as [Hs%list_elem_of_In%list_elem_of_fmap _].
      destruct Hs as (a & -> & Hin). by exists a.
  - intros [o bs] (f & Hf & Hl & Hb). simpl in *. subst o.
    assert (addr_len f ≤ 16)%nat by (by destruct f; vm_compute; lia).
    set (ip := mkIpAddr f (bs ++ replicate (16 - addr_len f) 0)).
    assert (canonical ip) as Hc.
    { unfold ip. split; [split|]; simpl.
      - rewrite length_app, length_replicate. lia.
      - apply Forall_app. split; [done|]. by apply Forall_replicate.
      - intros ->. by rewrite drop_app_length'. }
    destruct (IpAddr_round_trip ip Hc) as (s & Hs & _ & _ & Hp).
    exists f, ip. split_and!; try done.
    + unfold ai_text. simpl. revert Hs. unfold IpAddr_to_string, ip. simpl.
      rewrite take_app_length' by done. by intros ->.
    + simpl. by rewrite take_app_length'.
Qed.
End resolve_spec.

(** ** [MultiSink]: lemmas *)

Section sink_spec.
Context (w : Z).

Definition sink_ok (s : MultiSink) : Prop :=
  (0 < sinks_ s)%nat ∧ 0 <= next_ s < 2 ^ w ∧ (Z.of_nat (sinks_ s) | 2 ^ w).

Lemma on_packet_ok s :
  sink_ok s →
  ∃ i s', on_packet w s = (Some i, s') ∧ (i < sinks_ s)%nat
    ∧ Z.of_nat i = next_ s mod Z.of_nat (sinks_ s)
    ∧ sink_ok s' ∧ sinks_ s' = sinks_ s
    ∧ next_ s' mod Z.of_nat (sinks_ s) = (next_ s + 1) mod Z.of_nat (sinks_ s).
Proof.
  intros (Hk & Hn & Hd). unfold on_packet. rewrite (proj2 (Nat.eqb_neq _ _)) by lia.
  pose proof (Z.mod_pos_bound (next_ s) (Z.of_nat (sinks_ s)) ltac:(lia)).
  pose proof (Z.mod_pos_bound (next_ s + 1) (2 ^ w) ltac:(lia)).
  eexists _, _. split; [done|]. simpl. split_and!; [lia|lia|by split; [|split]|done|].
  destruct Hd as [q ->]. apply Z.mod_mod_divide. by exists q.
Qed.

(** Two numbers less than [k] apart with the same remainder are equal. *)
Lemma mod_window k a b : 0 < k → a mod k = b mod k → - k < a - b < k → a = b.
Proof.
  intros Hk Hm Hd. rewrite (Z.div_mod a k), (Z.div_mod b k), Hm in Hd |- * by lia.
  assert (a / k = b / k) as -> by nia. done.
Qed.

Lemma on_packets_lookup n s j :
  sink_ok s → (j < n)%nat →
  on_packets w n s !! j = Some (Z.to_nat ((next_ s + Z.of_nat j) mod Z.of_nat (sinks_ s))).
Proof.
  revert s j. induction n as [|n IH]; intros s j Hs Hj; [lia|]. cbn [on_packets].
  destruct (on_packet_ok s Hs) as (i & s' & -> & Hi & Hv & Hs' & Hk & Hn).
  destruct j as [|j]; simpl; [f_equal; rewrite Z.add_0_r, <- Hv; lia|].
  rewrite IH by (done || lia). rewrite Hk. do 2 f_equal.
  rewrite Zplus_mod, Hn, <- Zplus_mod. f_equal. lia.
Qed.

Lemma on_packets_length n s : sink_ok s → length (on_packets w n s) = n.
Proof.
  revert s. induction n as [|n IH]; intros s Hs; [done|]. cbn [on_packets].
  destruct (on_packet_ok s Hs) as (i & s' & -> & _ & _ & Hs' & _). simpl. by rewrite IH.
Qed.

(** The round robin is fair, and stays so when the counter wraps, as long as
    the number of sinks divides the range of the counter (4 does): the [j]-th
    packet goes to sink [(next + j) mod k], whatever the counter starts from, so
    any [k] consecutive packets reach the [k] sinks, each once; without sinks
    every packet is dropped. *)
Theorem round_robin s :
  (sink_ok s →
   (∀ n j, (j < n)%nat →
      on_packets w n s !! j
      = Some (Z.to_nat ((next_ s + Z.of_nat j) mod Z.of_nat (sinks_ s))))
   ∧ on_packets w (sinks_ s) s ≡ₚ seq 0 (sinks_ s))
  ∧ (sinks_ s = 0%nat → ∀ n, on_packets w n s = []).
Proof.
  split.
  - intros Hs. split; [intros; by apply on_packets_lookup|]. pose proof Hs as (Hk & Hn & _).
    assert (∀ j i, (j < sinks_ s)%nat → on_packets w (sinks_ s) s !! j = Some i →
      Z.of_nat i = (next_ s + Z.of_nat j) mod Z.of_nat (sinks_ s) ∧ (i < sinks_ s)%nat) as Hl.
    { intros j i Hj. rewrite on_packets_lookup by done. intros [= <-].
      pose proof (Z.mod_pos_bound (next_ s + Z.of_nat j) (Z.of_nat (sinks_ s))). lia. }
    apply submseteq_length_Permutation;
      [|rewrite on_packets_length, length_seq by done; lia].
    apply NoDup_submseteq.
    + apply NoDup_alt. intros j j' i Hj Hj'.
      pose proof (lookup_lt_Some _ _ _ Hj) as Hlt. pose proof (lookup_lt_Some _ _ _ Hj') as Hlt'.
      rewrite on_packets_length in Hlt, Hlt' by done.
      apply Hl in Hj as [Hj _], Hj' as [Hj' _]; try done. rewrite Hj in Hj'.
      apply mod_window in Hj'; lia.
    + intros i [j Hj]%list_elem_of_lookup. pose proof (lookup_lt_Some _ _ _ Hj) as Hlt.
      rewrite on_packets_length in Hlt by done. apply Hl in Hj as [_ Hj]; [|done].
      apply elem_of_seq. lia.
  - intros Hz n. induction n as [|n IH]; [done|]. cbn [on_packets]. unfold on_packet.
    rewrite Hz. cbn [Nat.eqb]. exact IH.
Qed.
End sink_spec.

(** ** Start-up: lemmas *)

Lemma args_defined argv : ∃ r, parse_args argv = Done r.
Proof.
  destruct argv as [|a argv]; [by eexists|]. unfold parse_args.
  rewrite args_loop_read by (simpl; lia). by eexists.
Qed.

Lemma args_codes argc args cfg_path verbose code :
  read_args argc args cfg_path verbose = ArgsExit code → code = 0 ∨ code = 2.
Proof.
  remember (length args) as n eqn:Hn. revert args cfg_path verbose Hn.
  induction n as [n IH] using lt_wf_ind. intros args cp vb ->.
  destruct args as [|a args]; cbn [read_args].
  { destruct cp; [|done]. intros [= <-]. auto. }
  destruct (bool_decide (a = str "--verbose")); [by apply (IH (length args)); simpl; [lia|]|].
  case_match; [intros [= <-]; auto|]. destruct args as [|b args]; [intros [= <-]; auto|].
  destruct (bool_decide (a = str "--config")); [|intros [= <-]; auto].
  by apply (IH (length args)); simpl; [lia|].
Qed.

Section setup_spec.
Context `{!Inet} {K D : Type} `{!TunOps K D}.

(** The routes of the program: every configured block to the tunnel. *)
Definition tunnel_routes (cs : list Cidr) : list (Cidr * Action) := (λ c, (c, ToTunnel)) <$> cs.

Lemma routes_of cs :
  foldl (λ t c, LpmTrie_insert Drop c ToTunnel t) LpmTrie_new cs
  = LpmTrie_of Drop (tunnel_routes cs).
Proof.
  unfold LpmTrie_of, tunnel_routes. generalize (@LpmTrie_new Action) as t.
  induction cs as [|c cs IH]; intros t; simpl; [done|apply IH].
Qed.

(** The clients: one for each of the first addresses. *)
Lemma clients_of cfg (ips : list text) n :
  (n ≤ length ips)%nat →
  foldl (λ cs i, let! cs := cs in
                 let! ip := run_opt (ips !! i) in
                 Done (cs ++ [client_config cfg ip])) (Done []) (seq 0 n)
  = Done (client_config cfg <$> take n ips).
Proof.
  induction n as [|n IH]; intros Hn; [done|]. rewrite seq_S, foldl_app, IH by lia.
  destruct (lookup_lt_is_Some_2 ips n) as [ip Hip]; [lia|]. cbn [foldl run_bind Nat.add].
  rewrite Hip. cbn [run_opt run_bind]. by rewrite (take_S_r ips n ip Hip), fmap_app.
Qed.

(** What a program that is about to start its threads has. *)
Definition started (argv : list text) (file : text → option text)
    (dns : text → Z → option (list addrinfo)) (p : program (D:=D)) : Prop :=
  let cfg := p_config p in
  ∃ path ips,
    parse_args argv = Done (ArgsRun path (p_verbose p) (p_argc p))
    ∧ load_from_file path (file path) Config_default [] = (true, cfg, [])
    ∧ parse_uuid (Config.tunnel_id cfg) (replicate 16 0)
      = Done (true, tunnel_uuid (p_request p))
    ∧ base64_decode (tunnel_secret_b64 cfg) []
      = (true, Registration.tunnel_secret (auth (p_request p)))
    ∧ Registration.account_tag (auth (p_request p)) = Config.account_tag cfg
    ∧ resolve_edge_ips (Config.edge_host cfg) (dns (Config.edge_host cfg) (Config.edge_port cfg))
        kNumHaConns = Done ips
    ∧ p_clients p = client_config cfg <$> ips
    ∧ length (p_clients p) = kNumHaConns
    ∧ p_routes p = LpmTrie_of Drop (tunnel_routes (routed_cidrs cfg)).

Lemma build_spec argc verbose cfg d ips :
  length ips = kNumHaConns →
  ∃ r, build (D:=D) argc verbose cfg d ips = Done r ∧
    match r with
    | inl code => code = 1
    | inr p =>
        p_argc p = argc ∧ p_verbose p = verbose ∧ p_config p = cfg
        ∧ parse_uuid (Config.tunnel_id cfg) (replicate 16 0)
          = Done (true, tunnel_uuid (p_request p))
        ∧ base64_decode (tunnel_secret_b64 cfg) []
          = (true, Registration.tunnel_secret (auth (p_request p)))
        ∧ Registration.account_tag (auth (p_request p)) = Config.account_tag cfg
        ∧ p_clients p = client_config cfg <$> ips
        ∧ p_routes p = LpmTrie_of Drop (tunnel_routes (routed_cidrs cfg))
    end.
Proof.
  intros Hl. unfold build. cbn [tunnel_uuid auth RegisterRequest_default].
  assert (∃ u, parse_uuid (Config.tunnel_id cfg) (replicate 16 0) = Done u) as [[b u] Hu].
  { destruct (parse_uuid_cases (Config.tunnel_id cfg) (replicate 16 0) eq_refl)
      as [(?&?&?&?&?&_&_&Hd)|[_ (?&_&Hd)]]; eauto. }
  rewrite Hu. cbn [run_bind fst snd]. destruct b; cbn [negb]; [|by eexists].
  cbn [Registration.tunnel_secret].
  destruct (base64_decode (tunnel_secret_b64 cfg) []) as [b s] eqn:Hb. cbn [fst snd].
  destruct b; cbn [negb]; [|by eexists].
  rewrite clients_of by lia. cbn [run_bind]. eexists. split; [done|]. simpl.
  rewrite take_ge by lia. by rewrite routes_of.
Qed.

Context `{!InetLaws}.

Lemma loaded_ok path file cfg err :
  load_from_file path file Config_default [] = (true, cfg, err) → config_ok cfg ∧ err = [].
Proof.
  intros Hl. split; [by eapply load_from_file_ok, Hl; apply Config_default_ok|].
  revert Hl. unfold load_from_file. destruct file as [content|]; [|done].
  generalize 0, Config_default. induction (getlines content) as [|l ls IH]; intros n c; simpl;
    [by intros [= _ <-]|]. destruct (load_line _ l c); [done|apply IH].
Qed.

(** One setup: what its result is, if the device is well behaved. *)
Lemma setup_cases `{!TunLaws K D} argv file dns k :
  ∃ r k', setup argv file dns k = Done (r, k') ∧
    match r with
    | inl code => code = 0 ∨ code = 1 ∨ code = 2
    | inr p => started argv file dns p ∧ config_ok (p_config p)
    end.
Proof.
  unfold setup. destruct (args_defined argv) as [r Hr]. rewrite Hr. cbn [run_bind].
  destruct r as [code|path verbose i].
  { eexists _, _. split; [done|]. destruct argv as [|a argv]; [injection Hr as <-; auto|].
    revert Hr. unfold parse_args. rewrite args_loop_read by (simpl; lia).
    intros [= Hr]. apply args_codes in Hr. naive_solver. }
  destruct (load_from_file _ _ _ _) as [[ok cfg] err] eqn:Hload.
  destruct ok; cbn [negb]; [|eexists _, _; split; [done|simpl; auto]].
  destruct (loaded_ok _ _ _ _ Hload) as [Hok ->]. pose proof Hok as (Hp & Hloc & Hrs).
  destruct (dev_open_defined (tun_name cfg) dev_new k) as [[[ec d] k1] ->]. cbn [run_bind].
  destruct (ec =? 0); cbn [negb]; [|eexists _, _; split; [done|simpl; auto]].
  destruct (dev_configure_defined (tun_local cfg)
    (match routed_cidrs cfg with [] => tun_local cfg | r :: _ => r end) d k1) as [[ec2 k2] ->];
    [done|destruct Hrs; done|]. cbn [run_bind fst snd].
  destruct (ec2 =? 0); cbn [negb]; [|eexists _, _; split; [done|simpl; auto]].
  assert (∀ rs k, Forall cidr_ok rs → ∃ o k', add_routes rs d k = Done (o, k')
            ∧ match o with Some code => code = 1 | None => True end) as Hadd.
  { clear -TunLaws0. intros rs k Hrs. revert k. induction Hrs as [|r rs Hr Hrs IH]; intros k;
      cbn [add_routes]; [by do 2 eexists|].
    destruct (dev_add_route_defined r d k Hr) as [[ec k3] ->]. cbn [run_bind fst snd].
    destruct (ec =? 0); cbn [negb]; [apply IH|by do 2 eexists]. }
  destruct (Hadd (drop 1 (routed_cidrs cfg)) k2) as (o & k3 & -> & Ho); [by apply Forall_drop|].
  cbn [run_bind fst snd]. destruct o as [code|]; [subst; eexists _, _; split; [done|simpl; auto]|].
  destruct (resolve_cycles (Config.edge_host cfg)
    (dns (Config.edge_host cfg) (Config.edge_port cfg)) kNumHaConns) as (ips & Hips & Hl & _).
  rewrite Hips. cbn [run_bind].
  destruct (build_spec i verbose cfg d ips Hl) as (r & -> & Hb). cbn [run_bind].
  exists r, k3. split; [done|]. destruct r as [code|p]; [subst; auto|].
  destruct Hb as (Hi & Hv & Hc & Hu & Hs & Ha & Hcl & Hro). rewrite Hc. split; [|done].
  exists path, ips. rewrite Hc, Hi, Hv. split_and!; try done.
  by rewrite Hcl, length_fmap.
Qed.

(** C11: start-up always ends: with exit code 0, 1 or 2, or with a program whose
    request template holds the 16 bytes of the configured UUID and the decoded
    secret, with one client for each of the four connections, cycling through the
    resolved addresses, and with a configuration that is in range. Nothing on the
    way is undefined, whatever the arguments, the file, the resolver and the
    device answer. *)
Theorem setup_spec `{!TunLaws K D} argv file dns k :
  ∃ r k', setup argv file dns k = Done (r, k') ∧
    match r with
    | inl code => code = 0 ∨ code = 1 ∨ code = 2
    | inr p => started argv file dns p ∧ config_ok (p_config p)
    end.
Proof. apply setup_cases. Qed.

(** Once started, the routing table sends an address to the tunnel exactly
    when one of the configured blocks contains it, and has no entry for any other
    address: the router never drops by an explicit entry, and never answers
    [ToTun]. *)
Theorem program_routes `{!TunLaws K D} argv file dns k p k' a :
  setup argv file dns k = Done (inr p, k') → ip_ok a →
  LpmTrie_lookup (p_routes p) a
  = if bool_decide (Exists (λ c, in_cidr c a) (routed_cidrs (p_config p)))
    then Some ToTunnel else None.
Proof.
  intros Hs Ha. destruct (setup_cases argv file dns k) as (r & k1 & Hs' & Hr).
  rewrite Hs in Hs'. injection Hs' as <- <-.
  destruct Hr as [(path & ips & _ & _ & _ & _ & _ & _ & _ & _ & ->) (_ & _ & Hok)].
  set (cs := routed_cidrs (p_config p)) in *.
  assert (Forall (λ r, cidr_ok r.1) (tunnel_routes cs)) as Hrs by by apply Forall_fmap.
  rewrite lookup_found, found_best by done.
  pose proof (best_route_chosen (tunnel_routes cs) a) as Hb.
  destruct (best_route _ a) as [[c v]|]; simpl.
  - destruct Hb as (i & Hi & Hc & _). unfold tunnel_routes in Hi.
    apply list_lookup_fmap_Some in Hi as (c' & [= -> ->] & Hi).
    rewrite bool_decide_eq_true_2; [done|]. apply Exists_exists. exists c'.
    split; [by eapply list_elem_of_lookup_2|done].
  - rewrite bool_decide_eq_false_2; [done|]. intros (c & Hin & Hc)%Exists_exists.
    apply list_elem_of_lookup in Hin as [j Hj].
    apply (Hb j (c, ToTunnel)); [|done]. unfold tunnel_routes. by rewrite list_lookup_fmap, Hj.
Qed.
End setup_spec.

(** ** Witnesses *)
From S2P Require Import InetModel Netlink.

Definition prog_name : text := str "cfd".

(** The configuration file of a tunnel with two routes. *)
Definition full_file : text :=
  str "tunnel_id = 550e8400-e29b-41d4-a716-446655440000" ++ [newline]
  ++ str "account_tag = abc" ++ [newline] ++ str "tunnel_secret_b64 = AAECAwQF" ++ [newline]
  ++ str "tun_local = 10.99.0.1/32" ++ [newline]
  ++ str "route = 10.0.0.0/8" ++ [newline] ++ str "route = 192.168.0.0/16" ++ [newline].

Definition sample_argv : list text := [prog_name; str "--verbose"; str "--config"; str "f"].

Definition sample_dns : text → Z → option (list addrinfo) :=
  λ _ _, Some [mkAddrinfo (Some V4) [198; 41; 192; 7]; mkAddrinfo None [];
               mkAddrinfo (Some V6) (replicate 15 0 ++ [1])].

(** A kernel that acknowledges every request. *)
Definition sample_kernel : scripted := mkScripted [] [] (replicate 8 ok_reply).

Definition sample_run : run ((Z + program) * scripted) :=
  setup (D := TunDevice) sample_argv (λ _, Some full_file) sample_dns sample_kernel.

Lemma sample_run_started :
  match sample_run with
  | Done (inr p, _) =>
      p_argc p = 4%nat ∧ p_verbose p = true
      ∧ routed_cidrs (p_config p)
        = [block_10; mkCidr (mkIpAddr V4 (192 :: 168 :: replicate 14 0)) 16]
      ∧ tunnel_uuid (p_request p)
        = [85; 14; 132; 0; 226; 155; 65; 212; 167; 22; 68; 102; 85; 68; 0; 0]
      ∧ QuicClient.edge_host <$> p_clients p
        = [str "198.41.192.7"; str "0000:0000:0000:0000:0000:0000:0000:0001";
           str "198.41.192.7"; str "0000:0000:0000:0000:0000:0000:0000:0001"]
  | _ => False
  end.
Proof. vm_compute. by split_and!. Qed.

Lemma parse_args_spec_witness :
  ∃ os, [str "--verbose"; str "--config"; str "f"] = os ≫= print_option
        ∧ foldl path_of [] os = str "f" ∧ existsb is_verbose os = true.
Proof.
  destruct (proj1 (proj2 (parse_args_spec prog_name [str "--verbose"; str "--config"; str "f"])
    (str "f") true 4%nat)) as (os & He & Hp & _ & Hv & _); [by vm_compute|]. by exists os.
Defined.

Lemma round_robin_witness :
  on_packets 64 4 (mkMultiSink 4 (2 ^ 64 - 2)) ≡ₚ [0; 1; 2; 3]%nat
  ∧ on_packets 64 4 (mkMultiSink 4 (2 ^ 64 - 2)) = [2; 3; 0; 1]%nat.
Proof.
  split; [|by vm_compute]. apply (round_robin 64 (mkMultiSink 4 (2 ^ 64 - 2))).
  split; [simpl; lia|]. split; [simpl; lia|]. by exists (2 ^ 62).
Defined.

Lemma resolve_edge_ips_spec_witness :
  ∃ f ip, ai_family (mkAddrinfo (Some V4) [198; 41; 192; 7]) = Some f
    ∧ IpAddr_parse (ai_text (mkAddrinfo (Some V4) [198; 41; 192; 7])) = Some ip ∧ family ip = f
    ∧ take (addr_len f) (bytes ip) = [198; 41; 192; 7].
Proof.
  refine (proj2 (proj2 (resolve_edge_ips_spec (str "edge") None 4)) _ _).
  exists V4. split_and!; [done|done|solve_bytes].
Defined.

Lemma setup_spec_witness :
  ∃ p k', sample_run = Done (inr p, k')
    ∧ started (D := TunDevice) sample_argv (λ _, Some full_file) sample_dns p
    ∧ config_ok (p_config p).
Proof.
  pose proof sample_run_started as Hs.
  destruct (setup_spec (D := TunDevice) sample_argv (λ _, Some full_file) sample_dns sample_kernel)
    as (r & k' & Hr & Hc). change (sample_run = Done (r, k')) in Hr. rewrite Hr in Hs.
  destruct r as [code|p]; [destruct Hs|]. exists p, k'. split; [exact Hr|exact Hc].
Defined.

Lemma program_routes_witness :
  ∃ p k', sample_run = Done (inr p, k')
    ∧ LpmTrie_lookup (p_routes p) (mkIpAddr V4 (192 :: 168 :: replicate 14 7)) = Some ToTunnel
    ∧ LpmTrie_lookup (p_routes p) (mkIpAddr V4 (192 :: 169 :: replicate 14 7)) = None.
Proof.
  assert (ip_ok (mkIpAddr V4 (192 :: 168 :: replicate 14 7))
    ∧ ip_ok (mkIpAddr V4 (192 :: 169 :: replicate 14 7))) as [H1 H2]
    by (split; (split; [done|solve_bytes])).
  pose proof sample_run_started as Hs.
  destruct sample_run as [[[code|p] k']| |] eqn:Hr; [destruct Hs| |destruct Hs..].
  exists p, k'. split; [reflexivity|].
  unfold sample_run in Hr.
  rewrite (program_routes (D := TunDevice) sample_argv (λ _, Some full_file) sample_dns
             sample_kernel p k' _ Hr H1).
  rewrite (program_routes (D := TunDevice) sample_argv (λ _, Some full_file) sample_dns
             sample_kernel p k' _ Hr H2).
  clear Hr. destruct Hs as (_ & _ & Hc & _). rewrite Hc. clear. split; by vm_compute.
Defined.
