(* ===== verification/Capnp.v ===== *)
(** * The Cap'n Proto runtime

    The generated code of [src/tunnelrpc.capnp.h] works on the runtime's structs:
    a data section, read and written as an array of elements of some width, and
    a pointer section. The runtime is not part of the repository, so it is an
    interface here, the class [Capnp], with its documented behaviour as
    [CapnpLaws]. The second half of the file gives a store that meets the laws. *)
From S2P Require Import Prelude.
Local Open Scope Z_scope.

(** ** The interface *)

(** [M] is a struct, [P] the content of a pointer field. [get_elem w i] and
    [set_elem w i v] are [getDataField] and [setDataField] for elements of [w]
    bits, as unsigned numbers; the others are [getPointerField] and the
    [PointerHelpers] for data, text, a list of texts and a struct. *)
Class Capnp (M P : Type) := {
  init_struct : nat → nat → M;
  words_of : M → nat;
  pointers_of : M → nat;
  get_elem : Z → Z → M → Z;
  set_elem : Z → Z → Z → M → M;
  get_pointer : nat → M → P;
  set_pointer : nat → P → M → M;
  null : P;
  is_null : P → bool;
  of_data : list Z → P;
  to_data : P → list Z;
  of_text : text → P;
  to_text : P → text;
  of_texts : list text → P;
  to_texts : P → list text;
  of_struct : M → P;
  to_struct : P → M;
}.

(** The element [i] of [w] bits lies in a data section of [n] words. *)
Definition elem_in (w i : Z) (n : nat) : Prop :=
  0 < w ∧ 0 <= i ∧ i * w + w <= 64 * Z.of_nat n.

(** Two elements have no bit in common. *)
Definition elem_apart (w i w' i' : Z) : Prop := i * w + w <= i' * w' ∨ i' * w' + w' <= i * w.

(** Documented: sections start zeroed; a write changes its own element or pointer
    and no other; what is outside the sections reads as zero or null; a pointer
    gives back what was stored, and a null pointer the default value. *)
Class CapnpLaws (M P : Type) `{Capnp M P} := {
  init_words n p : words_of (init_struct n p) = n;
  init_pointers n p : pointers_of (init_struct n p) = p;
  init_elem n p w i : get_elem w i (init_struct n p) = 0;
  init_pointer n p j : get_pointer j (init_struct n p) = null;
  set_elem_words w i v m : words_of (set_elem w i v m) = words_of m;
  set_elem_pointers w i v m : pointers_of (set_elem w i v m) = pointers_of m;
  set_pointer_words j p m : words_of (set_pointer j p m) = words_of m;
  set_pointer_pointers j p m : pointers_of (set_pointer j p m) = pointers_of m;
  get_elem_range w i m : 0 < w → 0 <= get_elem w i m < 2 ^ w;
  get_set_elem w i v m :
    elem_in w i (words_of m) → get_elem w i (set_elem w i v m) = v mod 2 ^ w;
  get_set_elem_apart w i w' i' v m :
    elem_in w i (words_of m) → elem_in w' i' (words_of m) → elem_apart w i w' i' →
    get_elem w i (set_elem w' i' v m) = get_elem w i m;
  get_elem_set_pointer w i j p m : get_elem w i (set_pointer j p m) = get_elem w i m;
  get_pointer_set_elem j w i v m : get_pointer j (set_elem w i v m) = get_pointer j m;
  get_set_pointer j p m : (j < pointers_of m)%nat → get_pointer j (set_pointer j p m) = p;
  get_set_pointer_ne j j' p m : j ≠ j' → get_pointer j (set_pointer j' p m) = get_pointer j m;
  is_null_null : is_null null = true;
  is_null_data bs : is_null (of_data bs) = false;
  is_null_text t : is_null (of_text t) = false;
  is_null_texts ts : is_null (of_texts ts) = false;
  is_null_struct m : is_null (of_struct m) = false;
  to_data_null : to_data null = [];
  to_text_null : to_text null = [];
  to_texts_null : to_texts null = [];
  null_struct_elem w i : get_elem w i (to_struct null) = 0;
  null_struct_pointer j : get_pointer j (to_struct null) = null;
  to_of_data bs : to_data (of_data bs) = bs;
  to_of_text t : to_text (of_text t) = t;
  to_of_texts ts : to_texts (of_texts ts) = ts;
  to_of_struct m : to_struct (of_struct m) = m;
}.

(** ** A store that meets the laws *)

(** The data section is one number of [64 * words] bits. *)
Inductive message :=
| Struct (words : nat) (data : Z) (pointers : list pointer)
with pointer :=
| PNull
| PData (bs : list Z)
| PText (t : text)
| PTexts (ts : list text)
| PStruct (m : message).

Definition elem_inb (w i : Z) (n : nat) : bool :=
  (0 <? w) && (0 <=? i) && (i * w + w <=? 64 * Z.of_nat n).

Definition get_bits (w i : Z) (m : message) : Z :=
  let '(Struct n d _) := m in
  if elem_inb w i n then Z.land (Z.shiftr d (i * w)) (Z.ones w) else 0.

Definition set_bits (w i v : Z) (m : message) : message :=
  let '(Struct n d ps) := m in
  if elem_inb w i n
  then Struct n (Z.lor (Z.ldiff d (Z.shiftl (Z.ones w) (i * w)))
                   (Z.shiftl (Z.land v (Z.ones w)) (i * w))) ps
  else m.

#[export] Instance message_capnp : Capnp message pointer := {
  init_struct n p := Struct n 0 (replicate p PNull);
  words_of m := let '(Struct n _ _) := m in n;
  pointers_of m := let '(Struct _ _ ps) := m in length ps;
  get_elem := get_bits;
  set_elem := set_bits;
  get_pointer j m := let '(Struct _ _ ps) := m in nth j ps PNull;
  set_pointer j p m := let '(Struct n d ps) := m in Struct n d (<[j := p]> ps);
  null := PNull;
  is_null p := match p with PNull => true | _ => false end;
  of_data := PData;
  to_data p := match p with PData bs => bs | _ => [] end;
  of_text := PText;
  to_text p := match p with PText t => t | _ => [] end;
  of_texts := PTexts;
  to_texts p := match p with PTexts ts => ts | _ => [] end;
  of_struct := PStruct;
  to_struct p := match p with PStruct m => m | _ => Struct 0 0 [] end;
}.

(** ** The laws *)

Lemma elem_inb_true w i n : elem_in w i n → elem_inb w i n = true.
Proof. intros (? & ? & ?). unfold elem_inb.
  rewrite (proj2 (Z.ltb_lt 0 w)), (proj2 (Z.leb_le 0 i)) by done. by apply Z.leb_le.
Qed.

(** The bits of a field of [w] bits at the bit [o]. *)
Lemma field_bit d w o k :
  0 <= o → 0 <= w → 0 <= k →
  Z.testbit (Z.land (Z.shiftr d o) (Z.ones w)) k = (k <? w) && Z.testbit d (k + o).
Proof.
  intros Ho Hw Hk. rewrite Z.land_spec, Z.shiftr_spec by done.
  rewrite Z.testbit_ones by done. rewrite (proj2 (Z.leb_le 0 k)) by done.
  by rewrite andb_comm.
Qed.

(** The bits after a field was written. *)
Lemma written_bit d v w o k :
  0 <= o → 0 <= w → 0 <= k →
  Z.testbit (Z.lor (Z.ldiff d (Z.shiftl (Z.ones w) o)) (Z.shiftl (Z.land v (Z.ones w)) o)) k
  = if (o <=? k) && (k <? o + w) then Z.testbit v (k - o) else Z.testbit d k.
Proof.
  intros Ho Hw Hk. rewrite Z.lor_spec, Z.ldiff_spec, !Z.shiftl_spec by done.
  destruct (o <=? k) eqn:Hok; bool_facts; simpl.
  - rewrite Z.land_spec, !Z.testbit_ones by lia. rewrite (proj2 (Z.leb_le 0 (k - o))) by lia.
    simpl. destruct (k <? o + w) eqn:Hlt; bool_facts.
    + rewrite (proj2 (Z.ltb_lt (k - o) w)) by lia. simpl.
      by rewrite andb_true_r, andb_false_r, orb_false_l.
    + rewrite (proj2 (Z.ltb_ge (k - o) w)) by lia. simpl.
      by rewrite andb_false_r, andb_true_r, orb_false_r.
  - rewrite !(Z.testbit_neg_r _ (k - o)) by lia. simpl. by rewrite andb_true_r, orb_false_r.
Qed.

#[export] Instance message_laws : CapnpLaws message pointer.
Proof.
  split; simpl; try done.
  - intros n p. apply length_replicate.
  - intros n p w i. unfold get_bits. destruct (elem_inb w i n); [|done]. by rewrite Z.shiftr_0_l.
  - intros n p j. revert j. induction p as [|p IH]; intros [|j]; simpl; auto.
  - intros w i v [n d ps]. simpl. by destruct (elem_inb w i n).
  - intros w i v [n d ps]. simpl. by destruct (elem_inb w i n).
  - by intros j p [n d ps].
  - intros j p [n d ps]. apply length_insert.
  - intros w i [n d ps] Hw. pose proof (Z.pow_pos_nonneg 2 w). unfold get_bits.
    destruct (elem_inb w i n); [|lia]. rewrite Z.land_ones by lia. apply Z.mod_pos_bound. lia.
  - intros w i v [n d ps] Hin. pose proof Hin as (Hw & Hi & _). simpl in *.
    rewrite elem_inb_true by done. simpl. rewrite elem_inb_true by done.
    apply Z.bits_inj'. intros k Hk. rewrite field_bit by nia.
    destruct (k <? w) eqn:Hkw; bool_facts; simpl.
    + rewrite written_bit, Z.mod_pow2_bits_low by nia.
      rewrite (proj2 (Z.leb_le _ _)), (proj2 (Z.ltb_lt _ _)) by lia. simpl. f_equal. lia.
    + by rewrite Z.mod_pow2_bits_high by lia.
  - intros w i w' i' v [n d ps] Hin Hin' Ha. pose proof Hin as (Hw & Hi & _).
    pose proof Hin' as (Hw' & Hi' & _). simpl in *.
    rewrite elem_inb_true by done. simpl. rewrite elem_inb_true by done.
    apply Z.bits_inj'. intros k Hk. rewrite !field_bit by nia.
    destruct (k <? w) eqn:Hkw; bool_facts; simpl; [|done].
    rewrite written_bit by nia. destruct Ha as [Ha|Ha].
    + by rewrite (proj2 (Z.leb_gt (i' * w') _)) by nia.
    + rewrite (proj2 (Z.ltb_ge _ (i' * w' + w'))) by nia. by rewrite andb_false_r.
  - by intros w i j p [n d ps].
  - intros j w i v [n d ps]. simpl. by destruct (elem_inb w i n).
  - intros j p [n d ps] Hj. simpl in *. revert j Hj.
    induction ps as [|q ps IH]; intros [|j] Hj; simpl in *; [lia..|done|apply IH; lia].
  - intros j j' p [n d ps] Hj. simpl. revert j j' Hj.
    induction ps as [|q ps IH]; intros [|j] [|j'] Hj; simpl; try done. apply IH. congruence.
  - intros w i. unfold get_bits. destruct (elem_inb w i 0); [|done]. by rewrite Z.shiftr_0_l.
  - by intros [|j].
Qed.
