(* ===== verification/TunnelRpc.v ===== *)
(** * The messages of the registration

    The generated accessors of [src/tunnelrpc.capnp.h], as far as they concern
    the structs of the registration, over the runtime of [Capnp]; and the two
    places where [register_connection] (src/tunnel/quic_client.cpp) uses them:
    it fills the request and reads the results. [QuicClient] describes both by
    their fields; here they are messages, and the last part shows that the
    messages carry those fields. *)
From S2P Require Import Prelude Registration QuicClient Capnp.
Local Open Scope Z_scope.

(** ** Fields *)

(** The type of a field; a struct, and a group, by its id. *)
Inductive field_type :=
| TBool | TUInt8 | TInt64 | TText | TData | TTexts | TStruct (id : Z) | TGroup (id : Z).

(** Where a field is: the [index]-th element of its width in the data section,
    or the [index]-th pointer. A member of a union has a discriminant. *)
Record field := mkField {
  f_name : text;
  f_type : field_type;
  f_index : nat;
  f_discriminant : option Z;
}.

(** The width of a type that is kept in the data section, in bits. *)
Definition data_width (t : field_type) : option Z :=
  match t with
  | TBool => Some 1
  | TUInt8 => Some 8
  | TInt64 => Some 64
  | _ => None
  end.

Definition is_group (t : field_type) : bool := match t with TGroup _ => true | _ => false end.

(** [CAPNP_DECLARE_STRUCT_HEADER(id, dataWordSize, pointerCount)], the fields, and
    the element of 16 bits that holds the discriminant of a union. *)
Record layout := mkLayout {
  l_id : Z;
  l_words : nat;
  l_pointers : nat;
  l_fields : list field;
  l_which : option Z;
}.

(** *** [ClientInfo] *)

Definition ClientInfo_clientId : field := mkField (str "clientId") TData 0 None.
Definition ClientInfo_features : field := mkField (str "features") TTexts 1 None.
Definition ClientInfo_version : field := mkField (str "version") TText 2 None.
Definition ClientInfo_arch : field := mkField (str "arch") TText 3 None.

Definition ClientInfo : layout :=
  mkLayout 0x83ced0145b2f114b 0 4
    [ClientInfo_clientId; ClientInfo_features; ClientInfo_version; ClientInfo_arch] None.

(** *** [ConnectionOptions] *)

Definition ConnectionOptions_client : field :=
  mkField (str "client") (TStruct (l_id ClientInfo)) 0 None.
Definition ConnectionOptions_originLocalIp : field := mkField (str "originLocalIp") TData 1 None.
Definition ConnectionOptions_replaceExisting : field :=
  mkField (str "replaceExisting") TBool 0 None.
Definition ConnectionOptions_compressionQuality : field :=
  mkField (str "compressionQuality") TUInt8 1 None.
Definition ConnectionOptions_numPreviousAttempts : field :=
  mkField (str "numPreviousAttempts") TUInt8 2 None.

Definition ConnectionOptions : layout :=
  mkLayout 0xb4bf9861fe035d04 1 2
    [ConnectionOptions_client; ConnectionOptions_originLocalIp; ConnectionOptions_replaceExisting;
     ConnectionOptions_compressionQuality; ConnectionOptions_numPreviousAttempts] None.

(** *** [ConnectionDetails] *)

Definition ConnectionDetails_uuid : field := mkField (str "uuid") TData 0 None.
Definition ConnectionDetails_locationName : field := mkField (str "locationName") TText 1 None.
Definition ConnectionDetails_tunnelIsRemotelyManaged : field :=
  mkField (str "tunnelIsRemotelyManaged") TBool 0 None.

Definition ConnectionDetails : layout :=
  mkLayout 0xb5f39f082b9ac18a 1 2
    [ConnectionDetails_uuid; ConnectionDetails_locationName;
     ConnectionDetails_tunnelIsRemotelyManaged] None.

(** *** [ConnectionError] *)

Definition ConnectionError_cause : field := mkField (str "cause") TText 0 None.
Definition ConnectionError_retryAfter : field := mkField (str "retryAfter") TInt64 0 None.
Definition ConnectionError_shouldRetry : field := mkField (str "shouldRetry") TBool 64 None.

Definition ConnectionError : layout :=
  mkLayout 0xf5f383d2785edb86 2 1
    [ConnectionError_cause; ConnectionError_retryAfter; ConnectionError_shouldRetry] None.

(** *** [ConnectionResponse::Result], a union, and [ConnectionResponse] *)

Definition Result_ERROR : Z := 0.
Definition Result_CONNECTION_DETAILS : Z := 1.

Definition Result_error : field :=
  mkField (str "error") (TStruct (l_id ConnectionError)) 0 (Some Result_ERROR).
Definition Result_connectionDetails : field :=
  mkField (str "connectionDetails") (TStruct (l_id ConnectionDetails)) 0
    (Some Result_CONNECTION_DETAILS).

Definition Result : layout :=
  mkLayout 0x97b3c5c260257622 1 1 [Result_error; Result_connectionDetails] (Some 0).

(** The group shares the sections of its struct. *)
Definition ConnectionResponse_result : field :=
  mkField (str "result") (TGroup (l_id Result)) 0 None.

Definition ConnectionResponse : layout :=
  mkLayout 0xdbaa9d03d52b62dc 1 1 [ConnectionResponse_result] None.

(** *** [TunnelAuth] *)

Definition TunnelAuth_accountTag : field := mkField (str "accountTag") TText 0 None.
Definition TunnelAuth_tunnelSecret : field := mkField (str "tunnelSecret") TData 1 None.

Definition TunnelAuth : layout :=
  mkLayout 0x9496331ab9cd463f 0 2 [TunnelAuth_accountTag; TunnelAuth_tunnelSecret] None.

(** *** The parameters and the results of the methods of [RegistrationServer] *)

Definition RegisterConnectionParams_auth : field :=
  mkField (str "auth") (TStruct (l_id TunnelAuth)) 0 None.
Definition RegisterConnectionParams_tunnelId : field := mkField (str "tunnelId") TData 1 None.
Definition RegisterConnectionParams_connIndex : field := mkField (str "connIndex") TUInt8 0 None.
Definition RegisterConnectionParams_options : field :=
  mkField (str "options") (TStruct (l_id ConnectionOptions)) 2 None.

Definition RegisterConnectionParams : layout :=
  mkLayout 0xe6646dec8feaa6ee 1 3
    [RegisterConnectionParams_auth; RegisterConnectionParams_tunnelId;
     RegisterConnectionParams_connIndex; RegisterConnectionParams_options] None.

Definition RegisterConnectionResults_result : field :=
  mkField (str "result") (TStruct (l_id ConnectionResponse)) 0 None.

Definition RegisterConnectionResults : layout :=
  mkLayout 0xea50d822450d1f17 0 1 [RegisterConnectionResults_result] None.

Definition UnregisterConnectionParams : layout := mkLayout 0xf9cb7f4431a307d0 0 0 [] None.
Definition UnregisterConnectionResults : layout := mkLayout 0xb046e578094b1ead 0 0 [] None.

Definition UpdateLocalConfigurationParams_config : field := mkField (str "config") TData 0 None.

Definition UpdateLocalConfigurationParams : layout :=
  mkLayout 0xc5d6e311876a3604 0 1 [UpdateLocalConfigurationParams_config] None.
Definition UpdateLocalConfigurationResults : layout := mkLayout 0xe5ceae5d6897d7be 0 0 [] None.

Definition layouts : list layout :=
  [ClientInfo; ConnectionOptions; ConnectionDetails; ConnectionError; ConnectionResponse; Result;
   TunnelAuth; RegisterConnectionParams; RegisterConnectionResults; UnregisterConnectionParams;
   UnregisterConnectionResults; UpdateLocalConfigurationParams; UpdateLocalConfigurationResults].

(** ** Accessors *)

Section accessors.
Context {M P : Type} `{Capnp M P}.

(** The value of a field as the runtime keeps it: an element, a pointer, or for a
    group the struct itself. *)
Inductive raw := RElem (v : Z) | RPointer (p : P) | RGroup.

Definition get_raw (f : field) (m : M) : raw :=
  if is_group (f_type f) then RGroup
  else
    match data_width (f_type f) with
    | Some w => RElem (get_elem w (Z.of_nat (f_index f)) m)
    | None => RPointer (get_pointer (f_index f) m)
    end.

(** A member of a union sets the discriminant first. *)
Definition set_which (l : layout) (f : field) (m : M) : M :=
  match l_which l, f_discriminant f with
  | Some o, Some d => set_elem 16 o d m
  | _, _ => m
  end.

Definition set_raw (l : layout) (f : field) (v : raw) (m : M) : M :=
  let m := set_which l f m in
  match v, data_width (f_type f) with
  | RElem v, Some w => set_elem w (Z.of_nat (f_index f)) v m
  | RPointer p, None => set_pointer (f_index f) p m
  | _, _ => m
  end.

(** [ConnectionResponse::Result::Reader::which], and [isX] for a member. *)
Definition which (m : M) : Z := get_elem 16 0 m.

Definition is_set (f : field) (m : M) : bool :=
  match f_discriminant f with Some d => which m =? d | None => true end.

(** [hasX], [getX], [setX], [initX] for the types of the fields. The check of the
    discriminant in the [getX] and [disownX] of a member is a debugging assertion
    of the runtime. *)
Definition has (f : field) (m : M) : bool :=
  if negb (is_set f m) then false else negb (is_null (get_pointer (f_index f) m)).

Definition getUInt8 (f : field) (m : M) : Z := get_elem 8 (Z.of_nat (f_index f)) m.
Definition getBool (f : field) (m : M) : bool := negb (get_elem 1 (Z.of_nat (f_index f)) m =? 0).
Definition getInt64 (f : field) (m : M) : Z :=
  (get_elem 64 (Z.of_nat (f_index f)) m + 2 ^ 63) mod 2 ^ 64 - 2 ^ 63.
Definition getData (f : field) (m : M) : list Z := to_data (get_pointer (f_index f) m).
Definition getText (f : field) (m : M) : text := to_text (get_pointer (f_index f) m).
Definition getTexts (f : field) (m : M) : list text := to_texts (get_pointer (f_index f) m).
Definition getStruct (f : field) (m : M) : M := to_struct (get_pointer (f_index f) m).

Definition setUInt8 (f : field) (v : Z) (m : M) : M := set_elem 8 (Z.of_nat (f_index f)) v m.
Definition setBool (f : field) (v : bool) (m : M) : M :=
  set_elem 1 (Z.of_nat (f_index f)) (Z.b2z v) m.
Definition setInt64 (f : field) (v : Z) (m : M) : M := set_elem 64 (Z.of_nat (f_index f)) v m.
Definition setData (f : field) (bs : list Z) (m : M) : M := set_pointer (f_index f) (of_data bs) m.
Definition setText (f : field) (t : text) (m : M) : M := set_pointer (f_index f) (of_text t) m.
Definition setTexts (f : field) (ts : list text) (m : M) : M :=
  set_pointer (f_index f) (of_texts ts) m.

(** [initX()] of a struct field of the struct [l]; [fill] is what the code does
    with the builder it gets. *)
Definition initStruct (l : layout) (f : field) (inner : layout) (fill : M → M) (m : M) : M :=
  set_pointer (f_index f) (of_struct (fill (init_struct (l_words inner) (l_pointers inner))))
    (set_which l f m).

(** [initX(size)] of a data field: zeroed bytes. *)
Definition initData (f : field) (size : nat) (m : M) : M :=
  set_pointer (f_index f) (of_data (replicate size 0)) m.

(** [adoptX] and [disownX]: the object moves into the field, or out of it. *)
Definition adopt (l : layout) (f : field) (orphan : P) (m : M) : M :=
  set_pointer (f_index f) orphan (set_which l f m).
Definition disown (f : field) (m : M) : P * M :=
  (get_pointer (f_index f) m, set_pointer (f_index f) null m).

(** [initResult] of a group: its discriminant and its pointer are cleared. *)
Definition initResult (m : M) : M := set_pointer 0 null (set_elem 16 0 0 m).

(** ** The request *)

(** [feats.set(i, ...)] for each feature, in a list of their number. *)
Definition fill_texts (ts : list text) : list text :=
  foldl (λ l i, <[i := nth i ts []]> l) (replicate (length ts) []) (seq 0 (length ts)).

(** The request [register_connection] fills. *)
Definition write_request (req : RegisterRequest) : M :=
  let m := init_struct (l_words RegisterConnectionParams) (l_pointers RegisterConnectionParams) in
  let m := initStruct RegisterConnectionParams RegisterConnectionParams_auth TunnelAuth
             (λ a, setData TunnelAuth_tunnelSecret (Registration.tunnel_secret (auth req))
                     (setText TunnelAuth_accountTag (Registration.account_tag (auth req)) a)) m in
  let m := setData RegisterConnectionParams_tunnelId (tunnel_uuid req) m in
  let m := setUInt8 RegisterConnectionParams_connIndex (conn_index req) m in
  initStruct RegisterConnectionParams RegisterConnectionParams_options ConnectionOptions
    (initStruct ConnectionOptions ConnectionOptions_client ClientInfo
       (λ ci, setTexts ClientInfo_features (fill_texts (features req))
                (setText ClientInfo_arch (arch req)
                   (setText ClientInfo_version (version req)
                      (setData ClientInfo_clientId (tunnel_uuid req) ci))))) m.

(** The request as the readers of the other side give it. *)
Definition read_request (m : M) : rpc_request :=
  let a := getStruct RegisterConnectionParams_auth m in
  let ci := getStruct ConnectionOptions_client (getStruct RegisterConnectionParams_options m) in
  mkRpcRequest (getText TunnelAuth_accountTag a) (getData TunnelAuth_tunnelSecret a)
    (getData RegisterConnectionParams_tunnelId m) (getUInt8 RegisterConnectionParams_connIndex m)
    (getData ClientInfo_clientId ci) (getText ClientInfo_version ci) (getText ClientInfo_arch ci)
    (getTexts ClientInfo_features ci).

(** ** The results *)

(** What [register_connection] reads from the results. [getError] is reached for
    every discriminant but one; its check of the discriminant is a debugging
    assertion of the runtime. *)
Definition read_results (m : M) : rpc_result :=
  let result := getStruct RegisterConnectionResults_result m in
  if which result =? Result_CONNECTION_DETAILS then
    let d := getStruct Result_connectionDetails result in
    RpcDetails (getData ConnectionDetails_uuid d) (getText ConnectionDetails_locationName d)
  else
    let e := getStruct Result_error result in
    RpcError (getText ConnectionError_cause e) (getInt64 ConnectionError_retryAfter e)
      (getBool ConnectionError_shouldRetry e).

(** The results as the builders of the other side fill them; [managed] is the
    field the client does not read. *)
Definition write_results (r : rpc_result) (managed : bool) : M :=
  let m := init_struct (l_words RegisterConnectionResults) (l_pointers RegisterConnectionResults) in
  initStruct RegisterConnectionResults RegisterConnectionResults_result ConnectionResponse
    (match r with
     | RpcException => λ m, m
     | RpcDetails uuid loc =>
         initStruct Result Result_connectionDetails ConnectionDetails
           (λ d, setBool ConnectionDetails_tunnelIsRemotelyManaged managed
                   (setText ConnectionDetails_locationName loc
                      (setData ConnectionDetails_uuid uuid d)))
     | RpcError cause after retry =>
         initStruct Result Result_error ConnectionError
           (λ e, setBool ConnectionError_shouldRetry retry
                   (setInt64 ConnectionError_retryAfter after
                      (setText ConnectionError_cause cause e)))
     end) m.
End accessors.
Arguments raw : clear implicits.

(** ** The calls *)

(** [registerConnectionRequest] and its siblings: the interface and the method. *)
Definition RegistrationServer_id : Z := 0xf71695ec7fe85497.

Inductive rpc_method := RegisterConnection | UnregisterConnection | UpdateLocalConfiguration.

Definition method_call (m : rpc_method) : Z * Z :=
  match m with
  | RegisterConnection => (RegistrationServer_id, 0)
  | UnregisterConnection => (RegistrationServer_id, 1)
  | UpdateLocalConfiguration => (RegistrationServer_id, 2)
  end.

(** The method's parameters and results. *)
Definition method_types (m : rpc_method) : layout * layout :=
  match m with
  | RegisterConnection => (RegisterConnectionParams, RegisterConnectionResults)
  | UnregisterConnection => (UnregisterConnectionParams, UnregisterConnectionResults)
  | UpdateLocalConfiguration => (UpdateLocalConfigurationParams, UpdateLocalConfigurationResults)
  end.

(** [dispatchCall] of a server: [None] for "unimplemented". *)
Definition dispatchCallInternal (methodId : Z) : option rpc_method :=
  if methodId =? 0 then Some RegisterConnection
  else if methodId =? 1 then Some UnregisterConnection
  else if methodId =? 2 then Some UpdateLocalConfiguration
  else None.

Definition dispatchCall (interfaceId methodId : Z) : option rpc_method :=
  if interfaceId =? RegistrationServer_id then dispatchCallInternal methodId else None.

(** ** Well-formed layouts *)

(** Two fields have no bit and no pointer in common. *)
Definition apart (f g : field) : bool :=
  match data_width (f_type f), data_width (f_type g) with
  | Some w, Some w' =>
      let i := Z.of_nat (f_index f) in
      let j := Z.of_nat (f_index g) in
      (i * w + w <=? j * w') || (j * w' + w' <=? i * w)
  | None, None => negb (f_index f =? f_index g)%nat
  | _, _ => true
  end.

Definition is_member (f : field) : bool :=
  match f_discriminant f with Some _ => true | None => false end.

(** A field lies in the sections of its struct. *)
Definition field_in (l : layout) (f : field) : bool :=
  is_group (f_type f)
  || match data_width (f_type f) with
     | Some w => elem_inb w (Z.of_nat (f_index f)) (l_words l)
     | None => (f_index f <? l_pointers l)%nat
     end.

(** The discriminant lies in the data section, away from the field. *)
Definition which_ok (l : layout) (f : field) : bool :=
  match l_which l with
  | None => negb (is_member f)
  | Some o =>
      elem_inb 16 o (l_words l)
      && match data_width (f_type f) with
         | Some w =>
             let i := Z.of_nat (f_index f) in
             (i * w + w <=? o * 16) || (o * 16 + 16 <=? i * w)
         | None => true
         end
  end.

(** Different fields are apart, unless both are members of the union. *)
Definition layout_ok (l : layout) : bool :=
  forallb (λ f, field_in l f && which_ok l f) (l_fields l)
  && forallb (λ i, forallb (λ j,
       match l_fields l !! i, l_fields l !! j with
       | Some f, Some g =>
           (i =? j)%nat || is_group (f_type f) || is_group (f_type g) || apart f g
           || (is_member f && is_member g)
       | _, _ => true
       end) (seq 0 (length (l_fields l)))) (seq 0 (length (l_fields l))).

Lemma layouts_ok : forallb layout_ok layouts = true.
Proof. by vm_compute. Qed.

Section laws.
Context {M P : Type} `{CapnpLaws M P}.

(** A value has the shape of a field's type; an element is kept modulo its
    width. *)
Definition shape_ok (f : field) (v : raw P) : Prop :=
  match v, data_width (f_type f) with
  | RElem _, Some _ => True
  | RPointer _, None => is_group (f_type f) = false
  | _, _ => False
  end.

Definition kept (f : field) (v : raw P) : raw P :=
  match v, data_width (f_type f) with
  | RElem v, Some w => RElem (v mod 2 ^ w)
  | _, _ => v
  end.

(** The struct of a layout. *)
Definition fits (l : layout) (m : M) : Prop :=
  words_of m = l_words l ∧ pointers_of m = l_pointers l.

Lemma elem_inb_spec w i n : elem_inb w i n = true → elem_in w i n.
Proof. unfold elem_inb, elem_in. intros. bool_facts. lia. Qed.

(** Writing the discriminant of a member leaves the elements it is apart from, and
    every pointer. *)
Lemma set_which_fits l f m : fits l m → fits l (set_which l f m).
Proof.
  intros [Hw Hp]. unfold fits, set_which. destruct (l_which l), (f_discriminant f); try done.
  by rewrite set_elem_words, set_elem_pointers.
Qed.

Lemma set_which_pointer l f m j : get_pointer j (set_which l f m) = get_pointer j m.
Proof.
  unfold set_which. destruct (l_which l), (f_discriminant f); try done. apply get_pointer_set_elem.
Qed.

Lemma set_which_raw l f g m :
  fits l m → which_ok l g = true → field_in l g = true → get_raw g (set_which l f m) = get_raw g m.
Proof.
  intros [Hw _] Hk Hin. unfold get_raw. destruct (is_group (f_type g)) eqn:Hg; [done|].
  unfold field_in in Hin. rewrite Hg in Hin. cbn [orb] in Hin.
  destruct (data_width (f_type g)) as [w|] eqn:Ht; [|by rewrite set_which_pointer].
  unfold set_which, which_ok in *. destruct (l_which l) as [o|]; [|by destruct (f_discriminant f)].
  destruct (f_discriminant f) as [d|]; [|done]. rewrite Ht in Hk. bool_facts.
  apply elem_inb_spec in Hin. match goal with H : elem_inb 16 _ _ = true |- _ => apply elem_inb_spec in H end.
  rewrite get_set_elem_apart; [done|by rewrite Hw..|]. unfold elem_apart.
  match goal with H : (_ || _)%bool = true |- _ => apply orb_true_iff in H as [H|H] end; bool_facts; lia.
Qed.

(** What one write does to the fields of a well-formed layout. *)
Lemma set_raw_same l f v m :
  fits l m → field_in l f = true → shape_ok f v → get_raw f (set_raw l f v m) = kept f v.
Proof.
  intros Hf Hin Hs. pose proof (set_which_fits l f m Hf) as [Hw Hp].
  unfold shape_ok, get_raw, set_raw, kept, field_in in *.
  destruct (is_group (f_type f)) eqn:Hg.
  { destruct (f_type f); try done. by destruct v. }
  cbn [orb] in Hin. destruct v as [v|p|], (data_width (f_type f)) as [w|]; try done.
  - rewrite get_set_elem; [done|]. rewrite Hw. by apply elem_inb_spec.
  - rewrite get_set_pointer; [done|]. rewrite Hp. by apply Nat.ltb_lt.
Qed.

Lemma set_raw_apart l f g v m :
  fits l m → field_in l f = true → field_in l g = true → which_ok l g = true →
  is_group (f_type f) = false → apart f g = true →
  get_raw g (set_raw l f v m) = get_raw g m.
Proof.
  intros Hf Hinf Hing Hk Hgf Ha. rewrite <- (set_which_raw l f g m Hf Hk Hing).
  pose proof (set_which_fits l f m Hf) as [Hw Hp].
  unfold set_raw, get_raw, field_in, apart in *. rewrite Hgf in Hinf.
  destruct (is_group (f_type g)) eqn:Hg; [done|]. cbn [orb] in *.
  destruct v as [v|p|], (data_width (f_type f)) as [w|], (data_width (f_type g)) as [w'|]; try done.
  - rewrite get_set_elem_apart; [done|rewrite Hw; by apply elem_inb_spec..|].
    unfold elem_apart. apply orb_true_iff in Ha as [Ha|Ha]; bool_facts; lia.
  - by rewrite get_pointer_set_elem.
  - by rewrite get_elem_set_pointer.
  - rewrite get_set_pointer_ne; [done|]. bool_facts. congruence.
Qed.

Lemma layout_ok_field l f : layout_ok l = true → f ∈ l_fields l → field_in l f = true ∧ which_ok l f = true.
Proof.
  intros [Hl _]%andb_true_iff Hf%list_elem_of_In. rewrite forallb_forall in Hl.
  by apply andb_true_iff, Hl.
Qed.

Lemma layout_ok_apart l i j f g :
  layout_ok l = true → l_fields l !! i = Some f → l_fields l !! j = Some g → i ≠ j →
  is_group (f_type f) = false → is_group (f_type g) = false →
  is_member f && is_member g = false → apart f g = true.
Proof.
  intros [_ Hl]%andb_true_iff Hi Hj Hne Hf Hg Hm. rewrite forallb_forall in Hl.
  specialize (Hl i). rewrite forallb_forall in Hl by (apply in_seq; apply lookup_lt_Some in Hi; lia).
  specialize (Hl ltac:(apply in_seq; apply lookup_lt_Some in Hi; lia) j).
  rewrite Hi, Hj, Hf, Hg, Hm in Hl. rewrite (proj2 (Nat.eqb_neq _ _)) in Hl by done.
  cbn [orb] in Hl. rewrite orb_false_r in Hl. apply Hl, in_seq.
  apply lookup_lt_Some in Hj. lia.
Qed.

(** C39: the fields of every struct of the schema are independent: an accessor
    never touches the sections of another field. Writing a field (with its
    discriminant, for a member of the union) gives it the value, reduced to the
    width of its type, and leaves every other field that is not a member of the
    same union as it was. *)
Theorem fields_independent l i f v m :
  l ∈ layouts → fits l m → l_fields l !! i = Some f → is_group (f_type f) = false → shape_ok f v →
  get_raw f (set_raw l f v m) = kept f v
  ∧ fits l (set_raw l f v m)
  ∧ ∀ j g, l_fields l !! j = Some g → i ≠ j → is_member f && is_member g = false →
           get_raw g (set_raw l f v m) = get_raw g m.
Proof.
  intros Hl Hfit Hi Hgrp Hs.
  assert (layout_ok l = true) as Hok.
  { pose proof layouts_ok as Hall. rewrite forallb_forall in Hall. by apply Hall, list_elem_of_In. }
  destruct (layout_ok_field l f Hok (list_elem_of_lookup_2 _ _ _ Hi)) as [Hinf _].
  split; [by apply set_raw_same|]. split.
  - pose proof (set_which_fits l f m Hfit) as [Hw Hp]. unfold fits, set_raw.
    destruct v, (data_width (f_type f)); try done.
    + by rewrite set_elem_words, set_elem_pointers.
    + by rewrite set_pointer_words, set_pointer_pointers.
  - intros j g Hj Hne Hm. destruct (layout_ok_field l g Hok (list_elem_of_lookup_2 _ _ _ Hj)) as [Hing Hk].
    destruct (is_group (f_type g)) eqn:Hg; [unfold get_raw; by rewrite Hg|].
    apply set_raw_apart; try done. by eapply layout_ok_apart.
Qed.

(** An object that is taken out and put back leaves the field as it was, and the
    field is empty in between. *)
Lemma adopt_disown l f g m :
  fits l m → field_in l f = true → data_width (f_type f) = None → is_group (f_type f) = false →
  f_discriminant f = None →
  has f (disown f m).2 = false
  ∧ get_raw g (adopt l f (disown f m).1 (disown f m).2) = get_raw g m.
Proof.
  intros [Hw Hp] Hin Ht Hg Hd. unfold field_in in Hin. rewrite Hg, Ht in Hin. cbn [orb] in Hin.
  bool_facts.
  assert (∀ m' : M, set_which l f m' = m') as Hwhich.
  { intros m'. unfold set_which. rewrite Hd. by destruct (l_which l). }
  unfold has, is_set, disown, adopt. cbn [fst snd]. rewrite Hwhich, Hd. cbn [negb]. split.
  - by rewrite get_set_pointer, is_null_null by lia.
  - unfold get_raw. destruct (is_group (f_type g)); [done|].
    destruct (data_width (f_type g)); [by rewrite !get_elem_set_pointer|].
    destruct (decide (f_index g = f_index f)) as [->|];
      [by rewrite get_set_pointer by (rewrite set_pointer_pointers; lia)
      |by rewrite !get_set_pointer_ne by done].
Qed.

(** A cleared union is an [error] that is not there. *)
Lemma initResult_empty m :
  fits Result m →
  which (initResult m) = Result_ERROR ∧ has Result_error (initResult m) = false
  ∧ has Result_connectionDetails (initResult m) = false.
Proof.
  intros [Hw Hp]. cbn in Hw, Hp.
  assert (which (initResult m) = Result_ERROR) as Hwhich.
  { unfold which, initResult. rewrite get_elem_set_pointer, get_set_elem; [done|].
    unfold elem_in. rewrite Hw. lia. }
  split; [done|]. unfold has, is_set. cbn [f_discriminant Result_error Result_connectionDetails].
  rewrite Hwhich. cbn -[initResult get_pointer is_null]. split; [|done].
  unfold initResult. rewrite get_set_pointer; [by rewrite is_null_null|].
  rewrite set_elem_pointers. lia.
Qed.

(** Setting a member makes it the one that is there. *)
Lemma set_raw_is_set l f v m :
  fits l m → l_which l = Some 0 → f_discriminant f <> None → (0 < l_words l)%nat →
  data_width (f_type f) = None → (0 <= default 0 (f_discriminant f) < 2 ^ 16) →
  is_set f (set_raw l f v m) = true.
Proof.
  intros [Hw _] Hl Hd Hn Ht Hr. unfold is_set, set_raw, set_which, which. rewrite Hl, Ht.
  destruct (f_discriminant f) as [d|]; [|done]. cbn in Hr.
  assert (elem_in 16 0 (words_of m)) by (unfold elem_in; rewrite Hw; lia).
  destruct v; rewrite ?get_elem_set_pointer, get_set_elem, Z.mod_small by done;
    apply Z.eqb_refl.
Qed.

(** Compute what an accessor reads after a sequence of writes. *)
Ltac sizes :=
  rewrite ?set_elem_words, ?set_elem_pointers, ?set_pointer_words, ?set_pointer_pointers,
    ?init_words, ?init_pointers.

Ltac read_back :=
  repeat match goal with
  | |- context [get_pointer ?j (set_elem _ _ _ _)] => rewrite get_pointer_set_elem
  | |- context [get_elem _ _ (set_pointer _ _ _)] => rewrite get_elem_set_pointer
  | |- context [get_pointer ?j (set_pointer ?j _ _)] =>
      rewrite get_set_pointer by (repeat sizes; simpl; lia)
  | |- context [get_pointer ?j (set_pointer ?k _ _)] =>
      rewrite (get_set_pointer_ne j k) by done
  | |- context [get_elem ?w ?i (set_elem ?w ?i _ _)] =>
      rewrite (get_set_elem w i) by (unfold elem_in; repeat sizes; simpl; lia)
  | |- context [get_elem ?w ?i (set_elem ?w' ?i' _ _)] =>
      rewrite (get_set_elem_apart w i w' i') by
        (unfold elem_in, elem_apart; repeat sizes; simpl; lia)
  | |- context [to_struct (of_struct _)] => rewrite to_of_struct
  | |- context [to_data (of_data _)] => rewrite to_of_data
  | |- context [to_text (of_text _)] => rewrite to_of_text
  | |- context [to_texts (of_texts _)] => rewrite to_of_texts
  | |- context [get_elem _ _ (init_struct _ _)] => rewrite init_elem
  | |- context [get_pointer _ (init_struct _ _)] => rewrite init_pointer
  | |- context [get_elem _ _ (to_struct null)] => rewrite null_struct_elem
  | |- context [get_pointer _ (to_struct null)] => rewrite null_struct_pointer
  end.

Ltac open_accessors :=
  unfold initStruct, set_which, getStruct, getData, getText, getTexts, getUInt8, getInt64, getBool,
    setData, setText, setTexts, setUInt8, setInt64, setBool, which;
  cbn [l_which f_discriminant f_index l_words l_pointers].

Lemma fill_texts_id ts : fill_texts ts = ts.
Proof.
  unfold fill_texts. set (fill := λ (l : list text) i, <[i := nth i ts []]> l).
  assert (∀ n, (n ≤ length ts)%nat →
    foldl fill (replicate (length ts) []) (seq 0 n) = take n ts ++ replicate (length ts - n) []) as Hn.
  { induction n as [|n IH]; intros Hn; [by rewrite take_0, Nat.sub_0_r|].
    rewrite seq_S, foldl_app, IH by lia. cbn [foldl Nat.add]. unfold fill.
    rewrite insert_app_r_alt by (rewrite length_take; lia). rewrite length_take, Nat.min_l by lia.
    rewrite Nat.sub_diag. replace (length ts - n)%nat with (S (length ts - S n)) by lia.
    cbn [replicate]. destruct (lookup_lt_is_Some_2 ts n ltac:(lia)) as [x Hx].
    rewrite (take_S_r ts n x Hx), <- app_assoc. cbn. by rewrite (nth_lookup_Some _ _ _ _ Hx). }
  rewrite Hn, Nat.sub_diag by lia. rewrite firstn_all. apply app_nil_r.
Qed.

Lemma read_write_request req :
  read_request (write_request (M := M) (P := P) req)
  = build_request (mkRegisterRequest (auth req) (tunnel_uuid req) (u8 (conn_index req)) (version req)
                     (arch req) (features req)).
Proof.
  unfold read_request, write_request, build_request. rewrite fill_texts_id.
  open_accessors; cbn -[Z.modulo u8 Z.pow Z.of_nat]; read_back. reflexivity.
Qed.

(** The request survives the message: what [register_connection] writes through
    the builders is, read through the readers at the other end, the request of the
    abstract client, field by field, for every index that fits a byte (and modulo
    256 for the others); the options that the client does not set read as their
    defaults. *)
Theorem request_round_trip req :
  read_request (write_request (M := M) (P := P) req)
  = build_request (mkRegisterRequest (auth req) (tunnel_uuid req) (u8 (conn_index req)) (version req)
                     (arch req) (features req))
  ∧ let opts := getStruct RegisterConnectionParams_options (write_request req) in
    getBool ConnectionOptions_replaceExisting opts = false
    ∧ getData ConnectionOptions_originLocalIp opts = []
    ∧ getUInt8 ConnectionOptions_compressionQuality opts = 0
    ∧ getUInt8 ConnectionOptions_numPreviousAttempts opts = 0.
Proof.
  split; [apply read_write_request|]. cbv zeta. unfold write_request.
  split_and!; open_accessors; cbn -[Z.modulo u8 Z.pow Z.of_nat]; read_back;
    rewrite ?to_data_null; reflexivity.
Qed.

Lemma i64_id z : - 2 ^ 63 <= z < 2 ^ 63 → (z mod 2 ^ 64 + 2 ^ 63) mod 2 ^ 64 - 2 ^ 63 = z.
Proof.
  intros Hz. rewrite Z.add_mod_idemp_l by lia. rewrite Z.mod_small; lia.
Qed.

Lemma b2z_bit b : negb (Z.b2z b mod 2 ^ 1 =? 0) = b.
Proof. by destruct b. Qed.

(** A result that the fields can hold. *)
Definition result_ok (r : rpc_result) : Prop :=
  match r with
  | RpcError _ after _ => - 2 ^ 63 <= after < 2 ^ 63
  | _ => True
  end.

Lemma read_write_results r managed :
  result_ok r →
  read_results (write_results (M := M) (P := P) r managed)
  = match r with RpcException => RpcError [] 0 false | _ => r end.
Proof.
  intros Hr. unfold read_results, write_results. destruct r as [|uuid loc|cause after retry];
    open_accessors; cbn -[Z.modulo Z.pow Z.of_nat Z.sub]; read_back.
  - by rewrite to_text_null.
  - by change (Result_CONNECTION_DETAILS mod 2 ^ 16) with Result_CONNECTION_DETAILS.
  - change (Result_ERROR mod 2 ^ 16) with Result_ERROR. cbn -[Z.modulo Z.pow]. by rewrite i64_id, b2z_bit.
Qed.

(** [register_connection] over messages: [edge] answers a request with a message,
    or with an exception. *)
Definition register_message (edge : M → option M) (req : RegisterRequest) (out : RegisterResponse)
    (s : client) : errc * RegisterResponse :=
  register_connection
    (λ _, match edge (write_request req) with Some m => read_results m | None => RpcException end)
    req out s.

(** An edge that answers on values, with its messages. *)
Definition edge_of (rpc : rpc_request → rpc_result) (managed : bool) (m : M) : option M :=
  match rpc (read_request m) with
  | RpcException => None
  | r => Some (write_results r managed)
  end.

(** C38: the registration over messages refines the registration on values: with an
    edge that reads the request and writes its answer through the accessors of the
    schema, [register_connection] has the same error code and the same response as
    with the answer handed over directly, on every branch, the union and the
    signed 64-bit retry delay included. *)
Theorem register_message_refines rpc managed req out s :
  0 <= conn_index req < 256 → result_ok (rpc (build_request req)) →
  register_message (edge_of rpc managed) req out s = register_connection rpc req out s.
Proof.
  intros Hi Hr. unfold register_message, edge_of.
  assert (read_request (write_request (M := M) (P := P) req) = build_request req) as Hreq.
  { rewrite (read_write_request req). unfold build_request. cbn. rewrite u8_id; [done|].
    unfold byte_ok. lia. }
  rewrite Hreq. unfold register_connection. destruct (connection_ s); [|done].
  destruct (negb (handshake_ok_ s)); [done|].
  destruct (rpc (build_request req)) as [|uuid loc|cause after retry] eqn:He; [done| |];
    by rewrite read_write_results.
Qed.

(** The numbers of the calls are those the dispatcher of a server expects: each
    method's request reaches that method, and no other pair of numbers reaches
    any. *)
Theorem dispatch_spec i j m : dispatchCall i j = Some m ↔ method_call m = (i, j).
Proof.
  unfold dispatchCall, dispatchCallInternal. split.
  - intros Hd. repeat case_match; simplify_eq; bool_facts; by subst.
  - destruct m; intros [= <- <-]; by rewrite Z.eqb_refl.
Qed.
End laws.

(** ** Witnesses *)

Definition sample_request : RegisterRequest :=
  mkRegisterRequest (mkTunnelAuth (str "abc") [1; 2; 3]) (seqZ 0 16) 2 (str "cfd-cpp/0.1.0")
    (str "linux") [str "ha-origin"; str "quic-datagram-v3"].

Definition sample_rpc (r : rpc_request) : rpc_result :=
  if rpc_conn_index r =? 2 then RpcError (str "busy") (-1) true else RpcException.

Lemma request_round_trip_witness :
  rpc_features (read_request (write_request (M := message) (P := pointer) sample_request))
  = [str "ha-origin"; str "quic-datagram-v3"].
Proof. by rewrite (proj1 (request_round_trip (M := message) sample_request)). Defined.

Lemma register_message_refines_witness :
  register_message (edge_of (M := message) sample_rpc true) sample_request RegisterResponse_default
    connected
  = (permission_denied, mkRegisterResponse false (replicate 16 0) [] (str "busy") (-1) true).
Proof.
  rewrite (register_message_refines (M := message)); [by vm_compute|simpl; lia|simpl; lia].
Defined.

Lemma fields_independent_witness :
  let m := set_raw ConnectionError ConnectionError_shouldRetry (RElem 1)
             (init_struct (M := message) 2 1) in
  get_raw ConnectionError_shouldRetry m = RElem 1
  ∧ get_raw ConnectionError_retryAfter m = RElem 0.
Proof.
  cbv zeta.
  destruct (fields_independent (M := message) ConnectionError 2 ConnectionError_shouldRetry
    (RElem 1) (init_struct 2 1)) as (Hs & _ & Ho); [|done|done|done|done|].
  { apply list_elem_of_In. vm_compute. tauto. }
  split; [rewrite Hs; reflexivity|]. rewrite (Ho 1%nat ConnectionError_retryAfter); done.
Defined.
