(* ===== verification/TunnelSchemaData.v ===== *)
(** * The compiled schema

    The tables of [src/tunnelrpc.capnp.c++]: for each type of the schema the words
    of its description, as the schema compiler wrote them ([b_]), and the record
    the runtime is given for it ([s_]): the types it depends on, by their ids, the
    members by name, and the members by discriminant. [TunnelSchema] reads them. *)
From S2P Require Import Prelude.
Local Open Scope Z_scope.

(** The parts of [::capnp::_::RawSchema] that the tables fill. *)
Record RawSchema := mkRawSchema {
  rs_id : Z;
  rs_bytes : list Z;
  rs_dependencies : list Z;
  rs_members_by_name : list nat;
  rs_members_by_discriminant : list nat;
}.

Definition b_83ced0145b2f114b : list Z :=
  [0; 0; 0; 0; 6; 0; 6; 0;
   75; 17; 47; 91; 20; 208; 206; 131;
   16; 0; 0; 0; 1; 0; 0; 0;
   126; 188; 74; 20; 249; 116; 130; 219;
   4; 0; 7; 0; 0; 0; 0; 0;
   0; 0; 0; 0; 0; 0; 0; 0;
   189; 1; 0; 0; 172; 2; 0; 0;
   21; 0; 0; 0; 218; 0; 0; 0;
   33; 0; 0; 0; 7; 0; 0; 0;
   0; 0; 0; 0; 0; 0; 0; 0;
   29; 0; 0; 0; 231; 0; 0; 0;
   0; 0; 0; 0; 0; 0; 0; 0;
   0; 0; 0; 0; 0; 0; 0; 0;
   116; 117; 110; 110; 101; 108; 114; 112;
   99; 46; 99; 97; 112; 110; 112; 58;
   67; 108; 105; 101; 110; 116; 73; 110;
   102; 111; 0; 0; 0; 0; 0; 0;
   0; 0; 0; 0; 1; 0; 1; 0;
   16; 0; 0; 0; 3; 0; 4; 0;
   0; 0; 0; 0; 0; 0; 0; 0;
   0; 0; 1; 0; 0; 0; 0; 0;
   0; 0; 0; 0; 0; 0; 0; 0;
   97; 0; 0; 0; 74; 0; 0; 0;
   0; 0; 0; 0; 0; 0; 0; 0;
   96; 0; 0; 0; 3; 0; 1; 0;
   108; 0; 0; 0; 2; 0; 1; 0;
   1; 0; 0; 0; 1; 0; 0; 0;
   0; 0; 1; 0; 1; 0; 0; 0;
   0; 0; 0; 0; 0; 0; 0; 0;
   105; 0; 0; 0; 74; 0; 0; 0;
   0; 0; 0; 0; 0; 0; 0; 0;
   104; 0; 0; 0; 3; 0; 1; 0;
   132; 0; 0; 0; 2; 0; 1; 0;
   2; 0; 0; 0; 2; 0; 0; 0;
   0; 0; 1; 0; 2; 0; 0; 0;
   0; 0; 0; 0; 0; 0; 0; 0;
   129; 0; 0; 0; 66; 0; 0; 0;
   0; 0; 0; 0; 0; 0; 0; 0;
   124; 0; 0; 0; 3; 0; 1; 0;
   136; 0; 0; 0; 2; 0; 1; 0;
   3; 0; 0; 0; 3; 0; 0; 0;
   0; 0; 1; 0; 3; 0; 0; 0;
   0; 0; 0; 0; 0; 0; 0; 0;
   133; 0; 0; 0; 42; 0; 0; 0;
   0; 0; 0; 0; 0; 0; 0; 0;
   128; 0; 0; 0; 3; 0; 1; 0;
   140; 0; 0; 0; 2; 0; 1; 0;
   99; 108; 105; 101; 110; 116; 73; 100;
   0; 0; 0; 0; 0; 0; 0; 0;
   13; 0; 0; 0; 0; 0; 0; 0;
   0; 0; 0; 0; 0; 0; 0; 0;
   0; 0; 0; 0; 0; 0; 0; 0;
   0; 0; 0; 0; 0; 0; 0; 0;
   13; 0; 0; 0; 0; 0; 0; 0;
   0; 0; 0; 0; 0; 0; 0; 0;
   0; 0; 0; 0; 0; 0; 0; 0;
   102; 101; 97; 116; 117; 114; 101; 115;
   0; 0; 0; 0; 0; 0; 0; 0;
   14; 0; 0; 0; 0; 0; 0; 0;
   0; 0; 0; 0; 0; 0; 0; 0;
   0; 0; 0; 0; 0; 0; 0; 0;
   0; 0; 0; 0; 3; 0; 1; 0;
   12; 0; 0; 0; 0; 0; 0; 0;
   0; 0; 0; 0; 0; 0; 0; 0;
   0; 0; 0; 0; 0; 0; 0; 0;
   0; 0; 0; 0; 0; 0; 0; 0;
   14; 0; 0; 0; 0; 0; 0; 0;
   0; 0; 0; 0; 0; 0; 0; 0;
   0; 0; 0; 0; 0; 0; 0; 0;
   118; 101; 114; 115; 105; 111; 110; 0;
   12; 0; 0; 0; 0; 0; 0; 0;
   0; 0; 0; 0; 0; 0; 0; 0;
   0; 0; 0; 0; 0; 0; 0; 0;
   0; 0; 0; 0; 0; 0; 0; 0;
   12; 0; 0; 0; 0; 0; 0; 0;
   0; 0; 0; 0; 0; 0; 0; 0;
   0; 0; 0; 0; 0; 0; 0; 0;
   97; 114; 99; 104; 0; 0; 0; 0;
   12; 0; 0; 0; 0; 0; 0; 0;
   0; 0; 0; 0; 0; 0; 0; 0;
   0; 0; 0; 0; 0; 0; 0; 0;
   0; 0; 0; 0; 0; 0; 0; 0;
   12; 0; 0; 0; 0; 0; 0; 0;
   0; 0; 0; 0; 0; 0; 0; 0;
   0; 0; 0; 0; 0; 0; 0; 0].

Definition b_b4bf9861fe035d04 : list Z :=
  [0; 0; 0; 0; 6; 0; 6; 0;
   4; 93; 3; 254; 97; 152; 191; 180;
   16; 0; 0; 0; 1; 0; 1; 0;
   126; 188; 74; 20; 249; 116; 130; 219;
   2; 0; 7; 0; 0; 0; 0; 0;
   0; 0; 0; 0; 0; 0; 0; 0;
   174; 2; 0; 0; 144; 3; 0; 0;
   21; 0; 0; 0; 18; 1; 0; 0;
   37; 0; 0; 0; 7; 0; 0; 0;
   0; 0; 0; 0; 0; 0; 0; 0;
   33; 0; 0; 0; 31; 1; 0; 0;
   0; 0; 0; 0; 0; 0; 0; 0;
   0; 0; 0; 0; 0; 0; 0; 0;
   116; 117; 110; 110; 101; 108; 114; 112;
   99; 46; 99; 97; 112; 110; 112; 58;
   67; 111; 110; 110; 101; 99; 116; 105;
   111; 110; 79; 112; 116; 105; 111; 110;
   115; 0; 0; 0; 0; 0; 0; 0;
   0; 0; 0; 0; 1; 0; 1; 0;
   20; 0; 0; 0; 3; 0; 4; 0;
   0; 0; 0; 0; 0; 0; 0; 0;
   0; 0; 1; 0; 0; 0; 0; 0;
   0; 0; 0; 0; 0; 0; 0; 0;
   125; 0; 0; 0; 58; 0; 0; 0;
   0; 0; 0; 0; 0; 0; 0; 0;
   120; 0; 0; 0; 3; 0; 1; 0;
   132; 0; 0; 0; 2; 0; 1; 0;
   1; 0; 0; 0; 1; 0; 0; 0;
   0; 0; 1; 0; 1; 0; 0; 0;
   0; 0; 0; 0; 0; 0; 0; 0;
   129; 0; 0; 0; 114; 0; 0; 0;
   0; 0; 0; 0; 0; 0; 0; 0;
   128; 0; 0; 0; 3; 0; 1; 0;
   140; 0; 0; 0; 2; 0; 1; 0;
   2; 0; 0; 0; 0; 0; 0; 0;
   0; 0; 1; 0; 2; 0; 0; 0;
   0; 0; 0; 0; 0; 0; 0; 0;
   137; 0; 0; 0; 130; 0; 0; 0;
   0; 0; 0; 0; 0; 0; 0; 0;
   136; 0; 0; 0; 3; 0; 1; 0;
   148; 0; 0; 0; 2; 0; 1; 0;
   3; 0; 0; 0; 1; 0; 0; 0;
   0; 0; 1; 0; 3; 0; 0; 0;
   0; 0; 0; 0; 0; 0; 0; 0;
   145; 0; 0; 0; 154; 0; 0; 0;
   0; 0; 0; 0; 0; 0; 0; 0;
   148; 0; 0; 0; 3; 0; 1; 0;
   160; 0; 0; 0; 2; 0; 1; 0;
   4; 0; 0; 0; 2; 0; 0; 0;
   0; 0; 1; 0; 4; 0; 0; 0;
   0; 0; 0; 0; 0; 0; 0; 0;
   157; 0; 0; 0; 162; 0; 0; 0;
   0; 0; 0; 0; 0; 0; 0; 0;
   160; 0; 0; 0; 3; 0; 1; 0;
   172; 0; 0; 0; 2; 0; 1; 0;
   99; 108; 105; 101; 110; 116; 0; 0;
   16; 0; 0; 0; 0; 0; 0; 0;
   75; 17; 47; 91; 20; 208; 206; 131;
   0; 0; 0; 0; 0; 0; 0; 0;
   0; 0; 0; 0; 0; 0; 0; 0;
   16; 0; 0; 0; 0; 0; 0; 0;
   0; 0; 0; 0; 0; 0; 0; 0;
   0; 0; 0; 0; 0; 0; 0; 0;
   111; 114; 105; 103; 105; 110; 76; 111;
   99; 97; 108; 73; 112; 0; 0; 0;
   13; 0; 0; 0; 0; 0; 0; 0;
   0; 0; 0; 0; 0; 0; 0; 0;
   0; 0; 0; 0; 0; 0; 0; 0;
   0; 0; 0; 0; 0; 0; 0; 0;
   13; 0; 0; 0; 0; 0; 0; 0;
   0; 0; 0; 0; 0; 0; 0; 0;
   0; 0; 0; 0; 0; 0; 0; 0;
   114; 101; 112; 108; 97; 99; 101; 69;
   120; 105; 115; 116; 105; 110; 103; 0;
   1; 0; 0; 0; 0; 0; 0; 0;
   0; 0; 0; 0; 0; 0; 0; 0;
   0; 0; 0; 0; 0; 0; 0; 0;
   0; 0; 0; 0; 0; 0; 0; 0;
   1; 0; 0; 0; 0; 0; 0; 0;
   0; 0; 0; 0; 0; 0; 0; 0;
   0; 0; 0; 0; 0; 0; 0; 0;
   99; 111; 109; 112; 114; 101; 115; 115;
   105; 111; 110; 81; 117; 97; 108; 105;
   116; 121; 0; 0; 0; 0; 0; 0;
   6; 0; 0; 0; 0; 0; 0; 0;
   0; 0; 0; 0; 0; 0; 0; 0;
   0; 0; 0; 0; 0; 0; 0; 0;
   0; 0; 0; 0; 0; 0; 0; 0;
   6; 0; 0; 0; 0; 0; 0; 0;
   0; 0; 0; 0; 0; 0; 0; 0;
   0; 0; 0; 0; 0; 0; 0; 0;
   110; 117; 109; 80; 114; 101; 118; 105;
   111; 117; 115; 65; 116; 116; 101; 109;
   112; 116; 115; 0; 0; 0; 0; 0;
   6; 0; 0; 0; 0; 0; 0; 0;
   0; 0; 0; 0; 0; 0; 0; 0;
   0; 0; 0; 0; 0; 0; 0; 0;
   0; 0; 0; 0; 0; 0; 0; 0;
   6; 0; 0; 0; 0; 0; 0; 0;
   0; 0; 0; 0; 0; 0; 0; 0;
   0; 0; 0; 0; 0; 0; 0; 0].

Definition b_b5f39f082b9ac18a : list Z :=
  [0; 0; 0; 0; 6; 0; 6; 0;
   138; 193; 154; 43; 8; 159; 243; 181;
   16; 0; 0; 0; 1; 0; 1; 0;
   126; 188; 74; 20; 249; 116; 130; 219;
   2; 0; 7; 0; 0; 0; 0; 0;
   0; 0; 0; 0; 0; 0; 0; 0;
   146; 3; 0; 0; 61; 4; 0; 0;
   21; 0; 0; 0; 18; 1; 0; 0;
   37; 0; 0; 0; 7; 0; 0; 0;
   0; 0; 0; 0; 0; 0; 0; 0;
   33; 0; 0; 0; 175; 0; 0; 0;
   0; 0; 0; 0; 0; 0; 0; 0;
   0; 0; 0; 0; 0; 0; 0; 0;
   116; 117; 110; 110; 101; 108; 114; 112;
   99; 46; 99; 97; 112; 110; 112; 58;
   67; 111; 110; 110; 101; 99; 116; 105;
   111; 110; 68; 101; 116; 97; 105; 108;
   115; 0; 0; 0; 0; 0; 0; 0;
   0; 0; 0; 0; 1; 0; 1; 0;
   12; 0; 0; 0; 3; 0; 4; 0;
   0; 0; 0; 0; 0; 0; 0; 0;
   0; 0; 1; 0; 0; 0; 0; 0;
   0; 0; 0; 0; 0; 0; 0; 0;
   69; 0; 0; 0; 42; 0; 0; 0;
   0; 0; 0; 0; 0; 0; 0; 0;
   64; 0; 0; 0; 3; 0; 1; 0;
   76; 0; 0; 0; 2; 0; 1; 0;
   1; 0; 0; 0; 1; 0; 0; 0;
   0; 0; 1; 0; 1; 0; 0; 0;
   0; 0; 0; 0; 0; 0; 0; 0;
   73; 0; 0; 0; 106; 0; 0; 0;
   0; 0; 0; 0; 0; 0; 0; 0;
   72; 0; 0; 0; 3; 0; 1; 0;
   84; 0; 0; 0; 2; 0; 1; 0;
   2; 0; 0; 0; 0; 0; 0; 0;
   0; 0; 1; 0; 2; 0; 0; 0;
   0; 0; 0; 0; 0; 0; 0; 0;
   81; 0; 0; 0; 194; 0; 0; 0;
   0; 0; 0; 0; 0; 0; 0; 0;
   84; 0; 0; 0; 3; 0; 1; 0;
   96; 0; 0; 0; 2; 0; 1; 0;
   117; 117; 105; 100; 0; 0; 0; 0;
   13; 0; 0; 0; 0; 0; 0; 0;
   0; 0; 0; 0; 0; 0; 0; 0;
   0; 0; 0; 0; 0; 0; 0; 0;
   0; 0; 0; 0; 0; 0; 0; 0;
   13; 0; 0; 0; 0; 0; 0; 0;
   0; 0; 0; 0; 0; 0; 0; 0;
   0; 0; 0; 0; 0; 0; 0; 0;
   108; 111; 99; 97; 116; 105; 111; 110;
   78; 97; 109; 101; 0; 0; 0; 0;
   12; 0; 0; 0; 0; 0; 0; 0;
   0; 0; 0; 0; 0; 0; 0; 0;
   0; 0; 0; 0; 0; 0; 0; 0;
   0; 0; 0; 0; 0; 0; 0; 0;
   12; 0; 0; 0; 0; 0; 0; 0;
   0; 0; 0; 0; 0; 0; 0; 0;
   0; 0; 0; 0; 0; 0; 0; 0;
   116; 117; 110; 110; 101; 108; 73; 115;
   82; 101; 109; 111; 116; 101; 108; 121;
   77; 97; 110; 97; 103; 101; 100; 0;
   1; 0; 0; 0; 0; 0; 0; 0;
   0; 0; 0; 0; 0; 0; 0; 0;
   0; 0; 0; 0; 0; 0; 0; 0;
   0; 0; 0; 0; 0; 0; 0; 0;
   1; 0; 0; 0; 0; 0; 0; 0;
   0; 0; 0; 0; 0; 0; 0; 0;
   0; 0; 0; 0; 0; 0; 0; 0].

Definition b_f5f383d2785edb86 : list Z :=
  [0; 0; 0; 0; 6; 0; 6; 0;
   134; 219; 94; 120; 210; 131; 243; 245;
   16; 0; 0; 0; 1; 0; 2; 0;
   126; 188; 74; 20; 249; 116; 130; 219;
   1; 0; 7; 0; 0; 0; 0; 0;
   0; 0; 0; 0; 0; 0; 0; 0;
   63; 4; 0; 0; 188; 4; 0; 0;
   21; 0; 0; 0; 2; 1; 0; 0;
   33; 0; 0; 0; 7; 0; 0; 0;
   0; 0; 0; 0; 0; 0; 0; 0;
   29; 0; 0; 0; 175; 0; 0; 0;
   0; 0; 0; 0; 0; 0; 0; 0;
   0; 0; 0; 0; 0; 0; 0; 0;
   116; 117; 110; 110; 101; 108; 114; 112;
   99; 46; 99; 97; 112; 110; 112; 58;
   67; 111; 110; 110; 101; 99; 116; 105;
   111; 110; 69; 114; 114; 111; 114; 0;
   0; 0; 0; 0; 1; 0; 1; 0;
   12; 0; 0; 0; 3; 0; 4; 0;
   0; 0; 0; 0; 0; 0; 0; 0;
   0; 0; 1; 0; 0; 0; 0; 0;
   0; 0; 0; 0; 0; 0; 0; 0;
   69; 0; 0; 0; 50; 0; 0; 0;
   0; 0; 0; 0; 0; 0; 0; 0;
   64; 0; 0; 0; 3; 0; 1; 0;
   76; 0; 0; 0; 2; 0; 1; 0;
   1; 0; 0; 0; 0; 0; 0; 0;
   0; 0; 1; 0; 1; 0; 0; 0;
   0; 0; 0; 0; 0; 0; 0; 0;
   73; 0; 0; 0; 90; 0; 0; 0;
   0; 0; 0; 0; 0; 0; 0; 0;
   72; 0; 0; 0; 3; 0; 1; 0;
   84; 0; 0; 0; 2; 0; 1; 0;
   2; 0; 0; 0; 64; 0; 0; 0;
   0; 0; 1; 0; 2; 0; 0; 0;
   0; 0; 0; 0; 0; 0; 0; 0;
   81; 0; 0; 0; 98; 0; 0; 0;
   0; 0; 0; 0; 0; 0; 0; 0;
   80; 0; 0; 0; 3; 0; 1; 0;
   92; 0; 0; 0; 2; 0; 1; 0;
   99; 97; 117; 115; 101; 0; 0; 0;
   12; 0; 0; 0; 0; 0; 0; 0;
   0; 0; 0; 0; 0; 0; 0; 0;
   0; 0; 0; 0; 0; 0; 0; 0;
   0; 0; 0; 0; 0; 0; 0; 0;
   12; 0; 0; 0; 0; 0; 0; 0;
   0; 0; 0; 0; 0; 0; 0; 0;
   0; 0; 0; 0; 0; 0; 0; 0;
   114; 101; 116; 114; 121; 65; 102; 116;
   101; 114; 0; 0; 0; 0; 0; 0;
   5; 0; 0; 0; 0; 0; 0; 0;
   0; 0; 0; 0; 0; 0; 0; 0;
   0; 0; 0; 0; 0; 0; 0; 0;
   0; 0; 0; 0; 0; 0; 0; 0;
   5; 0; 0; 0; 0; 0; 0; 0;
   0; 0; 0; 0; 0; 0; 0; 0;
   0; 0; 0; 0; 0; 0; 0; 0;
   115; 104; 111; 117; 108; 100; 82; 101;
   116; 114; 121; 0; 0; 0; 0; 0;
   1; 0; 0; 0; 0; 0; 0; 0;
   0; 0; 0; 0; 0; 0; 0; 0;
   0; 0; 0; 0; 0; 0; 0; 0;
   0; 0; 0; 0; 0; 0; 0; 0;
   1; 0; 0; 0; 0; 0; 0; 0;
   0; 0; 0; 0; 0; 0; 0; 0;
   0; 0; 0; 0; 0; 0; 0; 0].

Definition b_dbaa9d03d52b62dc : list Z :=
  [0; 0; 0; 0; 6; 0; 6; 0;
   220; 98; 43; 213; 3; 157; 170; 219;
   16; 0; 0; 0; 1; 0; 1; 0;
   126; 188; 74; 20; 249; 116; 130; 219;
   1; 0; 7; 0; 0; 0; 0; 0;
   0; 0; 0; 0; 0; 0; 0; 0;
   190; 4; 0; 0; 105; 5; 0; 0;
   21; 0; 0; 0; 26; 1; 0; 0;
   37; 0; 0; 0; 7; 0; 0; 0;
   0; 0; 0; 0; 0; 0; 0; 0;
   33; 0; 0; 0; 63; 0; 0; 0;
   0; 0; 0; 0; 0; 0; 0; 0;
   0; 0; 0; 0; 0; 0; 0; 0;
   116; 117; 110; 110; 101; 108; 114; 112;
   99; 46; 99; 97; 112; 110; 112; 58;
   67; 111; 110; 110; 101; 99; 116; 105;
   111; 110; 82; 101; 115; 112; 111; 110;
   115; 101; 0; 0; 0; 0; 0; 0;
   0; 0; 0; 0; 1; 0; 1; 0;
   4; 0; 0; 0; 3; 0; 4; 0;
   0; 0; 0; 0; 0; 0; 0; 0;
   1; 0; 0; 0; 0; 0; 0; 0;
   34; 118; 37; 96; 194; 197; 179; 151;
   13; 0; 0; 0; 58; 0; 0; 0;
   0; 0; 0; 0; 0; 0; 0; 0;
   0; 0; 0; 0; 0; 0; 0; 0;
   0; 0; 0; 0; 0; 0; 0; 0;
   114; 101; 115; 117; 108; 116; 0; 0].

Definition b_97b3c5c260257622 : list Z :=
  [0; 0; 0; 0; 6; 0; 6; 0;
   34; 118; 37; 96; 194; 197; 179; 151;
   35; 0; 0; 0; 1; 0; 1; 0;
   220; 98; 43; 213; 3; 157; 170; 219;
   1; 0; 7; 0; 1; 0; 2; 0;
   0; 0; 0; 0; 0; 0; 0; 0;
   0; 0; 0; 0; 0; 0; 0; 0;
   21; 0; 0; 0; 82; 1; 0; 0;
   0; 0; 0; 0; 0; 0; 0; 0;
   0; 0; 0; 0; 0; 0; 0; 0;
   33; 0; 0; 0; 119; 0; 0; 0;
   0; 0; 0; 0; 0; 0; 0; 0;
   0; 0; 0; 0; 0; 0; 0; 0;
   116; 117; 110; 110; 101; 108; 114; 112;
   99; 46; 99; 97; 112; 110; 112; 58;
   67; 111; 110; 110; 101; 99; 116; 105;
   111; 110; 82; 101; 115; 112; 111; 110;
   115; 101; 46; 114; 101; 115; 117; 108;
   116; 0; 0; 0; 0; 0; 0; 0;
   8; 0; 0; 0; 3; 0; 4; 0;
   0; 0; 255; 255; 0; 0; 0; 0;
   0; 0; 1; 0; 0; 0; 0; 0;
   0; 0; 0; 0; 0; 0; 0; 0;
   41; 0; 0; 0; 50; 0; 0; 0;
   0; 0; 0; 0; 0; 0; 0; 0;
   36; 0; 0; 0; 3; 0; 1; 0;
   48; 0; 0; 0; 2; 0; 1; 0;
   1; 0; 254; 255; 0; 0; 0; 0;
   0; 0; 1; 0; 1; 0; 0; 0;
   0; 0; 0; 0; 0; 0; 0; 0;
   45; 0; 0; 0; 146; 0; 0; 0;
   0; 0; 0; 0; 0; 0; 0; 0;
   48; 0; 0; 0; 3; 0; 1; 0;
   60; 0; 0; 0; 2; 0; 1; 0;
   101; 114; 114; 111; 114; 0; 0; 0;
   16; 0; 0; 0; 0; 0; 0; 0;
   134; 219; 94; 120; 210; 131; 243; 245;
   0; 0; 0; 0; 0; 0; 0; 0;
   0; 0; 0; 0; 0; 0; 0; 0;
   16; 0; 0; 0; 0; 0; 0; 0;
   0; 0; 0; 0; 0; 0; 0; 0;
   0; 0; 0; 0; 0; 0; 0; 0;
   99; 111; 110; 110; 101; 99; 116; 105;
   111; 110; 68; 101; 116; 97; 105; 108;
   115; 0; 0; 0; 0; 0; 0; 0;
   16; 0; 0; 0; 0; 0; 0; 0;
   138; 193; 154; 43; 8; 159; 243; 181;
   0; 0; 0; 0; 0; 0; 0; 0;
   0; 0; 0; 0; 0; 0; 0; 0;
   16; 0; 0; 0; 0; 0; 0; 0;
   0; 0; 0; 0; 0; 0; 0; 0;
   0; 0; 0; 0; 0; 0; 0; 0].

Definition b_9496331ab9cd463f : list Z :=
  [0; 0; 0; 0; 6; 0; 6; 0;
   63; 70; 205; 185; 26; 51; 150; 148;
   16; 0; 0; 0; 1; 0; 0; 0;
   126; 188; 74; 20; 249; 116; 130; 219;
   2; 0; 7; 0; 0; 0; 0; 0;
   0; 0; 0; 0; 0; 0; 0; 0;
   107; 5; 0; 0; 247; 5; 0; 0;
   21; 0; 0; 0; 218; 0; 0; 0;
   33; 0; 0; 0; 7; 0; 0; 0;
   0; 0; 0; 0; 0; 0; 0; 0;
   29; 0; 0; 0; 119; 0; 0; 0;
   0; 0; 0; 0; 0; 0; 0; 0;
   0; 0; 0; 0; 0; 0; 0; 0;
   116; 117; 110; 110; 101; 108; 114; 112;
   99; 46; 99; 97; 112; 110; 112; 58;
   84; 117; 110; 110; 101; 108; 65; 117;
   116; 104; 0; 0; 0; 0; 0; 0;
   0; 0; 0; 0; 1; 0; 1; 0;
   8; 0; 0; 0; 3; 0; 4; 0;
   0; 0; 0; 0; 0; 0; 0; 0;
   0; 0; 1; 0; 0; 0; 0; 0;
   0; 0; 0; 0; 0; 0; 0; 0;
   41; 0; 0; 0; 90; 0; 0; 0;
   0; 0; 0; 0; 0; 0; 0; 0;
   40; 0; 0; 0; 3; 0; 1; 0;
   52; 0; 0; 0; 2; 0; 1; 0;
   1; 0; 0; 0; 1; 0; 0; 0;
   0; 0; 1; 0; 1; 0; 0; 0;
   0; 0; 0; 0; 0; 0; 0; 0;
   49; 0; 0; 0; 106; 0; 0; 0;
   0; 0; 0; 0; 0; 0; 0; 0;
   48; 0; 0; 0; 3; 0; 1; 0;
   60; 0; 0; 0; 2; 0; 1; 0;
   97; 99; 99; 111; 117; 110; 116; 84;
   97; 103; 0; 0; 0; 0; 0; 0;
   12; 0; 0; 0; 0; 0; 0; 0;
   0; 0; 0; 0; 0; 0; 0; 0;
   0; 0; 0; 0; 0; 0; 0; 0;
   0; 0; 0; 0; 0; 0; 0; 0;
   12; 0; 0; 0; 0; 0; 0; 0;
   0; 0; 0; 0; 0; 0; 0; 0;
   0; 0; 0; 0; 0; 0; 0; 0;
   116; 117; 110; 110; 101; 108; 83; 101;
   99; 114; 101; 116; 0; 0; 0; 0;
   13; 0; 0; 0; 0; 0; 0; 0;
   0; 0; 0; 0; 0; 0; 0; 0;
   0; 0; 0; 0; 0; 0; 0; 0;
   0; 0; 0; 0; 0; 0; 0; 0;
   13; 0; 0; 0; 0; 0; 0; 0;
   0; 0; 0; 0; 0; 0; 0; 0;
   0; 0; 0; 0; 0; 0; 0; 0].

Definition b_f71695ec7fe85497 : list Z :=
  [0; 0; 0; 0; 6; 0; 6; 0;
   151; 84; 232; 127; 236; 149; 22; 247;
   16; 0; 0; 0; 3; 0; 0; 0;
   126; 188; 74; 20; 249; 116; 130; 219;
   0; 0; 0; 0; 0; 0; 0; 0;
   0; 0; 0; 0; 0; 0; 0; 0;
   249; 5; 0; 0; 70; 7; 0; 0;
   21; 0; 0; 0; 26; 1; 0; 0;
   37; 0; 0; 0; 7; 0; 0; 0;
   0; 0; 0; 0; 0; 0; 0; 0;
   33; 0; 0; 0; 199; 0; 0; 0;
   181; 0; 0; 0; 7; 0; 0; 0;
   0; 0; 0; 0; 0; 0; 0; 0;
   116; 117; 110; 110; 101; 108; 114; 112;
   99; 46; 99; 97; 112; 110; 112; 58;
   82; 101; 103; 105; 115; 116; 114; 97;
   116; 105; 111; 110; 83; 101; 114; 118;
   101; 114; 0; 0; 0; 0; 0; 0;
   0; 0; 0; 0; 1; 0; 1; 0;
   12; 0; 0; 0; 3; 0; 5; 0;
   0; 0; 0; 0; 0; 0; 0; 0;
   238; 166; 234; 143; 236; 109; 100; 230;
   23; 31; 13; 69; 34; 216; 80; 234;
   81; 0; 0; 0; 154; 0; 0; 0;
   0; 0; 0; 0; 0; 0; 0; 0;
   0; 0; 0; 0; 0; 0; 0; 0;
   0; 0; 0; 0; 0; 0; 0; 0;
   77; 0; 0; 0; 7; 0; 0; 0;
   1; 0; 0; 0; 0; 0; 0; 0;
   208; 7; 163; 49; 68; 127; 203; 249;
   173; 30; 75; 9; 120; 229; 70; 176;
   65; 0; 0; 0; 170; 0; 0; 0;
   0; 0; 0; 0; 0; 0; 0; 0;
   0; 0; 0; 0; 0; 0; 0; 0;
   0; 0; 0; 0; 0; 0; 0; 0;
   61; 0; 0; 0; 7; 0; 0; 0;
   2; 0; 0; 0; 0; 0; 0; 0;
   4; 54; 106; 135; 17; 227; 214; 197;
   190; 215; 151; 104; 93; 174; 206; 229;
   49; 0; 0; 0; 202; 0; 0; 0;
   0; 0; 0; 0; 0; 0; 0; 0;
   0; 0; 0; 0; 0; 0; 0; 0;
   0; 0; 0; 0; 0; 0; 0; 0;
   49; 0; 0; 0; 7; 0; 0; 0;
   114; 101; 103; 105; 115; 116; 101; 114;
   67; 111; 110; 110; 101; 99; 116; 105;
   111; 110; 0; 0; 0; 0; 0; 0;
   0; 0; 0; 0; 0; 0; 1; 0;
   117; 110; 114; 101; 103; 105; 115; 116;
   101; 114; 67; 111; 110; 110; 101; 99;
   116; 105; 111; 110; 0; 0; 0; 0;
   0; 0; 0; 0; 0; 0; 1; 0;
   117; 112; 100; 97; 116; 101; 76; 111;
   99; 97; 108; 67; 111; 110; 102; 105;
   103; 117; 114; 97; 116; 105; 111; 110;
   0; 0; 0; 0; 0; 0; 0; 0;
   0; 0; 0; 0; 0; 0; 1; 0;
   0; 0; 0; 0; 1; 0; 1; 0].

Definition b_e6646dec8feaa6ee : list Z :=
  [0; 0; 0; 0; 6; 0; 6; 0;
   238; 166; 234; 143; 236; 109; 100; 230;
   35; 0; 0; 0; 1; 0; 1; 0;
   0; 0; 0; 0; 0; 0; 0; 0;
   3; 0; 7; 0; 0; 0; 0; 0;
   0; 0; 0; 0; 0; 0; 0; 0;
   0; 0; 0; 0; 0; 0; 0; 0;
   21; 0; 0; 0; 234; 1; 0; 0;
   0; 0; 0; 0; 0; 0; 0; 0;
   0; 0; 0; 0; 0; 0; 0; 0;
   41; 0; 0; 0; 231; 0; 0; 0;
   0; 0; 0; 0; 0; 0; 0; 0;
   0; 0; 0; 0; 0; 0; 0; 0;
   116; 117; 110; 110; 101; 108; 114; 112;
   99; 46; 99; 97; 112; 110; 112; 58;
   82; 101; 103; 105; 115; 116; 114; 97;
   116; 105; 111; 110; 83; 101; 114; 118;
   101; 114; 46; 114; 101; 103; 105; 115;
   116; 101; 114; 67; 111; 110; 110; 101;
   99; 116; 105; 111; 110; 36; 80; 97;
   114; 97; 109; 115; 0; 0; 0; 0;
   16; 0; 0; 0; 3; 0; 4; 0;
   0; 0; 0; 0; 0; 0; 0; 0;
   0; 0; 1; 0; 0; 0; 0; 0;
   0; 0; 0; 0; 0; 0; 0; 0;
   97; 0; 0; 0; 42; 0; 0; 0;
   0; 0; 0; 0; 0; 0; 0; 0;
   92; 0; 0; 0; 3; 0; 1; 0;
   104; 0; 0; 0; 2; 0; 1; 0;
   1; 0; 0; 0; 1; 0; 0; 0;
   0; 0; 1; 0; 1; 0; 0; 0;
   0; 0; 0; 0; 0; 0; 0; 0;
   101; 0; 0; 0; 74; 0; 0; 0;
   0; 0; 0; 0; 0; 0; 0; 0;
   100; 0; 0; 0; 3; 0; 1; 0;
   112; 0; 0; 0; 2; 0; 1; 0;
   2; 0; 0; 0; 0; 0; 0; 0;
   0; 0; 1; 0; 2; 0; 0; 0;
   0; 0; 0; 0; 0; 0; 0; 0;
   109; 0; 0; 0; 82; 0; 0; 0;
   0; 0; 0; 0; 0; 0; 0; 0;
   108; 0; 0; 0; 3; 0; 1; 0;
   120; 0; 0; 0; 2; 0; 1; 0;
   3; 0; 0; 0; 2; 0; 0; 0;
   0; 0; 1; 0; 3; 0; 0; 0;
   0; 0; 0; 0; 0; 0; 0; 0;
   117; 0; 0; 0; 66; 0; 0; 0;
   0; 0; 0; 0; 0; 0; 0; 0;
   112; 0; 0; 0; 3; 0; 1; 0;
   124; 0; 0; 0; 2; 0; 1; 0;
   97; 117; 116; 104; 0; 0; 0; 0;
   16; 0; 0; 0; 0; 0; 0; 0;
   63; 70; 205; 185; 26; 51; 150; 148;
   0; 0; 0; 0; 0; 0; 0; 0;
   0; 0; 0; 0; 0; 0; 0; 0;
   16; 0; 0; 0; 0; 0; 0; 0;
   0; 0; 0; 0; 0; 0; 0; 0;
   0; 0; 0; 0; 0; 0; 0; 0;
   116; 117; 110; 110; 101; 108; 73; 100;
   0; 0; 0; 0; 0; 0; 0; 0;
   13; 0; 0; 0; 0; 0; 0; 0;
   0; 0; 0; 0; 0; 0; 0; 0;
   0; 0; 0; 0; 0; 0; 0; 0;
   0; 0; 0; 0; 0; 0; 0; 0;
   13; 0; 0; 0; 0; 0; 0; 0;
   0; 0; 0; 0; 0; 0; 0; 0;
   0; 0; 0; 0; 0; 0; 0; 0;
   99; 111; 110; 110; 73; 110; 100; 101;
   120; 0; 0; 0; 0; 0; 0; 0;
   6; 0; 0; 0; 0; 0; 0; 0;
   0; 0; 0; 0; 0; 0; 0; 0;
   0; 0; 0; 0; 0; 0; 0; 0;
   0; 0; 0; 0; 0; 0; 0; 0;
   6; 0; 0; 0; 0; 0; 0; 0;
   0; 0; 0; 0; 0; 0; 0; 0;
   0; 0; 0; 0; 0; 0; 0; 0;
   111; 112; 116; 105; 111; 110; 115; 0;
   16; 0; 0; 0; 0; 0; 0; 0;
   4; 93; 3; 254; 97; 152; 191; 180;
   0; 0; 0; 0; 0; 0; 0; 0;
   0; 0; 0; 0; 0; 0; 0; 0;
   16; 0; 0; 0; 0; 0; 0; 0;
   0; 0; 0; 0; 0; 0; 0; 0;
   0; 0; 0; 0; 0; 0; 0; 0].

Definition b_ea50d822450d1f17 : list Z :=
  [0; 0; 0; 0; 6; 0; 6; 0;
   23; 31; 13; 69; 34; 216; 80; 234;
   35; 0; 0; 0; 1; 0; 0; 0;
   0; 0; 0; 0; 0; 0; 0; 0;
   1; 0; 7; 0; 0; 0; 0; 0;
   0; 0; 0; 0; 0; 0; 0; 0;
   0; 0; 0; 0; 0; 0; 0; 0;
   21; 0; 0; 0; 242; 1; 0; 0;
   0; 0; 0; 0; 0; 0; 0; 0;
   0; 0; 0; 0; 0; 0; 0; 0;
   41; 0; 0; 0; 63; 0; 0; 0;
   0; 0; 0; 0; 0; 0; 0; 0;
   0; 0; 0; 0; 0; 0; 0; 0;
   116; 117; 110; 110; 101; 108; 114; 112;
   99; 46; 99; 97; 112; 110; 112; 58;
   82; 101; 103; 105; 115; 116; 114; 97;
   116; 105; 111; 110; 83; 101; 114; 118;
   101; 114; 46; 114; 101; 103; 105; 115;
   116; 101; 114; 67; 111; 110; 110; 101;
   99; 116; 105; 111; 110; 36; 82; 101;
   115; 117; 108; 116; 115; 0; 0; 0;
   4; 0; 0; 0; 3; 0; 4; 0;
   0; 0; 0; 0; 0; 0; 0; 0;
   0; 0; 1; 0; 0; 0; 0; 0;
   0; 0; 0; 0; 0; 0; 0; 0;
   13; 0; 0; 0; 58; 0; 0; 0;
   0; 0; 0; 0; 0; 0; 0; 0;
   8; 0; 0; 0; 3; 0; 1; 0;
   20; 0; 0; 0; 2; 0; 1; 0;
   114; 101; 115; 117; 108; 116; 0; 0;
   16; 0; 0; 0; 0; 0; 0; 0;
   220; 98; 43; 213; 3; 157; 170; 219;
   0; 0; 0; 0; 0; 0; 0; 0;
   0; 0; 0; 0; 0; 0; 0; 0;
   16; 0; 0; 0; 0; 0; 0; 0;
   0; 0; 0; 0; 0; 0; 0; 0;
   0; 0; 0; 0; 0; 0; 0; 0].

Definition b_f9cb7f4431a307d0 : list Z :=
  [0; 0; 0; 0; 6; 0; 6; 0;
   208; 7; 163; 49; 68; 127; 203; 249;
   35; 0; 0; 0; 1; 0; 0; 0;
   0; 0; 0; 0; 0; 0; 0; 0;
   0; 0; 7; 0; 0; 0; 0; 0;
   0; 0; 0; 0; 0; 0; 0; 0;
   0; 0; 0; 0; 0; 0; 0; 0;
   21; 0; 0; 0; 250; 1; 0; 0;
   0; 0; 0; 0; 0; 0; 0; 0;
   0; 0; 0; 0; 0; 0; 0; 0;
   0; 0; 0; 0; 0; 0; 0; 0;
   0; 0; 0; 0; 0; 0; 0; 0;
   0; 0; 0; 0; 0; 0; 0; 0;
   116; 117; 110; 110; 101; 108; 114; 112;
   99; 46; 99; 97; 112; 110; 112; 58;
   82; 101; 103; 105; 115; 116; 114; 97;
   116; 105; 111; 110; 83; 101; 114; 118;
   101; 114; 46; 117; 110; 114; 101; 103;
   105; 115; 116; 101; 114; 67; 111; 110;
   110; 101; 99; 116; 105; 111; 110; 36;
   80; 97; 114; 97; 109; 115; 0; 0].

Definition b_b046e578094b1ead : list Z :=
  [0; 0; 0; 0; 6; 0; 6; 0;
   173; 30; 75; 9; 120; 229; 70; 176;
   35; 0; 0; 0; 1; 0; 0; 0;
   0; 0; 0; 0; 0; 0; 0; 0;
   0; 0; 7; 0; 0; 0; 0; 0;
   0; 0; 0; 0; 0; 0; 0; 0;
   0; 0; 0; 0; 0; 0; 0; 0;
   21; 0; 0; 0; 2; 2; 0; 0;
   0; 0; 0; 0; 0; 0; 0; 0;
   0; 0; 0; 0; 0; 0; 0; 0;
   0; 0; 0; 0; 0; 0; 0; 0;
   0; 0; 0; 0; 0; 0; 0; 0;
   0; 0; 0; 0; 0; 0; 0; 0;
   116; 117; 110; 110; 101; 108; 114; 112;
   99; 46; 99; 97; 112; 110; 112; 58;
   82; 101; 103; 105; 115; 116; 114; 97;
   116; 105; 111; 110; 83; 101; 114; 118;
   101; 114; 46; 117; 110; 114; 101; 103;
   105; 115; 116; 101; 114; 67; 111; 110;
   110; 101; 99; 116; 105; 111; 110; 36;
   82; 101; 115; 117; 108; 116; 115; 0].

Definition b_c5d6e311876a3604 : list Z :=
  [0; 0; 0; 0; 6; 0; 6; 0;
   4; 54; 106; 135; 17; 227; 214; 197;
   35; 0; 0; 0; 1; 0; 0; 0;
   0; 0; 0; 0; 0; 0; 0; 0;
   1; 0; 7; 0; 0; 0; 0; 0;
   0; 0; 0; 0; 0; 0; 0; 0;
   0; 0; 0; 0; 0; 0; 0; 0;
   21; 0; 0; 0; 26; 2; 0; 0;
   0; 0; 0; 0; 0; 0; 0; 0;
   0; 0; 0; 0; 0; 0; 0; 0;
   45; 0; 0; 0; 63; 0; 0; 0;
   0; 0; 0; 0; 0; 0; 0; 0;
   0; 0; 0; 0; 0; 0; 0; 0;
   116; 117; 110; 110; 101; 108; 114; 112;
   99; 46; 99; 97; 112; 110; 112; 58;
   82; 101; 103; 105; 115; 116; 114; 97;
   116; 105; 111; 110; 83; 101; 114; 118;
   101; 114; 46; 117; 112; 100; 97; 116;
   101; 76; 111; 99; 97; 108; 67; 111;
   110; 102; 105; 103; 117; 114; 97; 116;
   105; 111; 110; 36; 80; 97; 114; 97;
   109; 115; 0; 0; 0; 0; 0; 0;
   4; 0; 0; 0; 3; 0; 4; 0;
   0; 0; 0; 0; 0; 0; 0; 0;
   0; 0; 1; 0; 0; 0; 0; 0;
   0; 0; 0; 0; 0; 0; 0; 0;
   13; 0; 0; 0; 58; 0; 0; 0;
   0; 0; 0; 0; 0; 0; 0; 0;
   8; 0; 0; 0; 3; 0; 1; 0;
   20; 0; 0; 0; 2; 0; 1; 0;
   99; 111; 110; 102; 105; 103; 0; 0;
   13; 0; 0; 0; 0; 0; 0; 0;
   0; 0; 0; 0; 0; 0; 0; 0;
   0; 0; 0; 0; 0; 0; 0; 0;
   0; 0; 0; 0; 0; 0; 0; 0;
   13; 0; 0; 0; 0; 0; 0; 0;
   0; 0; 0; 0; 0; 0; 0; 0;
   0; 0; 0; 0; 0; 0; 0; 0].

Definition b_e5ceae5d6897d7be : list Z :=
  [0; 0; 0; 0; 6; 0; 6; 0;
   190; 215; 151; 104; 93; 174; 206; 229;
   35; 0; 0; 0; 1; 0; 0; 0;
   0; 0; 0; 0; 0; 0; 0; 0;
   0; 0; 7; 0; 0; 0; 0; 0;
   0; 0; 0; 0; 0; 0; 0; 0;
   0; 0; 0; 0; 0; 0; 0; 0;
   21; 0; 0; 0; 34; 2; 0; 0;
   0; 0; 0; 0; 0; 0; 0; 0;
   0; 0; 0; 0; 0; 0; 0; 0;
   0; 0; 0; 0; 0; 0; 0; 0;
   0; 0; 0; 0; 0; 0; 0; 0;
   0; 0; 0; 0; 0; 0; 0; 0;
   116; 117; 110; 110; 101; 108; 114; 112;
   99; 46; 99; 97; 112; 110; 112; 58;
   82; 101; 103; 105; 115; 116; 114; 97;
   116; 105; 111; 110; 83; 101; 114; 118;
   101; 114; 46; 117; 112; 100; 97; 116;
   101; 76; 111; 99; 97; 108; 67; 111;
   110; 102; 105; 103; 117; 114; 97; 116;
   105; 111; 110; 36; 82; 101; 115; 117;
   108; 116; 115; 0; 0; 0; 0; 0].

Definition s_83ced0145b2f114b : RawSchema :=
  mkRawSchema 0x83ced0145b2f114b b_83ced0145b2f114b
    [] [3%nat; 0%nat; 1%nat; 2%nat] [0%nat; 1%nat; 2%nat; 3%nat].

Definition s_b4bf9861fe035d04 : RawSchema :=
  mkRawSchema 0xb4bf9861fe035d04 b_b4bf9861fe035d04
    [0x83ced0145b2f114b] [0%nat; 3%nat; 4%nat; 1%nat; 2%nat] [0%nat; 1%nat; 2%nat; 3%nat; 4%nat].

Definition s_b5f39f082b9ac18a : RawSchema :=
  mkRawSchema 0xb5f39f082b9ac18a b_b5f39f082b9ac18a
    [] [1%nat; 2%nat; 0%nat] [0%nat; 1%nat; 2%nat].

Definition s_f5f383d2785edb86 : RawSchema :=
  mkRawSchema 0xf5f383d2785edb86 b_f5f383d2785edb86
    [] [0%nat; 1%nat; 2%nat] [0%nat; 1%nat; 2%nat].

Definition s_dbaa9d03d52b62dc : RawSchema :=
  mkRawSchema 0xdbaa9d03d52b62dc b_dbaa9d03d52b62dc
    [0x97b3c5c260257622] [0%nat] [0%nat].

Definition s_97b3c5c260257622 : RawSchema :=
  mkRawSchema 0x97b3c5c260257622 b_97b3c5c260257622
    [0xb5f39f082b9ac18a; 0xdbaa9d03d52b62dc; 0xf5f383d2785edb86] [1%nat; 0%nat] [0%nat; 1%nat].

Definition s_9496331ab9cd463f : RawSchema :=
  mkRawSchema 0x9496331ab9cd463f b_9496331ab9cd463f
    [] [0%nat; 1%nat] [0%nat; 1%nat].

Definition s_f71695ec7fe85497 : RawSchema :=
  mkRawSchema 0xf71695ec7fe85497 b_f71695ec7fe85497
    [0xb046e578094b1ead; 0xc5d6e311876a3604; 0xe5ceae5d6897d7be; 0xe6646dec8feaa6ee; 0xea50d822450d1f17; 0xf9cb7f4431a307d0] [0%nat; 1%nat; 2%nat] [].

Definition s_e6646dec8feaa6ee : RawSchema :=
  mkRawSchema 0xe6646dec8feaa6ee b_e6646dec8feaa6ee
    [0x9496331ab9cd463f; 0xb4bf9861fe035d04] [0%nat; 2%nat; 3%nat; 1%nat] [0%nat; 1%nat; 2%nat; 3%nat].

Definition s_ea50d822450d1f17 : RawSchema :=
  mkRawSchema 0xea50d822450d1f17 b_ea50d822450d1f17
    [0xdbaa9d03d52b62dc] [0%nat] [0%nat].

Definition s_f9cb7f4431a307d0 : RawSchema :=
  mkRawSchema 0xf9cb7f4431a307d0 b_f9cb7f4431a307d0
    [] [] [].

Definition s_b046e578094b1ead : RawSchema :=
  mkRawSchema 0xb046e578094b1ead b_b046e578094b1ead
    [] [] [].

Definition s_c5d6e311876a3604 : RawSchema :=
  mkRawSchema 0xc5d6e311876a3604 b_c5d6e311876a3604
    [] [0%nat] [0%nat].

Definition s_e5ceae5d6897d7be : RawSchema :=
  mkRawSchema 0xe5ceae5d6897d7be b_e5ceae5d6897d7be
    [] [] [].

Definition schemas : list RawSchema :=
  [s_83ced0145b2f114b; s_b4bf9861fe035d04; s_b5f39f082b9ac18a; s_f5f383d2785edb86;
   s_dbaa9d03d52b62dc; s_97b3c5c260257622; s_9496331ab9cd463f; s_f71695ec7fe85497;
   s_e6646dec8feaa6ee; s_ea50d822450d1f17; s_f9cb7f4431a307d0; s_b046e578094b1ead;
   s_c5d6e311876a3604; s_e5ceae5d6897d7be].
