(* ===== verification/TunnelSchema.v ===== *)
(** * The schema agrees with the accessors

    The generated files say twice how the structs are laid out: in the offsets of
    the accessors ([TunnelRpc], from src/tunnelrpc.capnp.h), and in the schema that
    the runtime loads ([TunnelSchemaData], from src/tunnelrpc.capnp.c++). This file
    reads the schema, by the encoding of Cap'n Proto and the node format of its
    [schema.capnp], and compares the two. *)
From S2P Require Import Prelude Capnp TunnelRpc TunnelSchemaData.
Local Open Scope Z_scope.

(** ** The encoding: words, pointers, structs and lists *)

Definition le_at (n : nat) (off : Z) (bs : list Z) : Z := of_le (take n (drop (Z.to_nat off) bs)).

(** The word [i] of a segment. *)
Definition word_at (bs : list Z) (i : Z) : Z := le_at 8 (8 * i) bs.

(** The 30-bit offset of a pointer, signed. *)
Definition offset_of (w : Z) : Z := ((w / 4) mod 2 ^ 30 + 2 ^ 29) mod 2 ^ 30 - 2 ^ 29.

(** A struct in a segment: its first word, and the sizes of its two sections. *)
Record struct_ref := mkRef { r_at : Z; r_words : Z; r_pointers : Z }.

(** The struct that the pointer in the word [i] points to. *)
Definition struct_at (bs : list Z) (i : Z) : option struct_ref :=
  let w := word_at bs i in
  if (w =? 0) || negb (w mod 4 =? 0) then None
  else Some (mkRef (i + 1 + offset_of w) ((w / 2 ^ 32) mod 2 ^ 16) (w / 2 ^ 48)).

(** An element of [n] bytes of the data section at the byte [off]. *)
Definition data_at (bs : list Z) (r : struct_ref) (n : nat) (off : Z) : Z :=
  if off + Z.of_nat n <=? 8 * r_words r then le_at n (8 * r_at r + off) bs else 0.

(** The word of a pointer of the struct. *)
Definition pointer_at (r : struct_ref) (j : Z) : option Z :=
  if j <? r_pointers r then Some (r_at r + r_words r + j) else None.

(** The text a pointer points to: a list of bytes with a NUL at the end; a null
    pointer is the empty text. *)
Definition text_at (bs : list Z) (i : Z) : option text :=
  let w := word_at bs i in
  if w =? 0 then Some []
  else if (w mod 4 =? 1) && ((w / 2 ^ 32) mod 8 =? 2) then
    let n := Z.to_nat (w / 2 ^ 35) in
    Some (map (λ b, ascii_of_N (Z.to_N b))
            (take (n - 1) (drop (Z.to_nat (8 * (i + 1 + offset_of w))) bs)))
  else None.

(** The structs of a composite list. *)
Definition structs_at (bs : list Z) (i : Z) : option (list struct_ref) :=
  let w := word_at bs i in
  if w =? 0 then Some []
  else if (w mod 4 =? 1) && ((w / 2 ^ 32) mod 8 =? 7) then
    let at_ := i + 1 + offset_of w in
    let tag := word_at bs at_ in
    let dw := (tag / 2 ^ 32) mod 2 ^ 16 in
    let pw := tag / 2 ^ 48 in
    Some ((λ k, mkRef (at_ + 1 + k * (dw + pw)) dw pw) <$> seqZ 0 ((tag / 4) mod 2 ^ 30))
  else None.

(** ** The nodes of a schema *)

(** A [Type]; the types of the fields here are only some of them. *)
Definition type_of (bs : list Z) (r : struct_ref) : option field_type :=
  let tag := data_at bs r 2 0 in
  if tag =? 1 then Some TBool
  else if tag =? 5 then Some TInt64
  else if tag =? 6 then Some TUInt8
  else if tag =? 12 then Some TText
  else if tag =? 13 then Some TData
  else if tag =? 14 then
    i ← pointer_at r 0; e ← struct_at bs i;
    if data_at bs e 2 0 =? 12 then Some TTexts else None
  else if tag =? 16 then Some (TStruct (data_at bs r 8 8))
  else None.

(** A [Field]: a slot, with an offset and a type, or a group. The discriminant is
    stored against a default of 65535, which means there is none. *)
Definition field_of (bs : list Z) (r : struct_ref) : option field :=
  i ← pointer_at r 0;
  name ← text_at bs i;
  let d := Z.lxor (data_at bs r 2 2) 65535 in
  let disc := if d =? 65535 then None else Some d in
  if data_at bs r 2 8 =? 0 then
    j ← pointer_at r 2; t ← struct_at bs j; ty ← type_of bs t;
    Some (mkField name ty (Z.to_nat (data_at bs r 4 4)) disc)
  else Some (mkField name (TGroup (data_at bs r 8 16)) 0 disc).

(** A [Node] that is a struct. *)
Definition layout_of (bs : list Z) : option layout :=
  n ← struct_at bs 0;
  if data_at bs n 2 12 =? 1 then
    i ← pointer_at n 3; fs ← structs_at bs i; fields ← mapM (field_of bs) fs;
    Some (mkLayout (data_at bs n 8 0) (Z.to_nat (data_at bs n 2 14)) (Z.to_nat (data_at bs n 2 24))
            fields
            (if data_at bs n 2 30 =? 0 then None else Some (data_at bs n 4 32)))
  else None.

(** A [Node] that is an interface: its methods, with the ids of their parameters and
    results. *)
Definition method_of (bs : list Z) (r : struct_ref) : option (text * Z * Z) :=
  i ← pointer_at r 0; name ← text_at bs i;
  Some (name, data_at bs r 8 8, data_at bs r 8 16).

Definition interface_of (bs : list Z) : option (Z * list (text * Z * Z)) :=
  n ← struct_at bs 0;
  if data_at bs n 2 12 =? 3 then
    i ← pointer_at n 3; ms ← structs_at bs i; methods ← mapM (method_of bs) ms;
    Some (data_at bs n 8 0, methods)
  else None.

(** ** What the runtime relies on *)

Definition schema_of (id : Z) : option RawSchema :=
  List.find (λ s, rs_id s =? id) schemas.

(** [strcmp], as a strict order. *)
Fixpoint text_lt (s t : text) : bool :=
  match s, t with
  | _, [] => false
  | [], _ => true
  | a :: s', b :: t' => (code a <? code b) || ((code a =? code b) && text_lt s' t')
  end.

Fixpoint sortedb {A} (lt : A → A → bool) (l : list A) : bool :=
  match l with
  | a :: (b :: _) as l' => lt a b && sortedb lt l'
  | _ => true
  end.

(** The names in the order of [members_by_name]. *)
Definition names_by (order : list nat) (names : list text) : list text :=
  (λ i, nth i names []) <$> order.

(** The types a field refers to. *)
Definition refers (f : field) : list Z :=
  match f_type f with TStruct id | TGroup id => [id] | _ => [] end.

(** The struct a group belongs to. *)
Definition parents (l : layout) : list Z :=
  layouts ≫= λ l',
    if existsb (λ f, match f_type f with TGroup id => id =? l_id l | _ => false end) (l_fields l')
    then [l_id l'] else [].

(** The table by name is a permutation that sorts the names, the table by
    discriminant lists the members that have none in order and then those of the
    union by discriminant, and the dependencies are the types referred to and the
    struct of a group, sorted by id. The runtime looks all three up by binary search or by index. *)
Definition tables_ok (s : RawSchema) (names : list text) (by_discriminant : list nat)
    (deps : list Z) : Prop :=
  rs_members_by_name s ≡ₚ seq 0 (length names)
  ∧ sortedb text_lt (names_by (rs_members_by_name s) names) = true
  ∧ rs_members_by_discriminant s = by_discriminant
  ∧ sortedb Z.ltb (rs_dependencies s) = true
  ∧ ∀ id, id ∈ rs_dependencies s ↔ id ∈ deps.

(** Members without a discriminant first, then the union's in order. *)
Definition order_of (l : layout) : list nat :=
  let ix := seq 0 (length (l_fields l)) in
  let disc i := match l_fields l !! i with Some f => f_discriminant f | None => None end in
  List.filter (λ i, match disc i with None => true | _ => false end) ix
  ++ List.filter (λ i, match disc i with Some _ => true | _ => false end) ix.

Definition layout_agrees (l : layout) : Prop :=
  ∃ s, schema_of (l_id l) = Some s
       ∧ layout_of (rs_bytes s) = Some l
       ∧ tables_ok s (f_name <$> l_fields l) (order_of l) (parents l ++ (l_fields l ≫= refers)).

(** The ids of the structs and groups of a layout's fields are those of layouts. *)
Definition method_name (m : rpc_method) : text :=
  match m with
  | RegisterConnection => str "registerConnection"
  | UnregisterConnection => str "unregisterConnection"
  | UpdateLocalConfiguration => str "updateLocalConfiguration"
  end.

Definition methods : list rpc_method :=
  [RegisterConnection; UnregisterConnection; UpdateLocalConfiguration].

(** ** Agreement *)

Definition tables_okb (s : RawSchema) (names : list text) (by_discriminant : list nat)
    (deps : list Z) : bool :=
  bool_decide (rs_members_by_name s ≡ₚ seq 0 (length names))
  && sortedb text_lt (names_by (rs_members_by_name s) names)
  && bool_decide (rs_members_by_discriminant s = by_discriminant)
  && sortedb Z.ltb (rs_dependencies s)
  && bool_decide (Forall (λ id, id ∈ deps) (rs_dependencies s))
  && bool_decide (Forall (λ id, id ∈ rs_dependencies s) deps).

Lemma tables_okb_ok s names ds deps : tables_okb s names ds deps = true → tables_ok s names ds deps.
Proof.
  unfold tables_okb. intros. bool_facts. unfold tables_ok. split_and!; try done.
  intros id. rewrite !Forall_forall in *. naive_solver.
Qed.

#[export] Instance field_type_eq_dec : EqDecision field_type.
Proof. solve_decision. Defined.
#[export] Instance field_eq_dec : EqDecision field.
Proof. solve_decision. Defined.
#[export] Instance layout_eq_dec : EqDecision layout.
Proof. solve_decision. Defined.

Definition layout_agreesb (l : layout) : bool :=
  match schema_of (l_id l) with
  | Some s =>
      bool_decide (layout_of (rs_bytes s) = Some l)
      && tables_okb s (f_name <$> l_fields l) (order_of l) (parents l ++ (l_fields l ≫= refers))
  | None => false
  end.

Lemma layouts_agreeb : forallb layout_agreesb layouts = true.
Proof. by vm_compute. Qed.

(** C40: for every struct of the schema, the layout that the accessors use (its id,
    the sizes of its sections, and the name, type, offset and discriminant of each
    field) is exactly the one the embedded schema describes; and the index tables
    that the runtime searches are well formed: the names sorted and complete, the
    discriminants in order, the dependencies sorted and exact. *)
Theorem schema_agrees l : l ∈ layouts → layout_agrees l.
Proof.
  intros Hl. pose proof layouts_agreeb as Hall. rewrite forallb_forall in Hall.
  specialize (Hall l (proj1 (list_elem_of_In _ _) Hl)). unfold layout_agreesb, layout_agrees in *.
  destruct (schema_of (l_id l)) as [s|]; [|done]. bool_facts. exists s. split_and!; try done.
  by apply tables_okb_ok.
Qed.

(** The interface of the embedded schema lists the three methods in the order of
    the numbers that the calls use, with the parameters and results of the same
    layouts; and every type a layout refers to is a layout. *)
Theorem interface_agrees :
  (∃ s, schema_of RegistrationServer_id = Some s
    ∧ interface_of (rs_bytes s)
      = Some (RegistrationServer_id,
              (λ m, (method_name m, l_id (method_types m).1, l_id (method_types m).2)) <$> methods)
    ∧ tables_ok s (method_name <$> methods) []
        (methods ≫= λ m, [l_id (method_types m).1; l_id (method_types m).2]))
  ∧ (∀ i m, methods !! i = Some m → method_call m = (RegistrationServer_id, Z.of_nat i))
  ∧ ∀ l f id, l ∈ layouts → f ∈ l_fields l → id ∈ refers f → ∃ l', l' ∈ layouts ∧ l_id l' = id.
Proof.
  split_and!.
  - exists s_f71695ec7fe85497. split_and!; [by vm_compute|by vm_compute|].
    apply tables_okb_ok. by vm_compute.
  - intros [|[|[|i]]] m; simpl; intros; by simplify_eq.
  - intros l f id Hl Hf Hid.
    assert (forallb (λ l, forallb (λ f, forallb (λ id,
      existsb (λ l', l_id l' =? id) layouts) (refers f)) (l_fields l)) layouts = true) as Hall
      by by vm_compute.
    rewrite forallb_forall in Hall. specialize (Hall l (proj1 (list_elem_of_In _ _) Hl)).
    rewrite forallb_forall in Hall. specialize (Hall f (proj1 (list_elem_of_In _ _) Hf)).
    rewrite forallb_forall in Hall. specialize (Hall id (proj1 (list_elem_of_In _ _) Hid)).
    apply existsb_exists in Hall as (l' & Hin & He%Z.eqb_eq). exists l'.
    split; [by apply list_elem_of_In|done].
Qed.

Lemma schema_agrees_witness : layout_agrees ConnectionError.
Proof. apply (schema_agrees ConnectionError). apply list_elem_of_In. vm_compute. tauto. Defined.
