(* ===== verification/Interface.v ===== *)
(** * The classes of the generated header

    [src/tunnelrpc.capnp.h] declares, for every struct of the schema, a class
    [Reader], a class [Builder] and a class [Pipeline], and for the interface a
    class [Client] and a class [Server]. Here are the declarations, class by class,
    and what the compiler of the schema is expected to declare for a struct; the
    two agree ([classes_agree]). What the methods do is in [Typing]. *)
From S2P Require Import Prelude Capnp TunnelRpc TunnelSchemaData TunnelSchema.
Local Open Scope Z_scope.

(** ** Declarations *)

(** The three ways to look at a struct. *)
Inductive view := Reader | Builder | Pipeline.

(** [capnp::Data], [capnp::Text], [capnp::List<capnp::Text>], or a struct by its id. *)
Inductive named := NData | NText | NTexts | NStruct (id : Z).

(** The types the declarations mention: [T::Reader], [T::Builder] and [T::Pipeline]
    are [CView], [capnp::Orphan<T>] is [COrphan], and
    [kj::ArrayPtr<const capnp::Text::Reader>] is [CArrayPtr]. *)
Inductive ctype :=
| CVoid | CBool | CUInt8 | CInt64 | CUInt | CWhich | CMessageSize | CStringTree | CArrayPtr
| CView (n : named) (v : view)
| COrphan (n : named).

(** A public member function: its name, the types of its arguments, its result, and
    whether it is [const]. *)
Record member := mkMember {
  m_name : text;
  m_args : list ctype;
  m_result : ctype;
  m_const : bool;
}.

(** What a value of a class can be made of: nothing, a null pointer, or the
    runtime's view of a struct (explicitly). *)
Inductive construct := FromNothing | FromNull | FromRuntime.

(** The classes that may reach the runtime's view inside. *)
Inductive friend :=
| F_ToDynamic_ | F_PointerHelpers | F_List | F_MessageBuilder | F_Orphanage | F_PipelineHook.

Record class_decl := mkClass {
  c_struct : Z;
  c_view : view;
  c_constructs : list construct;
  c_members : list member;
  c_friends : list friend;
}.

(** What every [Reader], [Builder] and [Pipeline] declares. *)
Definition own_reader (l : layout) : ctype := CView (NStruct (l_id l)) Reader.

Definition common_members (v : view) (l : layout) : list member :=
  match v with
  | Reader =>
      [mkMember (str "totalSize") [] CMessageSize true;
       mkMember (str "toString") [] CStringTree true]
  | Builder =>
      [mkMember (str "operator Reader") [] (own_reader l) true;
       mkMember (str "asReader") [] (own_reader l) true;
       mkMember (str "totalSize") [] CMessageSize true;
       mkMember (str "toString") [] CStringTree true]
  | Pipeline => []
  end.

Definition reader_class (l : layout) (ms : list member) : class_decl :=
  mkClass (l_id l) Reader [FromNothing; FromRuntime] (common_members Reader l ++ ms)
    [F_ToDynamic_; F_PointerHelpers; F_List; F_MessageBuilder; F_Orphanage].

Definition builder_class (l : layout) (ms : list member) : class_decl :=
  mkClass (l_id l) Builder [FromNull; FromRuntime] (common_members Builder l ++ ms)
    [F_ToDynamic_; F_Orphanage; F_PointerHelpers].

Definition pipeline_class (l : layout) (ms : list member) : class_decl :=
  mkClass (l_id l) Pipeline [FromNull; FromRuntime] (common_members Pipeline l ++ ms)
    [F_PipelineHook; F_ToDynamic_].

(** [CAPNP_DECLARE_SCHEMA], for every node of the schema. *)
Definition declared_schemas : list Z :=
  [0x83ced0145b2f114b; 0xb4bf9861fe035d04; 0xb5f39f082b9ac18a; 0xf5f383d2785edb86;
   0xdbaa9d03d52b62dc; 0x97b3c5c260257622; 0x9496331ab9cd463f; 0xf71695ec7fe85497;
   0xe6646dec8feaa6ee; 0xea50d822450d1f17; 0xf9cb7f4431a307d0; 0xb046e578094b1ead;
   0xc5d6e311876a3604; 0xe5ceae5d6897d7be].

(** ** The classes of the structs *)

Definition ClientInfo_Reader : class_decl :=
  reader_class ClientInfo
    [mkMember (str "hasClientId") [] CBool true;
     mkMember (str "getClientId") [] (CView NData Reader) true;
     mkMember (str "hasFeatures") [] CBool true;
     mkMember (str "getFeatures") [] (CView NTexts Reader) true;
     mkMember (str "hasVersion") [] CBool true;
     mkMember (str "getVersion") [] (CView NText Reader) true;
     mkMember (str "hasArch") [] CBool true;
     mkMember (str "getArch") [] (CView NText Reader) true].

Definition ClientInfo_Builder : class_decl :=
  builder_class ClientInfo
    [mkMember (str "hasClientId") [] CBool false;
     mkMember (str "getClientId") [] (CView NData Builder) false;
     mkMember (str "setClientId") [CView NData Reader] CVoid false;
     mkMember (str "initClientId") [CUInt] (CView NData Builder) false;
     mkMember (str "adoptClientId") [COrphan NData] CVoid false;
     mkMember (str "disownClientId") [] (COrphan NData) false;
     mkMember (str "hasFeatures") [] CBool false;
     mkMember (str "getFeatures") [] (CView NTexts Builder) false;
     mkMember (str "setFeatures") [CView NTexts Reader] CVoid false;
     mkMember (str "setFeatures") [CArrayPtr] CVoid false;
     mkMember (str "initFeatures") [CUInt] (CView NTexts Builder) false;
     mkMember (str "adoptFeatures") [COrphan NTexts] CVoid false;
     mkMember (str "disownFeatures") [] (COrphan NTexts) false;
     mkMember (str "hasVersion") [] CBool false;
     mkMember (str "getVersion") [] (CView NText Builder) false;
     mkMember (str "setVersion") [CView NText Reader] CVoid false;
     mkMember (str "initVersion") [CUInt] (CView NText Builder) false;
     mkMember (str "adoptVersion") [COrphan NText] CVoid false;
     mkMember (str "disownVersion") [] (COrphan NText) false;
     mkMember (str "hasArch") [] CBool false;
     mkMember (str "getArch") [] (CView NText Builder) false;
     mkMember (str "setArch") [CView NText Reader] CVoid false;
     mkMember (str "initArch") [CUInt] (CView NText Builder) false;
     mkMember (str "adoptArch") [COrphan NText] CVoid false;
     mkMember (str "disownArch") [] (COrphan NText) false].

Definition ClientInfo_Pipeline : class_decl :=
  pipeline_class ClientInfo
    [].

Definition ConnectionOptions_Reader : class_decl :=
  reader_class ConnectionOptions
    [mkMember (str "hasClient") [] CBool true;
     mkMember (str "getClient") [] (CView (NStruct (l_id ClientInfo)) Reader) true;
     mkMember (str "hasOriginLocalIp") [] CBool true;
     mkMember (str "getOriginLocalIp") [] (CView NData Reader) true;
     mkMember (str "getReplaceExisting") [] CBool true;
     mkMember (str "getCompressionQuality") [] CUInt8 true;
     mkMember (str "getNumPreviousAttempts") [] CUInt8 true].

Definition ConnectionOptions_Builder : class_decl :=
  builder_class ConnectionOptions
    [mkMember (str "hasClient") [] CBool false;
     mkMember (str "getClient") [] (CView (NStruct (l_id ClientInfo)) Builder) false;
     mkMember (str "setClient") [CView (NStruct (l_id ClientInfo)) Reader] CVoid false;
     mkMember (str "initClient") [] (CView (NStruct (l_id ClientInfo)) Builder) false;
     mkMember (str "adoptClient") [COrphan (NStruct (l_id ClientInfo))] CVoid false;
     mkMember (str "disownClient") [] (COrphan (NStruct (l_id ClientInfo))) false;
     mkMember (str "hasOriginLocalIp") [] CBool false;
     mkMember (str "getOriginLocalIp") [] (CView NData Builder) false;
     mkMember (str "setOriginLocalIp") [CView NData Reader] CVoid false;
     mkMember (str "initOriginLocalIp") [CUInt] (CView NData Builder) false;
     mkMember (str "adoptOriginLocalIp") [COrphan NData] CVoid false;
     mkMember (str "disownOriginLocalIp") [] (COrphan NData) false;
     mkMember (str "getReplaceExisting") [] CBool false;
     mkMember (str "setReplaceExisting") [CBool] CVoid false;
     mkMember (str "getCompressionQuality") [] CUInt8 false;
     mkMember (str "setCompressionQuality") [CUInt8] CVoid false;
     mkMember (str "getNumPreviousAttempts") [] CUInt8 false;
     mkMember (str "setNumPreviousAttempts") [CUInt8] CVoid false].

Definition ConnectionOptions_Pipeline : class_decl :=
  pipeline_class ConnectionOptions
    [mkMember (str "getClient") [] (CView (NStruct (l_id ClientInfo)) Pipeline) false].

Definition ConnectionDetails_Reader : class_decl :=
  reader_class ConnectionDetails
    [mkMember (str "hasUuid") [] CBool true;
     mkMember (str "getUuid") [] (CView NData Reader) true;
     mkMember (str "hasLocationName") [] CBool true;
     mkMember (str "getLocationName") [] (CView NText Reader) true;
     mkMember (str "getTunnelIsRemotelyManaged") [] CBool true].

Definition ConnectionDetails_Builder : class_decl :=
  builder_class ConnectionDetails
    [mkMember (str "hasUuid") [] CBool false;
     mkMember (str "getUuid") [] (CView NData Builder) false;
     mkMember (str "setUuid") [CView NData Reader] CVoid false;
     mkMember (str "initUuid") [CUInt] (CView NData Builder) false;
     mkMember (str "adoptUuid") [COrphan NData] CVoid false;
     mkMember (str "disownUuid") [] (COrphan NData) false;
     mkMember (str "hasLocationName") [] CBool false;
     mkMember (str "getLocationName") [] (CView NText Builder) false;
     mkMember (str "setLocationName") [CView NText Reader] CVoid false;
     mkMember (str "initLocationName") [CUInt] (CView NText Builder) false;
     mkMember (str "adoptLocationName") [COrphan NText] CVoid false;
     mkMember (str "disownLocationName") [] (COrphan NText) false;
     mkMember (str "getTunnelIsRemotelyManaged") [] CBool false;
     mkMember (str "setTunnelIsRemotelyManaged") [CBool] CVoid false].

Definition ConnectionDetails_Pipeline : class_decl :=
  pipeline_class ConnectionDetails
    [].

Definition ConnectionError_Reader : class_decl :=
  reader_class ConnectionError
    [mkMember (str "hasCause") [] CBool true;
     mkMember (str "getCause") [] (CView NText Reader) true;
     mkMember (str "getRetryAfter") [] CInt64 true;
     mkMember (str "getShouldRetry") [] CBool true].

Definition ConnectionError_Builder : class_decl :=
  builder_class ConnectionError
    [mkMember (str "hasCause") [] CBool false;
     mkMember (str "getCause") [] (CView NText Builder) false;
     mkMember (str "setCause") [CView NText Reader] CVoid false;
     mkMember (str "initCause") [CUInt] (CView NText Builder) false;
     mkMember (str "adoptCause") [COrphan NText] CVoid false;
     mkMember (str "disownCause") [] (COrphan NText) false;
     mkMember (str "getRetryAfter") [] CInt64 false;
     mkMember (str "setRetryAfter") [CInt64] CVoid false;
     mkMember (str "getShouldRetry") [] CBool false;
     mkMember (str "setShouldRetry") [CBool] CVoid false].

Definition ConnectionError_Pipeline : class_decl :=
  pipeline_class ConnectionError
    [].

Definition ConnectionResponse_Reader : class_decl :=
  reader_class ConnectionResponse
    [mkMember (str "getResult") [] (CView (NStruct (l_id Result)) Reader) true].

Definition ConnectionResponse_Builder : class_decl :=
  builder_class ConnectionResponse
    [mkMember (str "getResult") [] (CView (NStruct (l_id Result)) Builder) false;
     mkMember (str "initResult") [] (CView (NStruct (l_id Result)) Builder) false].

Definition ConnectionResponse_Pipeline : class_decl :=
  pipeline_class ConnectionResponse
    [mkMember (str "getResult") [] (CView (NStruct (l_id Result)) Pipeline) false].

Definition Result_Reader : class_decl :=
  reader_class Result
    [mkMember (str "which") [] CWhich true;
     mkMember (str "isError") [] CBool true;
     mkMember (str "hasError") [] CBool true;
     mkMember (str "getError") [] (CView (NStruct (l_id ConnectionError)) Reader) true;
     mkMember (str "isConnectionDetails") [] CBool true;
     mkMember (str "hasConnectionDetails") [] CBool true;
     mkMember (str "getConnectionDetails")
       [] (CView (NStruct (l_id ConnectionDetails)) Reader) true].

Definition Result_Builder : class_decl :=
  builder_class Result
    [mkMember (str "which") [] CWhich false;
     mkMember (str "isError") [] CBool false;
     mkMember (str "hasError") [] CBool false;
     mkMember (str "getError") [] (CView (NStruct (l_id ConnectionError)) Builder) false;
     mkMember (str "setError") [CView (NStruct (l_id ConnectionError)) Reader] CVoid false;
     mkMember (str "initError") [] (CView (NStruct (l_id ConnectionError)) Builder) false;
     mkMember (str "adoptError") [COrphan (NStruct (l_id ConnectionError))] CVoid false;
     mkMember (str "disownError") [] (COrphan (NStruct (l_id ConnectionError))) false;
     mkMember (str "isConnectionDetails") [] CBool false;
     mkMember (str "hasConnectionDetails") [] CBool false;
     mkMember (str "getConnectionDetails")
       [] (CView (NStruct (l_id ConnectionDetails)) Builder) false;
     mkMember (str "setConnectionDetails")
       [CView (NStruct (l_id ConnectionDetails)) Reader] CVoid false;
     mkMember (str "initConnectionDetails")
       [] (CView (NStruct (l_id ConnectionDetails)) Builder) false;
     mkMember (str "adoptConnectionDetails")
       [COrphan (NStruct (l_id ConnectionDetails))] CVoid false;
     mkMember (str "disownConnectionDetails")
       [] (COrphan (NStruct (l_id ConnectionDetails))) false].

Definition Result_Pipeline : class_decl :=
  pipeline_class Result
    [].

Definition TunnelAuth_Reader : class_decl :=
  reader_class TunnelAuth
    [mkMember (str "hasAccountTag") [] CBool true;
     mkMember (str "getAccountTag") [] (CView NText Reader) true;
     mkMember (str "hasTunnelSecret") [] CBool true;
     mkMember (str "getTunnelSecret") [] (CView NData Reader) true].

Definition TunnelAuth_Builder : class_decl :=
  builder_class TunnelAuth
    [mkMember (str "hasAccountTag") [] CBool false;
     mkMember (str "getAccountTag") [] (CView NText Builder) false;
     mkMember (str "setAccountTag") [CView NText Reader] CVoid false;
     mkMember (str "initAccountTag") [CUInt] (CView NText Builder) false;
     mkMember (str "adoptAccountTag") [COrphan NText] CVoid false;
     mkMember (str "disownAccountTag") [] (COrphan NText) false;
     mkMember (str "hasTunnelSecret") [] CBool false;
     mkMember (str "getTunnelSecret") [] (CView NData Builder) false;
     mkMember (str "setTunnelSecret") [CView NData Reader] CVoid false;
     mkMember (str "initTunnelSecret") [CUInt] (CView NData Builder) false;
     mkMember (str "adoptTunnelSecret") [COrphan NData] CVoid false;
     mkMember (str "disownTunnelSecret") [] (COrphan NData) false].

Definition TunnelAuth_Pipeline : class_decl :=
  pipeline_class TunnelAuth
    [].

Definition RegisterConnectionParams_Reader : class_decl :=
  reader_class RegisterConnectionParams
    [mkMember (str "hasAuth") [] CBool true;
     mkMember (str "getAuth") [] (CView (NStruct (l_id TunnelAuth)) Reader) true;
     mkMember (str "hasTunnelId") [] CBool true;
     mkMember (str "getTunnelId") [] (CView NData Reader) true;
     mkMember (str "getConnIndex") [] CUInt8 true;
     mkMember (str "hasOptions") [] CBool true;
     mkMember (str "getOptions") [] (CView (NStruct (l_id ConnectionOptions)) Reader) true].

Definition RegisterConnectionParams_Builder : class_decl :=
  builder_class RegisterConnectionParams
    [mkMember (str "hasAuth") [] CBool false;
     mkMember (str "getAuth") [] (CView (NStruct (l_id TunnelAuth)) Builder) false;
     mkMember (str "setAuth") [CView (NStruct (l_id TunnelAuth)) Reader] CVoid false;
     mkMember (str "initAuth") [] (CView (NStruct (l_id TunnelAuth)) Builder) false;
     mkMember (str "adoptAuth") [COrphan (NStruct (l_id TunnelAuth))] CVoid false;
     mkMember (str "disownAuth") [] (COrphan (NStruct (l_id TunnelAuth))) false;
     mkMember (str "hasTunnelId") [] CBool false;
     mkMember (str "getTunnelId") [] (CView NData Builder) false;
     mkMember (str "setTunnelId") [CView NData Reader] CVoid false;
     mkMember (str "initTunnelId") [CUInt] (CView NData Builder) false;
     mkMember (str "adoptTunnelId") [COrphan NData] CVoid false;
     mkMember (str "disownTunnelId") [] (COrphan NData) false;
     mkMember (str "getConnIndex") [] CUInt8 false;
     mkMember (str "setConnIndex") [CUInt8] CVoid false;
     mkMember (str "hasOptions") [] CBool false;
     mkMember (str "getOptions") [] (CView (NStruct (l_id ConnectionOptions)) Builder) false;
     mkMember (str "setOptions") [CView (NStruct (l_id ConnectionOptions)) Reader] CVoid false;
     mkMember (str "initOptions") [] (CView (NStruct (l_id ConnectionOptions)) Builder) false;
     mkMember (str "adoptOptions") [COrphan (NStruct (l_id ConnectionOptions))] CVoid false;
     mkMember (str "disownOptions") [] (COrphan (NStruct (l_id ConnectionOptions))) false].

Definition RegisterConnectionParams_Pipeline : class_decl :=
  pipeline_class RegisterConnectionParams
    [mkMember (str "getAuth") [] (CView (NStruct (l_id TunnelAuth)) Pipeline) false;
     mkMember (str "getOptions") [] (CView (NStruct (l_id ConnectionOptions)) Pipeline) false].

Definition RegisterConnectionResults_Reader : class_decl :=
  reader_class RegisterConnectionResults
    [mkMember (str "hasResult") [] CBool true;
     mkMember (str "getResult") [] (CView (NStruct (l_id ConnectionResponse)) Reader) true].

Definition RegisterConnectionResults_Builder : class_decl :=
  builder_class RegisterConnectionResults
    [mkMember (str "hasResult") [] CBool false;
     mkMember (str "getResult") [] (CView (NStruct (l_id ConnectionResponse)) Builder) false;
     mkMember (str "setResult") [CView (NStruct (l_id ConnectionResponse)) Reader] CVoid false;
     mkMember (str "initResult") [] (CView (NStruct (l_id ConnectionResponse)) Builder) false;
     mkMember (str "adoptResult") [COrphan (NStruct (l_id ConnectionResponse))] CVoid false;
     mkMember (str "disownResult") [] (COrphan (NStruct (l_id ConnectionResponse))) false].

Definition RegisterConnectionResults_Pipeline : class_decl :=
  pipeline_class RegisterConnectionResults
    [mkMember (str "getResult") [] (CView (NStruct (l_id ConnectionResponse)) Pipeline) false].

Definition UnregisterConnectionParams_Reader : class_decl :=
  reader_class UnregisterConnectionParams
    [].

Definition UnregisterConnectionParams_Builder : class_decl :=
  builder_class UnregisterConnectionParams
    [].

Definition UnregisterConnectionParams_Pipeline : class_decl :=
  pipeline_class UnregisterConnectionParams
    [].

Definition UnregisterConnectionResults_Reader : class_decl :=
  reader_class UnregisterConnectionResults
    [].

Definition UnregisterConnectionResults_Builder : class_decl :=
  builder_class UnregisterConnectionResults
    [].

Definition UnregisterConnectionResults_Pipeline : class_decl :=
  pipeline_class UnregisterConnectionResults
    [].

Definition UpdateLocalConfigurationParams_Reader : class_decl :=
  reader_class UpdateLocalConfigurationParams
    [mkMember (str "hasConfig") [] CBool true;
     mkMember (str "getConfig") [] (CView NData Reader) true].

Definition UpdateLocalConfigurationParams_Builder : class_decl :=
  builder_class UpdateLocalConfigurationParams
    [mkMember (str "hasConfig") [] CBool false;
     mkMember (str "getConfig") [] (CView NData Builder) false;
     mkMember (str "setConfig") [CView NData Reader] CVoid false;
     mkMember (str "initConfig") [CUInt] (CView NData Builder) false;
     mkMember (str "adoptConfig") [COrphan NData] CVoid false;
     mkMember (str "disownConfig") [] (COrphan NData) false].

Definition UpdateLocalConfigurationParams_Pipeline : class_decl :=
  pipeline_class UpdateLocalConfigurationParams
    [].

Definition UpdateLocalConfigurationResults_Reader : class_decl :=
  reader_class UpdateLocalConfigurationResults
    [].

Definition UpdateLocalConfigurationResults_Builder : class_decl :=
  builder_class UpdateLocalConfigurationResults
    [].

Definition UpdateLocalConfigurationResults_Pipeline : class_decl :=
  pipeline_class UpdateLocalConfigurationResults
    [].

(** All of them, in the order of the header. *)
Definition classes : list class_decl :=
  [ClientInfo_Reader; ClientInfo_Builder; ClientInfo_Pipeline;
   ConnectionOptions_Reader; ConnectionOptions_Builder; ConnectionOptions_Pipeline;
   ConnectionDetails_Reader; ConnectionDetails_Builder; ConnectionDetails_Pipeline;
   ConnectionError_Reader; ConnectionError_Builder; ConnectionError_Pipeline;
   ConnectionResponse_Reader; ConnectionResponse_Builder; ConnectionResponse_Pipeline;
   Result_Reader; Result_Builder; Result_Pipeline;
   TunnelAuth_Reader; TunnelAuth_Builder; TunnelAuth_Pipeline;
   RegisterConnectionParams_Reader; RegisterConnectionParams_Builder;
   RegisterConnectionParams_Pipeline;
   RegisterConnectionResults_Reader; RegisterConnectionResults_Builder;
   RegisterConnectionResults_Pipeline;
   UnregisterConnectionParams_Reader; UnregisterConnectionParams_Builder;
   UnregisterConnectionParams_Pipeline;
   UnregisterConnectionResults_Reader; UnregisterConnectionResults_Builder;
   UnregisterConnectionResults_Pipeline;
   UpdateLocalConfigurationParams_Reader; UpdateLocalConfigurationParams_Builder;
   UpdateLocalConfigurationParams_Pipeline;
   UpdateLocalConfigurationResults_Reader; UpdateLocalConfigurationResults_Builder;
   UpdateLocalConfigurationResults_Pipeline].

(** ** The classes of the interface *)

(** What a [Client] can be made of, besides another client: a null pointer, a
    runtime's hook, a server, a promise of a client, or an exception that every call
    then throws. *)
Inductive client_construct :=
| ClientNull | ClientHook | ClientServer | ClientPromise | ClientException.

(** [Client]: the request of each method, by name, with the struct of its
    parameters and the struct of its results. *)
Record client_decl := mkClientDecl {
  cd_constructs : list client_construct;
  cd_requests : list (text * Z * Z);
}.

Definition RegistrationServer_Client : client_decl :=
  mkClientDecl [ClientNull; ClientHook; ClientServer; ClientPromise; ClientException]
    [(str "registerConnectionRequest",
      l_id RegisterConnectionParams, l_id RegisterConnectionResults);
     (str "unregisterConnectionRequest",
      l_id UnregisterConnectionParams, l_id UnregisterConnectionResults);
     (str "updateLocalConfigurationRequest",
      l_id UpdateLocalConfigurationParams, l_id UpdateLocalConfigurationResults)].

(** [Server]: the virtual function of each method, with the two structs of its
    [CallContext]. *)
Definition RegistrationServer_Server : list (text * Z * Z) :=
  [(str "registerConnection", l_id RegisterConnectionParams, l_id RegisterConnectionResults);
   (str "unregisterConnection", l_id UnregisterConnectionParams, l_id UnregisterConnectionResults);
   (str "updateLocalConfiguration",
    l_id UpdateLocalConfigurationParams, l_id UpdateLocalConfigurationResults)].

(** ** What the schema prescribes *)

(** The accessors of a field, as operations. [OpSetArray] is the second [setX] of a
    list of texts. *)
Inductive op := OpIs | OpHas | OpGet | OpSet | OpSetArray | OpInit | OpAdopt | OpDisown.

(** Whether the field is kept in the pointer section. *)
Definition is_pointer (t : field_type) : bool :=
  match t with TText | TData | TTexts | TStruct _ => true | _ => false end.

(** The first letter of an identifier as a capital. *)
Definition capitalize (s : text) : text :=
  match s with
  | c :: s' =>
      (if (97 <=? code c) && (code c <=? 122) then ascii_of_N (Z.to_N (code c - 32)) else c) :: s'
  | [] => []
  end.

Definition op_prefix (o : op) : text :=
  match o with
  | OpIs => str "is"
  | OpHas => str "has"
  | OpGet => str "get"
  | OpSet | OpSetArray => str "set"
  | OpInit => str "init"
  | OpAdopt => str "adopt"
  | OpDisown => str "disown"
  end.

(** The type of a value kept in the data section. *)
Definition elem_ctype (t : field_type) : ctype :=
  match t with TUInt8 => CUInt8 | TInt64 => CInt64 | _ => CBool end.

(** The type of an object: of what a pointer refers to, or of a group. *)
Definition named_of (t : field_type) : named :=
  match t with
  | TData => NData
  | TTexts => NTexts
  | TStruct id | TGroup id => NStruct id
  | _ => NText
  end.

Definition is_elem (t : field_type) : bool :=
  match data_width t with Some _ => true | None => false end.

(** The result of [getX] under a view; a [setX] takes a reader, whatever the view. *)
Definition get_ctype (v : view) (t : field_type) : ctype :=
  if is_elem t then elem_ctype t else CView (named_of t) v.

(** [initX] takes a size, but for a struct or a group. *)
Definition init_args (t : field_type) : list ctype :=
  match t with TStruct _ | TGroup _ => [] | _ => [CUInt] end.

Definition op_args (o : op) (t : field_type) : list ctype :=
  match o with
  | OpSet => [get_ctype Reader t]
  | OpSetArray => [CArrayPtr]
  | OpInit => init_args t
  | OpAdopt => [COrphan (named_of t)]
  | _ => []
  end.

Definition op_result (v : view) (o : op) (t : field_type) : ctype :=
  match o with
  | OpIs | OpHas => CBool
  | OpGet => get_ctype v t
  | OpInit => CView (named_of t) Builder
  | OpDisown => COrphan (named_of t)
  | _ => CVoid
  end.

Definition is_reader (v : view) : bool := match v with Reader => true | _ => false end.

Definition member_of (v : view) (f : field) (o : op) : member :=
  mkMember (op_prefix o ++ capitalize (f_name f)) (op_args o (f_type f)) (op_result v o (f_type f))
    (is_reader v).

(** Which accessors a field has: [isX] for a member of a union, [hasX] for a
    pointer, [getX] always; in a builder [setX] but for a group, [initX] for objects,
    [adoptX] and [disownX] for pointers. A pipeline follows structs and groups, but
    not the members of a union. *)
Definition ops_of (v : view) (f : field) : list op :=
  let t := f_type f in
  let mem := if is_member f then [OpIs] else [] in
  let has := if is_pointer t then [OpHas] else [] in
  match v with
  | Reader => mem ++ has ++ [OpGet]
  | Builder =>
      mem ++ has ++ [OpGet]
      ++ (if is_group t then [] else [OpSet])
      ++ (match t with TTexts => [OpSetArray] | _ => [] end)
      ++ (if is_elem t then [] else [OpInit])
      ++ (if is_pointer t then [OpAdopt; OpDisown] else [])
  | Pipeline =>
      match t with TStruct _ | TGroup _ => if is_member f then [] else [OpGet] | _ => [] end
  end.

(** [which] of a struct with a union. *)
Definition which_members (v : view) (l : layout) : list member :=
  match v, l_which l with
  | Pipeline, _ | _, None => []
  | _, Some _ => [mkMember (str "which") [] CWhich (is_reader v)]
  end.

(** The class of a struct under a view. *)
Definition class_of (l : layout) (v : view) : class_decl :=
  let ms := which_members v l ++ (l_fields l ≫= λ f, member_of v f <$> ops_of v f) in
  match v with
  | Reader => reader_class l ms
  | Builder => builder_class l ms
  | Pipeline => pipeline_class l ms
  end.

Definition views : list view := [Reader; Builder; Pipeline].

(** The name of the request of a method. *)
Definition request_of (r : text * Z * Z) : text * Z * Z := (r.1.1 ++ str "Request", r.1.2, r.2).

(** ** Agreement *)

#[export] Instance view_eq_dec : EqDecision view.
Proof. solve_decision. Defined.
#[export] Instance named_eq_dec : EqDecision named.
Proof. solve_decision. Defined.
#[export] Instance ctype_eq_dec : EqDecision ctype.
Proof. solve_decision. Defined.
#[export] Instance member_eq_dec : EqDecision member.
Proof. solve_decision. Defined.
#[export] Instance construct_eq_dec : EqDecision construct.
Proof. solve_decision. Defined.
#[export] Instance friend_eq_dec : EqDecision friend.
Proof. solve_decision. Defined.
#[export] Instance class_decl_eq_dec : EqDecision class_decl.
Proof. solve_decision. Defined.
#[export] Instance op_eq_dec : EqDecision op.
Proof. solve_decision. Defined.

Lemma classes_of_layouts : classes = layouts ≫= λ l, class_of l <$> views.
Proof. apply (bool_decide_unpack _). by vm_compute. Qed.

(** A class is declared exactly if it is the class of a struct under one of the
    views. *)
Lemma declared_spec c : c ∈ classes ↔ ∃ l v, l ∈ layouts ∧ c = class_of l v.
Proof.
  rewrite classes_of_layouts, list_elem_of_bind. split.
  - intros (l & Hc & Hl). apply list_elem_of_fmap in Hc as (v & -> & _). eauto.
  - intros (l & v & Hl & ->). exists l. split; [|done]. apply list_elem_of_fmap.
    exists v. split; [done|]. destruct v; unfold views; set_solver.
Qed.

(** The layout the embedded schema describes for an id. *)
Definition described (id : Z) : option layout := s ← schema_of id; layout_of (rs_bytes s).

(** The embedded schema has a node of each layout, and it describes the layout. *)
Lemma described_layouts l : l ∈ layouts → described (l_id l) = Some l.
Proof.
  intros Hl. pose proof layouts_agreeb as Hall. rewrite forallb_forall in Hall.
  specialize (Hall l (proj1 (list_elem_of_In _ _) Hl)). unfold layout_agreesb, described in *.
  destruct (schema_of (l_id l)) as [s|]; [|done]. bool_facts. done.
Qed.

