(* ===== verification/Typing.v ===== *)
(** * The types of the messages

    What the member functions that [Interface] declares do, over the runtime of
    [Capnp] and the accessors of [TunnelRpc], and that they respect the declared
    types: a call with arguments of the declared types has a result of the declared
    type and leaves a message whose every pointer refers to what the schema says
    ([calls_typed]); a program of such calls never gets stuck ([programs_typed]). *)
From S2P Require Import Prelude Registration QuicClient Capnp TunnelRpc.
From S2P Require Import TunnelSchemaData TunnelSchema Interface.
Local Open Scope Z_scope.

(** ** The calls *)

(** The struct of an id. *)
Definition struct_layout (id : Z) : option layout := List.find (λ l, l_id l =? id) layouts.

(** What an orphan may refer to. *)
Definition type_of_named (n : named) : field_type :=
  match n with NData => TData | NText => TText | NTexts => TTexts | NStruct id => TStruct id end.

Section calls.
Context {M P : Type} `{Capnp M P}.

(** What a member function takes and returns. A view of a struct stands for the
    struct, an orphan for the pointer that was moved out of a message. *)
Inductive value :=
| VVoid
| VBool (b : bool)
| VNum (z : Z)
| VData (bs : list Z)
| VText (t : text)
| VTexts (ts : list text)
| VStruct (m : M)
| VOrphan (p : P).

(** A struct of an id, as [initStruct] makes it. *)
Definition fresh (id : Z) : M :=
  match struct_layout id with
  | Some l => init_struct (l_words l) (l_pointers l)
  | None => to_struct null
  end.

(** [getX]; the getter of a group hands on the struct itself. *)
Definition get_value (f : field) (m : M) : value :=
  match f_type f with
  | TBool => VBool (getBool f m)
  | TUInt8 => VNum (getUInt8 f m)
  | TInt64 => VNum (getInt64 f m)
  | TText => VText (getText f m)
  | TData => VData (getData f m)
  | TTexts => VTexts (getTexts f m)
  | TStruct _ => VStruct (getStruct f m)
  | TGroup _ => VStruct m
  end.

(** [getX] of a builder: a struct that is not there yet is made in place. *)
Definition builder_get (f : field) (m : M) : value * M :=
  match f_type f with
  | TStruct id =>
      if is_null (get_pointer (f_index f) m)
      then (VStruct (fresh id), set_pointer (f_index f) (of_struct (fresh id)) m)
      else (get_value f m, m)
  | _ => (get_value f m, m)
  end.

(** [setX]: the discriminant of a member first. A struct is copied. *)
Definition set_value (l : layout) (f : field) (v : value) (m : M) : option M :=
  let m := set_which l f m in
  match f_type f, v with
  | TBool, VBool b => Some (setBool f b m)
  | TUInt8, VNum z => Some (setUInt8 f z m)
  | TInt64, VNum z => Some (setInt64 f z m)
  | TText, VText t => Some (setText f t m)
  | TData, VData bs => Some (setData f bs m)
  | TTexts, VTexts ts => Some (setTexts f ts m)
  | TStruct _, VStruct x => Some (set_pointer (f_index f) (of_struct x) m)
  | _, _ => None
  end.

(** [initX(size)] and [initX()]: zeroed objects. *)
Definition init_value (l : layout) (f : field) (args : list value) (m : M) : option (value * M) :=
  let m' := set_which l f m in
  match f_type f, args with
  | TText, [VNum n] =>
      let t := replicate (Z.to_nat n) Ascii.zero in Some (VText t, setText f t m')
  | TData, [VNum n] => Some (VData (replicate (Z.to_nat n) 0), initData f (Z.to_nat n) m')
  | TTexts, [VNum n] => let ts := replicate (Z.to_nat n) [] in Some (VTexts ts, setTexts f ts m')
  | TStruct id, [] =>
      Some (VStruct (fresh id), set_pointer (f_index f) (of_struct (fresh id)) m')
  | TGroup _, [] => Some (VStruct (initResult m), initResult m)
  | _, _ => None
  end.

(** A call of a member function of the [Reader] or the [Builder] of a struct: the
    result and the struct after it, or [None] for a call that does not compile. *)
Definition call (v : view) (l : layout) (f : field) (o : op) (args : list value) (m : M)
    : option (value * M) :=
  match o, args with
  | OpIs, [] => Some (VBool (is_set f m), m)
  | OpHas, [] => Some (VBool (has f m), m)
  | OpGet, [] => match v with Builder => Some (builder_get f m) | _ => Some (get_value f m, m) end
  | OpSet, [x] => m' ← set_value l f x m; Some (VVoid, m')
  | OpSetArray, [VTexts ts] => Some (VVoid, setTexts f ts (set_which l f m))
  | OpInit, _ => init_value l f args m
  | OpAdopt, [VOrphan p] => Some (VVoid, adopt l f p m)
  | OpDisown, [] => let '(p, m') := disown f m in Some (VOrphan p, m')
  | _, _ => None
  end.

(** Code that fills a message: calls on one builder in turn, and calls on the
    builder that the [initX] of a struct or of a group, or the [getX] of a group,
    returns. *)
Inductive program :=
| Stop
| Do (f : field) (o : op) (args : list value) (rest : program)
| Within (f : field) (o : op) (body rest : program).

Fixpoint run_program (l : layout) (pr : program) (m : M) : option M :=
  match pr with
  | Stop => Some m
  | Do f o args rest => r ← call Builder l f o args m; run_program l rest r.2
  | Within f o body rest =>
      match o, f_type f with
      | OpInit, TStruct id =>
          l' ← struct_layout id; x ← run_program l' body (fresh id);
          run_program l rest (set_pointer (f_index f) (of_struct x) (set_which l f m))
      | OpInit, TGroup id =>
          l' ← struct_layout id; m' ← run_program l' body (initResult m); run_program l rest m'
      | OpGet, TGroup id =>
          l' ← struct_layout id; m' ← run_program l' body m; run_program l rest m'
      | _, _ => None
      end
  end.

(** ** The types *)

(** The content of a pointer is nothing, or an object of the type. The copy of a
    struct that is not there is the default struct. *)
Inductive typed : layout → M → Prop :=
| typed_intro l m :
    words_of m = l_words l → pointers_of m = l_pointers l →
    (∀ f, f ∈ l_fields l → is_set f m = true → holds f m) → typed l m
with holds : field → M → Prop :=
| holds_elem f m : is_elem (f_type f) = true → holds f m
| holds_pointer f m :
    is_pointer (f_type f) = true → refers_to (f_type f) (get_pointer (f_index f) m) → holds f m
| holds_group f m l : f_type f = TGroup (l_id l) → l ∈ layouts → typed l m → holds f m
with refers_to : field_type → P → Prop :=
| refers_null t : refers_to t null
| refers_data bs : refers_to TData (of_data bs)
| refers_text t : refers_to TText (of_text t)
| refers_texts ts : refers_to TTexts (of_texts ts)
| refers_default id : refers_to (TStruct id) (of_struct (to_struct null))
| refers_struct l m : l ∈ layouts → typed l m → refers_to (TStruct (l_id l)) (of_struct m).

(** What a reader may look at: a typed struct, or the default one. *)
Definition readable (l : layout) (m : M) : Prop := m = to_struct null ∨ typed l m.

Definition has_type (v : value) (t : ctype) : Prop :=
  match v, t with
  | VVoid, CVoid | VBool _, CBool => True
  | VNum z, CUInt8 => 0 <= z < 2 ^ 8
  | VNum z, CInt64 => - 2 ^ 63 <= z < 2 ^ 63
  | VNum z, CUInt => 0 <= z < 2 ^ 32
  | VData _, CView NData _ | VText _, CView NText _ | VTexts _, CView NTexts _ => True
  | VTexts _, CArrayPtr => True
  | VStruct m, CView (NStruct id) _ => ∃ l, l ∈ layouts ∧ l_id l = id ∧ readable l m
  | VOrphan p, COrphan n => refers_to (type_of_named n) p
  | _, _ => False
  end.

(** What the receiver of a call has to be. *)
Definition receiver (v : view) (l : layout) (m : M) : Prop :=
  match v with Reader => readable l m | Builder => typed l m | Pipeline => False end.

(** A program that compiles, and that does not take the value of a member of a union
    without asking for it. *)
Inductive program_ok : layout → program → Prop :=
| ok_stop l : program_ok l Stop
| ok_do l f o args rest :
    f ∈ l_fields l → o ∈ ops_of Builder f →
    (is_member f = true → o <> OpGet ∧ o <> OpDisown) →
    Forall2 has_type args (m_args (member_of Builder f o)) →
    program_ok l rest → program_ok l (Do f o args rest)
| ok_within l l' f o body rest :
    f ∈ l_fields l → o ∈ ops_of Builder f →
    o = OpInit ∨ o = OpGet ∧ is_group (f_type f) = true →
    m_result (member_of Builder f o) = CView (NStruct (l_id l')) Builder →
    l' ∈ layouts → program_ok l' body →
    program_ok l rest → program_ok l (Within f o body rest).
End calls.
Arguments value : clear implicits.
Arguments program : clear implicits.

(** ** The layouts the types rely on *)

(** Two different fields do not share a pointer, unless their discriminants differ. *)
Definition pointers_apart (f g : field) : bool :=
  negb (is_pointer (f_type f)) || negb (is_pointer (f_type g))
  || negb (f_index f =? f_index g)%nat
  || match f_discriminant f, f_discriminant g with
     | Some d, Some e => negb (d =? e)
     | _, _ => false
     end.

(** A union has the discriminant in its first element and only pointers as members,
    with different discriminants that fit it. *)
Definition union_ok (l : layout) (f : field) : bool :=
  match l_which l, f_discriminant f with
  | None, None => true
  | Some o, Some d =>
      (o =? 0) && (0 <? l_words l)%nat && is_pointer (f_type f) && (0 <=? d) && (d <? 2 ^ 16)
      && forallb (λ g, bool_decide (f = g) || negb (bool_decide (f_discriminant f = f_discriminant g)))
           (l_fields l)
  | _, _ => false
  end.

(** A struct refers to a layout; a group is the only field of its struct, and it has
    the sections of the struct. *)
Definition reference_ok (l : layout) (f : field) : bool :=
  match f_type f with
  | TStruct id => bool_decide (l_id <$> struct_layout id = Some id)
  | TGroup id =>
      bool_decide (l_fields l = [f]) && bool_decide (l_which l = None)
      && match struct_layout id with
         | Some l' =>
             (l_id l' =? id) && (l_words l' =? l_words l)%nat && (l_pointers l' =? l_pointers l)%nat
             && (0 <? l_words l')%nat && (0 <? l_pointers l')%nat
             && forallb (λ g, is_pointer (f_type g) && (f_index g =? 0)%nat && is_member g)
                  (l_fields l')
         | None => false
         end
  | _ => true
  end.

Definition index_ok (l : layout) (f : field) : bool :=
  negb (is_pointer (f_type f)) || (f_index f <? l_pointers l)%nat.

Definition layout_types_ok (l : layout) : bool :=
  bool_decide (struct_layout (l_id l) = Some l)
  && forallb (λ f,
       union_ok l f && reference_ok l f && index_ok l f
       && forallb (λ g, bool_decide (f = g) || pointers_apart f g) (l_fields l))
       (l_fields l).

Lemma layouts_types_ok : forallb layout_types_ok layouts = true.
Proof. by vm_compute. Qed.

Lemma forallb_elem {A} (p : A → bool) (l : list A) x : forallb p l = true → x ∈ l → p x = true.
Proof. intros Hp Hx. rewrite forallb_forall in Hp. by apply Hp, list_elem_of_In. Qed.

(** What follows for a field of a layout. *)
Lemma layout_types l f :
  l ∈ layouts → f ∈ l_fields l →
  union_ok l f = true ∧ reference_ok l f = true ∧ index_ok l f = true
  ∧ ∀ g, g ∈ l_fields l → f <> g → pointers_apart f g = true.
Proof.
  intros Hl Hf. pose proof (forallb_elem _ _ _ layouts_types_ok Hl) as Hok.
  unfold layout_types_ok in Hok. apply andb_true_iff in Hok as [_ Hok].
  pose proof (forallb_elem _ _ _ Hok Hf) as Hfok. simpl in Hfok. bool_facts. split_and!; try done.
  intros g Hg Hne. match goal with H : forallb _ _ = true |- _ =>
    pose proof (forallb_elem _ _ _ H Hg) as Hgok; simpl in Hgok end.
  by rewrite bool_decide_eq_false_2 in Hgok.
Qed.

Lemma struct_layout_id l : l ∈ layouts → struct_layout (l_id l) = Some l.
Proof.
  intros Hl. pose proof (forallb_elem _ _ _ layouts_types_ok Hl) as Hok.
  unfold layout_types_ok in Hok. bool_facts. done.
Qed.

Lemma struct_layout_some id l : struct_layout id = Some l → l ∈ layouts ∧ l_id l = id.
Proof.
  intros Hs. apply List.find_some in Hs as [Hin He%Z.eqb_eq]. by apply list_elem_of_In in Hin.
Qed.

Lemma named_pointer t : is_pointer t = true → type_of_named (named_of t) = t.
Proof. by destruct t. Qed.

(** Which calls a reader and a builder have. *)
Lemma reader_ops f o : o ∈ ops_of Reader f → o = OpIs ∨ o = OpHas ∨ o = OpGet.
Proof.
  unfold ops_of. rewrite list_elem_of_In.
  destruct (is_member f), (is_pointer _); cbn; intuition congruence.
Qed.

Lemma builder_ops f o :
  o ∈ ops_of Builder f →
  match o with
  | OpSet => is_group (f_type f) = false
  | OpSetArray => f_type f = TTexts
  | OpInit => is_elem (f_type f) = false
  | OpAdopt | OpDisown => is_pointer (f_type f) = true
  | _ => True
  end.
Proof.
  unfold ops_of. rewrite list_elem_of_In.
  destruct o; try done; destruct (is_member f), (f_type f); cbn; intuition congruence.
Qed.

Lemma set_in_ops f : is_group (f_type f) = false → OpSet ∈ ops_of Builder f.
Proof.
  intros Hg. unfold ops_of. rewrite Hg, list_elem_of_In, !in_app_iff. cbn. tauto.
Qed.

Lemma init_in_ops f id : f_type f = TStruct id → OpInit ∈ ops_of Builder f.
Proof.
  intros Ht. unfold ops_of. rewrite Ht, list_elem_of_In, !in_app_iff. cbn. tauto.
Qed.

Section laws.
Context {M P : Type} `{CapnpLaws M P}.
Implicit Types (m : M) (p : P).

(** ** Messages stay typed *)

(** Everything but the pointer of one field, which is the one that is set. *)
Definition typed_but (f : field) (l : layout) (m : M) : Prop :=
  words_of m = l_words l ∧ pointers_of m = l_pointers l ∧ is_set f m = true
  ∧ ∀ g, g ∈ l_fields l → g <> f → is_set g m = true → holds g m.

(** The kinds of fields are disjoint. *)
Lemma elem_not_pointer t : is_elem t = true → is_pointer t = false.
Proof. by destruct t. Qed.

Lemma pointer_no_elem t : is_pointer t = true → data_width t = None ∧ is_group t = false.
Proof. by destruct t. Qed.

(** A field that holds something does so in every struct with the same pointer. *)
Lemma holds_same g m m' :
  is_group (f_type g) = false → get_pointer (f_index g) m' = get_pointer (f_index g) m →
  holds g m → holds g m'.
Proof.
  intros Hg He Hh. inversion Hh as [? ? Hel|? ? Hp Hr|? ? ? Ht]; subst.
  - by apply holds_elem.
  - apply holds_pointer; [done|]. by rewrite He.
  - by rewrite Ht in Hg.
Qed.

(** No group shares its struct with another field. *)
Lemma group_alone l f g :
  l ∈ layouts → f ∈ l_fields l → g ∈ l_fields l → f <> g → is_group (f_type g) = false.
Proof.
  intros Hl Hf Hg Hne. destruct (layout_types l g Hl Hg) as (_ & Hr & _).
  unfold reference_ok in Hr. destruct (f_type g); try done. bool_facts.
  exfalso. apply Hne. match goal with H : l_fields l = [_] |- _ => rewrite H in Hf end.
  by apply list_elem_of_singleton in Hf.
Qed.

Lemma typed_inv l m :
  typed l m →
  words_of m = l_words l ∧ pointers_of m = l_pointers l
  ∧ ∀ f, f ∈ l_fields l → is_set f m = true → holds f m.
Proof. by inversion 1. Qed.

(** Writing the discriminant of a pointer field leaves the rest typed. *)
Lemma set_which_typed l f m :
  l ∈ layouts → f ∈ l_fields l → typed l m → typed_but f l (set_which l f m).
Proof.
  intros Hl Hf (Hw & Hp & Hh)%typed_inv. destruct (layout_types l f Hl Hf) as (Hu & _ & _ & _).
  unfold union_ok, set_which, typed_but, is_set in *.
  destruct (l_which l) as [o|] eqn:Hlw, (f_discriminant f) as [d|] eqn:Hd; try done.
  2:{ split_and!; try done. intros g Hg _. by apply Hh. }
  bool_facts. subst o.
  assert (elem_in 16 0 (words_of m)) as Hin by (unfold elem_in; lia).
  rewrite set_elem_words, set_elem_pointers. split_and!; try done.
  { unfold which. rewrite get_set_elem, Z.mod_small by (done || lia). by apply Z.eqb_refl. }
  intros g Hg Hne Hs. destruct (layout_types l g Hl Hg) as (Hug & _).
  destruct (f_discriminant g) as [e|] eqn:He.
  - exfalso. unfold which in Hs. rewrite get_set_elem, Z.mod_small in Hs by (done || lia).
    bool_facts. subst e.
    match goal with H : forallb _ _ = true |- _ => pose proof (forallb_elem _ _ _ H Hg) as Hd' end.
    simpl in Hd'. rewrite He in Hd'. apply orb_true_iff in Hd' as [Hd'|Hd']; [bool_facts; congruence|].
    by rewrite bool_decide_eq_true_2 in Hd'.
  - exfalso. unfold union_ok in Hug. by rewrite He, Hlw in Hug.
Qed.

(** A typed object in the pointer completes the struct. *)
Lemma set_pointer_typed l f m p :
  l ∈ layouts → f ∈ l_fields l → is_pointer (f_type f) = true → typed_but f l m →
  refers_to (f_type f) p → typed l (set_pointer (f_index f) p m).
Proof.
  intros Hl Hf Hp (Hw & Hps & Hs & Hh) Hr.
  destruct (layout_types l f Hl Hf) as (Hu & _ & Hi & Ha).
  assert (f_index f < pointers_of m)%nat as Hlt.
  { unfold index_ok in Hi. rewrite Hp in Hi. cbn [negb orb] in Hi. bool_facts. lia. }
  assert (∀ g, is_set g (set_pointer (f_index f) p m) = is_set g m) as Hset.
  { intros g. unfold is_set, which. by rewrite get_elem_set_pointer. }
  constructor; [by rewrite set_pointer_words|by rewrite set_pointer_pointers|].
  intros g Hg Hsg. rewrite Hset in Hsg.
  destruct (decide (g = f)) as [->|Hne].
  { apply holds_pointer; [done|]. by rewrite get_set_pointer. }
  specialize (Hh g Hg Hne Hsg).
  destruct (is_pointer (f_type g)) eqn:Hpg.
  2:{ pose proof (group_alone l f g Hl Hf Hg ltac:(congruence)) as Hgr.
      inversion Hh as [| |? ? ? Ht]; subst; [by apply holds_elem|congruence|by rewrite Ht in Hgr]. }
  apply (holds_same g m); [by destruct (f_type g)| |done].
  specialize (Ha g Hg ltac:(congruence)). unfold pointers_apart in Ha. rewrite Hp, Hpg in Ha.
  cbn [negb orb] in Ha. apply orb_true_iff in Ha as [Ha|Ha]; bool_facts.
  - by rewrite get_set_pointer_ne.
  - exfalso. unfold is_set in Hs, Hsg. destruct (f_discriminant f), (f_discriminant g); try done.
    bool_facts. congruence.
Qed.

(** A struct with an element field has no union. *)
Lemma no_union l f :
  l ∈ layouts → f ∈ l_fields l → is_pointer (f_type f) = false →
  l_which l = None ∧ ∀ g, g ∈ l_fields l → f_discriminant g = None.
Proof.
  intros Hl Hf Hp. destruct (layout_types l f Hl Hf) as (Hu & _). unfold union_ok in Hu.
  destruct (l_which l) as [o|] eqn:Hw.
  { destruct (f_discriminant f); [|done]. bool_facts. congruence. }
  split; [done|]. intros g Hg. destruct (layout_types l g Hl Hg) as (Hug & _).
  unfold union_ok in Hug. rewrite Hw in Hug. by destruct (f_discriminant g).
Qed.

Lemma no_union_set l f m :
  l ∈ layouts → f ∈ l_fields l → is_pointer (f_type f) = false →
  set_which l f m = m ∧ is_set f m = true.
Proof.
  intros Hl Hf Hp. destruct (no_union l f Hl Hf Hp) as [Hw Hd].
  unfold set_which, is_set. by rewrite Hw, (Hd f Hf).
Qed.

(** Writing an element leaves every pointer. *)
Lemma set_elem_typed l f m w i v :
  l ∈ layouts → f ∈ l_fields l → is_elem (f_type f) = true → typed l m →
  typed l (set_elem w i v m).
Proof.
  intros Hl Hf He (Hw & Hp & Hh)%typed_inv.
  destruct (no_union l f Hl Hf (elem_not_pointer _ He)) as [_ Hd].
  constructor; [by rewrite set_elem_words|by rewrite set_elem_pointers|].
  intros g Hg _. destruct (decide (g = f)) as [->|Hne]; [by apply holds_elem|].
  apply (holds_same g m); [by apply (group_alone l f)|apply get_pointer_set_elem|].
  apply Hh; [done|]. unfold is_set. by rewrite Hd.
Qed.

(** What a group refers to, and that it is the struct itself. *)
Lemma group_layout l f id :
  l ∈ layouts → f ∈ l_fields l → f_type f = TGroup id →
  ∃ l', struct_layout id = Some l' ∧ l' ∈ layouts ∧ l_id l' = id
        ∧ l_words l' = l_words l ∧ l_pointers l' = l_pointers l
        ∧ (0 < l_words l')%nat ∧ (0 < l_pointers l')%nat ∧ l_fields l = [f]
        ∧ ∀ g, g ∈ l_fields l' →
            is_pointer (f_type g) = true ∧ f_index g = 0%nat ∧ is_member g = true.
Proof.
  intros Hl Hf Ht. destruct (layout_types l f Hl Hf) as (_ & Hr & _).
  unfold reference_ok in Hr. rewrite Ht in Hr. destruct (struct_layout id) as [l'|] eqn:Hs.
  2:{ by rewrite andb_false_r in Hr. }
  bool_facts. exists l'. destruct (struct_layout_some _ _ Hs) as [Hl' _].
  split_and!; try done; try lia.
  intros g Hg. match goal with H : forallb _ _ = true |- _ =>
    pose proof (forallb_elem _ _ _ H Hg) as Hgok end. simpl in Hgok. bool_facts. done.
Qed.

Lemma group_typed l f l' m :
  l ∈ layouts → f ∈ l_fields l → f_type f = TGroup (l_id l') → l' ∈ layouts →
  typed l m ↔ typed l' m.
Proof.
  intros Hl Hf Ht Hl'. destruct (group_layout l f _ Hl Hf Ht) as (l2 & Hs & _ & _ & Hw & Hp & _ & _ & Hfs & _).
  rewrite struct_layout_id in Hs by done. injection Hs as <-. split.
  - intros (_ & _ & Hh)%typed_inv. specialize (Hh f Hf).
    destruct (no_union_set l f m Hl Hf) as [_ Hset]; [by rewrite Ht|].
    specialize (Hh Hset). inversion Hh as [? ? Hel|? ? Hpo|? ? l2 Ht2 Hl2]; subst.
    + by rewrite Ht in Hel.
    + by rewrite Ht in Hpo.
    + rewrite Ht in Ht2. injection Ht2 as Heq. pose proof (struct_layout_id l2 Hl2) as Hs2.
      rewrite <- Heq, struct_layout_id in Hs2 by done. by injection Hs2 as ->.
  - intros Htm. pose proof (typed_inv l' m Htm) as (Hw' & Hp' & _).
    constructor; [congruence..|]. rewrite Hfs. intros g ->%list_elem_of_singleton _.
    by apply (holds_group f m l').
Qed.

(** A struct as it is made. *)
Lemma init_holds g n k : is_group (f_type g) = false → holds g (init_struct n k).
Proof.
  intros Hg. destruct (is_elem (f_type g)) eqn:He; [by apply holds_elem|].
  apply holds_pointer; [by destruct (f_type g)|]. rewrite init_pointer. constructor.
Qed.

Lemma fresh_typed l : l ∈ layouts → typed l (fresh (l_id l)).
Proof.
  intros Hl. unfold fresh. rewrite struct_layout_id by done.
  constructor; [apply init_words|apply init_pointers|]. intros f Hf _.
  destruct (f_type f) eqn:Ht; try (apply init_holds; by rewrite Ht).
  destruct (group_layout l f _ Hl Hf Ht) as (l' & _ & Hl' & <- & Hw & Hp & _ & _ & _ & Hgs).
  apply (holds_group f _ l'); [done..|].
  constructor; [by rewrite init_words|by rewrite init_pointers|].
  intros g Hg _. apply init_holds. destruct (Hgs g Hg) as [Hpg _]. by destruct (f_type g).
Qed.

Lemma initResult_typed l f id m :
  l ∈ layouts → f ∈ l_fields l → f_type f = TGroup id → typed l m → typed l (initResult m).
Proof.
  intros Hl Hf Ht (Hw & Hp & _)%typed_inv.
  destruct (group_layout l f _ Hl Hf Ht) as (l' & _ & Hl' & <- & Hw' & Hp' & Hlt & Hlp & _ & Hgs).
  apply (group_typed l f l'); [done..|]. unfold initResult.
  constructor; rewrite ?set_pointer_words, ?set_pointer_pointers, ?set_elem_words, ?set_elem_pointers;
    [congruence..|].
  intros g Hg _. destruct (Hgs g Hg) as (Hpg & Hi & _). apply holds_pointer; [done|].
  rewrite Hi, get_set_pointer; [constructor|]. rewrite set_elem_pointers. lia.
Qed.

(** ** What the accessors give *)

Lemma readable_pointer l f m :
  readable l m → f ∈ l_fields l → is_pointer (f_type f) = true → is_set f m = true →
  refers_to (f_type f) (get_pointer (f_index f) m).
Proof.
  intros [->|Ht] Hf Hp Hs; [rewrite null_struct_pointer; constructor|].
  apply typed_inv in Ht as (_ & _ & Hh). specialize (Hh f Hf Hs).
  inversion Hh as [? ? He|? ? ? Hr|? ? ? Hg]; subst; [|done|].
  - by rewrite elem_not_pointer in Hp.
  - by rewrite Hg in Hp.
Qed.

(** A field's struct type is that of a layout. *)
Lemma struct_field l f id :
  l ∈ layouts → f ∈ l_fields l → f_type f = TStruct id → ∃ l', l' ∈ layouts ∧ l_id l' = id.
Proof.
  intros Hl Hf Ht. destruct (layout_types l f Hl Hf) as (_ & Hr & _).
  unfold reference_ok in Hr. rewrite Ht in Hr. bool_facts.
  destruct (struct_layout id) as [l'|] eqn:Hs; [|done]. exists l'. by apply struct_layout_some.
Qed.

(** What a struct pointer leads to. *)
Lemma refers_readable id p :
  refers_to (TStruct id) p → (∃ l, l ∈ layouts ∧ l_id l = id) →
  ∃ l, l ∈ layouts ∧ l_id l = id ∧ readable l (to_struct p).
Proof.
  intros Hr (l & Hl & Hid). inversion Hr; subst.
  - exists l. split_and!; [done..|]. by left.
  - exists l. split_and!; [done..|]. left. by rewrite to_of_struct.
  - eexists. split_and!; [done..|]. right. by rewrite to_of_struct.
Qed.

Lemma get_value_typed v l f m :
  l ∈ layouts → f ∈ l_fields l → readable l m → is_set f m = true →
  has_type (get_value f m) (get_ctype v (f_type f)).
Proof.
  intros Hl Hf Hr Hs. unfold get_value.
  destruct (f_type f) as [| | | | | |id|id] eqn:Ht; cbn -[Z.pow]; try done.
  - by apply get_elem_range.
  - unfold getInt64. match goal with |- context [?a mod 2 ^ 64] =>
      pose proof (Z.mod_pos_bound a (2 ^ 64)) end. lia.
  - apply refers_readable; [|by apply (struct_field l f)]. rewrite <- Ht.
    apply (readable_pointer l); try done. by rewrite Ht.
  - destruct (group_layout l f id Hl Hf Ht) as (l' & _ & Hl' & <- & _).
    exists l'. split_and!; try done. destruct Hr as [->|Htm]; [by left|right].
    by apply (group_typed l f l').
Qed.

Lemma store_typed l f m p :
  l ∈ layouts → f ∈ l_fields l → is_pointer (f_type f) = true → typed l m →
  refers_to (f_type f) p → typed l (set_pointer (f_index f) p (set_which l f m)).
Proof. intros Hl Hf Hp Ht Hr. apply set_pointer_typed; try done. by apply set_which_typed. Qed.

Lemma replace_typed l f m p :
  l ∈ layouts → f ∈ l_fields l → is_pointer (f_type f) = true → typed l m → is_set f m = true →
  refers_to (f_type f) p → typed l (set_pointer (f_index f) p m).
Proof.
  intros Hl Hf Hp (Hw & Hps & Hh)%typed_inv Hs Hr. apply set_pointer_typed; try done.
  split_and!; try done. intros g Hg _. by apply Hh.
Qed.

Lemma refers_fresh l f id :
  l ∈ layouts → f ∈ l_fields l → f_type f = TStruct id →
  refers_to (f_type f) (of_struct (fresh id))
  ∧ ∃ l', l' ∈ layouts ∧ l_id l' = id ∧ readable l' (fresh id).
Proof.
  intros Hl Hf Ht. destruct (struct_field l f id Hl Hf Ht) as (l' & Hl' & <-). rewrite Ht.
  pose proof (fresh_typed l' Hl'). split; [by constructor|]. exists l'. split_and!; try done. by right.
Qed.

Lemma builder_get_typed l f m :
  l ∈ layouts → f ∈ l_fields l → typed l m → is_set f m = true →
  has_type (builder_get f m).1 (get_ctype Builder (f_type f)) ∧ typed l (builder_get f m).2.
Proof.
  intros Hl Hf Ht Hs. unfold builder_get.
  pose proof (get_value_typed Builder l f m Hl Hf (or_intror Ht) Hs) as Hg.
  destruct (f_type f) as [| | | | | |id|id] eqn:Hty; try done.
  destruct (is_null _); [|done]. destruct (refers_fresh l f id Hl Hf Hty) as [Hr Hv].
  split; [done|]. apply replace_typed; try done. by rewrite Hty.
Qed.

Lemma set_value_typed l f x m :
  l ∈ layouts → f ∈ l_fields l → is_group (f_type f) = false → typed l m →
  has_type x (get_ctype Reader (f_type f)) →
  ∃ m', set_value l f x m = Some m' ∧ typed l m'.
Proof.
  intros Hl Hf Hg Ht Hx.
  assert (∀ w i v, is_elem (f_type f) = true → typed l (set_elem w i v (set_which l f m))) as He.
  { intros w i v Hel. destruct (no_union_set l f m Hl Hf (elem_not_pointer _ Hel)) as [-> _].
    by apply (set_elem_typed l f). }
  assert (∀ p, is_pointer (f_type f) = true → refers_to (f_type f) p →
            typed l (set_pointer (f_index f) p (set_which l f m))) as Hp.
  { intros p ? ?. by apply store_typed. }
  unfold set_value. destruct (f_type f) as [| | | | | |id|id] eqn:Hty; try done;
    destruct x; try done; eexists; (split; [done|]); try (by apply He); apply Hp; try done;
    try constructor.
  destruct Hx as (l' & Hl' & <- & [->|Hm]); by constructor.
Qed.

Lemma init_value_typed l f args m :
  l ∈ layouts → f ∈ l_fields l → is_elem (f_type f) = false → typed l m →
  Forall2 has_type args (init_args (f_type f)) →
  ∃ r m', init_value l f args m = Some (r, m')
          ∧ has_type r (CView (named_of (f_type f)) Builder) ∧ typed l m'.
Proof.
  intros Hl Hf He Ht Ha.
  assert (∀ p, is_pointer (f_type f) = true → refers_to (f_type f) p →
            typed l (set_pointer (f_index f) p (set_which l f m))) as Hp.
  { intros p ? ?. by apply store_typed. }
  unfold init_value, init_args in *. destruct (f_type f) as [| | | | | |id|id] eqn:Hty; try done.
  1,2,3: inversion Ha as [|x ? ? ? Hx Hnil]; subst; inversion Hnil; subst; destruct x; try done;
    do 2 eexists; (split; [done|]); split; [done|]; apply Hp; [done|constructor].
  - inversion Ha; subst. destruct (refers_fresh l f id Hl Hf Hty) as [Hr Hv]. rewrite Hty in Hr.
    do 2 eexists. split; [done|]. split; [done|]. by apply Hp.
  - inversion Ha; subst. do 2 eexists. split; [done|].
    assert (typed l (initResult m)) as Hm by by apply (initResult_typed l f id).
    split; [|done]. destruct (group_layout l f id Hl Hf Hty) as (l' & _ & Hl' & <- & _).
    exists l'. split_and!; try done. right. by apply (group_typed l f l').
Qed.

Lemma builder_calls_typed l f o args m :
  l ∈ layouts → f ∈ l_fields l → o ∈ ops_of Builder f → typed l m →
  (o = OpGet ∨ o = OpDisown → is_set f m = true) →
  Forall2 has_type args (op_args o (f_type f)) →
  ∃ r m', call Builder l f o args m = Some (r, m')
          ∧ has_type r (op_result Builder o (f_type f)) ∧ typed l m'.
Proof.
  intros Hl Hf Ho Hr Hs Ha. pose proof (builder_ops f o Ho) as Hop.
  destruct o; cbn [op_args op_result] in *.
  - inversion Ha; subst. by do 2 eexists.
  - inversion Ha; subst. by do 2 eexists.
  - inversion Ha; subst. destruct (builder_get_typed l f m Hl Hf Hr) as [? ?]; [auto|].
    cbn [call]. destruct (builder_get f m) as [r m'] eqn:He. by exists r, m'.
  - inversion Ha as [|x ? ? ? Hx Hnil]; subst. inversion Hnil; subst.
    destruct (set_value_typed l f x m Hl Hf Hop Hr Hx) as (m' & He & Hm).
    exists VVoid, m'. cbn [call]. by rewrite He.
  - inversion Ha as [|x ? ? ? Hx Hnil]; subst. inversion Hnil; subst. destruct x; try done.
    do 2 eexists. split; [done|]. split; [done|].
    apply store_typed; rewrite ?Hop; try done. constructor.
  - destruct (init_value_typed l f args m Hl Hf Hop Hr Ha) as (r & m' & He & ? & ?).
    by exists r, m'.
  - inversion Ha as [|x ? ? ? Hx Hnil]; subst. inversion Hnil; subst.
    destruct x as [| | | | | | |p]; try done. cbn [has_type] in Hx.
    do 2 eexists. split; [done|]. split; [done|].
    rewrite named_pointer in Hx by done. by apply store_typed.
  - inversion Ha; subst. do 2 eexists. split; [done|]. cbn [has_type]. rewrite named_pointer by done.
    split; [|apply replace_typed; auto; constructor].
    apply (readable_pointer l); auto. by right.
Qed.


(** ** Programs *)

(** The builder that a [Within] works on. *)
Lemma within_cases l f o l' :
  l ∈ layouts → f ∈ l_fields l → l' ∈ layouts → o ∈ ops_of Builder f →
  o = OpInit ∨ o = OpGet ∧ is_group (f_type f) = true →
  m_result (member_of Builder f o) = CView (NStruct (l_id l')) Builder →
  f_type f = TGroup (l_id l') ∨ f_type f = TStruct (l_id l') ∧ o = OpInit.
Proof.
  intros Hl Hf Hl' Ho Hk Hr. cbn [member_of m_result] in Hr.
  destruct Hk as [-> |[-> Hg]].
  - apply builder_ops in Ho. cbn [op_result] in Hr.
    destruct (f_type f); try done; injection Hr as ->; auto.
  - cbn [op_result] in Hr. destruct (f_type f); try done. injection Hr as ->. by left.
Qed.

(** Only the value of a member of a union has to be asked for. *)
Lemma unguarded f o m :
  (is_member f = true → o <> OpGet ∧ o <> OpDisown) → o = OpGet ∨ o = OpDisown →
  is_set f m = true.
Proof.
  unfold is_member, is_set. destruct (f_discriminant f); [|done].
  intros Hm [->| ->]; by destruct Hm.
Qed.

(** A program of declared calls on the builders runs to its end, and the message is
    typed after it. *)
Theorem programs_typed l pr m :
  program_ok l pr → l ∈ layouts → typed l m → ∃ m', run_program l pr m = Some m' ∧ typed l m'.
Proof.
  intros Hok. revert m. induction Hok as [l|l f o args rest Hf Ho Hmem Ha _ IH
    |l l' f o body rest Hf Ho Hk Hr Hl' _ IHb _ IHr]; intros m Hl Ht.
  - by exists m.
  - destruct (builder_calls_typed l f o args m) as (r & m' & He & _ & Hm); try done.
    { by apply unguarded. }
    cbn [run_program]. rewrite He. cbn. by apply IH.
  - cbn [run_program]. destruct (within_cases l f o l' Hl Hf Hl' Ho Hk Hr) as [Hty|[Hty ->]].
    + assert (typed l (initResult m)) as Hi by by apply (initResult_typed l f _ m Hl Hf Hty).
      rewrite Hty. destruct Hk as [-> |[-> _]]; rewrite struct_layout_id by done; cbn.
      * destruct (IHb (initResult m)) as (m' & -> & Hm'); [done|by apply (group_typed l f)|]. cbn.
        apply IHr; [done|]. by apply (group_typed l f l').
      * destruct (IHb m) as (m' & -> & Hm'); [done|by apply (group_typed l f)|]. cbn.
        apply IHr; [done|]. by apply (group_typed l f l').
    + rewrite Hty, struct_layout_id by done. cbn.
      destruct (IHb (fresh (l_id l'))) as (x & -> & Hx); [done|by apply fresh_typed|]. cbn.
      apply IHr; [done|]. apply store_typed; try done; rewrite Hty; [done|]. by constructor.
Qed.

(** ** The registration *)

(** What [register_connection] does to the request it gets from
    [registerConnectionRequest]. *)
Definition request_program (req : RegisterRequest) : program M P :=
  Within RegisterConnectionParams_auth OpInit
    (Do TunnelAuth_accountTag OpSet [VText (Registration.account_tag (auth req))]
    (Do TunnelAuth_tunnelSecret OpSet [VData (Registration.tunnel_secret (auth req))] Stop))
  (Do RegisterConnectionParams_tunnelId OpSet [VData (tunnel_uuid req)]
  (Do RegisterConnectionParams_connIndex OpSet [VNum (conn_index req)]
  (Within RegisterConnectionParams_options OpInit
    (Within ConnectionOptions_client OpInit
      (Do ClientInfo_clientId OpSet [VData (tunnel_uuid req)]
      (Do ClientInfo_version OpSet [VText (version req)]
      (Do ClientInfo_arch OpSet [VText (arch req)]
      (Do ClientInfo_features OpSet [VTexts (fill_texts (features req))] Stop))))
    Stop)
  Stop))).

Lemma elem_of_fields (l : layout) i f : l_fields l !! i = Some f → f ∈ l_fields l.
Proof. apply list_elem_of_lookup_2. Qed.

(** A setter on a field that is not in a union. *)
Lemma ok_set l f i x rest :
  l_fields l !! i = Some f → is_member f = false → is_group (f_type f) = false →
  has_type x (get_ctype Reader (f_type f)) → program_ok l rest →
  program_ok l (Do f OpSet [x] rest).
Proof.
  intros Hi Hm Hg Hx Hrest. constructor; try done.
  - by apply (elem_of_fields l i).
  - by apply set_in_ops.
  - by repeat constructor.
Qed.

Lemma ok_init l l' f i body rest :
  l_fields l !! i = Some f → f_type f = TStruct (l_id l') → l' ∈ layouts →
  program_ok l' body → program_ok l rest → program_ok l (Within f OpInit body rest).
Proof.
  intros Hi Ht Hl' Hb Hr. apply (ok_within l l'); try done.
  - by apply (elem_of_fields l i).
  - by apply (init_in_ops _ (l_id l')).
  - by left.
  - cbn [member_of m_result op_result]. by rewrite Ht.
Qed.

Lemma in_layouts i l : layouts !! i = Some l → l ∈ layouts.
Proof. apply list_elem_of_lookup_2. Qed.

Lemma request_program_ok req :
  0 <= conn_index req < 2 ^ 8 → program_ok RegisterConnectionParams (request_program req).
Proof.
  intros Hi. unfold request_program.
  apply (ok_init _ TunnelAuth _ 0%nat); [done|done|by apply (in_layouts 6%nat)| |].
  { apply (ok_set _ _ 0%nat); try done. apply (ok_set _ _ 1%nat); try done. constructor. }
  apply (ok_set _ _ 1%nat); try done. apply (ok_set _ _ 2%nat); try done.
  apply (ok_init _ ConnectionOptions _ 3%nat); [done|done|by apply (in_layouts 1%nat)| |constructor].
  apply (ok_init _ ClientInfo _ 0%nat); [done|done|by apply (in_layouts 0%nat)| |constructor].
  apply (ok_set _ _ 0%nat); try done. apply (ok_set _ _ 2%nat); try done.
  apply (ok_set _ _ 3%nat); try done. apply (ok_set _ _ 1%nat); try done. constructor.
Qed.

Lemma request_program_run req :
  run_program RegisterConnectionParams (request_program req) (fresh (l_id RegisterConnectionParams))
  = Some (write_request req).
Proof. reflexivity. Qed.

(** The request that [register_connection] builds is typed: its code is a program
    of declared calls, with arguments of the declared types when the index fits the
    byte it is declared as; so the program runs to its end, and in the message that is sent every
    pointer refers to what the edge's readers take it for. *)
Theorem request_typed req :
  0 <= conn_index req < 2 ^ 8 →
  program_ok RegisterConnectionParams (request_program req)
  ∧ run_program RegisterConnectionParams (request_program req) (fresh (l_id RegisterConnectionParams))
    = Some (write_request req)
  ∧ typed RegisterConnectionParams (write_request (M := M) (P := P) req).
Proof.
  intros Hi. pose proof (request_program_ok req Hi) as Hok. split_and!; [done|apply request_program_run|].
  assert (RegisterConnectionParams ∈ layouts) as Hl by by apply (in_layouts 7%nat).
  destruct (programs_typed _ _ _ Hok Hl (fresh_typed _ Hl)) as (m' & He & Hm).
  rewrite request_program_run in He. by injection He as <-.
Qed.

(** A getter of a struct. *)
Lemma getStruct_readable l f l' m :
  readable l m → f ∈ l_fields l → l' ∈ layouts → f_type f = TStruct (l_id l') → is_set f m = true →
  readable l' (getStruct f m).
Proof.
  intros Hr Hf Hl' Ht Hs. unfold getStruct.
  assert (refers_to (TStruct (l_id l')) (get_pointer (f_index f) m)) as Hp.
  { rewrite <- Ht. apply (readable_pointer l); try done. by rewrite Ht. }
  destruct (refers_readable _ _ Hp) as (l2 & Hl2 & Hid & Hm); [by exists l'|].
  pose proof (struct_layout_id l2 Hl2) as Hs2. rewrite Hid, struct_layout_id in Hs2 by done.
  by injection Hs2 as ->.
Qed.

(** What [register_connection] reads from typed results has the type it takes it for,
    as long as the discriminant is one of the two it knows. *)
Lemma results_readable m :
  readable RegisterConnectionResults m →
  let result := getStruct RegisterConnectionResults_result m in
  readable Result result
  ∧ (which result = Result_CONNECTION_DETAILS →
     readable ConnectionDetails (getStruct Result_connectionDetails result))
  ∧ (which result = Result_ERROR → readable ConnectionError (getStruct Result_error result)).
Proof.
  intros Hr result.
  assert (readable ConnectionResponse result) as Hc.
  { apply (getStruct_readable RegisterConnectionResults); try done.
    - by apply (elem_of_fields _ 0%nat).
    - by apply (in_layouts 4%nat). }
  assert (readable Result result) as Hres.
  { destruct Hc as [->|Hc]; [by left|right].
    apply (group_typed ConnectionResponse ConnectionResponse_result Result); try done.
    - by apply (in_layouts 4%nat).
    - by apply (elem_of_fields _ 0%nat).
    - by apply (in_layouts 5%nat). }
  split; [done|]. split; intros Hw.
  - apply (getStruct_readable Result); try done.
    + by apply (elem_of_fields _ 1%nat).
    + by apply (in_layouts 2%nat).
    + unfold is_set. cbn. by apply Z.eqb_eq.
  - apply (getStruct_readable Result); try done.
    + by apply (elem_of_fields _ 0%nat).
    + by apply (in_layouts 3%nat).
    + unfold is_set. cbn. by apply Z.eqb_eq.
Qed.
End laws.

(** ** Pipelines *)

(** A [Pipeline] is made before the struct it stands for is there: the runtime's
    [AnyPointer::Pipeline] notes the pointers to follow. *)
Section pipelines.
Context {M P Pl : Type} `{CapnpLaws M P}.
Context (getPointerField : nat → Pl → Pl) (noop : Pl → Pl).

(** [X::Pipeline getX()] of a struct field, and of a group. *)
Definition pipe_get (f : field) (pl : Pl) : Pl :=
  match f_type f with
  | TGroup _ => noop pl
  | _ => getPointerField (f_index f) pl
  end.

(** [getX] of a reader, when it is a struct. *)
Definition reader_get (f : field) (m : M) : M :=
  match get_value f m with VStruct x => x | _ => m end.

(** The [getX] the classes declare, one after the other. *)
Inductive pipe_path : layout → list field → layout → Prop :=
| path_nil l : pipe_path l [] l
| path_cons l f l' fs l'' :
    f ∈ l_fields l → OpGet ∈ ops_of Pipeline f →
    m_result (member_of Pipeline f OpGet) = CView (NStruct (l_id l')) Pipeline → l' ∈ layouts →
    pipe_path l' fs l'' → pipe_path l (f :: fs) l''.

(** Documented: what a pipeline stands for once the results [m] are there. *)
Context (resolve : Pl → M → M).
Hypothesis resolve_field : ∀ i pl m,
  resolve (getPointerField i pl) m = to_struct (get_pointer i (resolve pl m)).
Hypothesis resolve_noop : ∀ pl m, resolve (noop pl) m = resolve pl m.

(** Only structs outside a union and groups have a [getX]. *)
Lemma pipeline_ops f :
  OpGet ∈ ops_of Pipeline f →
  is_member f = false ∧ ((∃ id, f_type f = TStruct id) ∨ ∃ id, f_type f = TGroup id).
Proof.
  unfold ops_of. rewrite list_elem_of_In.
  destruct (is_member f), (f_type f); cbn; intuition eauto.
Qed.

Lemma pipe_get_resolves f pl m :
  OpGet ∈ ops_of Pipeline f → resolve (pipe_get f pl) m = reader_get f (resolve pl m).
Proof.
  intros (_ & [[id Ht]|[id Ht]])%pipeline_ops; unfold pipe_get, reader_get, get_value; rewrite Ht.
  - apply resolve_field.
  - apply resolve_noop.
Qed.

Lemma reader_get_readable l f l' m :
  l ∈ layouts → f ∈ l_fields l → l' ∈ layouts → OpGet ∈ ops_of Pipeline f →
  m_result (member_of Pipeline f OpGet) = CView (NStruct (l_id l')) Pipeline →
  readable l m → readable l' (reader_get f m).
Proof.
  intros Hl Hf Hl' (Hm & Ht)%pipeline_ops Hr Hrd. cbn [member_of m_result op_result] in Hr.
  unfold is_member in Hm. unfold reader_get, get_value.
  destruct Ht as [[id Ht]|[id Ht]]; rewrite Ht in *; injection Hr as ->.
  - apply (getStruct_readable l); try done. unfold is_set. by destruct (f_discriminant f).
  - destruct Hrd as [->|Htm]; [by left|right]. by apply (group_typed l f).
Qed.

(** Following pointers through a pipeline before the results are there is reading
    through the getters once they are; and what is reached is of the declared
    struct. *)
Theorem pipelines_agree l fs l' pl m :
  pipe_path l fs l' → l ∈ layouts → readable l (resolve pl m) →
  resolve (foldl (λ pl f, pipe_get f pl) pl fs) m
  = foldl (λ x f, reader_get f x) (resolve pl m) fs
  ∧ readable l' (resolve (foldl (λ pl f, pipe_get f pl) pl fs) m).
Proof.
  intros Hp. revert pl. induction Hp as [l|l f l1 fs l2 Hf Ho Hr Hl1 Hp IH]; intros pl Hl Hrd; [done|].
  cbn [foldl]. rewrite <- (pipe_get_resolves f pl m Ho). apply IH; [done|].
  rewrite pipe_get_resolves by done. by apply (reader_get_readable l).
Qed.
End pipelines.

(** ** Witnesses *)

(** A runtime whose pipelines are lists of pointers. *)
Definition follow (pl : list nat) (m : message) : message :=
  foldl (λ x i, to_struct (get_pointer i x)) m pl.

Definition sample_results : message :=
  write_results (RpcDetails (replicate 16 7) (str "sjc08")) true.

(** The name of the data centre, through the pipeline and from the results. *)
Example pipelines_agree_example :
  follow (pipe_get (λ i pl, pl ++ [i]) (λ pl, pl) ConnectionResponse_result
            (pipe_get (λ i pl, pl ++ [i]) (λ pl, pl) RegisterConnectionResults_result []))
    sample_results
  = getStruct RegisterConnectionResults_result sample_results.
Proof. vm_compute. reflexivity. Qed.

(** A discriminant that the client does not know is not checked: the pointer that is
    read as an error is whatever the other side put there. *)
Example unknown_member_unchecked :
  let m : message := Struct 1 2 [PStruct (Struct 3 0 [])] in
  typed Result m ∧ which m = 2 ∧ ¬ readable ConnectionError (getStruct Result_error m).
Proof.
  cbv zeta. split_and!.
  - constructor; [done|done|]. intros f Hf Hs. exfalso.
    apply list_elem_of_In in Hf as [<-|[<-|[]]]; by vm_compute in Hs.
  - by vm_compute.
  - vm_compute. intros [Hd|Ht]; [done|]. by inversion Ht.
Qed.


Lemma request_typed_witness :
  typed RegisterConnectionParams (write_request (M := message) sample_request).
Proof. apply (request_typed (M := message) sample_request). simpl. lia. Defined.
