(* ===== verification/LpmHeap.v ===== *)
(** * The trie as pointers

    [include/cfd/lpm_trie.hpp] once more, now with its nodes in a store: [insert]
    walks with a [Node**], allocates what is missing and can throw in the middle,
    [lookup] follows raw pointers, and the destructor deletes what it reaches. A
    use of a pointer to a node that is not there, and a second [delete], are
    undefined. The theorem at the end says that a program over any number of
    tries never does either, answers as a scan of the inserted routes does, and
    leaks nothing; it rests on the tree-level facts of [Lpm]. *)
From S2P Require Import Prelude Cidr Lpm.
Local Open Scope Z_scope.
Local Open Scope cfd_scope.

Abbreviation loc := positive.

(** [operator new]: an address where no node lives. *)
Class Allocator := {
  alloc : gset loc → loc;
  alloc_fresh X : alloc X ∉ X;
}.

#[export] Instance Family_countable : Countable Family.
Proof.
  refine (inj_countable' (λ f, match f with V4 => true | V6 => false end)
            (λ b, if b : bool then V4 else V6) _).
  by intros [].
Defined.

Section heap.
Context {T : Type} (T0 : T) `{Allocator}.

(** ** The store *)

(** [struct Node] *)
Record node := mkNode {
  left : option loc;
  right : option loc;
  value : T;
  has_value : bool;
}.

(** The nodes that are alive; the members [root_v4_] and [root_v6_] of the tries,
    by the trie's number; and how many allocations still succeed: with none left,
    [new] throws [std::bad_alloc]. *)
Record mem := mkMem {
  nodes : gmap loc node;
  roots : gmap (nat * Family) (option loc);
  avail : nat;
}.

(** A [Node*] variable that can be assigned through a [Node**] or a [Node*&]: a
    root, or a child of a node. *)
Inductive slot := Root (o : nat) (f : Family) | Child (x : loc) (b : bool).

Definition set_child (b : bool) (p : option loc) (n : node) : node :=
  if b then mkNode (left n) p (value n) (has_value n)
  else mkNode p (right n) (value n) (has_value n).

Definition child (b : bool) (n : node) : option loc := if b then right n else left n.

Definition deref (x : loc) (m : mem) : run node := run_opt (nodes m !! x).

Definition read_slot (s : slot) (m : mem) : run (option loc) :=
  match s with
  | Root o f => run_opt (roots m !! (o, f))
  | Child x b => let! n := deref x m in Done (child b n)
  end.

(** The assignment to a variable that is there. *)
Definition put (s : slot) (p : option loc) (m : mem) : mem :=
  match s with
  | Root o f => mkMem (nodes m) (alter (λ _, p) (o, f) (roots m)) (avail m)
  | Child x b => mkMem (alter (set_child b p) x (nodes m)) (roots m) (avail m)
  end.

Definition write_slot (s : slot) (p : option loc) (m : mem) : run mem :=
  let! _ := read_slot s m in Done (put s p m).

(** [std::make_unique<Node>().release()]: [None] is [std::bad_alloc]. *)
Definition new_node (m : mem) : option (loc * mem) :=
  match avail m with
  | O => None
  | S n =>
      let x := alloc (dom (nodes m)) in
      Some (x, mkMem (<[x := mkNode None None T0 false]> (nodes m)) (roots m) n)
  end.

(** [delete n] *)
Definition delete_node (x : loc) (m : mem) : run mem :=
  let! _ := deref x m in Done (mkMem (delete x (nodes m)) (roots m) (avail m)).

(** ** The operations *)

(** [if (!*cur) *cur = new Node]; [false] when it throws. *)
Definition fill_slot (cur : slot) (m : mem) : run (mem * bool) :=
  let! p := read_slot cur m in
  match p with
  | Some _ => Done (m, true)
  | None =>
      match new_node m with
      | None => Done (m, false)
      | Some (x, m) => let! m := write_slot cur (Some x) m in Done (m, true)
      end
  end.

(** The loop of [insert], with [n] bits to go; [None] when it throws. *)
Fixpoint insert_loop (a : IpAddr) (n bit : nat) (cur : slot) (m : mem)
    : run (mem * option slot) :=
  match n with
  | O => Done (m, Some cur)
  | S n' =>
      let! r := fill_slot cur m in
      if negb r.2 then Done (r.1, None)
      else
        let! p := read_slot cur r.1 in
        let! x := run_opt p in
        insert_loop a n' (S bit) (Child x (bit_of a bit)) r.1
  end.

(** What [insert] does after the loop. *)
Definition insert_end (cur : slot) (v : T) (m : mem) : run (mem * bool) :=
  let! r := fill_slot cur m in
  if negb r.2 then Done (r.1, false)
  else
    let! p := read_slot cur r.1 in
    let! x := run_opt p in
    let! n := deref x r.1 in
    let n' := mkNode (left n) (right n) v true in
    Done (mkMem (<[x := n']> (nodes r.1)) (roots r.1) (avail r.1), true).

Definition insert (o : nat) (c : Cidr) (v : T) (m : mem) : run (mem * bool) :=
  let! r := insert_loop (addr c) (Z.to_nat (prefix_len c)) 0 (Root o (family (addr c))) m in
  match r.2 with
  | None => Done (r.1, false)
  | Some cur => insert_end cur v r.1
  end.

(** The loop of [lookup]; the fuel is one more than the bits that are left. *)
Fixpoint lookup_loop (fuel : nat) (a : IpAddr) (max_bits bit : nat) (cur : option loc)
    (best : option T) (m : mem) : run (option T) :=
  match fuel with
  | O => Fuel
  | S fuel' =>
      match cur with
      | Some x =>
          if (bit <=? max_bits)%nat then
            let! n := deref x m in
            let best := if has_value n then Some (value n) else best in
            if (bit =? max_bits)%nat then Done best
            else lookup_loop fuel' a max_bits (S bit) (if bit_of a bit then right n else left n)
                   best m
          else Done best
      | None => Done best
      end
  end.

Definition lookup (o : nat) (a : IpAddr) (m : mem) : run (option T) :=
  let! cur := read_slot (Root o (family a)) m in
  let bits := Z.to_nat (max_bits (family a)) in
  lookup_loop (S (S bits)) a bits 0 cur None m.

(** [destroy]; the fuel bounds the depth of the recursion. *)
Fixpoint destroy (fuel : nat) (n : slot) (m : mem) : run mem :=
  match fuel with
  | O => Fuel
  | S fuel' =>
      let! p := read_slot n m in
      match p with
      | None => Done m
      | Some x =>
          let! m := destroy fuel' (Child x false) m in
          let! m := destroy fuel' (Child x true) m in
          let! m := delete_node x m in
          write_slot n None m
      end
  end.

(** A path has at most 129 nodes, and the recursion ends one call below it. *)
Definition destroy_fuel : nat := 130.

(** The constructor, and the destructor with the end of the members' lifetime. *)
Definition ctor (o : nat) (m : mem) : mem :=
  mkMem (nodes m) (<[(o, V6) := None]> (<[(o, V4) := None]> (roots m))) (avail m).

Definition dtor (o : nat) (m : mem) : run mem :=
  let! m := destroy destroy_fuel (Root o V4) m in
  let! m := destroy destroy_fuel (Root o V6) m in
  Done (mkMem (nodes m) (delete (o, V6) (delete (o, V4) (roots m))) (avail m)).

(** The defaulted move constructor copies the two pointers. *)
Definition move_ctor (o src : nat) (m : mem) : run mem :=
  let! p4 := read_slot (Root src V4) m in
  let! p6 := read_slot (Root src V6) m in
  Done (mkMem (nodes m) (<[(o, V6) := p6]> (<[(o, V4) := p4]> (roots m))) (avail m)).

(** The defaulted move assignment overwrites the two pointers. *)
Definition move_assign (o src : nat) (m : mem) : run mem :=
  let! p4 := read_slot (Root src V4) m in
  let! m := write_slot (Root o V4) p4 m in
  let! p6 := read_slot (Root src V6) m in
  write_slot (Root o V6) p6 m.

(** ** Trees in the store *)

(** A tree with the addresses of its nodes. *)
Inductive ltree :=
| LNull
| LNode (x : loc) (l r : ltree) (v : T) (h : bool).

Definition root (t : ltree) : option loc := match t with LNull => None | LNode x _ _ _ _ => Some x end.

Fixpoint shape (t : ltree) : trie T :=
  match t with LNull => Null | LNode _ l r v h => Node (shape l) (shape r) v h end.

Fixpoint locs (t : ltree) : list loc :=
  match t with LNull => [] | LNode x l r _ _ => x :: locs l ++ locs r end.

Fixpoint height (t : ltree) : nat :=
  match t with LNull => 0 | LNode _ l r _ _ => S (height l `max` height r) end.

Fixpoint holds (h : gmap loc node) (t : ltree) : Prop :=
  match t with
  | LNull => True
  | LNode x l r v hv =>
      h !! x = Some (mkNode (root l) (root r) v hv) ∧ holds h l ∧ holds h r
  end.

Lemma holds_frame h h' t : (∀ y, y ∈ locs t → h' !! y = h !! y) → holds h t → holds h' t.
Proof.
  induction t as [|x l IHl r IHr v hv]; simpl; [done|]. intros Hf (Hx & Hl & Hr).
  split; [by rewrite Hf by set_solver|].
  split; [apply IHl|apply IHr]; try done; intros; apply Hf; set_solver.
Qed.

Lemma holds_live h t y : holds h t → y ∈ locs t → is_Some (h !! y).
Proof.
  induction t as [|x l IHl r IHr v hv]; simpl; [by intros _ ?%elem_of_nil|].
  intros (Hx & Hl & Hr) [->|[?|?]%elem_of_app]%elem_of_cons; [rewrite Hx; eauto|auto|auto].
Qed.

(** The variable exists, and is not part of the nodes [X]. *)
Definition slot_ok (s : slot) (X : list loc) (m : mem) : Prop :=
  match s with
  | Root o f => is_Some (roots m !! (o, f))
  | Child x _ => is_Some (nodes m !! x) ∧ x ∉ X
  end.

(** The tree hangs off the variable [s]. *)
Definition rooted (s : slot) (t : ltree) (m : mem) : Prop :=
  read_slot s m = Done (root t) ∧ holds (nodes m) t ∧ NoDup (locs t) ∧ slot_ok s (locs t) m.

(** Two stores that differ at most in the nodes [X]. *)
Definition agree (X : list loc) (m m' : mem) : Prop :=
  roots m = roots m' ∧ ∀ y, y ∉ X → nodes m !! y = nodes m' !! y.

Lemma agree_refl X m : agree X m m.
Proof. done. Qed.

Lemma agree_sym X m m' : agree X m m' → agree X m' m.
Proof. intros [Hr Hn]. split; [done|]. intros y Hy. by rewrite Hn. Qed.

Lemma agree_trans X Y m1 m2 m3 :
  (∀ y, y ∈ X → y ∈ Y) → agree X m1 m2 → agree Y m2 m3 → agree Y m1 m3.
Proof.
  intros Hsub [Hr Hn] [Hr' Hn']. split; [congruence|].
  intros y Hy. rewrite Hn by auto. auto.
Qed.

Lemma agree_mono X Y m m' : (∀ y, y ∈ X → y ∈ Y) → agree X m m' → agree Y m m'.
Proof. intros Hsub [Hr Hn]. split; [done|]. auto. Qed.

Lemma agree_put X s p m m' : agree X m m' → agree X (put s p m) (put s p m').
Proof.
  intros [Hr Hn]. destruct s as [o f|x b]; split; simpl; try done; [by rewrite Hr|].
  intros y Hy. destruct (decide (x = y)) as [->|].
  - by rewrite !lookup_alter_eq, Hn.
  - by rewrite !lookup_alter_ne, Hn.
Qed.

Lemma set_child_twice b p q n : set_child b p (set_child b q n) = set_child b p n.
Proof. by destruct n, b. Qed.

Lemma put_put s p q m : put s p (put s q m) = put s p m.
Proof.
  destruct s as [o f|x b]; unfold put; simpl; f_equal.
  - apply map_eq. intros k. destruct (decide ((o, f) = k)) as [<-|].
    + rewrite !lookup_alter_eq. by destruct (_ !! _).
    + by rewrite !lookup_alter_ne.
  - apply map_eq. intros y. destruct (decide (x = y)) as [->|].
    + rewrite !lookup_alter_eq. destruct (_ !! _) as [n|]; simpl; [|done].
      by rewrite set_child_twice.
    + by rewrite !lookup_alter_ne.
Qed.

Lemma put_same s p m : read_slot s m = Done p → put s p m = m.
Proof.
  destruct m as [ns rs av], s as [o f|x b]; unfold put, read_slot, deref, run_opt; simpl.
  - destruct (rs !! _) as [q|] eqn:Hq; intros [= ->]. f_equal. apply map_eq. intros k.
    destruct (decide ((o, f) = k)) as [<-|]; [by rewrite lookup_alter_eq, Hq|by rewrite lookup_alter_ne].
  - destruct (ns !! x) as [n|] eqn:Hn; intros [= <-]. f_equal. apply map_eq. intros y.
    destruct (decide (x = y)) as [->|]; [|by rewrite lookup_alter_ne].
    rewrite lookup_alter_eq, Hn. simpl. by destruct n, b.
Qed.

Lemma read_put s p m X : slot_ok s X m → read_slot s (put s p m) = Done p.
Proof.
  destruct s as [o f|x b]; unfold slot_ok, read_slot, put, deref; simpl.
  - intros [q Hq]. by rewrite lookup_alter_eq, Hq.
  - intros [[n Hn] _]. rewrite lookup_alter_eq, Hn. simpl. by destruct b.
Qed.

Lemma read_agree X s m m' : slot_ok s X m' → agree X m m' → read_slot s m = read_slot s m'.
Proof.
  intros Hs [Hr Hn]. destruct s as [o f|x b]; simpl in *; [by rewrite Hr|].
  unfold deref. by rewrite Hn by tauto.
Qed.

Lemma slot_ok_put s X q p m : slot_ok s X m → slot_ok s X (put q p m).
Proof.
  destruct s as [o f|x b], q as [o' f'|y b']; simpl; try done; unfold is_Some.
  - destruct (decide ((o', f') = (o, f))) as [->|];
      [rewrite lookup_alter_eq; intros [z ->]; simpl; eauto|by rewrite lookup_alter_ne].
  - intros [[n Hn] ?]. split; [|done].
    destruct (decide (y = x)) as [->|]; [rewrite lookup_alter_eq, Hn; simpl; eauto|].
    rewrite lookup_alter_ne by done. eauto.
Qed.

Lemma slot_ok_agree s X Y m m' :
  slot_ok s X m' → agree X m m' →
  (∀ y, y ∈ Y → y ∈ X) → slot_ok s Y m.
Proof.
  intros Hs [Hr Hn] Hsub. destruct s as [o f|x b]; simpl in *; [by rewrite Hr|].
  rewrite Hn by tauto. naive_solver.
Qed.

Lemma write_slot_ok s p m X : slot_ok s X m → write_slot s p m = Done (put s p m).
Proof.
  unfold write_slot. destruct s as [o f|x b]; simpl; unfold deref.
  - by intros [q ->].
  - by intros [[n ->] _].
Qed.

(** ** What an operation on the tree at a variable may change *)

(** Only the variable and the nodes of the new tree, which are those of the old one
    and fresh ones. *)
Definition changed (s : slot) (t t' : ltree) (m m' : mem) : Prop :=
  agree (locs t') m' (put s (root t') m)
  ∧ (∀ y, y ∈ locs t → y ∈ locs t')
  ∧ ∀ y, y ∈ locs t' → y ∈ locs t ∨ nodes m !! y = None.

Lemma put_live s p m y : nodes (put s p m) !! y = None ↔ nodes m !! y = None.
Proof.
  destruct s as [o f|x b]; [done|]. simpl. destruct (decide (x = y)) as [->|].
  - rewrite lookup_alter_eq. by destruct (_ !! _).
  - by rewrite lookup_alter_ne.
Qed.

Lemma slot_ok_fresh s X Y m :
  slot_ok s X m → (∀ y, y ∈ Y → y ∈ X ∨ nodes m !! y = None) → slot_ok s Y m.
Proof.
  destruct s as [o f|x b]; [done|]. intros [[n Hn] Hx] Hsub. split; [eauto|].
  intros [?|?]%Hsub; congruence.
Qed.

Lemma changed_refl s t m : rooted s t m → changed s t t m m.
Proof.
  intros (Hread & _). split; [by rewrite (put_same _ _ _ Hread)|]. split; auto.
Qed.

Lemma changed_trans s t1 t2 t3 m1 m2 m3 :
  changed s t1 t2 m1 m2 → changed s t2 t3 m2 m3 → changed s t1 t3 m1 m3.
Proof.
  intros (Ha & Hsub & Hfr) (Ha' & Hsub' & Hfr'). split; [|split; [by auto|]].
  - eapply agree_trans; [|exact Ha'|]; [done|]. rewrite <- (put_put s _ (root t2) m1).
    apply agree_put. eapply agree_mono; [|exact Ha]. done.
  - intros y [Hy|Hy]%Hfr'; [by apply Hfr|]. destruct (decide (y ∈ locs t2)) as [Hin|Hni].
    + by apply Hfr.
    + right. destruct Ha as [_ Ha]. rewrite Ha in Hy by done. by apply put_live in Hy.
Qed.

(** A node and one of its children. *)
Definition graft (b : bool) (x : loc) (c s : ltree) (v : T) (h : bool) : ltree :=
  if b then LNode x s c v h else LNode x c s v h.

Lemma graft_node x l r v h b :
  LNode x l r v h = graft b x (if b then r else l) (if b then l else r) v h.
Proof. by destruct b. Qed.

Lemma elem_of_graft b x c s v h y :
  y ∈ locs (graft b x c s v h) ↔ y = x ∨ y ∈ locs c ∨ y ∈ locs s.
Proof. destruct b; simpl; rewrite elem_of_cons, elem_of_app; tauto. Qed.

Lemma NoDup_graft b x c s v h :
  NoDup (locs (graft b x c s v h)) ↔
  x ∉ locs c ∧ x ∉ locs s ∧ NoDup (locs c) ∧ NoDup (locs s)
  ∧ ∀ y, y ∈ locs c → y ∉ locs s.
Proof.
  destruct b; simpl; rewrite NoDup_cons, NoDup_app, not_elem_of_app; naive_solver.
Qed.

Lemma holds_graft hp b x c s v h :
  holds hp (graft b x c s v h) ↔
  hp !! x = Some (set_child b (root c) (mkNode (root s) (root s) v h)) ∧ holds hp c ∧ holds hp s.
Proof. destruct b; simpl; tauto. Qed.

Lemma root_graft b x c s v h : root (graft b x c s v h) = Some x.
Proof. by destruct b. Qed.

Lemma rooted_child cur b x c s v h m :
  rooted cur (graft b x c s v h) m → rooted (Child x b) c m.
Proof.
  intros (_ & Hh%holds_graft & Hd%NoDup_graft & _). destruct Hh as (Hx & Hc & _).
  destruct Hd as (Hxc & _ & Hnd & _). unfold rooted, slot_ok. rewrite Hx.
  split; [|eauto 6]. simpl. unfold deref. rewrite Hx. simpl. by destruct b.
Qed.

(** A change below a child is a change of the whole tree. *)
Lemma rooted_up cur b x c c' s v h m m' :
  rooted cur (graft b x c s v h) m →
  rooted (Child x b) c' m' → changed (Child x b) c c' m m' →
  rooted cur (graft b x c' s v h) m'
  ∧ changed cur (graft b x c s v h) (graft b x c' s v h) m m'.
Proof.
  intros (Hread & Hh%holds_graft & Hd%NoDup_graft & Hs) (Hread' & Hh' & Hd' & Hs') (Ha & Hsub & Hfr).
  destruct Hh as (Hx & Hc & Hsib), Hd as (Hxc & Hxs & _ & Hds & Hdis).
  assert (x ∉ locs c') as Hxc'.
  { intros [?|?]%Hfr; congruence. }
  assert (∀ y, y ∈ locs s → y ∉ locs c') as Hdis'.
  { intros y Hy [?|Hn]%Hfr; [by eapply Hdis|].
    destruct (holds_live _ _ _ Hsib Hy); congruence. }
  assert (agree (locs (graft b x c' s v h)) m' m) as Hag.
  { eapply agree_trans; [|exact Ha|]; [intros; apply elem_of_graft; tauto|].
    split; [done|]. intros y Hy. simpl. rewrite lookup_alter_ne; [done|].
    intros <-. apply Hy, elem_of_graft. tauto. }
  assert (∀ y, y ∈ locs (graft b x c' s v h) →
            y ∈ locs (graft b x c s v h) ∨ nodes m !! y = None) as Hfresh.
  { intros y. rewrite !elem_of_graft. intros [?|[?%Hfr|?]]; tauto. }
  pose proof (slot_ok_fresh _ _ _ _ Hs Hfresh) as Hok.
  split.
  - split; [|split; [|split]].
    + by rewrite (read_agree _ _ _ _ Hok Hag), Hread, !root_graft.
    + apply holds_graft. split_and!; [|done|].
      * rewrite (proj2 Ha) by done. simpl. rewrite lookup_alter_eq, Hx. simpl.
        by rewrite set_child_twice.
      * eapply holds_frame; [|exact Hsib]. intros y Hy. rewrite (proj2 Ha) by auto. simpl.
        rewrite lookup_alter_ne; [done|]. intros ->. done.
    + apply NoDup_graft. split_and!; try done. intros y Hy Hys. by eapply Hdis'.
    + eapply slot_ok_agree; [exact Hok|exact Hag|done].
  - split; [|split; [intros y; rewrite !elem_of_graft; intros [?|[?%Hsub|?]]; tauto|done]].
    rewrite root_graft. rewrite root_graft in Hread. by rewrite (put_same _ _ _ Hread).
Qed.

(** ** [insert] *)

(** After [if (!*cur) *cur = new Node]. *)
Lemma fill_slot_spec cur t m :
  rooted cur t m →
  (∃ x l r v h m', fill_slot cur m = Done (m', true) ∧ rooted cur (LNode x l r v h) m'
    ∧ changed cur t (LNode x l r v h) m m'
    ∧ Node (shape l) (shape r) v h = match shape t with Null => Lpm.new_node T0 | s => s end
    ∧ (height (LNode x l r v h) ≤ 1 `max` height t)%nat ∧ (avail m ≤ S (avail m'))%nat)
  ∨ (fill_slot cur m = Done (m, false) ∧ t = LNull ∧ avail m = 0%nat).
Proof.
  intros Hrt. pose proof Hrt as (Hread & Hh & Hd & Hs). unfold fill_slot. rewrite Hread.
  destruct t as [|x l r v h]; cbn [root run_bind].
  2: { left. exists x, l, r, v, h, m. pose proof (changed_refl _ _ _ Hrt).
       do 4 (split; [done|]). split; [apply Nat.le_max_r|lia]. }
  unfold new_node. destruct (avail m) as [|n] eqn:Hav; [by right|left].
  set (x := alloc (dom (nodes m))). set (m1 := mkMem _ _ n).
  assert (nodes m !! x = None) as Hfresh by (apply not_elem_of_dom, alloc_fresh).
  assert (agree [x] m1 m) as Hag.
  { split; [done|]. intros y Hy. unfold m1. simpl. rewrite lookup_insert_ne; [done|]. set_solver. }
  assert (slot_ok cur [x] m) as Hok.
  { eapply slot_ok_fresh; [exact Hs|]. intros y ->%list_elem_of_singleton. auto. }
  assert (slot_ok cur [x] m1) as Hok1.
  { eapply slot_ok_agree; [exact Hok|exact Hag|done]. }
  rewrite (write_slot_ok _ _ _ _ Hok1). simpl.
  exists x, LNull, LNull, T0, false, (put cur (Some x) m1).
  split; [done|]. split; [|split; [|split; [done|split; [done|]]]].
  - split; [by eapply read_put|]. split; [|split; [apply NoDup_singleton|by apply slot_ok_put]].
    split; [|done]. destruct cur as [o f|y b]; simpl; [apply lookup_insert_eq|].
    destruct Hok as [_ Hyx]. rewrite lookup_alter_ne; [apply lookup_insert_eq|set_solver].
  - split; [by apply agree_put|split; [intros y Hy; by apply elem_of_nil in Hy|]].
    intros y ->%list_elem_of_singleton. auto.
  - unfold put. destruct cur; unfold m1; simpl; lia.
Qed.

(** The assignment of the value. *)
Lemma set_value_spec cur x l r v h v' h' m :
  rooted cur (LNode x l r v h) m →
  let m' := mkMem (<[x := mkNode (root l) (root r) v' h']> (nodes m)) (roots m) (avail m) in
  rooted cur (LNode x l r v' h') m'
  ∧ changed cur (LNode x l r v h) (LNode x l r v' h') m m'.
Proof.
  intros (Hread & (Hx & Hl & Hr) & Hd & Hs) m'.
  assert (agree (locs (LNode x l r v' h')) m' m) as Hag.
  { split; [done|]. intros y Hy. simpl in *. rewrite lookup_insert_ne; [done|]. set_solver. }
  assert (∀ y, y ∈ locs l ++ locs r → nodes m' !! y = nodes m !! y) as Hf.
  { intros y Hy. simpl. rewrite lookup_insert_ne; [done|]. intros ->.
    by apply NoDup_cons in Hd as [? _]. }
  split; [split; [|split; [split; [|split]|split; [done|]]]|split; [|split]].
  - by rewrite (read_agree _ _ _ _ Hs Hag), Hread.
  - apply lookup_insert_eq.
  - eapply holds_frame; [|exact Hl]. intros; apply Hf; set_solver.
  - eapply holds_frame; [|exact Hr]. intros; apply Hf; set_solver.
  - by eapply slot_ok_agree.
  - change (root (LNode x l r v' h')) with (root (LNode x l r v h)).
    by rewrite (put_same _ _ _ Hread).
  - done.
  - auto.
Qed.

(** Trees in which every walk finds the same. *)
Definition same_found (t t' : trie T) : Prop := ∀ p k, deepest t' p k = deepest t p k.

Lemma same_found_fill t : same_found t (match t with Null => Lpm.new_node T0 | s => s end).
Proof. intros p k. destruct t; [|done]. by destruct p as [|[] p]. Qed.

Lemma same_found_graft b x c c' s v h :
  same_found (shape c) (shape c') →
  same_found (shape (graft b x c s v h)) (shape (graft b x c' s v h)).
Proof. intros Hc [|b' p] k; destruct b; simpl; [done..| |]; by destruct b'; rewrite ?Hc. Qed.

Lemma height_graft b x c s v h : height (graft b x c s v h) = S (height c `max` height s).
Proof. destruct b; simpl; lia. Qed.

(** The rest of [insert] from a variable of its walk. *)
Definition insert_from (a : IpAddr) (n bit : nat) (cur : slot) (v : T) (m : mem)
    : run (mem * bool) :=
  let! r := insert_loop a n bit cur m in
  match r.2 with
  | None => Done (r.1, false)
  | Some cur => insert_end cur v r.1
  end.

Lemma insert_from_spec a v n bit cur t m :
  rooted cur t m →
  ∃ m' t' ok, insert_from a n bit cur v m = Done (m', ok)
    ∧ rooted cur t' m' ∧ changed cur t t' m m'
    ∧ (height t' ≤ S n `max` height t)%nat ∧ (avail m ≤ avail m' + S n)%nat
    ∧ (S n ≤ avail m → ok = true)%nat
    ∧ if ok then shape t' = ins T0 (bit_of a <$> seq bit n) v (shape t)
      else same_found (shape t) (shape t').
Proof.
  revert bit cur t m. induction n as [|n IH]; intros bit cur t m Hrt; unfold insert_from.
  - cbn [insert_loop run_bind snd fst]. unfold insert_end.
    destruct (fill_slot_spec cur t m Hrt)
      as [(x & l & r & w & h & m1 & -> & Hrt1 & Hch & Hsh & Hht & Hav)|(-> & -> & Hav)];
      cbn [run_bind snd fst negb].
    2: { exists m, LNull, false. pose proof (changed_refl _ _ _ Hrt).
         do 5 (split; [done || lia|]). split; [lia|done]. }
    destruct (set_value_spec cur x l r w h v true m1 Hrt1) as [Hrt2 Hch2].
    destruct Hrt1 as (Hread & (Hx & _) & _). rewrite Hread. simpl. unfold deref. rewrite Hx. simpl.
    eexists _, (LNode x l r v true), true. split; [done|]. split; [exact Hrt2|].
    split; [eapply changed_trans; eassumption|]. split; [simpl in *; lia|]. split; [simpl; lia|].
    split; [done|]. destruct (shape t); simpl; by injection Hsh as -> -> _ _.
  - cbn [insert_loop].
    destruct (fill_slot_spec cur t m Hrt)
      as [(x & l & r & w & h & m1 & -> & Hrt1 & Hch & Hsh & Hht & Hav)|(-> & -> & Hav)];
      cbn [run_bind snd fst negb].
    2: { exists m, LNull, false. pose proof (changed_refl _ _ _ Hrt).
         do 5 (split; [done || lia|]). split; [lia|done]. }
    pose proof Hrt1 as (Hread & _). rewrite Hread. simpl run_bind.
    set (b := bit_of a bit). set (c := if b then r else l). set (s := if b then l else r).
    rewrite (graft_node x l r w h b) in Hrt1, Hch. fold c s in Hrt1, Hch.
    destruct (IH (S bit) (Child x b) c m1 (rooted_child _ _ _ _ _ _ _ _ Hrt1))
      as (m2 & c' & ok & Hrun & Hrt2 & Hch2 & Hht2 & Hav2 & Hok & Hsh2).
    destruct (rooted_up _ _ _ _ _ _ _ _ _ _ Hrt1 Hrt2 Hch2) as [Hrt3 Hch3].
    exists m2, (graft b x c' s w h), ok. split; [exact Hrun|]. split; [done|].
    split; [eapply changed_trans; eassumption|].
    rewrite height_graft. rewrite (graft_node x l r w h b), height_graft in Hht. fold c s in Hht.
    split; [lia|]. split; [lia|]. split; [intros; apply Hok; lia|].
    destruct ok.
    + simpl. fold b. unfold graft, c, s in *.
      destruct (shape t); simpl in *; injection Hsh as Hl Hr Hw Hh;
        destruct b; simpl; by rewrite Hsh2, ?Hl, ?Hr, ?Hw, ?Hh.
    + intros p k. rewrite (same_found_graft b x c c' s w h Hsh2 p k).
      rewrite <- (same_found_fill (shape t) p k).
      unfold graft, c, s. destruct b; simpl shape; rewrite Hsh; by destruct (shape t).
Qed.

(** ** [lookup] *)

Lemma lookup_loop_node fuel a mb bit x nd best m :
  nodes m !! x = Some nd → (bit ≤ mb)%nat →
  lookup_loop (S fuel) a mb bit (Some x) best m
  = let best := if has_value nd then Some (value nd) else best in
    if (bit =? mb)%nat then Done best
    else lookup_loop fuel a mb (S bit) (child (bit_of a bit) nd) best m.
Proof.
  intros Hx Hb. cbn [lookup_loop]. unfold deref. rewrite Hx.
  by rewrite (proj2 (Nat.leb_le _ _)) by done.
Qed.

Lemma lookup_loop_spec a mb n bit t best m :
  holds (nodes m) t → (bit + n = mb)%nat →
  lookup_loop (S (S n)) a mb bit (root t) best m
  = Done (Lpm.lookup_loop a mb bit (shape t) best).
Proof.
  revert bit t best. induction n as [|n IH]; intros bit [|x l r v h] best Hh Hn; [done| |done|].
  all: destruct Hh as (Hx & Hl & Hr); cbn [root shape Lpm.lookup_loop].
  all: rewrite (lookup_loop_node _ _ _ _ _ _ _ _ Hx) by lia.
  all: rewrite (proj2 (Nat.leb_le _ _)) by lia; cbn [negb has_value value].
  - by rewrite (proj2 (Nat.eqb_eq _ _)) by lia.
  - rewrite (proj2 (Nat.eqb_neq _ _)) by lia. unfold child. cbn [left right].
    destruct (bit_of a bit); rewrite IH by (done || lia); done.
Qed.

(** ** [destroy] *)

Lemma destroy_spec fuel s t m :
  rooted s t m → (height t < fuel)%nat →
  ∃ m', destroy fuel s m = Done m' ∧ agree (locs t) m' (put s None m)
    ∧ (∀ y, y ∈ locs t → nodes m' !! y = None) ∧ avail m' = avail m.
Proof.
  revert s t m. induction fuel as [|fuel IH]; intros s t m Hrt Hf; [lia|].
  pose proof Hrt as (Hread & Hh & Hd & Hs). cbn [destroy]. rewrite Hread.
  destruct t as [|x l r v h]; cbn [root run_bind].
  { exists m. split; [done|]. rewrite (put_same s None m Hread).
    split; [done|]. split; [by intros y Hy%elem_of_nil|done]. }
  destruct Hh as (Hx & Hl & Hr). simpl in Hf.
  pose proof Hd as (Hxl & Hxr & Hdl & Hdr & Hdis)%(NoDup_graft false x l r v h).
  destruct (IH (Child x false) l m) as (m1 & -> & Ha1 & Hn1 & Hav1);
    [exact (rooted_child s false x l r v h m Hrt)|lia|]. cbn [run_bind].
  assert (nodes m1 !! x = Some (mkNode None (root r) v h)) as Hx1.
  { rewrite (proj2 Ha1) by done. simpl. by rewrite lookup_alter_eq, Hx. }
  assert (rooted (Child x true) r m1) as Hrt1.
  { split; [simpl; unfold deref; by rewrite Hx1|]. split; [|split; [done|]].
    - eapply holds_frame; [|exact Hr]. intros y Hy. rewrite (proj2 Ha1) by (intros ?; by eapply Hdis).
      simpl. rewrite lookup_alter_ne; [done|]. by intros ->.
    - split; [rewrite Hx1; eauto|done]. }
  destruct (IH (Child x true) r m1 Hrt1) as (m2 & -> & Ha2 & Hn2 & Hav2); [lia|]. cbn [run_bind].
  assert (is_Some (nodes m2 !! x)) as [nd Hx2].
  { rewrite (proj2 Ha2) by done. simpl. rewrite lookup_alter_eq, Hx1. eauto. }
  unfold delete_node, deref. rewrite Hx2. cbn [run_bind run_opt].
  set (m3 := mkMem _ _ _).
  assert (agree (locs (LNode x l r v h)) m3 m) as Hag.
  { split; [by rewrite <- (proj1 Ha1 : roots m1 = roots m), <- (proj1 Ha2 : roots m2 = roots m1)|].
    intros y Hy. simpl in Hy. rewrite not_elem_of_cons, not_elem_of_app in Hy.
    destruct Hy as (Hyx & Hyl & Hyr). simpl. rewrite lookup_delete_ne by done.
    rewrite (proj2 Ha2) by done. simpl. rewrite lookup_alter_ne by done.
    rewrite (proj2 Ha1) by done. simpl. by rewrite lookup_alter_ne. }
  assert (slot_ok s (locs (LNode x l r v h)) m3) as Hs3 by by eapply slot_ok_agree.
  rewrite (write_slot_ok _ _ _ _ Hs3). eexists. split; [done|]. split; [by apply agree_put|].
  split; [|destruct s; simpl; lia].
  intros y Hy. apply put_live. simpl. destruct (decide (x = y)) as [->|]; [by rewrite lookup_delete_eq|].
  rewrite lookup_delete_ne by done.
  apply elem_of_cons in Hy as [?|[Hy|Hy]%elem_of_app]; [done| |by apply Hn2].
  rewrite (proj2 Ha2) by (by eapply Hdis). apply put_live. by apply Hn1.
Qed.

(** ** The whole store *)

(** Every root has its tree, the trees share no node, and every node is in one. *)
Record owns (m : mem) (A : gmap (nat * Family) ltree) : Prop := {
  owns_roots k : roots m !! k = root <$> A !! k;
  owns_tree k t : A !! k = Some t →
    holds (nodes m) t ∧ NoDup (locs t) ∧ (height t < destroy_fuel)%nat;
  owns_apart k k' t t' y :
    A !! k = Some t → A !! k' = Some t' → y ∈ locs t → y ∈ locs t' → k = k';
  owns_all y : is_Some (nodes m !! y) → ∃ k t, A !! k = Some t ∧ y ∈ locs t;
}.

Lemma owns_rooted m A o f t : owns m A → A !! (o, f) = Some t → rooted (Root o f) t m.
Proof.
  intros Ho Ht. destruct (owns_tree _ _ Ho _ _ Ht) as (? & ? & _).
  pose proof (owns_roots _ _ Ho (o, f)) as Hr. rewrite Ht in Hr. cbn in Hr.
  split_and!; try done; unfold read_slot, slot_ok; rewrite Hr; [done|eauto].
Qed.

(** A tree is replaced by one of its own nodes and fresh ones. *)
Lemma owns_replace m m' A o f t t' :
  owns m A → A !! (o, f) = Some t →
  agree (locs t ++ locs t') m' (put (Root o f) (root t') m) →
  (∀ y, y ∈ locs t → y ∉ locs t' → nodes m' !! y = None) →
  (∀ y, y ∈ locs t' → y ∈ locs t ∨ nodes m !! y = None) →
  holds (nodes m') t' → NoDup (locs t') → (height t' < destroy_fuel)%nat →
  owns m' (<[(o, f) := t']> A).
Proof.
  intros Ho Ht [Hr Hn] Hgone Hfr Hh Hd Hht. cbn in Hr, Hn.
  assert (∀ k s y, k ≠ (o, f) → A !! k = Some s → y ∈ locs s → y ∉ locs t ++ locs t') as Hout.
  { intros k s y Hk Hs Hy. rewrite elem_of_app. intros Hin.
    assert (y ∈ locs t) as Hyt.
    { destruct Hin as [?|[?|Hf]%Hfr]; [done..|].
      destruct (owns_tree _ _ Ho _ _ Hs) as [Hhs _].
      destruct (holds_live _ _ _ Hhs Hy); congruence. }
    apply Hk. by eapply (owns_apart _ _ Ho). }
  split.
  - intros k. rewrite Hr. destruct (decide ((o, f) = k)) as [<-|Hk].
    + rewrite lookup_alter_eq, lookup_insert_eq, (owns_roots _ _ Ho), Ht. done.
    + rewrite lookup_alter_ne, lookup_insert_ne by done. apply (owns_roots _ _ Ho).
  - intros k s. rewrite lookup_insert_Some. intros [[<- <-]|[Hk Hs]]; [done|].
    destruct (owns_tree _ _ Ho _ _ Hs) as (Hhs & Hds & Hhts). split; [|done].
    eapply holds_frame; [|exact Hhs]. intros y Hy. apply Hn. by eapply Hout.
  - intros k k' s s' y. rewrite !lookup_insert_Some.
    intros [[<- <-]|[Hk Hs]] [[<- <-]|[Hk' Hs']] Hy Hy'; [done| | |by eapply (owns_apart _ _ Ho)].
    all: exfalso; eapply Hout; [apply not_eq_sym; eassumption|eassumption| |]; [eassumption|].
    all: apply elem_of_app; by right.
  - intros y Hy. destruct (decide (y ∈ locs t')) as [|Hni].
    { exists (o, f), t'. by rewrite lookup_insert_eq. }
    destruct (decide (y ∈ locs t)) as [Hin|Hni'].
    { rewrite Hgone in Hy by done. by destruct Hy. }
    rewrite Hn in Hy by (rewrite elem_of_app; tauto).
    destruct (owns_all _ _ Ho y Hy) as (k & s & Hs & Hys). exists k, s. split; [|done].
    rewrite lookup_insert_ne; [done|]. intros <-. congruence.
Qed.

Lemma owns_changed m m' A o f t t' :
  owns m A → A !! (o, f) = Some t → rooted (Root o f) t' m' →
  changed (Root o f) t t' m m' → (height t' < destroy_fuel)%nat →
  owns m' (<[(o, f) := t']> A).
Proof.
  intros Ho Ht (_ & Hh & Hd & _) (Ha & Hsub & Hfr) Hht.
  eapply owns_replace; try done; [|by intros y ?%Hsub].
  eapply agree_mono; [|exact Ha]. intros. apply elem_of_app. by right.
Qed.

Lemma owns_destroy m A o f t :
  owns m A → A !! (o, f) = Some t →
  ∃ m', destroy destroy_fuel (Root o f) m = Done m' ∧ owns m' (<[(o, f) := LNull]> A)
    ∧ avail m' = avail m.
Proof.
  intros Ho Ht. destruct (owns_tree _ _ Ho _ _ Ht) as (_ & _ & Hht).
  destruct (destroy_spec destroy_fuel _ _ _ (owns_rooted _ _ _ _ _ Ho Ht) Hht)
    as (m' & Hrun & Ha & Hgone & Hav).
  exists m'. split; [done|]. split; [|done].
  eapply owns_replace; try done; [|by auto|by intros y ?%elem_of_nil|apply NoDup_nil_2|].
  - by rewrite app_nil_r.
  - unfold destroy_fuel. simpl. lia.
Qed.

(** A root without nodes comes or goes. *)
Lemma owns_new m A k :
  owns m A → A !! k = None →
  owns (mkMem (nodes m) (<[k := None]> (roots m)) (avail m)) (<[k := LNull]> A).
Proof.
  intros Ho Hk. split; cbn.
  - intros k'. destruct (decide (k = k')) as [<-|]; [by rewrite !lookup_insert_eq|].
    rewrite !lookup_insert_ne by done. apply (owns_roots _ _ Ho).
  - intros k' t. rewrite lookup_insert_Some. intros [[<- <-]|[_ Ht]]; [|by eapply owns_tree].
    split; [done|]. split; [apply NoDup_nil_2|]. unfold destroy_fuel. simpl. lia.
  - intros k1 k2 t t' y. rewrite !lookup_insert_Some.
    intros [[<- <-]|[_ Ht]] [[<- <-]|[_ Ht']] Hy Hy'; [done|..].
    + by apply elem_of_nil in Hy.
    + by apply elem_of_nil in Hy'.
    + by eapply (owns_apart _ _ Ho).
  - intros y Hy. destruct (owns_all _ _ Ho y Hy) as (k' & t & Ht & Hin). exists k', t.
    split; [|done]. rewrite lookup_insert_ne; [done|]. congruence.
Qed.

Lemma owns_drop m A k :
  owns m A → A !! k = Some LNull →
  owns (mkMem (nodes m) (delete k (roots m)) (avail m)) (delete k A).
Proof.
  intros Ho Hk. split; cbn.
  - intros k'. destruct (decide (k = k')) as [<-|]; [by rewrite !lookup_delete_eq|].
    rewrite !lookup_delete_ne by done. apply (owns_roots _ _ Ho).
  - intros k' t. rewrite lookup_delete_Some. intros [_ Ht]. by eapply owns_tree.
  - intros k1 k2 t t' y. rewrite !lookup_delete_Some. intros [_ Ht] [_ Ht'].
    by eapply (owns_apart _ _ Ho).
  - intros y Hy. destruct (owns_all _ _ Ho y Hy) as (k' & t & Ht & Hin). exists k', t.
    split; [|done]. rewrite lookup_delete_ne; [done|]. intros <-.
    rewrite Hk in Ht. injection Ht as <-. by apply elem_of_nil in Hin.
Qed.

(** ** Programs over tries, and what they promise *)

Inductive op :=
| New (o : nat)
| Insert (o : nat) (c : Cidr) (v : T)
| Lookup (o : nat) (a : IpAddr)
| Delete (o : nat).

Inductive resp := Void | BadAlloc | Found (x : option T).

Definition step (p : op) (m : mem) : run (mem * resp) :=
  match p with
  | New o => Done (ctor o m, Void)
  | Insert o c v =>
      let! r := insert o c v m in Done (r.1, if r.2 : bool then Void else BadAlloc)
  | Lookup o a => let! x := lookup o a m in Done (m, Found x)
  | Delete o => let! m := dtor o m in Done (m, Void)
  end.

Fixpoint exec (ps : list op) (m : mem) : run (mem * list resp) :=
  match ps with
  | [] => Done (m, [])
  | p :: ps' =>
      let! r := step p m in
      let! r' := exec ps' r.1 in
      Done (r'.1, r.2 :: r'.2)
  end.

(** The promise: a trie is the list of the routes inserted in it. An insertion that
    throws adds none. *)
Abbreviation tables := (gmap nat (list (Cidr * T))).

Inductive spec_step (S : tables) : op → resp → tables → Prop :=
| spec_new o : S !! o = None → spec_step S (New o) Void (<[o := []]> S)
| spec_insert o c v rs :
    S !! o = Some rs → spec_step S (Insert o c v) Void (<[o := rs ++ [(c, v)]]> S)
| spec_bad_alloc o c v rs : S !! o = Some rs → spec_step S (Insert o c v) BadAlloc S
| spec_lookup o a rs :
    S !! o = Some rs → spec_step S (Lookup o a) (Found (snd <$> best_route rs a)) S
| spec_delete o rs : S !! o = Some rs → spec_step S (Delete o) Void (delete o S).

Inductive spec_run (S : tables) : list op → list resp → tables → Prop :=
| spec_done : spec_run S [] [] S
| spec_cons p ps r rs S' S'' :
    spec_step S p r S' → spec_run S' ps rs S'' → spec_run S (p :: ps) (r :: rs) S''.

(** A program that constructs a trie before it uses it and does not use it after
    its destruction, with the tries [live]. *)
Definition live_after (live : gset nat) (p : op) : gset nat :=
  match p with
  | New o => {[o]} ∪ live
  | Delete o => live ∖ {[o]}
  | _ => live
  end.

Definition op_ok (live : gset nat) (p : op) : Prop :=
  match p with
  | New o => o ∉ live
  | Insert o c _ => o ∈ live ∧ cidr_ok c
  | Lookup o a => o ∈ live ∧ ip_ok a
  | Delete o => o ∈ live
  end.

Fixpoint legal (live : gset nat) (ps : list op) : Prop :=
  match ps with
  | [] => True
  | p :: ps' => op_ok live p ∧ legal (live_after live p) ps'
  end.

(** The most allocations an operation makes. *)
Definition cost (p : op) : nat := match p with Insert _ _ _ => 129 | _ => 0 end.

Record sim (m : mem) (A : gmap (nat * Family) ltree) (S : tables) : Prop := {
  sim_owns : owns m A;
  sim_dom o f : is_Some (A !! (o, f)) ↔ is_Some (S !! o);
  sim_ok o rs : S !! o = Some rs → Forall (λ r, cidr_ok r.1) rs;
  sim_answers o rs t4 t6 a :
    S !! o = Some rs → A !! (o, V4) = Some t4 → A !! (o, V6) = Some t6 → ip_ok a →
    answers rs (mkLpmTrie (shape t4) (shape t6)) a;
}.

Lemma sim_trees m A S o rs :
  sim m A S → S !! o = Some rs →
  ∃ t4 t6, A !! (o, V4) = Some t4 ∧ A !! (o, V6) = Some t6.
Proof.
  intros Hs Ho.
  destruct (proj2 (sim_dom _ _ _ Hs o V4)) as [t4 ?]; [eauto|].
  destruct (proj2 (sim_dom _ _ _ Hs o V6)) as [t6 ?]; eauto.
Qed.

(** Only the tree at one root changes, and the routes of its trie. *)
Lemma sim_update m m' A S o f rs rs' t' :
  sim m A S → S !! o = Some rs → owns m' (<[(o, f) := t']> A) →
  Forall (λ r, cidr_ok r.1) rs' →
  (∀ t4 t6 a, A !! (o, V4) = Some t4 → A !! (o, V6) = Some t6 → ip_ok a →
     answers rs' (match f with V4 => mkLpmTrie (shape t') (shape t6)
                  | V6 => mkLpmTrie (shape t4) (shape t') end) a) →
  sim m' (<[(o, f) := t']> A) (<[o := rs']> S).
Proof.
  intros Hs Ho Hown Hrs' Hans. split; [done|..].
  - intros o' f'. destruct (decide (o = o')) as [<-|Hne].
    + rewrite lookup_insert_eq. split; [eauto|]. intros _.
      destruct (decide (f = f')) as [<-|]; [rewrite lookup_insert_eq; eauto|].
      rewrite lookup_insert_ne by congruence. apply (sim_dom _ _ _ Hs). eauto.
    + rewrite !lookup_insert_ne by congruence. apply (sim_dom _ _ _ Hs).
  - intros o' rs1. rewrite lookup_insert_Some. intros [[<- <-]|[_ H1]]; [done|].
    by eapply (sim_ok _ _ _ Hs).
  - intros o' rs1 t4 t6 a. destruct (decide (o = o')) as [<-|Hne].
    + rewrite lookup_insert_eq. intros [= <-].
      destruct (sim_trees _ _ _ _ _ Hs Ho) as (s4 & s6 & H4 & H6).
      destruct f; rewrite lookup_insert_eq, lookup_insert_ne by congruence;
        rewrite ?H4, ?H6; intros; simplify_eq; by eapply Hans.
    + rewrite !lookup_insert_ne by congruence. apply (sim_answers _ _ _ Hs).
Qed.

Lemma insert_sim m A S o c v rs :
  sim m A S → S !! o = Some rs → cidr_ok c →
  ∃ m' ok A', insert o c v m = Done (m', ok)
    ∧ sim m' A' (if ok then <[o := rs ++ [(c, v)]]> S else S)
    ∧ (avail m ≤ avail m' + 129)%nat ∧ (129 ≤ avail m → ok = true)%nat.
Proof.
  intros Hs Ho Hc. set (f := family (addr c)). set (n := Z.to_nat (prefix_len c)).
  assert (n ≤ 128)%nat as Hn.
  { pose proof (max_bits_le (family (addr c))). destruct Hc as [_ Hp]. unfold n. lia. }
  destruct (proj2 (sim_dom _ _ _ Hs o f)) as [t Ht]; [eauto|].
  pose proof (sim_owns _ _ _ Hs) as Hown.
  destruct (owns_tree _ _ Hown _ _ Ht) as (_ & _ & Hht).
  destruct (insert_from_spec (addr c) v n 0 _ _ _ (owns_rooted _ _ _ _ _ Hown Ht))
    as (m' & t' & ok & Hrun & Hrt & Hch & Hht' & Hav & Hok & Hsh).
  exists m', ok, (<[(o, f) := t']> A). split; [exact Hrun|].
  assert (owns m' (<[(o, f) := t']> A)) as Hown'.
  { eapply owns_changed; try done. unfold destroy_fuel in *. lia. }
  split; [|split; [lia|intros; apply Hok; lia]]. destruct ok.
  - eapply sim_update; [done..| |].
    + apply Forall_app. split; [by eapply sim_ok|by apply Forall_singleton].
    + intros t4 t6 a H4 H6 Ha.
      pose proof (answers_snoc T0 rs c v _ a (sim_ok _ _ _ Hs _ _ Ho) Hc Ha
        (sim_answers _ _ _ Hs _ _ _ _ _ Ho H4 H6 Ha)) as Hans.
      unfold LpmTrie_insert in Hans. fold f n in Hans. rewrite !insert_loop_ins in Hans.
      unfold f in *. destruct (family (addr c)); cbn in Hans, Ht;
        simplify_eq; by rewrite Hsh.
  - replace S with (<[o := rs]> S) by by apply insert_id.
    eapply sim_update; [done..|by eapply sim_ok|]. intros t4 t6 a H4 H6 Ha.
    pose proof (sim_answers _ _ _ Hs _ _ _ _ _ Ho H4 H6 Ha) as Hans.
    unfold answers, found in *. rewrite <- Hans. clear Hans.
    destruct f, (family a); cbn [root_of root_v4_ root_v6_]; simplify_eq; done.
Qed.

Lemma lookup_sim m A S o a rs :
  sim m A S → S !! o = Some rs → ip_ok a →
  lookup o a m = Done (snd <$> best_route rs a).
Proof.
  intros Hs Ho Ha. destruct (sim_trees _ _ _ _ _ Hs Ho) as (t4 & t6 & H4 & H6).
  rewrite <- (answers_lookup rs (mkLpmTrie (shape t4) (shape t6)) a Ha)
    by by eapply sim_answers.
  pose proof (sim_owns _ _ _ Hs) as Hown. unfold lookup, LpmTrie_lookup.
  destruct (family a); cbn [read_slot root_of root_v4_ root_v6_];
    rewrite (owns_roots _ _ Hown), ?H4, ?H6; cbn [run_opt run_bind fmap option_fmap option_map];
    apply lookup_loop_spec; try done; by eapply owns_tree.
Qed.

Lemma ctor_sim m A S o :
  sim m A S → S !! o = None → ∃ A', sim (ctor o m) A' (<[o := []]> S).
Proof.
  intros Hs Ho.
  assert (∀ f, A !! (o, f) = None) as Hnone.
  { intros f. apply eq_None_not_Some. rewrite (sim_dom _ _ _ Hs), Ho. by intros [? ?]. }
  exists (<[(o, V6) := LNull]> (<[(o, V4) := LNull]> A)). split.
  - apply (owns_new (mkMem _ _ _)); [by apply owns_new, Hnone; apply (sim_owns _ _ _ Hs)|].
    by rewrite lookup_insert_ne by congruence.
  - intros o' f. destruct (decide (o = o')) as [<-|Hne].
    + rewrite lookup_insert_eq. destruct f; [rewrite lookup_insert_ne by congruence|];
        rewrite lookup_insert_eq; split; eauto.
    + rewrite !lookup_insert_ne by congruence. apply (sim_dom _ _ _ Hs).
  - intros o' rs. rewrite lookup_insert_Some. intros [[<- <-]|[_ H1]]; [done|].
    by eapply (sim_ok _ _ _ Hs).
  - intros o' rs t4 t6 a. destruct (decide (o = o')) as [<-|Hne].
    + rewrite !lookup_insert_eq, lookup_insert_ne, lookup_insert_eq by congruence.
      intros [= <-] [= <-] [= <-] Ha. unfold answers, found. by destruct (family a).
    + rewrite !lookup_insert_ne by congruence. apply (sim_answers _ _ _ Hs).
Qed.

Lemma dtor_sim m A S o rs :
  sim m A S → S !! o = Some rs →
  ∃ m' A', dtor o m = Done m' ∧ sim m' A' (delete o S) ∧ avail m' = avail m.
Proof.
  intros Hs Ho. destruct (sim_trees _ _ _ _ _ Hs Ho) as (t4 & t6 & H4 & H6).
  destruct (owns_destroy _ _ _ _ _ (sim_owns _ _ _ Hs) H4) as (m1 & Hrun1 & Hown1 & Hav1).
  assert (<[(o, V4) := LNull]> A !! (o, V6) = Some t6) as H6'
    by by rewrite lookup_insert_ne by congruence.
  destruct (owns_destroy _ _ _ _ _ Hown1 H6') as (m2 & Hrun2 & Hown2 & Hav2).
  unfold dtor. rewrite Hrun1. cbn [run_bind]. rewrite Hrun2. cbn [run_bind].
  eexists _, (delete (o, V6) (delete (o, V4) _)). split; [done|]. split; [|simpl; lia].
  split.
  - apply (owns_drop (mkMem _ _ _)); [apply owns_drop; [exact Hown2|]|].
    + by rewrite lookup_insert_ne, lookup_insert_eq by congruence.
    + by rewrite lookup_delete_ne, lookup_insert_eq by congruence.
  - intros o' f. destruct (decide (o = o')) as [<-|Hne].
    + rewrite lookup_delete_eq. destruct f.
      * rewrite lookup_delete_ne, lookup_delete_eq by congruence. done.
      * by rewrite lookup_delete_eq.
    + rewrite !lookup_delete_ne, !lookup_insert_ne by congruence. apply (sim_dom _ _ _ Hs).
  - intros o' rs'. rewrite lookup_delete_Some. intros [_ H1]. by eapply (sim_ok _ _ _ Hs).
  - intros o' rs' s4 s6 a. rewrite lookup_delete_Some. intros [Hne Ho'].
    rewrite !lookup_delete_ne, !lookup_insert_ne by congruence. by eapply (sim_answers _ _ _ Hs).
Qed.

Lemma step_sim m A S p :
  sim m A S → op_ok (dom S) p →
  ∃ m' r A' S', step p m = Done (m', r) ∧ spec_step S p r S' ∧ sim m' A' S'
    ∧ dom S' = live_after (dom S) p
    ∧ (avail m ≤ avail m' + cost p)%nat ∧ (cost p ≤ avail m → r ≠ BadAlloc)%nat.
Proof.
  intros Hs Hp. destruct p as [o|o c v|o a|o]; cbn [op_ok step live_after cost] in *.
  - apply not_elem_of_dom in Hp. destruct (ctor_sim _ _ _ _ Hs Hp) as [A' Hs'].
    eexists _, _, A', _. split; [done|]. split; [by constructor|]. split; [done|].
    split; [by rewrite dom_insert_L|]. split; [simpl; lia|done].
  - destruct Hp as [[rs Ho]%elem_of_dom Hc].
    destruct (insert_sim _ _ _ _ _ v _ Hs Ho Hc) as (m' & ok & A' & -> & Hs' & Hav & Hok).
    eexists _, _, A', _. split; [done|]. split; [|split; [exact Hs'|]].
    { destruct ok; by econstructor. }
    split; [|split; [done|by intros ->%Hok]]. destruct ok; [|done].
    rewrite dom_insert_L. apply elem_of_dom_2 in Ho. set_solver.
  - destruct Hp as [[rs Ho]%elem_of_dom Ha]. rewrite (lookup_sim _ _ _ _ _ _ Hs Ho Ha).
    eexists _, _, A, S. split; [done|]. split; [by constructor|]. split; [done|].
    split; [done|]. split; [simpl; lia|done].
  - apply elem_of_dom in Hp as [rs Ho].
    destruct (dtor_sim _ _ _ _ _ Hs Ho) as (m' & A' & -> & Hs' & Hav).
    eexists _, _, A', _. split; [done|]. split; [by econstructor|]. split; [done|].
    split; [by rewrite dom_delete_L|]. split; [lia|done].
Qed.

Lemma exec_sim ps m A S :
  sim m A S → legal (dom S) ps →
  ∃ m' rs A' S', exec ps m = Done (m', rs) ∧ spec_run S ps rs S' ∧ sim m' A' S'
    ∧ (sum_list (cost <$> ps) ≤ avail m → BadAlloc ∉ rs)%nat.
Proof.
  revert m A S. induction ps as [|p ps IH]; intros m A S Hs Hl.
  { exists m, [], A, S. split; [done|]. split; [constructor|]. split; [done|].
    intros _. apply not_elem_of_nil. }
  destruct Hl as [Hp Hl].
  destruct (step_sim _ _ _ _ Hs Hp) as (m1 & r & A1 & S1 & Hstep & Hspec & Hs1 & Hd & Hav & Hr).
  rewrite <- Hd in Hl.
  destruct (IH _ _ _ Hs1 Hl) as (m2 & rs & A2 & S2 & Hexec & Hrun & Hs2 & Hrs).
  exists m2, (r :: rs), A2, S2. cbn [exec]. rewrite Hstep. cbn [run_bind fst snd]. rewrite Hexec.
  split; [done|]. split; [by econstructor|]. split; [done|].
  change (sum_list (cost <$> p :: ps)) with (cost p + sum_list (cost <$> ps))%nat. intros Hc.
  apply not_elem_of_cons. split; [apply not_eq_sym, Hr; lia|apply Hrs; lia].
Qed.

(** The empty store. *)
Definition empty_mem (n : nat) : mem := mkMem ∅ ∅ n.

Lemma empty_sim n : sim (empty_mem n) ∅ ∅.
Proof.
  split; [split| | |].
  - intros k. by rewrite !lookup_empty.
  - intros k t. by rewrite lookup_empty.
  - intros k k' t t' y. by rewrite lookup_empty.
  - intros y. cbn. rewrite lookup_empty. by intros [? ?].
  - intros o f. by rewrite !lookup_empty.
  - intros o rs. by rewrite lookup_empty.
  - intros o rs t4 t6 a. by rewrite lookup_empty.
Qed.

Lemma sim_empty m A : sim m A ∅ → nodes m = ∅.
Proof.
  intros Hs. apply map_eq. intros y. rewrite lookup_empty. apply eq_None_not_Some. intros Hy.
  destruct (owns_all _ _ (sim_owns _ _ _ Hs) y Hy) as ([o f] & t & Ht & _).
  destruct (proj1 (sim_dom _ _ _ Hs o f)) as [rs Hrs]; [eauto|]. by rewrite lookup_empty in Hrs.
Qed.

(** C10: the pointer code is correct and safe: a program that constructs, fills,
    queries and destroys any number of tries, on any allocator, never follows a
    dangling pointer and never deletes a node twice; its answers are those of the
    lists of routes, also after insertions that throw [std::bad_alloc]; no
    insertion throws while 129 allocations are left for each; and when the last
    trie is gone every node has been deleted. *)
Theorem heap_refines ps n :
  legal ∅ ps →
  ∃ m rs S, exec ps (empty_mem n) = Done (m, rs) ∧ spec_run ∅ ps rs S
    ∧ (S = ∅ → nodes m = ∅)
    ∧ (sum_list (cost <$> ps) ≤ n → BadAlloc ∉ rs)%nat.
Proof.
  intros Hl. destruct (exec_sim ps _ _ _ (empty_sim n)) as (m & rs & A & S & ? & ? & Hs & ?).
  { by rewrite dom_empty_L. }
  exists m, rs, S. do 2 (split; [done|]). split; [|done]. intros ->. by eapply sim_empty.
Qed.

(** ** The defaulted moves *)

Lemma destroy_dangling fuel o f x m :
  (2 ≤ fuel)%nat → roots m !! (o, f) = Some (Some x) → nodes m !! x = None →
  destroy fuel (Root o f) m = UB.
Proof.
  intros Hf. destruct fuel as [|[|fuel]]; [lia..|]. clear Hf. intros Hr Hx. cbn [destroy read_slot]. rewrite Hr. cbn [run_opt run_bind]. unfold deref.
  by rewrite Hx.
Qed.

Lemma destroy_null fuel o f m :
  (1 ≤ fuel)%nat → roots m !! (o, f) = Some None → destroy fuel (Root o f) m = Done m.
Proof.
  intros Hf Hr. destruct fuel as [|fuel]; [lia|]. cbn [destroy read_slot]. by rewrite Hr.
Qed.

Lemma answers_some (rs : list (Cidr * T)) c v t :
  Forall (λ r, cidr_ok r.1) rs → (c, v) ∈ rs → answers rs t (addr c) →
  root_of t (family (addr c)) ≠ Null.
Proof.
  intros Hrs [i Hi]%list_elem_of_lookup_1 Hans Hnull. unfold answers, found in Hans.
  rewrite Hnull in Hans. pose proof (best_route_chosen rs (addr c)) as Hb.
  destruct (best_route rs (addr c)); [done|]. eapply Hb; [exact Hi|].
  split; [done|]. apply prefix_take.
Qed.

Lemma dtor_dangling o t4 t6 m :
  roots m !! (o, V4) = Some (root t4) → roots m !! (o, V6) = Some (root t6) →
  (∀ y, y ∈ locs t4 ∨ y ∈ locs t6 → nodes m !! y = None) →
  t4 ≠ LNull ∨ t6 ≠ LNull → dtor o m = UB.
Proof.
  intros R4 R6 Hgone Hnn. unfold dtor. destruct t4 as [|x4 ????].
  - destruct t6 as [|x6 ????]; [by destruct Hnn|].
    rewrite (destroy_null destroy_fuel) by (unfold destroy_fuel; lia || exact R4).
    cbn [run_bind]. rewrite (destroy_dangling destroy_fuel _ _ x6);
      [reflexivity|unfold destroy_fuel; lia|exact R6|].
    apply Hgone. right. apply list_elem_of_here.
  - rewrite (destroy_dangling destroy_fuel _ _ x4);
      [reflexivity|unfold destroy_fuel; lia|exact R4|].
    apply Hgone. left. apply list_elem_of_here.
Qed.

Lemma moved_sim m A S o o' c v rs :
  sim m A S → S !! o = Some rs → (c, v) ∈ rs → o ≠ o' →
  ∃ m1 m2, move_ctor o' o m = Done m1 ∧ dtor o' m1 = Done m2 ∧ dtor o m2 = UB.
Proof.
  intros Hs Ho Hin Hne. destruct (sim_trees _ _ _ _ _ Hs Ho) as (t4 & t6 & H4 & H6).
  pose proof (sim_owns _ _ _ Hs) as Hown.
  pose proof (owns_roots _ _ Hown (o, V4)) as R4. pose proof (owns_roots _ _ Hown (o, V6)) as R6.
  rewrite H4 in R4. rewrite H6 in R6. cbn in R4, R6.
  destruct (owns_tree _ _ Hown _ _ H4) as (Hh4 & Hd4 & Hht4).
  destruct (owns_tree _ _ Hown _ _ H6) as (Hh6 & Hd6 & Hht6).
  unfold move_ctor. cbn [read_slot]. rewrite R4, R6. cbn [run_opt run_bind].
  set (m1 := mkMem _ _ _). exists m1.
  assert (rooted (Root o' V4) t4 m1) as Hr4.
  { split; [|split; [done|split; [done|]]]; unfold read_slot, slot_ok; cbn.
    all: rewrite lookup_insert_ne, lookup_insert_eq by congruence; eauto. }
  destruct (destroy_spec _ _ _ _ Hr4 Hht4) as (m2 & Hrun2 & Ha2 & Hg2 & _).
  assert (rooted (Root o' V6) t6 m2) as Hr6.
  { assert (roots m2 !! (o', V6) = Some (root t6)) as Hr.
    { rewrite (proj1 Ha2). cbn. by rewrite lookup_alter_ne, lookup_insert_eq by congruence. }
    split; [|split; [|split; [done|]]]; unfold read_slot, slot_ok; rewrite ?Hr; eauto.
    eapply holds_frame; [|exact Hh6]. intros y Hy. apply (proj2 Ha2). intros Hy4.
    by pose proof (owns_apart _ _ Hown _ _ _ _ _ H4 H6 Hy4 Hy). }
  destruct (destroy_spec _ _ _ _ Hr6 Hht6) as (m3 & Hrun3 & Ha3 & Hg3 & _).
  unfold dtor at 1. rewrite Hrun2. cbn [run_bind]. rewrite Hrun3. cbn [run_bind].
  set (m4 := mkMem _ _ _). exists m4. do 2 (split; [done|]).
  assert (∀ f, roots m4 !! (o, f) = roots m !! (o, f)) as Hroots.
  { intros f. unfold m4. cbn. rewrite !lookup_delete_ne, (proj1 Ha3) by congruence. cbn.
    rewrite lookup_alter_ne, (proj1 Ha2) by congruence. cbn.
    by rewrite lookup_alter_ne, !lookup_insert_ne by congruence. }
  assert (∀ y, y ∈ locs t4 ∨ y ∈ locs t6 → nodes m4 !! y = None) as Hgone.
  { intros y Hy. unfold m4. cbn. destruct (decide (y ∈ locs t6)) as [|Hni]; [by apply Hg3|].
    rewrite (proj2 Ha3) by done. cbn. apply Hg2. tauto. }
  pose proof (answers_some rs c v _ (sim_ok _ _ _ Hs _ _ Ho) Hin
    (sim_answers _ _ _ Hs _ _ _ _ (addr c) Ho H4 H6
       (proj1 (proj1 (Forall_forall _ _) (sim_ok _ _ _ Hs _ _ Ho) _ Hin)))) as Hnn.
  eapply dtor_dangling; [by rewrite Hroots|by rewrite Hroots|exact Hgone|].
  destruct (family (addr c)); [left|right]; by intros ->.
Qed.

(** The defaulted move constructor is a hazard that no code here meets: after
    any program, moving from a trie that holds a route and destroying both objects
    is undefined, since both own the same nodes. *)
Theorem moved_trie_double_free ps n :
  legal ∅ ps →
  ∃ m rs S, exec ps (empty_mem n) = Done (m, rs) ∧ spec_run ∅ ps rs S
    ∧ ∀ o o' route routes, S !! o = Some (route :: routes) → S !! o' = None →
      ∃ m1 m2, move_ctor o' o m = Done m1 ∧ dtor o' m1 = Done m2 ∧ dtor o m2 = UB.
Proof.
  intros Hl. destruct (exec_sim ps _ _ _ (empty_sim n)) as (m & rs & A & S & ? & ? & Hs & _).
  { by rewrite dom_empty_L. }
  exists m, rs, S. do 2 (split; [done|]). intros o o' [c v] routes Ho Ho'.
  eapply (moved_sim m A S o o' c v); [done|exact Ho|apply list_elem_of_here|congruence].
Qed.
End heap.

(** ** A run *)

#[export] Instance fresh_allocator : Allocator.
Proof. refine {| alloc := fresh |}. apply is_fresh. Defined.

Definition sample_program : list (op (T := Z)) :=
  [New 0; Insert 0 (mkCidr (v4 10 0 0 0) 8) 1; Insert 0 (mkCidr (v4 10 99 0 0) 16) 2;
   Lookup 0 (v4 10 99 6 7); Lookup 0 (v4 10 1 0 0); Lookup 0 (v4 11 0 0 0); Delete 0].

Example sample_run :
  (λ r, (nodes r.1, r.2)) <$> match exec 0 sample_program (empty_mem 1000) with
                              | Done r => Some r
                              | _ => None
                              end
  = Some (∅, [Void; Void; Void; Found (Some 2); Found (Some 1); Found None; Void]).
Proof. vm_compute. reflexivity. Qed.

(** With nine allocations the first insertion succeeds and the second throws. *)
Example sample_run_throws :
  match exec 0 sample_program (empty_mem 9) with Done r => Some r.2 | _ => None end
  = Some [Void; Void; BadAlloc; Found (Some 1); Found (Some 1); Found None; Void].
Proof. vm_compute. reflexivity. Qed.

Lemma sample_legal : legal ∅ sample_program.
Proof.
  cbn [legal sample_program op_ok live_after]. unfold cidr_ok.
  repeat match goal with |- _ ∧ _ => split end; try done; try set_solver;
    try (apply v4_ok; unfold byte_ok; lia).
  all: simpl; lia.
Qed.

Lemma heap_refines_witness :
  ∃ m rs S, exec 0 sample_program (empty_mem 9) = Done (m, rs) ∧ spec_run ∅ sample_program rs S
    ∧ (S = ∅ → nodes m = ∅) ∧ (sum_list (cost <$> sample_program) ≤ 9 → BadAlloc ∉ rs)%nat.
Proof. apply (heap_refines 0 sample_program 9 sample_legal). Defined.

Lemma moved_trie_double_free_witness :
  ∃ m rs S, exec 0 (take 3 sample_program) (empty_mem 100) = Done (m, rs)
    ∧ spec_run ∅ (take 3 sample_program) rs S
    ∧ ∀ o o' route routes, S !! o = Some (route :: routes) → S !! o' = None →
      ∃ m1 m2, move_ctor o' o m = Done m1 ∧ dtor o' m1 = Done m2 ∧ dtor o m2 = UB.
Proof.
  apply (moved_trie_double_free 0 (take 3 sample_program) 100).
  destruct sample_legal as (H1 & H2 & H3 & _). exact (conj H1 (conj H2 (conj H3 I))).
Defined.
