(* ===== verification/Watchdog.v ===== *)
(** * The watchdog of a registration

    [register_connection] (src/tunnel/quic_client.cpp) waits for the answer of the
    edge on one thread, and starts another that aborts the stream when the answer
    is late. [QuicClient] has the call as a function of the answer; here are the
    two threads, with their interleavings: what the watchdog touches and when, the
    order of the destructors, and how long the call takes. *)
From S2P Require Import Prelude.
Local Open Scope Z_scope.

(** ** State *)

(** The watchdog: asleep, about to load [done], about to abort, finished. *)
Inductive dog_pc := Asleep | Load | Abort_ | Exited.

(** The calling thread. A flag says whether an exception is on its way out.
    [DtorThread] is the destructor of [watchdog], after the one of the deferred
    block; then come [rpc] and [stream]. *)
Inductive call_pc :=
| Open | Bootstrap | Spawn | Send | Wait | StoreDone | Read
| Deferred (thrown : bool)
| Join (thrown : bool)
| DtorThread (thrown : bool)
| DtorRpc (thrown : bool)
| DtorStream (thrown : bool)
| Return (thrown : bool).

#[export] Instance dog_pc_eq_dec : EqDecision dog_pc.
Proof. solve_decision. Defined.
#[export] Instance call_pc_eq_dec : EqDecision call_pc.
Proof. solve_decision. Defined.

(** [dog] is [None] before the thread is started; [wake] is the time it sleeps to;
    [reply] is what the edge has answered ([false]: an exception of the call). *)
Record sys := mkSys {
  now : Z;
  call : call_pc;
  dog : option dog_pc;
  wake : Z;
  joinable : bool;
  done_ : bool;
  stream : bool;
  aborted : bool;
  reply : option bool;
}.

Definition sys0 : sys := mkSys 0 Open None 0 false false false false None.

Definition set_call (p : call_pc) (s : sys) : sys :=
  mkSys (now s) p (dog s) (wake s) (joinable s) (done_ s) (stream s) (aborted s) (reply s).
Definition set_dog (p : dog_pc) (s : sys) : sys :=
  mkSys (now s) (call s) (Some p) (wake s) (joinable s) (done_ s) (stream s) (aborted s) (reply s).
Definition set_joinable (b : bool) (s : sys) : sys :=
  mkSys (now s) (call s) (dog s) (wake s) b (done_ s) (stream s) (aborted s) (reply s).
Definition set_done (s : sys) : sys :=
  mkSys (now s) (call s) (dog s) (wake s) (joinable s) true (stream s) (aborted s) (reply s).
Definition set_stream (b : bool) (s : sys) : sys :=
  mkSys (now s) (call s) (dog s) (wake s) (joinable s) (done_ s) b (aborted s) (reply s).

(** ** Steps *)

Section watchdog.
Context (timeout_ms : Z).

(** The thread starts and goes to sleep. *)
Definition start_dog (s : sys) : sys :=
  mkSys (now s) Send (Some Asleep) (now s + timeout_ms) true (done_ s) (stream s) (aborted s)
    (reply s).

(** The calling thread; [throws] says that the code at this point throws. [None]:
    it cannot go on. A destructor of a thread that was not joined ends the
    process. *)
Definition call_step (throws : bool) (s : sys) : option (run sys) :=
  match call s with
  | Open =>
      Some (Done (if throws then set_call (Return true) s
                  else set_call Bootstrap (set_stream true s)))
  | Bootstrap => Some (Done (set_call (if throws then DtorStream true else Spawn) s))
  | Spawn => Some (Done (if throws then set_call (DtorRpc true) s else start_dog s))
  | Send => Some (Done (set_call (if throws then Deferred true else Wait) s))
  | Wait =>
      if throws then
        if aborted s || bool_decide (reply s = Some false)
        then Some (Done (set_call (Deferred true) s)) else None
      else
        if bool_decide (reply s = Some true) then Some (Done (set_call StoreDone s)) else None
  | StoreDone => if throws then None else Some (Done (set_call Read (set_done s)))
  | Read => Some (Done (set_call (Deferred throws) s))
  | Deferred e => if throws then None else Some (Done (set_call (Join e) (set_done s)))
  | Join e =>
      if throws then None
      else if bool_decide (dog s = Some Exited)
      then Some (Done (set_call (DtorThread e) (set_joinable false s))) else None
  | DtorThread e =>
      if throws then None
      else Some (if joinable s then UB else Done (set_call (DtorRpc e) s))
  | DtorRpc e => if throws then None else Some (Done (set_call (DtorStream e) s))
  | DtorStream e => if throws then None else Some (Done (set_call (Return e) (set_stream false s)))
  | Return _ => None
  end.

(** The watchdog. An abort of a stream that is gone is undefined. *)
Definition dog_step (s : sys) : option (run sys) :=
  match dog s with
  | Some Asleep => if wake s <=? now s then Some (Done (set_dog Load s)) else None
  | Some Load => Some (Done (set_dog (if done_ s then Exited else Abort_) s))
  | Some Abort_ =>
      Some (if stream s
            then Done (mkSys (now s) (call s) (Some Exited) (wake s) (joinable s) (done_ s)
                         (stream s) true (reply s))
            else UB)
  | _ => None
  end.

(** A millisecond passes; the edge answers the call; a thread moves. *)
Inductive event := Tick | Edge (ok : bool) | Call (throws : bool) | Dog.

Definition step (e : event) (s : sys) : option (run sys) :=
  match e with
  | Tick =>
      Some (Done (mkSys (now s + 1) (call s) (dog s) (wake s) (joinable s) (done_ s) (stream s)
                    (aborted s) (reply s)))
  | Edge ok =>
      match call s, reply s with
      | Wait, None =>
          Some (Done (mkSys (now s) (call s) (dog s) (wake s) (joinable s) (done_ s) (stream s)
                        (aborted s) (Some ok)))
      | _, _ => None
      end
  | Call throws => call_step throws s
  | Dog => dog_step s
  end.

Fixpoint steps (es : list event) (s : sys) : option (run sys) :=
  match es with
  | [] => Some (Done s)
  | e :: es' =>
      match step e s with
      | Some (Done s') => steps es' s'
      | r => r
      end
  end.

(** ** The invariant *)

(** The watchdog runs only while the stream is there. *)
Definition call_ok (s : sys) : Prop :=
  match call s with
  | Open => dog s = None ∧ stream s = false ∧ done_ s = false
  | Bootstrap | Spawn => dog s = None ∧ stream s = true ∧ done_ s = false
  | Send | Wait | StoreDone => is_Some (dog s) ∧ stream s = true ∧ done_ s = false
  | Read => is_Some (dog s) ∧ stream s = true ∧ done_ s = true
  | Deferred _ | Join _ => is_Some (dog s) ∧ stream s = true
  | DtorThread _ => dog s = Some Exited ∧ joinable s = false
  | DtorRpc e | DtorStream e =>
      (dog s = Some Exited ∨ (dog s = None ∧ e = true)) ∧ joinable s = false
  | Return e => (dog s = Some Exited ∨ (dog s = None ∧ e = true)) ∧ stream s = false
  end.

(** The answer has been taken, and no exception is on its way. *)
Definition answered (p : call_pc) : bool :=
  match p with
  | StoreDone | Read | Deferred false | Join false | DtorThread false | DtorRpc false
  | DtorStream false | Return false => true
  | _ => false
  end.

Record inv (s : sys) : Prop := {
  inv_call : call_ok s;
  inv_now : 0 <= now s;
  inv_joinable : dog s = None → joinable s = false;
  inv_wake : dog s ≠ None → timeout_ms <= wake s;
  inv_late : ∀ p, dog s = Some p → p ≠ Asleep → wake s <= now s;
  inv_aborted : aborted s = true → dog s = Some Exited;
  inv_exited : dog s = Some Exited → done_ s = true ∨ aborted s = true;
  inv_answered : answered (call s) = true → reply s = Some true;
}.

Lemma watchdog_inv_sys0 : inv sys0.
Proof. by split. Qed.

(** Case analysis of a step. *)
Ltac step_cases :=
  repeat match goal with
  | H : Some _ = Some _ |- _ => injection H as H
  | H : Done _ = Done _ |- _ => injection H as H
  | H : None = Some _ |- _ => discriminate H
  | H : UB = Done _ |- _ => discriminate H
  | H : context [if ?b then _ else _] |- _ => destruct b eqn:?
  end; subst; bool_facts.

Lemma call_step_inv throws s :
  inv s → ∀ r, call_step throws s = Some r → ∃ s', r = Done s' ∧ inv s'.
Proof.
  intros [Hc Hnow Hj Hw Hl Ha Hex Hans] r Hs. unfold call_ok in Hc. unfold call_step in Hs.
  destruct s as [now call dog wake joinable done_ stream aborted reply]; simpl in *.
  destruct call; simpl in *; step_cases; try done; try (destruct Hc as [_ ?]; congruence).
  all: eexists; split; [reflexivity|]; split; unfold call_ok; simpl; try done; try naive_solver lia.
  destruct Hc as (-> & -> & ->). eauto.
Qed.

(** While the watchdog runs the call is before its destructors, wherever it is. *)
Lemma call_ok_dog s p :
  call_ok s → dog s = Some p → p ≠ Exited →
  stream s = true
  ∧ ∀ s', call s' = call s → stream s' = stream s → done_ s' = done_ s → is_Some (dog s') →
      call_ok s'.
Proof.
  unfold call_ok. intros Hc Hd Hne. rewrite Hd in Hc.
  destruct (call s); try (destruct Hc as [? _]; congruence);
    try (by destruct Hc as [[?|[? _]] _]; congruence); split; try apply Hc;
    intros s' -> Hs' Hd' ?; rewrite ?Hs', ?Hd'; tauto.
Qed.

Lemma dog_step_inv s :
  inv s → ∀ r, dog_step s = Some r → ∃ s', r = Done s' ∧ inv s'.
Proof.
  intros [Hc Hnow Hj Hw Hl Ha Hex Hans] r Hs. unfold dog_step in Hs.
  destruct (dog s) as [p|] eqn:Hd; [|done].
  assert (p ≠ Exited) as Hne by by intros ->.
  destruct (call_ok_dog s p Hc Hd Hne) as [Hst Hok].
  assert (aborted s = false) as Hab.
  { destruct (aborted s); [|done]. specialize (Ha eq_refl). congruence. }
  assert (timeout_ms <= wake s) by by apply Hw.
  destruct p; try done; rewrite ?Hst in Hs; step_cases; try done; eexists; (split; [reflexivity|]).
  all: split; simpl; try done; try (by apply Hok); try congruence.
  all: try (by left); try (by right). 
  all: intros q [= <-] ?; try done; by eapply Hl.
Qed.

Lemma watchdog_step_inv e s : inv s → ∀ r, step e s = Some r → ∃ s', r = Done s' ∧ inv s'.
Proof.
  intros Hinv r Hs. destruct e; simpl in Hs.
  - injection Hs as <-. eexists. split; [done|]. destruct Hinv as [Hc Hnow Hj Hw Hl Ha Hex Hans].
    split; try done; simpl; [lia|]. intros p Hp Hne. specialize (Hl p Hp Hne). lia.
  - destruct (call s) eqn:Hcall; try done. destruct (reply s); [done|]. injection Hs as <-.
    eexists. split; [done|]. destruct Hinv as [Hc Hnow Hj Hw Hl Ha Hex Hans].
    rewrite Hcall in *. split; try done; unfold call_ok in *; simpl; by rewrite Hcall in *.
  - by eapply call_step_inv.
  - by eapply dog_step_inv.
Qed.

Lemma steps_inv es s r : inv s → steps es s = Some r → ∃ s', r = Done s' ∧ inv s'.
Proof.
  revert s. induction es as [|e es IH]; intros s Hinv; simpl; [intros [= <-]; eauto|].
  destruct (step e s) as [r'|] eqn:Hs; [|done].
  destruct (watchdog_step_inv _ _ Hinv _ Hs) as (s' & -> & Hinv'). by apply IH.
Qed.

(** ** Progress *)

(** The steps of the two threads, and how many are left. *)
Definition own (e : event) : bool := match e with Call _ | Dog => true | _ => false end.

Definition dog_rank (d : option dog_pc) : nat :=
  match d with None | Some Asleep => 3 | Some Load => 2 | Some Abort_ => 1 | Some Exited => 0 end.

Definition call_rank (p : call_pc) : nat :=
  match p with
  | Open => 12 | Bootstrap => 11 | Spawn => 10 | Send => 9 | Wait => 8 | StoreDone => 7 | Read => 6
  | Deferred _ => 5 | Join _ => 4 | DtorThread _ => 3 | DtorRpc _ => 2 | DtorStream _ => 1
  | Return _ => 0
  end.

Definition measure (s : sys) : nat := call_rank (call s) + dog_rank (dog s).

Definition own_steps (es : list event) : nat := length (filter (λ e, own e = true) es).

Lemma step_measure e s s' :
  inv s → step e s = Some (Done s') →
  (measure s' + (if own e then 1 else 0) ≤ measure s)%nat.
Proof.
  intros Hinv Hs. unfold measure. destruct e; simpl in *.
  - injection Hs as <-. simpl. lia.
  - destruct (call s) eqn:Hc, (reply s); simplify_eq/=. lia.
  - pose proof (inv_call _ Hinv) as Hc. unfold call_ok, call_step in *.
    destruct (call s) eqn:Hcall; simpl in *; step_cases; simpl; rewrite ?Hcall; simpl; try lia.
    destruct Hc as (-> & _). simpl. lia.
  - unfold dog_step in Hs. destruct (dog s) as [[]|] eqn:Hd; step_cases; simpl; rewrite ?Hd; simpl; lia.
Qed.

Lemma steps_measure es s s' :
  inv s → steps es s = Some (Done s') → (measure s' + own_steps es ≤ measure s)%nat.
Proof.
  revert s. induction es as [|e es IH]; intros s Hinv; simpl.
  { intros [= <-]. unfold own_steps. simpl. lia. }
  destruct (step e s) as [r|] eqn:Hs; [|done].
  destruct (watchdog_step_inv _ _ Hinv _ Hs) as (s1 & -> & Hinv1). intros Hsteps.
  specialize (IH _ Hinv1 Hsteps). pose proof (step_measure _ _ _ Hinv Hs).
  unfold own_steps in *. rewrite filter_cons. destruct (own e); simpl in *; lia.
Qed.

(** The watchdog moves when it is due, whatever the call does. *)
Lemma dog_progress s p :
  inv s → wake s <= now s → dog s = Some p → p ≠ Exited → ∃ s', step Dog s = Some (Done s').
Proof.
  intros Hinv Hdue Hp Hne. destruct (call_ok_dog s p (inv_call _ Hinv) Hp Hne) as [Hst _].
  simpl. unfold dog_step. rewrite Hp. destruct p; try done; [|eauto|rewrite Hst; eauto].
  rewrite (proj2 (Z.leb_le _ _) Hdue). eauto.
Qed.

(** Once it is due, something can move until the call has returned. *)
Lemma due_progress s :
  inv s → (dog s = None ∨ wake s <= now s) → (∀ e, call s ≠ Return e) →
  ∃ e s', own e = true ∧ step e s = Some (Done s').
Proof.
  intros Hinv Hdue Hnr. pose proof (inv_call _ Hinv) as Hc. unfold call_ok in Hc.
  assert (is_Some (dog s) → dog s = Some Exited ∨ ∃ s', step Dog s = Some (Done s')) as Hdog.
  { intros [p Hp]. destruct (decide (p = Exited)) as [->|]; [by left|right].
    destruct Hdue as [?|?]; [congruence|]. by eapply dog_progress. }
  destruct (call s) eqn:Hcall.
  5: { destruct Hc as (Hsome & _ & Hnd). destruct (Hdog Hsome) as [Hex|[s' ?]]; [|by exists Dog, s'].
       destruct (reply s) as [[]|] eqn:Hr.
       - exists (Call false). simpl. unfold call_step. rewrite Hcall, Hr. simpl. eauto.
       - exists (Call true). simpl. unfold call_step. rewrite Hcall, Hr, orb_true_r. eauto.
       - destruct (inv_exited _ Hinv Hex) as [?|Hab]; [congruence|].
         exists (Call true). simpl. unfold call_step. rewrite Hcall, Hab. simpl. eauto. }
  8: { destruct Hc as (Hsome & _). destruct (Hdog Hsome) as [Hex|[s' ?]]; [|by exists Dog, s'].
       exists (Call false). simpl. unfold call_step. rewrite Hcall, Hex. simpl. eauto. }
  8: { destruct Hc as (_ & Hj). exists (Call false). simpl. unfold call_step. rewrite Hcall, Hj. eauto. }
  10: naive_solver.
  all: exists (Call false); simpl; unfold call_step; rewrite Hcall; eauto.
Qed.

(** ** The theorems *)

(** C16: the two threads never meet in the wrong order: in no interleaving is the
    stream aborted after its destruction, or the watchdog destroyed before it is
    joined; an abort comes only after the timeout; and when the call returns the
    watchdog has finished and the stream is gone, without an exception only if
    the edge has answered. *)
Theorem watchdog_safe es r :
  steps es sys0 = Some r →
  ∃ s, r = Done s
    ∧ (aborted s = true → timeout_ms <= now s)
    ∧ ∀ e, call s = Return e →
        stream s = false ∧ (dog s = None ∨ dog s = Some Exited)
        ∧ (e = false → reply s = Some true).
Proof.
  intros Hs. destruct (steps_inv _ _ _ watchdog_inv_sys0 Hs) as (s & -> & Hinv). exists s.
  split; [done|]. split.
  - intros Hex%(inv_aborted _ Hinv). pose proof (inv_wake _ Hinv) as Hw.
    pose proof (inv_late _ Hinv Exited Hex) as Hl. rewrite Hex in Hw.
    specialize (Hw ltac:(done)). specialize (Hl ltac:(done)). lia.
  - intros e He. pose proof (inv_call _ Hinv) as Hc. pose proof (inv_answered _ Hinv) as Ha.
    unfold call_ok in Hc. rewrite He in Hc, Ha. split_and!; [tauto|tauto|]. intros ->. by apply Ha.
Qed.

(** C17: the call always comes to an end: the two threads make at most fifteen steps
    between them, whatever the edge does, and from the timeout on one of them can
    move until the call has returned, even when the edge never answers. *)
Theorem watchdog_terminates es s :
  steps es sys0 = Some (Done s) →
  (own_steps es ≤ 15)%nat
  ∧ (dog s = None ∨ wake s <= now s →
     (∀ e, own e = true → step e s = None) → ∃ e, call s = Return e).
Proof.
  intros Hs. destruct (steps_inv _ _ _ watchdog_inv_sys0 Hs) as (s' & [= <-] & Hinv). split.
  - pose proof (steps_measure _ _ _ watchdog_inv_sys0 Hs) as Hm. change (measure sys0) with 15%nat in Hm. lia.
  - intros Hdue Hstuck. destruct (call s) eqn:Hcall; try (by eexists).
    all: exfalso; destruct (due_progress s Hinv Hdue) as (e & s' & He & Hstep);
      [rewrite Hcall; done|rewrite Hstuck in Hstep by done; discriminate].
Qed.

(** C36: a registration takes the whole timeout, however fast the edge answers: the
    call joins the watchdog, which sleeps through. Only an exception before the
    watchdog has started returns earlier. *)
Theorem call_takes_timeout es s e :
  steps es sys0 = Some (Done s) → call s = Return e → e = false ∨ dog s ≠ None →
  timeout_ms <= now s.
Proof.
  intros Hs Hret He. destruct (steps_inv _ _ _ watchdog_inv_sys0 Hs) as (s' & [= <-] & Hinv).
  pose proof (inv_call _ Hinv) as Hc. unfold call_ok in Hc. rewrite Hret in Hc.
  assert (dog s = Some Exited) as Hex by (destruct Hc as [[?|[? ?]] _]; naive_solver).
  pose proof (inv_wake _ Hinv) as Hw. pose proof (inv_late _ Hinv Exited Hex) as Hl.
  rewrite Hex in Hw. specialize (Hw ltac:(done)). specialize (Hl ltac:(done)). lia.
Qed.

(** What holds from an answer in time on. *)
Definition in_time (s : sys) : Prop :=
  done_ s = true ∧ aborted s = false ∧ dog s ≠ Some Abort_ ∧ dog s ≠ None
  ∧ match call s with Open | Bootstrap | Spawn | Send | Wait | StoreDone => False | _ => True end.

Lemma in_time_step e s s' : in_time s → step e s = Some (Done s') → in_time s'.
Proof.
  unfold in_time. intros (Hd & Ha & Hdog & Hn & Hc) Hs. destruct e; simpl in Hs.
  - by injection Hs as <-.
  - destruct (call s), (reply s); simplify_eq.
  - unfold call_step in Hs. destruct (call s); try done; step_cases; done.
  - unfold dog_step in Hs. destruct (dog s) as [[]|]; try done; rewrite ?Hd in Hs; step_cases; done.
Qed.

(** An answer that is taken in time is never followed by an abort, not even
    one that was on its way: after [done] is set with the watchdog still asleep,
    every continuation leaves the stream alone. *)
Theorem answer_in_time es s es' s' :
  steps es sys0 = Some (Done s) → call s = Read → dog s = Some Asleep →
  steps es' s = Some (Done s') → aborted s' = false.
Proof.
  intros Hs Hcall Hdog Hs'. destruct (steps_inv _ _ _ watchdog_inv_sys0 Hs) as (s0 & [= <-] & Hinv).
  assert (in_time s) as Hin.
  { pose proof (inv_call _ Hinv) as Hc. unfold call_ok in Hc. unfold in_time. rewrite Hcall in *.
    destruct Hc as (_ & _ & Hd). split_and!; try done; [|congruence..].
    destruct (aborted s) eqn:Hab; [|done]. apply (inv_aborted _ Hinv) in Hab. congruence. }
  clear - Hin Hs'. revert s Hin Hs'. induction es' as [|e es' IH]; intros s Hin; simpl.
  { intros [= <-]. apply Hin. }
  destruct (step e s) as [[s1| |]|] eqn:Hs; try done. apply IH. by eapply in_time_step.
Qed.
End watchdog.

(** ** Runs *)

(** The edge answers at once; the call returns after the timeout. *)
Definition sample_run : list event :=
  [Call false; Call false; Call false; Call false; Edge true; Call false; Call false; Call false;
   Call false; Tick; Tick; Dog; Dog; Call false; Call false; Call false; Call false].

(** The edge is silent; the watchdog ends the wait. *)
Definition sample_silent : list event :=
  [Call false; Call false; Call false; Call false; Tick; Tick; Dog; Dog; Dog; Call true; Call false;
   Call false; Call false; Call false; Call false].

Example sample_run_ends :
  steps 2 sample_run sys0
  = Some (Done (mkSys 2 (Return false) (Some Exited) 2 false true false false (Some true))).
Proof. reflexivity. Qed.

Example sample_silent_ends :
  steps 2 sample_silent sys0
  = Some (Done (mkSys 2 (Return true) (Some Exited) 2 false true false true None)).
Proof. reflexivity. Qed.

Lemma watchdog_safe_witness :
  ∃ s, Some (Done s) = steps 2 sample_silent sys0
    ∧ (aborted s = true → 2 <= now s).
Proof.
  destruct (watchdog_safe 2 sample_silent _ sample_silent_ends) as (s & Hs & Hab & _).
  exists s. split; [by rewrite <- Hs|exact Hab].
Defined.

Lemma watchdog_terminates_witness :
  (own_steps sample_silent ≤ 15)%nat.
Proof. exact (proj1 (watchdog_terminates 2 sample_silent _ sample_silent_ends)). Defined.

Lemma call_takes_timeout_witness :
  ∃ s, steps 2 sample_run sys0 = Some (Done s) ∧ 2 <= now s.
Proof.
  eexists. split; [exact sample_run_ends|].
  eapply (call_takes_timeout 2 sample_run); [exact sample_run_ends|done|by left].
Defined.

Definition sample_read : sys := mkSys 0 Read (Some Asleep) 2 true true true false (Some true).

Lemma answer_in_time_witness :
  aborted (mkSys 2 (Return false) (Some Exited) 2 false true false false (Some true)) = false.
Proof.
  exact (answer_in_time 2 (take 7 sample_run) sample_read (drop 7 sample_run)
    (mkSys 2 (Return false) (Some Exited) 2 false true false false (Some true))
    eq_refl eq_refl eq_refl eq_refl).
Defined.
