(* ===== verification/Probe.v ===== *)
(** * The handshake probe

    [src/tools/probe_handshake.cpp]: a diagnostic program over the same client as
    the tunnel: it connects once, registers if it is asked to, and reports by its
    exit code. The text it prints is left out. *)
From S2P Require Import Prelude Cidr Config Registration QuicClient InetModel.
Local Open Scope Z_scope.
Local Open Scope cfd_scope.

(** ** [std::atoi] *)

(** White space, a sign, digits; what follows is ignored, and no digits give 0. A
    value that is not an [int] is undefined in the language. *)
Definition atoi (s : text) : run Z :=
  let s := trim_front s in
  let '(neg, ds) :=
    match s with
    | c :: s' =>
        if bool_decide (c = "-"%char) then (true, s')
        else if bool_decide (c = "+"%char) then (false, s')
        else (false, s)
    | [] => (false, [])
    end in
  let n := dec_value (digit_prefix ds) in
  let v := if neg then - n else n in
  if (- 2 ^ 31 <=? v) && (v <? 2 ^ 31) then Done v else UB.

(** ** The command line *)

(** The local variables of [main] that the options set. *)
Record probe_options := mkProbeOptions {
  o_host : text;
  o_port : Z;
  o_alpn : text;
  o_server_name : text;
  o_ca_bundle : text;
  o_cert : text;
  o_key : text;
  o_config_path : text;
  o_insecure : bool;
  o_register : bool;
  o_timeout_ms : Z;
}.

Definition probe_defaults : probe_options :=
  mkProbeOptions [] 7844 (str "argotunnel") (str "quic.cftunnel.com") [] [] [] [] false false 10000.

(** The options with a value, and the others. *)
Inductive value_key :=
| KHost | KPort | KAlpn | KServerName | KCaBundle | KCert | KKey | KConfig | KTimeout.

Inductive flag := FValue (k : value_key) | FInsecure | FRegister | FHelp.

(** The chain of comparisons. *)
Definition flag_of (a : text) : option flag :=
  if bool_decide (a = str "--host") then Some (FValue KHost)
  else if bool_decide (a = str "--port") then Some (FValue KPort)
  else if bool_decide (a = str "--alpn") then Some (FValue KAlpn)
  else if bool_decide (a = str "--server-name") then Some (FValue KServerName)
  else if bool_decide (a = str "--ca-bundle") then Some (FValue KCaBundle)
  else if bool_decide (a = str "--cert") then Some (FValue KCert)
  else if bool_decide (a = str "--key") then Some (FValue KKey)
  else if bool_decide (a = str "--insecure") then Some FInsecure
  else if bool_decide (a = str "--register") then Some FRegister
  else if bool_decide (a = str "--config") then Some (FValue KConfig)
  else if bool_decide (a = str "--timeout-ms") then Some (FValue KTimeout)
  else if bool_decide (a = str "-h") || bool_decide (a = str "--help") then Some FHelp
  else None.

(** The assignment of a branch; the port is cast to [std::uint16_t]. *)
Definition set_value (k : value_key) (v : text) (o : probe_options) : run probe_options :=
  let '(mkProbeOptions host port alpn sn ca cert key cp ins reg tmo) := o in
  match k with
  | KHost => Done (mkProbeOptions v port alpn sn ca cert key cp ins reg tmo)
  | KPort =>
      let! n := atoi v in Done (mkProbeOptions host (u16 n) alpn sn ca cert key cp ins reg tmo)
  | KAlpn => Done (mkProbeOptions host port v sn ca cert key cp ins reg tmo)
  | KServerName => Done (mkProbeOptions host port alpn v ca cert key cp ins reg tmo)
  | KCaBundle => Done (mkProbeOptions host port alpn sn v cert key cp ins reg tmo)
  | KCert => Done (mkProbeOptions host port alpn sn ca v key cp ins reg tmo)
  | KKey => Done (mkProbeOptions host port alpn sn ca cert v cp ins reg tmo)
  | KConfig => Done (mkProbeOptions host port alpn sn ca cert key v ins reg tmo)
  | KTimeout =>
      let! n := atoi v in Done (mkProbeOptions host port alpn sn ca cert key cp ins reg n)
  end.

Definition set_insecure (o : probe_options) : probe_options :=
  mkProbeOptions (o_host o) (o_port o) (o_alpn o) (o_server_name o) (o_ca_bundle o) (o_cert o)
    (o_key o) (o_config_path o) true (o_register o) (o_timeout_ms o).
Definition set_register (o : probe_options) : probe_options :=
  mkProbeOptions (o_host o) (o_port o) (o_alpn o) (o_server_name o) (o_ca_bundle o) (o_cert o)
    (o_key o) (o_config_path o) (o_insecure o) true (o_timeout_ms o).

(** The exit code, or what the options ask for. *)
Inductive probe_args := ProbeExit (code : Z) | ProbeRun (o : probe_options).

(** The test after the loop. *)
Definition args_end (o : probe_options) : probe_args :=
  if bool_decide (o_host o = []) && bool_decide (o_config_path o = []) then ProbeExit 2
  else ProbeRun o.

(** The [while] loop over [argv]. *)
Fixpoint probe_loop (fuel : nat) (argv : list text) (o : probe_options) (i : nat)
    : run probe_args :=
  match fuel with
  | O => Fuel
  | S fuel' =>
      let argc := length argv in
      if (i <? argc)%nat then
        let! arg := run_opt (argv !! i) in
        match flag_of arg with
        | Some (FValue k) =>
            if (argc <=? i + 1)%nat then Done (ProbeExit 2)
            else
              let! v := run_opt (argv !! (i + 1)%nat) in
              let! o := set_value k v o in
              probe_loop fuel' argv o (i + 2)
        | Some FInsecure => probe_loop fuel' argv (set_insecure o) (i + 1)
        | Some FRegister => probe_loop fuel' argv (set_register o) (i + 1)
        | Some FHelp => Done (ProbeExit 0)
        | None => Done (ProbeExit 2)
        end
      else Done (args_end o)
  end.

Definition parse_probe (argv : list text) : run probe_args :=
  probe_loop (S (length argv)) argv probe_defaults 1.

(** ** The probe *)

Section probe.
Context `{Inet}.
(** The files, the answers of the library and of the resolver, and the remote
    call. *)
Context (file : text → option text) (a : answers) (rpc : rpc_request → rpc_result).

(** The configuration file and the host: an exit code, or both. *)
Definition probe_config (o : probe_options) : Z + (text * Config) :=
  if bool_decide (o_config_path o = []) then
    if bool_decide (o_host o = []) then inl 2 else inr (o_host o, Config_default)
  else
    let '(ok, ini_cfg, _) :=
      load_from_file (o_config_path o) (file (o_config_path o)) Config_default [] in
    if negb ok then inl 2
    else
      let host := if bool_decide (o_host o = []) then Config.edge_host ini_cfg else o_host o in
      if bool_decide (host = []) then inl 2 else inr (host, ini_cfg).

Definition probe_quic_config (o : probe_options) (host : text) : QuicConfig :=
  let d := QuicConfig_default in
  mkQuicConfig host (o_port o) (o_server_name o) (o_alpn o) (QuicClient.tunnel_id d)
    (QuicClient.account_tag d) (QuicClient.tunnel_secret d)
    (if o_insecure o then str "INSECURE" else o_ca_bundle o) (o_cert o) (o_key o).

(** The request of [--register]: [None] when the credentials do not parse. *)
Definition probe_request (ini_cfg : Config) : run (option RegisterRequest) :=
  let req := RegisterRequest_default in
  let! u := parse_uuid (Config.tunnel_id ini_cfg) (tunnel_uuid req) in
  if negb u.1 then Done None
  else
    let b := base64_decode (tunnel_secret_b64 ini_cfg) (Registration.tunnel_secret (auth req)) in
    if negb b.1 then Done None
    else
      Done (Some (mkRegisterRequest (mkTunnelAuth (Config.account_tag ini_cfg) b.2) u.2 0
                    (str "cfd-cpp/0.1.0") (str "linux_amd64") [str "quic-datagram-v3"])).

(** From the connection on, without the close: the exit code. *)
Definition probe_register (o : probe_options) (ini_cfg : Config) (s : client) : run Z :=
  if o_register o && negb (bool_decide (o_config_path o = [])) then
    let! req := probe_request ini_cfg in
    match req with
    | None => Done 1
    | Some req =>
        if bool_decide ((register_connection rpc req RegisterResponse_default s).1 = success)
        then Done 0 else Done 1
    end
  else Done 0.

(** The exit code, and the client at the end of its life, when one was made: it is
    closed on every path, and then destroyed. *)
Definition probe_main (argv : list text) (t : ApiTable) : run (Z * option (client * ApiTable)) :=
  let! args := parse_probe argv in
  match args with
  | ProbeExit code => Done (code, None)
  | ProbeRun o =>
      match probe_config o with
      | inl code => Done (code, None)
      | inr (host, ini_cfg) =>
          let! r := connect (probe_quic_config o host) a t client0 in
          let '(ec, s, t) := r in
          let! code :=
            if negb (bool_decide (ec = success)) then Done 1 else probe_register o ini_cfg s in
          let! s := close s in
          let! d := client_dtor t s in
          Done (code, Some d)
      end
  end.
End probe.

(** ** The command line: lemmas *)

(** What a command line can ask for, as the user writes it. *)
Inductive setting := SValue (k : value_key) (v : text) | SInsecure | SRegister.

Definition name_of (k : value_key) : text :=
  match k with
  | KHost => str "--host"
  | KPort => str "--port"
  | KAlpn => str "--alpn"
  | KServerName => str "--server-name"
  | KCaBundle => str "--ca-bundle"
  | KCert => str "--cert"
  | KKey => str "--key"
  | KConfig => str "--config"
  | KTimeout => str "--timeout-ms"
  end.

Definition print_setting (s : setting) : list text :=
  match s with
  | SValue k v => [name_of k; v]
  | SInsecure => [str "--insecure"]
  | SRegister => [str "--register"]
  end.

Definition apply_setting (s : setting) (o : probe_options) : run probe_options :=
  match s with
  | SValue k v => set_value k v o
  | SInsecure => Done (set_insecure o)
  | SRegister => Done (set_register o)
  end.

Fixpoint apply_settings (ss : list setting) (o : probe_options) : run probe_options :=
  match ss with
  | [] => Done o
  | s :: ss' => let! o := apply_setting s o in apply_settings ss' o
  end.

Lemma flag_of_name k : flag_of (name_of k) = Some (FValue k).
Proof. by destruct k. Qed.

Lemma flag_of_Some a f :
  flag_of a = Some f →
  match f with
  | FValue k => a = name_of k
  | FInsecure => a = str "--insecure"
  | FRegister => a = str "--register"
  | FHelp => a = str "-h" ∨ a = str "--help"
  end.
Proof.
  unfold flag_of. intros Hf.
  repeat (case_bool_decide; [by injection Hf as <-|]).
  by destruct (_ || _) eqn:Hh; [|done]; injection Hf as <-; apply orb_true_iff in Hh as [?|?]; bool_facts; auto.
Qed.

Lemma set_value_no_fuel k v o : set_value k v o ≠ Fuel.
Proof.
  destruct o, k; try done; unfold set_value, atoi; repeat case_match; simplify_eq/=; done.
Qed.

Lemma apply_settings_no_fuel ss o : apply_settings ss o ≠ Fuel.
Proof.
  revert o. induction ss as [|s ss IH]; intros o; simpl; [done|].
  assert (apply_setting s o ≠ Fuel) as Hs by (destruct s; [apply set_value_no_fuel|done..]).
  destruct (apply_setting s o); simpl; [apply IH|done|done].
Qed.

(** The loop by recursion on the arguments. *)
Fixpoint read_probe (fuel : nat) (args : list text) (o : probe_options) : run probe_args :=
  match fuel, args with
  | O, _ => Fuel
  | S _, [] => Done (args_end o)
  | S fuel', arg :: args' =>
      match flag_of arg with
      | Some (FValue k) =>
          match args' with
          | [] => Done (ProbeExit 2)
          | v :: args'' => let! o := set_value k v o in read_probe fuel' args'' o
          end
      | Some FInsecure => read_probe fuel' args' (set_insecure o)
      | Some FRegister => read_probe fuel' args' (set_register o)
      | Some FHelp => Done (ProbeExit 0)
      | None => Done (ProbeExit 2)
      end
  end.

Lemma probe_loop_read fuel argv o i :
  (i ≤ length argv)%nat → probe_loop fuel argv o i = read_probe fuel (drop i argv) o.
Proof.
  revert o i. induction fuel as [|fuel IH]; intros o i Hi; [done|]. cbn [probe_loop].
  destruct (i <? length argv)%nat eqn:Hlt; bool_facts; [|by rewrite drop_ge by lia].
  destruct (lookup_lt_is_Some_2 argv i Hlt) as [x Hx]. rewrite Hx, (drop_S argv x i Hx).
  cbn [run_opt run_bind read_probe]. destruct (flag_of x) as [[k| | |]|]; try done.
  2,3: by rewrite IH, Nat.add_1_r by lia.
  destruct (length argv <=? i + 1)%nat eqn:Hle; bool_facts; [by rewrite drop_ge by lia|].
  destruct (lookup_lt_is_Some_2 argv (S i)) as [v Hv]; [lia|].
  rewrite Nat.add_1_r, Hv, (drop_S argv v (S i) Hv). cbn [run_opt run_bind].
  destruct (set_value k v o); try done. cbn [run_bind]. rewrite IH by lia.
  by rewrite Nat.add_comm.
Qed.

Lemma read_probe_setting s fuel args o :
  read_probe (S fuel) (print_setting s ++ args) o
  = let! o := apply_setting s o in read_probe fuel args o.
Proof.
  destruct s as [k v| |]; [|done..]. cbn [print_setting app read_probe].
  by rewrite flag_of_name.
Qed.

(** Every command line is a sequence of settings, and then its end. *)
Inductive ending := EndRun | EndHelp | EndBad.

Definition ends (args : list text) (e : ending) : Prop :=
  match e with
  | EndRun => args = []
  | EndHelp => ∃ a rest, args = a :: rest ∧ (a = str "-h" ∨ a = str "--help")
  | EndBad => ∃ a rest, args = a :: rest ∧ (flag_of a = None ∨ (rest = [] ∧ ∃ k, a = name_of k))
  end.

Definition end_result (e : ending) (o : probe_options) : probe_args :=
  match e with EndRun => args_end o | EndHelp => ProbeExit 0 | EndBad => ProbeExit 2 end.

Lemma args_split args : ∃ ss rest e, args = (ss ≫= print_setting) ++ rest ∧ ends rest e.
Proof.
  remember (length args) as n eqn:Hn. revert args Hn.
  induction n as [n IH] using lt_wf_ind. intros [|a args] ->; [by exists [], [], EndRun|].
  assert (∀ s rest', a :: args = print_setting s ++ rest' →
    ∃ ss rest e, a :: args = (ss ≫= print_setting) ++ rest ∧ ends rest e) as Hcons.
  { intros s rest' Heq. destruct (IH (length rest')) with rest' as (ss & rest & e & -> & He); [|done|].
    - rewrite Heq, length_app. destruct s; simpl; lia.
    - exists (s :: ss), rest, e. rewrite Heq, bind_cons, <- app_assoc. done. }
  destruct (flag_of a) as [f|] eqn:Hf.
  2: { exists [], (a :: args), EndBad. split; [done|]. exists a, args. auto. }
  pose proof (flag_of_Some a f Hf) as Ha. destruct f as [k| | |].
  - destruct args as [|v args]; [|by apply (Hcons (SValue k v) args); subst a].
    exists [], [a], EndBad. split; [done|]. exists a, []. eauto.
  - apply (Hcons SInsecure args). by subst a.
  - apply (Hcons SRegister args). by subst a.
  - exists [], (a :: args), EndHelp. split; [done|]. exists a, args. auto.
Qed.

Lemma read_probe_end fuel args e o :
  ends args e → read_probe (S fuel) args o = Done (end_result e o).
Proof.
  destruct e; simpl.
  - by intros ->.
  - intros (a & rest & -> & [->| ->]); done.
  - intros (a & rest & -> & [Hf|[-> [k ->]]]); [by rewrite Hf|by rewrite flag_of_name].
Qed.

Lemma read_probe_settings ss rest e fuel o :
  (length (ss ≫= print_setting) < fuel)%nat → ends rest e →
  read_probe fuel ((ss ≫= print_setting) ++ rest) o
  = let! o := apply_settings ss o in Done (end_result e o).
Proof.
  intros Hf He. revert fuel o Hf. induction ss as [|s ss IH]; intros fuel o Hf.
  - destruct fuel; [simpl in Hf; lia|]. by apply read_probe_end.
  - rewrite bind_cons, <- app_assoc. rewrite bind_cons, length_app in Hf.
    assert (0 < length (print_setting s))%nat by by (destruct s; simpl; lia).
    destruct fuel as [|fuel]; [lia|]. rewrite read_probe_setting. cbn [apply_settings].
    destruct (apply_setting s o); [|done..]. cbn [run_bind]. apply IH. lia.
Qed.

(** Every command line of the probe is a sequence of settings with an end, and
    the loop, which always terminates and never reads outside [argv], applies the
    settings in order and then does what the end says: exit 0 for help, exit 2 for
    an unknown option or a missing value, and otherwise goes on to run exactly
    when there is a host or a configuration file. *)
Theorem parse_probe_spec prog args :
  ∃ ss rest e, args = (ss ≫= print_setting) ++ rest ∧ ends rest e
    ∧ parse_probe (prog :: args)
      = (let! o := apply_settings ss probe_defaults in Done (end_result e o))
    ∧ parse_probe (prog :: args) ≠ Fuel.
Proof.
  destruct (args_split args) as (ss & rest & e & -> & He). exists ss, rest, e.
  assert (parse_probe (prog :: (ss ≫= print_setting) ++ rest)
    = let! o := apply_settings ss probe_defaults in Done (end_result e o)) as Hp.
  { unfold parse_probe. rewrite probe_loop_read by (simpl; lia). cbn [drop].
    apply read_probe_settings; [|done]. simpl. rewrite length_app. lia. }
  do 3 (split; [done|]). rewrite Hp.
  pose proof (apply_settings_no_fuel ss probe_defaults) as Hnf.
  by destruct (apply_settings ss probe_defaults).
Qed.

(** ** The probe: lemmas *)

Lemma probe_request_total ini_cfg : ∃ r, probe_request ini_cfg = Done r.
Proof.
  unfold probe_request.
  destruct (parse_uuid_cases (Config.tunnel_id ini_cfg) (tunnel_uuid RegisterRequest_default) eq_refl)
    as [(? & ? & ? & ? & ? & _ & _ & ->)|(_ & out' & _ & ->)]; cbn [run_bind]; repeat case_match; eauto.
Qed.

Section probe_spec.
Context `{Inet} (file : text → option text) (a : answers) (rpc : rpc_request → rpc_result).

Lemma probe_config_code o code : probe_config file o = inl code → code = 2.
Proof. unfold probe_config. repeat case_match; congruence. Qed.

(** A registration that was asked for, and is possible, succeeds. *)
Definition registers (o : probe_options) (ini_cfg : Config) (s : client) : Prop :=
  o_register o = true → o_config_path o ≠ [] →
  ∃ req resp, probe_request ini_cfg = Done (Some req)
    ∧ register_connection rpc req RegisterResponse_default s = (success, resp).

Lemma probe_register_spec o ini_cfg s :
  ∃ code, probe_register rpc o ini_cfg s = Done code ∧ (code = 0 ∨ code = 1)
    ∧ (code = 0 ↔ registers o ini_cfg s).
Proof.
  unfold probe_register, registers. destruct (o_register o); cbn [andb].
  2: { exists 0. split; [done|]. split; [by left|]. by split. }
  case_bool_decide as Hp; cbn [negb].
  { exists 0. split; [done|]. split; [by left|]. by split. }
  destruct (probe_request_total ini_cfg) as [[req|] ->]; cbn [run_bind].
  - destruct (register_connection rpc req RegisterResponse_default s) as [ec resp] eqn:Hr. cbn [fst].
    case_bool_decide as Hec; [exists 0|exists 1]; (split; [done|]); (split; [auto|]); split; try done.
    + intros _ _ _. exists req, resp. by subst ec.
    + intros Hreg. destruct (Hreg eq_refl Hp) as (req' & resp' & [= <-] & Hr'). congruence.
  - exists 1. split; [done|]. split; [by right|]. split; [done|].
    intros Hreg. destruct (Hreg eq_refl Hp) as (? & ? & ? & _). congruence.
Qed.

Lemma close_twice t s :
  QuicClient.inv s →
  ∃ s1 s2 t2, close s = Done s1 ∧ client_dtor t s1 = Done (s2, t2)
    ∧ handles s2 = ∅ ∧ members s2 = [] ∧ calls s2 = calls s ++ close_calls s.
Proof.
  intros Hi. destruct (close_spec s Hi) as (hs & -> & Hc). rewrite Hc. eexists _, _, _.
  split; [done|]. split; [reflexivity|]. done.
Qed.

End probe_spec.

(** ** Findings on the options *)

(** A port that is not a number is not refused: it is read as 0, and one that
    does not fit 16 bits is cut; the comment on the loop says a malformed value is
    a usage error. And [--register] without [--config] is accepted and ignored. *)
Theorem probe_options_unchecked :
  (∀ v, atoi v = Done 0 →
     ∃ o, parse_probe [str "cfd_probe"; str "--host"; str "h"; str "--port"; v] = Done (ProbeRun o)
          ∧ o_port o = 0)
  ∧ atoi (str "abc") = Done 0 ∧ atoi (str "65536") = Done 65536
  ∧ (∃ o, parse_probe [str "cfd_probe"; str "--host"; str "h"; str "--port"; str "65536"]
          = Done (ProbeRun o) ∧ o_port o = 0)
  ∧ ∀ rpc ini_cfg s, probe_register rpc (set_register probe_defaults) ini_cfg s = Done 0.
Proof.
  split; [|split_and!; [by vm_compute|by vm_compute|eexists; split; by vm_compute|done]].
  intros v Hv. unfold parse_probe. rewrite probe_loop_read by (simpl; lia).
  cbn [length drop]. eexists. split.
  - change [str "--host"; str "h"; str "--port"; v]
      with (([SValue KHost (str "h"); SValue KPort v] ≫= print_setting) ++ []).
    rewrite (read_probe_settings _ _ EndRun) by (simpl; done || lia).
    cbn [apply_settings apply_setting set_value probe_defaults run_bind].
    rewrite Hv. reflexivity.
  - reflexivity.
Qed.

(** ** Witnesses *)

Definition sample_argv : list text :=
  [str "cfd_probe"; str "--host"; str "h"; str "--insecure"; str "--port"; str " 17844"].

Definition sample_options : probe_options :=
  mkProbeOptions (str "h") 17844 (str "argotunnel") (str "quic.cftunnel.com") [] [] [] [] true false
    10000.

