(* ===== verification/Atomic8.v ===== *)
(** * The 8-byte atomics of 32-bit MIPS

    [src/cmake/stubs/atomic_mips32.c]: three operations on 64-bit words for a
    machine that has no instruction for them, behind one spin lock. The copies to
    and from memory are not atomic, so they are steps of a byte each here, and the
    steps of the threads interleave. *)
From S2P Require Import Prelude.
Local Open Scope Z_scope.

(** ** Memory *)

Abbreviation memory := (gmap Z Z).

(** A byte that was never written reads as 0 here. *)
Definition byte_at (m : memory) (a : Z) : Z := default 0 (m !! a).

(** The bytes from [p] on, and an update of them. *)
Definition load (n : nat) (p : Z) (m : memory) : list Z :=
  (λ k, byte_at m (p + Z.of_nat k)) <$> seq 0 n.

Fixpoint store (p : Z) (bs : list Z) (m : memory) : memory :=
  match bs with [] => m | b :: bs' => store (p + 1) bs' (<[p := b]> m) end.

(** The representation of a [uint64_t], the machine being little-endian. *)
Fixpoint le_bytes (n : nat) (v : Z) : list Z :=
  match n with O => [] | S n' => v mod 256 :: le_bytes n' (v / 256) end.

Definition read_u64 (p : Z) (m : memory) : Z := of_le (load 8 p m).

(** ** The operations *)

Inductive op :=
| SyncValCompareAndSwap (ptr oldval newval : Z)
| SyncFetchAndAdd (ptr val : Z)
| SyncAddAndFetch (ptr val : Z).

Definition ptr_of (o : op) : Z :=
  match o with
  | SyncValCompareAndSwap ptr _ _ => ptr
  | SyncFetchAndAdd ptr _ => ptr
  | SyncAddAndFetch ptr _ => ptr
  end.

(** What the function returns for [cur], and what it writes, if it does. *)
Definition outcome (o : op) (cur : Z) : Z * option Z :=
  match o with
  | SyncValCompareAndSwap _ oldval newval => (cur, if cur =? oldval then Some newval else None)
  | SyncFetchAndAdd _ val => (cur, Some (u64 (cur + val)))
  | SyncAddAndFetch _ val => let next := u64 (cur + val) in (next, Some next)
  end.

(** ** The threads *)

(** A call: before the lock ([_s8_acquire]); the bytes of [cur] it has copied; the
    bytes it has to write; before the release; returned. *)
Inductive pc :=
| Acquire
| Reading (cur : list Z)
| Writing (todo : list Z) (ret : Z)
| Release (ret : Z)
| Returned (ret : Z).

#[export] Instance pc_eq_dec : EqDecision pc.
Proof. solve_decision. Defined.

(** [_s8_lock], the memory, the calls, and the order in which they released the
    lock. *)
Record sys := mkSys {
  s8_lock : Z;
  mem : memory;
  pcs : list pc;
  log : list (nat * Z);
}.

Section threads.
(** Each thread makes one call. *)
Context (ops : list op).

(** A step of the thread [i]. The compare-and-exchange of [_s8_acquire] fails, and
    the loop goes round, while the lock is taken. *)
Definition step (i : nat) (s : sys) : option sys :=
  match ops !! i, pcs s !! i with
  | Some o, Some p =>
      let go p' := mkSys (s8_lock s) (mem s) (<[i := p']> (pcs s)) (log s) in
      match p with
      | Acquire =>
          if s8_lock s =? 0
          then Some (mkSys 1 (mem s) (<[i := Reading []]> (pcs s)) (log s))
          else Some s
      | Reading cur =>
          if (length cur <? 8)%nat
          then Some (go (Reading (cur ++ [byte_at (mem s) (ptr_of o + Z.of_nat (length cur))])))
          else
            let '(ret, w) := outcome o (of_le cur) in
            Some (go (match w with Some v => Writing (le_bytes 8 v) ret | None => Release ret end))
      | Writing [] ret => Some (go (Release ret))
      | Writing (b :: todo) ret =>
          Some (mkSys (s8_lock s)
                  (<[ptr_of o + 8 - Z.of_nat (length (b :: todo)) := b]> (mem s))
                  (<[i := Writing todo ret]> (pcs s)) (log s))
      | Release ret =>
          Some (mkSys 0 (mem s) (<[i := Returned ret]> (pcs s)) (log s ++ [(i, ret)]))
      | Returned _ => None
      end
  | _, _ => None
  end.

Fixpoint steps (sched : list nat) (s : sys) : option sys :=
  match sched with
  | [] => Some s
  | i :: sched' => s' ← step i s; steps sched' s'
  end.

Definition sys0 (m : memory) : sys := mkSys 0 m (replicate (length ops) Acquire) [].

(** ** Specification: the calls one after the other *)

Definition atomic_op (o : op) (m : memory) : Z * memory :=
  let '(ret, w) := outcome o (read_u64 (ptr_of o) m) in
  (ret, match w with Some v => store (ptr_of o) (le_bytes 8 v) m | None => m end).

(** A history leads from one memory to another, each call with its result. *)
Inductive history (m : memory) : list (nat * Z) → memory → Prop :=
| history_nil : history m [] m
| history_snoc h m1 i o ret m2 :
    history m h m1 → ops !! i = Some o → atomic_op o m1 = (ret, m2) →
    history m (h ++ [(i, ret)]) m2.

(** ** Memory: lemmas *)

Lemma load_snoc n p m : load (S n) p m = load n p m ++ [byte_at m (p + Z.of_nat n)].
Proof. unfold load. by rewrite seq_S, fmap_app. Qed.

Lemma load_length n p m : length (load n p m) = n.
Proof. unfold load. by rewrite length_fmap, length_seq. Qed.

Lemma store_snoc p bs b m :
  store p (bs ++ [b]) m = <[p + Z.of_nat (length bs) := b]> (store p bs m).
Proof.
  revert p m. induction bs as [|x bs IH]; intros p m; simpl; [by rewrite Z.add_0_r|].
  rewrite IH. f_equal. lia.
Qed.

Lemma store_lookup_lt p bs m a : a < p → byte_at (store p bs m) a = byte_at m a.
Proof.
  revert p m. induction bs as [|x bs IH]; intros p m Ha; simpl; [done|].
  rewrite IH by lia. unfold byte_at. by rewrite lookup_insert_ne by lia.
Qed.

Lemma load_cons n p m : load (S n) p m = byte_at m p :: load n (p + 1) m.
Proof.
  unfold load. rewrite <- cons_seq, fmap_cons, Z.add_0_r. f_equal.
  rewrite <- fmap_S_seq, <- list_fmap_compose. apply list_fmap_ext. intros i k _. simpl. f_equal. lia.
Qed.

Lemma load_store p bs m : load (length bs) p (store p bs m) = bs.
Proof.
  revert p m. induction bs as [|x bs IH]; intros p m; [done|].
  simpl length. rewrite load_cons. simpl. rewrite IH. f_equal.
  rewrite store_lookup_lt by lia. unfold byte_at. by rewrite lookup_insert_eq.
Qed.

Lemma le_bytes_length n v : length (le_bytes n v) = n.
Proof. revert v. induction n; simpl; congruence. Qed.

Lemma of_le_bytes n v : 0 <= v → of_le (le_bytes n v) = v mod 2 ^ (8 * Z.of_nat n).
Proof.
  revert v. induction n as [|n IH]; intros v Hv; [by rewrite Z.mod_1_r|].
  cbn [le_bytes of_le]. rewrite IH by (apply Z.div_pos; lia).
  replace (8 * Z.of_nat (S n)) with (8 + 8 * Z.of_nat n) by lia.
  rewrite Z.pow_add_r by lia. change (2 ^ 8) with 256.
  rewrite Z.rem_mul_r by (try apply Z.pow_nonzero; lia). done.
Qed.

(** What an operation writes is what the next one reads. *)
Lemma read_store p v m : 0 <= v < 2 ^ 64 → read_u64 p (store p (le_bytes 8 v) m) = v.
Proof.
  intros Hv. unfold read_u64. pose proof (load_store p (le_bytes 8 v) m) as Hl.
  rewrite le_bytes_length in Hl. rewrite Hl, of_le_bytes by lia.
  change (8 * Z.of_nat 8) with 64. by apply Z.mod_small.
Qed.

(** ** The invariant *)

Definition outside (p : pc) : Prop :=
  match p with Acquire | Returned _ => True | _ => False end.

(** Where a call is that holds the lock, against the memory [base] it found. *)
Definition inside (o : op) (base m : memory) (p : pc) : Prop :=
  match p with
  | Reading cur => m = base ∧ (length cur ≤ 8)%nat ∧ cur = load (length cur) (ptr_of o) base
  | Writing todo ret =>
      ∃ v written, le_bytes 8 v = written ++ todo ∧ m = store (ptr_of o) written base
        ∧ outcome o (read_u64 (ptr_of o) base) = (ret, Some v)
  | Release ret => atomic_op o base = (ret, m)
  | _ => False
  end.

(** The lock is free and no call is inside, or it is held by the one call that is. *)
Definition locked_by (s : sys) (base : memory) : Prop :=
  (s8_lock s = 0 ∧ mem s = base ∧ ∀ j q, pcs s !! j = Some q → outside q)
  ∨ (s8_lock s = 1
     ∧ ∃ i o p, ops !! i = Some o ∧ pcs s !! i = Some p ∧ inside o base (mem s) p
         ∧ ∀ j q, j ≠ i → pcs s !! j = Some q → outside q).

Record inv (m0 : memory) (s : sys) : Prop := {
  inv_len : length (pcs s) = length ops;
  inv_base : ∃ base, history m0 (log s) base ∧ locked_by s base;
  inv_log i ret : (i, ret) ∈ log s ↔ pcs s !! i = Some (Returned ret);
  inv_nodup : NoDup (log s).*1;
}.

Lemma atomic_inv_sys0 m : inv m (sys0 m).
Proof.
  split; simpl; [apply length_replicate| | |apply NoDup_nil_2].
  - exists m. split; [constructor|]. left. split_and!; [done..|].
    intros j q [-> _]%lookup_replicate. done.
  - intros i ret. split; [by intros ?%elem_of_nil|]. by intros [? _]%lookup_replicate.
Qed.

(** A step inside the lock, or one that takes it. *)
Lemma inv_move m0 s i o p p' lk m' base :
  inv m0 s → history m0 (log s) base → ops !! i = Some o → pcs s !! i = Some p →
  (∀ ret, p ≠ Returned ret) → (∀ ret, p' ≠ Returned ret) →
  locked_by (mkSys lk m' (<[i := p']> (pcs s)) (log s)) base →
  inv m0 (mkSys lk m' (<[i := p']> (pcs s)) (log s)).
Proof.
  intros [Hlen _ Hlog Hnd] Hh Ho Hp Hnr Hnr' Hl. split; simpl; [by rewrite length_insert|eauto| |done].
  intros j ret. rewrite Hlog. destruct (decide (i = j)) as [<-|].
  - rewrite Hp, list_lookup_insert_eq by by eapply lookup_lt_Some. naive_solver.
  - by rewrite list_lookup_insert_ne.
Qed.

(** The holder moves on within its call. *)
Lemma locked_move s base i o p' m' :
  ops !! i = Some o → is_Some (pcs s !! i) → inside o base m' p' →
  (∀ j q, j ≠ i → pcs s !! j = Some q → outside q) →
  locked_by (mkSys 1 m' (<[i := p']> (pcs s)) (log s)) base.
Proof.
  intros Ho [p Hp] Hin Hout. right. split; [done|]. exists i, o, p'. simpl.
  rewrite list_lookup_insert_eq by by eapply lookup_lt_Some. split_and!; try done.
  intros j q Hj. rewrite list_lookup_insert_ne by done. by apply Hout.
Qed.

(** Whoever is inside holds the lock. *)
Lemma holder s base i o p :
  locked_by s base → ops !! i = Some o → pcs s !! i = Some p → ¬ outside p →
  s8_lock s = 1 ∧ inside o base (mem s) p ∧ ∀ j q, j ≠ i → pcs s !! j = Some q → outside q.
Proof.
  intros [(_ & _ & Hout)|(Hl & j & o' & p' & Ho' & Hp' & Hin & Hout)] Ho Hp Hn.
  - by destruct (Hn (Hout _ _ Hp)).
  - destruct (decide (i = j)) as [->|Hne]; [|by destruct (Hn (Hout _ _ Hne Hp))].
    simplify_eq. done.
Qed.

Lemma inside_read o base m cur :
  inside o base m (Reading cur) → (length cur < 8)%nat →
  inside o base m (Reading (cur ++ [byte_at m (ptr_of o + Z.of_nat (length cur))])).
Proof.
  intros (-> & Hl & Hcur) Hlt. split_and!; [done|rewrite length_app; simpl; lia|].
  rewrite length_app. simpl. rewrite Nat.add_1_r, load_snoc, <- Hcur. done.
Qed.

Lemma inside_read_end o base m cur ret w :
  inside o base m (Reading cur) → ¬ (length cur < 8)%nat → outcome o (of_le cur) = (ret, w) →
  inside o base m (match w with Some v => Writing (le_bytes 8 v) ret | None => Release ret end).
Proof.
  intros (-> & Hl & Hcur) Hge Hout. replace (length cur) with 8%nat in Hcur by lia.
  fold (read_u64 (ptr_of o) base) in *. rewrite Hcur in Hout. fold (read_u64 (ptr_of o) base) in Hout.
  destruct w as [v|]; simpl.
  - exists v, []. by rewrite Hout.
  - unfold atomic_op. by rewrite Hout.
Qed.

Lemma inside_write o base m b todo ret :
  inside o base m (Writing (b :: todo) ret) →
  inside o base (<[ptr_of o + 8 - Z.of_nat (length (b :: todo)) := b]> m) (Writing todo ret).
Proof.
  intros (v & written & Hv & -> & Hout). exists v, (written ++ [b]).
  rewrite <- app_assoc. split_and!; [done| |done]. rewrite store_snoc. f_equal.
  pose proof (le_bytes_length 8 v) as Hl. rewrite Hv, length_app in Hl. lia.
Qed.

Lemma inside_write_end o base m ret :
  inside o base m (Writing [] ret) → inside o base m (Release ret).
Proof.
  intros (v & written & Hv & -> & Hout). rewrite app_nil_r in Hv. subst written.
  simpl. unfold atomic_op. by rewrite Hout.
Qed.

Lemma atomic_inv_step m0 i s s' : inv m0 s → step i s = Some s' → inv m0 s'.
Proof.
  intros Hinv Hs. pose proof Hinv as [Hlen (base & Hh & Hl) Hlog Hnd].
  unfold step in Hs. destruct (ops !! i) as [o|] eqn:Ho; [|done].
  destruct (pcs s !! i) as [p|] eqn:Hp; [|done].
  assert (¬ outside p → s8_lock s = 1 ∧ inside o base (mem s) p
    ∧ ∀ j q, j ≠ i → pcs s !! j = Some q → outside q) as Hhold by by eapply holder.
  assert (∀ p' m', (∀ ret, p ≠ Returned ret) → (∀ ret, p' ≠ Returned ret) → ¬ outside p →
    inside o base m' p' → inv m0 (mkSys (s8_lock s) m' (<[i := p']> (pcs s)) (log s))) as Hgo.
  { intros p' m' Hnr Hnr' Hin Hin'. destruct (Hhold Hin) as (-> & _ & Hout).
    eapply inv_move; try done. eapply locked_move; try done. }
  destruct p as [|cur|[|b todo] ret|ret|ret]; [| | | | |done].
  - destruct (s8_lock s =? 0) eqn:Hlk; injection Hs as <-; [|done]. bool_facts.
    destruct Hl as [(_ & Hm & Hout)|(? & _)]; [|lia].
    eapply inv_move; try done. eapply locked_move; [done|by rewrite Hp| |].
    + simpl. split_and!; [done|lia|done].
    + intros j q _. apply Hout.
  - destruct (Hhold ltac:(by intros [])) as (_ & Hin & _).
    destruct (length cur <? 8)%nat eqn:Hlt; bool_facts.
    + injection Hs as <-. apply Hgo; try done; try (by intros []). by apply inside_read.
    + destruct (outcome o (of_le cur)) as [ret w] eqn:Hout. injection Hs as <-.
      apply Hgo; try done; try (by intros []); [by destruct w|]. eapply inside_read_end; [done|lia|done].
  - injection Hs as <-. apply Hgo; try done; try (by intros []). apply inside_write_end. apply (Hhold ltac:(by intros [])).
  - injection Hs as <-. apply Hgo; try done; try (by intros []). apply inside_write. apply (Hhold ltac:(by intros [])).
  - injection Hs as <-. destruct (Hhold ltac:(by intros [])) as (_ & Hin & Hout). simpl in Hin.
    split; simpl; [by rewrite length_insert| | |].
    + exists (mem s). split; [by eapply history_snoc|]. left. split_and!; [done..|].
      intros j q Hq. simpl in Hq. destruct (decide (i = j)) as [<-|].
      * rewrite list_lookup_insert_eq in Hq by by eapply lookup_lt_Some. by injection Hq as <-.
      * rewrite list_lookup_insert_ne in Hq by done. by eapply Hout.
    + intros j r. rewrite elem_of_app, Hlog, list_elem_of_singleton.
      destruct (decide (i = j)) as [<-|].
      * rewrite Hp, list_lookup_insert_eq by by eapply lookup_lt_Some. naive_solver.
      * rewrite list_lookup_insert_ne by done. naive_solver.
    + rewrite fmap_app. apply NoDup_app. split; [done|]. split; [|apply NoDup_singleton].
      intros x ([j r] & Hx & Hjr)%list_elem_of_fmap Hi%list_elem_of_singleton.
      simpl in Hx, Hi. subst x j. apply Hlog in Hjr. congruence.
Qed.

Lemma atomic_inv_steps m0 sched s s' : inv m0 s → steps sched s = Some s' → inv m0 s'.
Proof.
  revert s. induction sched as [|i sched IH]; intros s Hinv; simpl; [by intros [= <-]|].
  intros (s1 & Hs1 & Hs)%bind_Some. eapply IH; [|done]. by eapply atomic_inv_step.
Qed.

(** ** The theorems *)

(** C35: the three operations are linearizable: in every reachable state in which
    the lock is free, the memory is the one the released calls produce when they
    run one after the other, each returning what it returned, in the order of
    their releases, which lie between their calls and their returns; each call is
    in that history exactly once. The byte copies of a call are never seen by
    another. *)
Theorem linearizable m0 sched s :
  steps sched (sys0 m0) = Some s →
  (s8_lock s = 0 → history m0 (log s) (mem s))
  ∧ (∀ i ret, (i, ret) ∈ log s ↔ pcs s !! i = Some (Returned ret))
  ∧ NoDup (log s).*1
  ∧ ∀ i j p q, pcs s !! i = Some p → pcs s !! j = Some q → ¬ outside p → ¬ outside q → i = j.
Proof.
  intros Hs. pose proof (atomic_inv_steps _ _ _ _ (atomic_inv_sys0 m0) Hs) as [Hlen (base & Hh & Hl) Hlog Hnd].
  split; [|split; [done|split; [done|]]].
  - intros Hlk. destruct Hl as [(_ & -> & _)|(? & _)]; [done|lia].
  - intros i j p q Hp Hq Hnp Hnq. destruct (lookup_lt_is_Some_2 ops i) as [o Ho].
    { rewrite <- Hlen. by eapply lookup_lt_Some. }
    destruct (holder _ _ _ _ _ Hl Ho Hp Hnp) as (_ & _ & Hout).
    destruct (decide (j = i)) as [->|Hne]; [done|]. by destruct (Hnq (Hout _ _ Hne Hq)).
Qed.

(** *** Progress *)

Definition rank (p : pc) : nat :=
  match p with
  | Acquire => 20
  | Reading cur => 19 - length cur
  | Writing todo _ => 2 + length todo
  | Release _ => 1
  | Returned _ => 0
  end.

Definition work (s : sys) : nat := sum_list (rank <$> pcs s).

Lemma sum_list_insert (l : list pc) i p p' :
  l !! i = Some p → (rank p' < rank p)%nat →
  (sum_list (rank <$> <[i := p']> l) < sum_list (rank <$> l))%nat.
Proof.
  revert i. induction l as [|x l IH]; intros [|i] Hp Hr; simplify_eq/=; [lia|].
  specialize (IH i Hp Hr). lia.
Qed.

(** A thread that is not spinning does some of its work. *)
Lemma step_work m0 s i o p :
  inv m0 s → ops !! i = Some o → pcs s !! i = Some p → (∀ ret, p ≠ Returned ret) →
  (p = Acquire → s8_lock s = 0) →
  ∃ s', step i s = Some s' ∧ (work s' < work s)%nat.
Proof.
  intros Hinv Ho Hp Hnr Hacq. unfold step, work. rewrite Ho, Hp.
  assert (∀ cur, p = Reading cur → (length cur ≤ 8)%nat) as Hcur.
  { intros cur ->. destruct (inv_base _ _ Hinv) as (base & _ & Hl).
    by destruct (holder _ _ _ _ _ Hl Ho Hp ltac:(by intros [])) as (_ & (_ & ? & _) & _). }
  destruct p as [|cur|[|b todo] ret|ret|ret].
  - rewrite Hacq by done. simpl. eexists. split; [done|]. simpl.
    eapply sum_list_insert; [done|]. simpl. lia.
  - destruct (length cur <? 8)%nat eqn:Hlt; bool_facts.
    + eexists. split; [done|]. simpl. eapply sum_list_insert; [done|].
      simpl. rewrite length_app. simpl. lia.
    + specialize (Hcur cur eq_refl). destruct (outcome o (of_le cur)) as [ret [v|]];
        (eexists; split; [done|]); cbn [pcs]; (eapply sum_list_insert; [done|]);
        cbn [rank]; rewrite ?le_bytes_length; lia.
  - eexists. split; [done|]. simpl. eapply sum_list_insert; [done|]. simpl. lia.
  - eexists. split; [done|]. simpl. eapply sum_list_insert; [done|]. simpl. lia.
  - eexists. split; [done|]. simpl. eapply sum_list_insert; [done|]. simpl. lia.
  - naive_solver.
Qed.

(** Someone can work until all have returned. *)
Lemma can_work m0 s :
  inv m0 s → (∀ i p, pcs s !! i = Some p → ∃ ret, p = Returned ret)
             ∨ ∃ i s', step i s = Some s' ∧ (work s' < work s)%nat.
Proof.
  intros Hinv. pose proof (inv_base _ _ Hinv) as (base & _ & Hl).
  destruct Hl as [(Hlk & _ & Hout)|(Hlk & i & o & p & Ho & Hp & Hin & _)].
  - destruct (decide (Exists (λ p, p = Acquire) (pcs s))) as [Hex|Hall].
    + right. apply Exists_exists in Hex as (p & [i Hp]%list_elem_of_lookup_1 & ->).
      destruct (lookup_lt_is_Some_2 ops i) as [o Ho].
      { rewrite <- (inv_len _ _ Hinv). by eapply lookup_lt_Some. }
      exists i. by eapply step_work.
    + left. intros i p Hp. pose proof (Hout i p Hp) as Ho. destruct p; try done; [|eauto].
      exfalso. apply Hall, Exists_exists. exists Acquire. split; [by eapply list_elem_of_lookup_2|done].
  - right. exists i. eapply step_work; try done; destruct p; done.
Qed.

Lemma rank_le m0 s i p : inv m0 s → pcs s !! i = Some p → (rank p ≤ 20)%nat.
Proof.
  intros Hinv Hp. destruct p as [|cur|todo ret|ret|ret]; simpl; try lia.
  destruct (inv_base _ _ Hinv) as (base & _ & Hl).
  destruct (lookup_lt_is_Some_2 ops i) as [o Ho].
  { rewrite <- (inv_len _ _ Hinv). by eapply lookup_lt_Some. }
  destruct (holder _ _ _ _ _ Hl Ho Hp ltac:(by intros [])) as (_ & (v & written & Hv & _) & _).
  pose proof (le_bytes_length 8 v) as Hlen. rewrite Hv, length_app in Hlen. lia.
Qed.

Lemma work_le m0 s : inv m0 s → (work s ≤ 20 * length ops)%nat.
Proof.
  intros Hinv. unfold work. rewrite <- (inv_len _ _ Hinv).
  assert (Forall (λ p, rank p ≤ 20)%nat (pcs s)) as Hr.
  { apply Forall_lookup. intros i p Hp. by eapply rank_le. }
  clear - Hr. revert Hr. generalize (pcs s) as l. intros l Hr.
  induction Hr as [|p l Hp _ IH]; [done|]. cbn [length].
  change (sum_list (rank <$> p :: l)) with (rank p + sum_list (rank <$> l))%nat. lia.
Qed.

Lemma all_return m0 s :
  inv m0 s →
  ∃ sched s', steps sched s = Some s' ∧ (length sched ≤ work s)%nat
    ∧ ∀ i p, pcs s' !! i = Some p → ∃ ret, p = Returned ret.
Proof.
  remember (work s) as n eqn:Hn. revert s Hn. induction n as [n IH] using lt_wf_ind.
  intros s Hn Hinv. destruct (can_work _ _ Hinv) as [Hall|(i & s1 & Hs1 & Hlt)].
  - exists [], s. split; [done|]. split; [simpl; lia|done].
  - destruct (IH (work s1)) with s1 as (sched & s' & Hrun & Hl & Hall);
      [lia|done|by eapply atomic_inv_step|].
    exists (i :: sched), s'. simpl. rewrite Hs1. split; [done|]. split; [lia|done].
Qed.

(** No deadlock: from every reachable state there is a schedule of at most
    twenty steps a thread after which every call has returned, and the memory and
    the results are then those of the calls made one after the other. (A spinning
    thread makes no progress by itself, but never keeps the holder from going
    on.) *)
Theorem calls_return m0 sched s :
  steps sched (sys0 m0) = Some s →
  ∃ sched' s', steps sched' s = Some s' ∧ (length sched' ≤ 20 * length ops)%nat
    ∧ (∀ i p, pcs s' !! i = Some p → ∃ ret, p = Returned ret)
    ∧ history m0 (log s') (mem s').
Proof.
  intros Hs. pose proof (atomic_inv_steps _ _ _ _ (atomic_inv_sys0 m0) Hs) as Hinv.
  destruct (all_return _ _ Hinv) as (sched' & s' & Hrun & Hl & Hall).
  pose proof (work_le _ _ Hinv). exists sched', s'. split; [done|]. split; [lia|]. split; [done|].
  destruct (inv_base _ _ (atomic_inv_steps _ _ _ _ Hinv Hrun)) as (base & Hh & Hlk).
  destruct Hlk as [(_ & -> & _)|(_ & i & o & p & _ & Hp & Hin & _)]; [done|].
  by destruct (Hall _ _ Hp) as [ret ->].
Qed.

(** *** A shared counter *)

(** What the calls of a history add to the word at [p]. *)
Definition added (h : list (nat * Z)) : Z :=
  foldr (λ x z, match ops !! x.1 with
                | Some (SyncFetchAndAdd _ v) | Some (SyncAddAndFetch _ v) => v + z
                | _ => z
                end) 0 h.

Definition adds_to (p : Z) (o : op) : Prop :=
  match o with
  | SyncFetchAndAdd ptr v | SyncAddAndFetch ptr v => ptr = p ∧ 0 <= v < 2 ^ 64
  | _ => False
  end.

Lemma added_snoc h i ret o :
  ops !! i = Some o →
  added (h ++ [(i, ret)]) = added h + match o with
    | SyncFetchAndAdd _ v | SyncAddAndFetch _ v => v | _ => 0 end.
Proof.
  intros Ho. unfold added. induction h as [|x h IH]; cbn [app foldr].
  - cbn [fst]. rewrite Ho. destruct o; lia.
  - rewrite IH. destruct (ops !! x.1) as [[]|]; lia.
Qed.

Lemma history_sum p m0 h m :
  Forall (adds_to p) ops → history m0 h m → 0 <= read_u64 p m0 < 2 ^ 64 →
  read_u64 p m = u64 (read_u64 p m0 + added h).
Proof.
  intros Hops Hh Hr. induction Hh as [|h m1 i o ret m2 _ IH Ho Hat].
  { unfold added, u64. simpl. rewrite Z.add_0_r, Z.mod_small; lia. }
  rewrite (added_snoc _ _ _ _ Ho). pose proof (Forall_lookup_1 _ _ _ _ Hops Ho) as Ha.
  unfold atomic_op in Hat. destruct o as [| |]; [done| |]; destruct Ha as [-> Hv]; cbn [outcome ptr_of] in Hat.
  all: apply (f_equal snd) in Hat; cbn [snd] in Hat; rewrite <- Hat, read_store, IH by (apply Z.mod_pos_bound; lia).
  all: unfold u64; rewrite Z.add_mod_idemp_l by lia; f_equal; lia.
Qed.
End threads.

(** ** Runs *)

(** Two threads add to a counter, the second starting while the first holds the
    lock. *)
Definition sample_ops : list op := [SyncFetchAndAdd 100 5; SyncAddAndFetch 100 7].
Definition sample_sched : list nat :=
  ([0; 1] ++ replicate 5 0 ++ [1] ++ replicate 14 0 ++ replicate 20 1)%nat.

Definition sample_end : sys := default (sys0 sample_ops ∅) (steps sample_ops sample_sched (sys0 sample_ops ∅)).

Example sample_ends :
  (pcs sample_end, log sample_end, read_u64 100 (mem sample_end))
  = ([Returned 0; Returned 12], [(0%nat, 0); (1%nat, 12)], 12).
Proof. vm_compute. reflexivity. Qed.

Lemma atomic_sample_steps : steps sample_ops sample_sched (sys0 sample_ops ∅) = Some sample_end.
Proof. vm_compute. reflexivity. Qed.

Lemma linearizable_witness : history sample_ops ∅ (log sample_end) (mem sample_end).
Proof.
  apply (linearizable sample_ops ∅ sample_sched sample_end atomic_sample_steps). vm_compute. reflexivity.
Defined.

Lemma calls_return_witness :
  ∃ sched' s', steps sample_ops sched' sample_end = Some s'
    ∧ (∀ i p, pcs s' !! i = Some p → ∃ ret, p = Returned ret).
Proof.
  destruct (calls_return sample_ops ∅ sample_sched sample_end atomic_sample_steps)
    as (sched' & s' & Hrun & _ & Hall & _).
  exists sched', s'. exact (conj Hrun Hall).
Defined.

