(* ===== verification/CloudflareCa.v ===== *)
(** * The embedded certificates

    [include/cfd/cloudflare_ca.hpp]: the constant that [embedded_ca_path]
    (src/tunnel/quic_client.cpp) writes to a file for the TLS library. The file
    reads it the way its reader does: the blocks of the PEM text, their base64
    bodies with the decoder of the repository, and the DER structure of what they
    decode to. *)
From S2P Require Import Prelude Config Registration.
Local Open Scope Z_scope.

(** ** The constant *)

(** The lines of the raw string, which starts and ends with a line break. *)
Definition pem_lines : list text :=
  [str "-----BEGIN CERTIFICATE-----";
   str "MIICiTCCAi6gAwIBAgIUXZP3MWb8MKwBE1Qbawsp1sfA/Y4wCgYIKoZIzj0EAwIw";
   str "gY8xCzAJBgNVBAYTAlVTMRMwEQYDVQQIEwpDYWxpZm9ybmlhMRYwFAYDVQQHEw1T";
   str "YW4gRnJhbmNpc2NvMRkwFwYDVQQKExBDbG91ZEZsYXJlLCBJbmMuMTgwNgYDVQQL";
   str "Ey9DbG91ZEZsYXJlIE9yaWdpbiBTU0wgRUNDIENlcnRpZmljYXRlIEF1dGhvcml0";
   str "eTAeFw0xOTA4MjMyMTA4MDBaFw0yOTA4MTUxNzAwMDBaMIGPMQswCQYDVQQGEwJV";
   str "UzETMBEGA1UECBMKQ2FsaWZvcm5pYTEWMBQGA1UEBxMNU2FuIEZyYW5jaXNjbzEZ";
   str "MBcGA1UEChMQQ2xvdWRGbGFyZSwgSW5jLjE4MDYGA1UECxMvQ2xvdWRGbGFyZSBP";
   str "cmlnaW4gU1NMIEVDQyBDZXJ0aWZpY2F0ZSBBdXRob3JpdHkwWTATBgcqhkjOPQIB";
   str "BggqhkjOPQMBBwNCAASR+sGALuaGshnUbcxKry+0LEXZ4NY6JUAtSeA6g87K3jaA";
   str "xpIg9G50PokpfWkhbarLfpcZu0UAoYy2su0EhN7wo2YwZDAOBgNVHQ8BAf8EBAMC";
   str "AQYwEgYDVR0TAQH/BAgwBgEB/wIBAjAdBgNVHQ4EFgQUhTBdOypw1O3VkmcH/es5";
   str "tBoOOKcwHwYDVR0jBBgwFoAUhTBdOypw1O3VkmcH/es5tBoOOKcwCgYIKoZIzj0E";
   str "AwIDSQAwRgIhAKilfntP2ILGZjwajktkBtXE1pB4Y/fjAfLkIRUzrI15AiEA5UCL";
   str "XYZZ9m2c3fKwIenMMojL1eqydsgqj/wK4p5kagQ=";
   str "-----END CERTIFICATE-----";
   str "-----BEGIN CERTIFICATE-----";
   str "MIIEADCCAuigAwIBAgIID+rOSdTGfGcwDQYJKoZIhvcNAQELBQAwgYsxCzAJBgNV";
   str "BAYTAlVTMRkwFwYDVQQKExBDbG91ZEZsYXJlLCBJbmMuMTQwMgYDVQQLEytDbG91";
   str "ZEZsYXJlIE9yaWdpbiBTU0wgQ2VydGlmaWNhdGUgQXV0aG9yaXR5MRYwFAYDVQQH";
   str "Ew1TYW4gRnJhbmNpc2NvMRMwEQYDVQQIEwpDYWxpZm9ybmlhMB4XDTE5MDgyMzIx";
   str "MDgwMFoXDTI5MDgxNTE3MDAwMFowgYsxCzAJBgNVBAYTAlVTMRkwFwYDVQQKExBD";
   str "bG91ZEZsYXJlLCBJbmMuMTQwMgYDVQQLEytDbG91ZEZsYXJlIE9yaWdpbiBTU0wg";
   str "Q2VydGlmaWNhdGUgQXV0aG9yaXR5MRYwFAYDVQQHEw1TYW4gRnJhbmNpc2NvMRMw";
   str "EQYDVQQIEwpDYWxpZm9ybmlhMIIBIjANBgkqhkiG9w0BAQEFAAOCAQ8AMIIBCgKC";
   str "AQEAwEiVZ/UoQpHmFsHvk5isBxRehukP8DG9JhFev3WZtG76WoTthvLJFRKFCHXm";
   str "V6Z5/66Z4S09mgsUuFwvJzMnE6Ej6yIsYNCb9r9QORa8BdhrkNn6kdTly3mdnykb";
   str "OomnwbUfLlExVgNdlP0XoRoeMwbQ4598foiHblO2B/LKuNfJzAMfS7oZe34b+vLB";
   str "yrP/1bgCSLdc1AxQc1AC0EsQQhgcyTJNgnG4va1c7ogPlwKyhbDyZ4e59N5lbYPJ";
   str "SmXI/cAe3jXj1FBLJZkwnoDKe0v13xeF+nF32smSH0qB7aJX2tBMW4TWtFPmzs5I";
   str "lwrFSySWAdwYdgxw180yKU0dvwIDAQABo2YwZDAOBgNVHQ8BAf8EBAMCAQYwEgYD";
   str "VR0TAQH/BAgwBgEB/wIBAjAdBgNVHQ4EFgQUJOhTV118NECHqeuU27rhFnj8KaQw";
   str "HwYDVR0jBBgwFoAUJOhTV118NECHqeuU27rhFnj8KaQwDQYJKoZIhvcNAQELBQAD";
   str "ggEBAHwOf9Ur1l0Ar5vFE6PNrZWrDfQIMyEfdgSKofCdTckbqXNTiXdgbHs+TWoQ";
   str "wAB0pfJDAHJDXOTCWRyTeXOseeOi5Btj5CnEuw3P0oXqdqevM1/+uWp0CM35zgZ8";
   str "VD4aITxity0djzE6Qnx3Syzz+ZkoBgTnNum7d9A66/V636x4vTeqbZFBr9erJzgz";
   str "hhurjcoacvRNhnjtDRM0dPeiCJ50CP3wEYuvUzDHUaowOsnLCjQIkWbR7Ni6KEIk";
   str "MOz2U0OBSif3FTkhCgZWQKOOLo1P42jHC3ssUZAtVNXrCk3fw9/E15k8NPkBazZ6";
   str "0iykLhH1trywrKRMVw67F44IE8Y=";
   str "-----END CERTIFICATE-----"].

Definition kCloudflareCAPem : text := newline :: join newline pem_lines ++ [newline].

(** ** PEM *)

Definition pem_begin : text := str "-----BEGIN CERTIFICATE-----".
Definition pem_end : text := str "-----END CERTIFICATE-----".

(** The bodies of the blocks, the line breaks removed; [None] when a block is not
    closed, or there is something else between them. *)
Fixpoint pem_blocks (lines : list text) (open_ : option text) : option (list text) :=
  match lines, open_ with
  | [], None => Some []
  | [], Some _ => None
  | l :: ls, None =>
      if bool_decide (l = []) then pem_blocks ls None
      else if bool_decide (l = pem_begin) then pem_blocks ls (Some [])
      else None
  | l :: ls, Some body =>
      if bool_decide (l = pem_end) then cons body <$> pem_blocks ls None
      else pem_blocks ls (Some (body ++ l))
  end.

Definition pem_bodies (s : text) : option (list text) := pem_blocks (split_on newline s) None.

(** ** DER *)

(** An element: bytes, or elements when its tag says it is constructed. *)
Inductive der :=
| Prim (tag : Z) (content : list Z)
| Cons (tag : Z) (items : list der).

(** The length octets: one below 128, otherwise their number and big-endian
    octets, without a leading zero. *)
Definition der_length (bs : list Z) : option (nat * list Z) :=
  match bs with
  | b :: bs' =>
      if b <? 128 then Some (Z.to_nat b, bs')
      else
        let n := Z.to_nat (b - 128) in
        let v := foldl (λ v x, 256 * v + x) 0 (take n bs') in
        if (n =? 0)%nat || (length bs' <? n)%nat || (v <? 128) || (nth 0 bs' 0 =? 0) then None
        else Some (Z.to_nat v, drop n bs')
  | [] => None
  end.

(** The elements of a sequence of octets; the fuel bounds their number and depth
    together. *)
Fixpoint der_items (fuel : nat) (bs : list Z) : option (list der) :=
  match fuel, bs with
  | _, [] => Some []
  | O, _ => None
  | S fuel', tag :: bs' =>
      p ← der_length bs';
      let '(n, rest) := p in
      if (length rest <? n)%nat then None
      else
        tl ← der_items fuel' (drop n rest);
        if Z.testbit tag 5 then
          items ← der_items fuel' (take n rest); Some (Cons tag items :: tl)
        else Some (Prim tag (take n rest) :: tl)
  end.

Definition der_parse (bs : list Z) : option der :=
  match der_items (length bs) bs with Some [d] => Some d | _ => None end.

(** Its encoding. *)
Definition encode_length (n : nat) : list Z :=
  let v := Z.of_nat n in
  if v <? 128 then [v]
  else if v <? 256 then [129; v]
  else [130; v / 256; v mod 256].

Fixpoint der_encode (d : der) : list Z :=
  match d with
  | Prim tag bs => tag :: encode_length (length bs) ++ bs
  | Cons tag items =>
      let bs := (fix go l := match l with [] => [] | x :: l' => der_encode x ++ go l' end) items in
      tag :: encode_length (length bs) ++ bs
  end.

(** ** Certificates *)

(** The parts of an X.509 certificate that decide what it is good for. *)
Record certificate := mkCertificate {
  c_serial : list Z;
  c_issuer : der;
  c_not_before : list Z;
  c_not_after : list Z;
  c_subject : der;
  c_extensions : list der;
}.

Definition certificate_of (d : der) : option certificate :=
  match d with
  | Cons 0x30 [Cons 0x30 [Cons 0xa0 [Prim 2 [2]]; Prim 2 serial; alg; issuer;
                          Cons 0x30 [Prim 0x17 nb; Prim 0x17 na]; subject; Cons 0x30 _;
                          Cons 0xa3 [Cons 0x30 exts]]; alg'; Prim 3 _] =>
      Some (mkCertificate serial issuer nb na subject exts)
  | _ => None
  end.

(** [basicConstraints], critical, with [cA] set; [keyUsage], critical, with the
    signing of certificates. *)
Definition basic_constraints (e : der) : bool :=
  match e with
  | Cons 0x30 [Prim 6 [0x55; 0x1d; 0x13]; Prim 1 [0xff]; Prim 4 bs] =>
      match der_parse bs with Some (Cons 0x30 (Prim 1 [0xff] :: _)) => true | _ => false end
  | _ => false
  end.

Definition key_cert_sign (e : der) : bool :=
  match e with
  | Cons 0x30 [Prim 6 [0x55; 0x1d; 0x0f]; Prim 1 [0xff]; Prim 4 bs] =>
      match der_parse bs with Some (Prim 3 [_; usage]) => Z.testbit usage 2 | _ => false end
  | _ => false
  end.

(** The text of a date. *)
Definition utc (s : string) : list Z := code <$> str s.

(** A certificate of an authority, signed by itself, in its DER form. *)
Definition authority (bs : list Z) (c : certificate) : Prop :=
  ∃ d, der_parse bs = Some d ∧ der_encode d = bs ∧ certificate_of d = Some c
    ∧ der_encode (c_issuer c) = der_encode (c_subject c)
    ∧ existsb basic_constraints (c_extensions c) = true
    ∧ existsb key_cert_sign (c_extensions c) = true.

Definition authorityb (bs : list Z) : bool :=
  match der_parse bs with
  | Some d =>
      bool_decide (der_encode d = bs)
      && match certificate_of d with
         | Some c =>
             bool_decide (der_encode (c_issuer c) = der_encode (c_subject c))
             && existsb basic_constraints (c_extensions c)
             && existsb key_cert_sign (c_extensions c)
             && bool_decide (c_not_before c = utc "190823210800Z")
             && bool_decide (c_not_after c = utc "290815170000Z")
         | None => false
         end
  | None => false
  end.

Lemma authorityb_spec bs :
  authorityb bs = true →
  ∃ c, authority bs c ∧ c_not_before c = utc "190823210800Z" ∧ c_not_after c = utc "290815170000Z".
Proof.
  unfold authorityb, authority. destruct (der_parse bs) as [d|]; [|done]. intros Ha.
  apply andb_true_iff in Ha as [Hd Ha]. destruct (certificate_of d) as [c|] eqn:Hc; [|done].
  bool_facts. exists c. split; [exists d|]; auto 10.
Qed.

(** What is checked of each block by computing. *)
Definition body_ok (body : text) : bool :=
  let r := base64_decode body [] in r.1 && authorityb r.2.

Lemma bodies_ok :
  match pem_bodies kCloudflareCAPem with
  | Some bodies => bool_decide (NoDup bodies) && (length bodies =? 2)%nat && forallb body_ok bodies
  | None => false
  end = true.
Proof. by vm_compute. Qed.

(** The embedded bundle is what its comment says: two certificates and nothing
    else, each of which the base64 decoder of the repository accepts, and decodes
    to the canonical DER form of one X.509 certificate: an authority, signed by
    itself, allowed to sign certificates, and valid until 15 August 2029. A typo in
    a line of the constant breaks the lengths or the structure. *)
Theorem embedded_certificates :
  ∃ bodies, pem_bodies kCloudflareCAPem = Some bodies ∧ length bodies = 2%nat ∧ NoDup bodies
    ∧ ∀ body, body ∈ bodies →
        ∃ bs c, base64_decode body [] = (true, bs) ∧ authority bs c
          ∧ c_not_before c = utc "190823210800Z" ∧ c_not_after c = utc "290815170000Z".
Proof.
  pose proof bodies_ok as Hok. destruct (pem_bodies kCloudflareCAPem) as [bodies|]; [|done].
  apply andb_true_iff in Hok as [Hok Hall]. bool_facts. exists bodies. split_and!; try done.
  intros body Hb. rewrite forallb_forall in Hall.
  specialize (Hall body (proj1 (list_elem_of_In _ _) Hb)). unfold body_ok in Hall.
  destruct (base64_decode body []) as [ok bs]. apply andb_true_iff in Hall as [Hk Ha]. simpl in Hk, Ha.
  subst ok. destruct (authorityb_spec bs Ha) as (c & Hc & Hd). by exists bs, c.
Qed.
