(* ===== verification/Log.v ===== *)
(** * Logging

    [src/log.cpp] and [include/cfd/log.hpp]: the level, the macro that compares
    with it, and [emit], which writes a line in three calls under a mutex. The
    formatted message and the time stamp are inputs: [printf] and the clock belong
    to the library. *)
From S2P Require Import Prelude Config.
Local Open Scope Z_scope.

(** ** Levels *)

Inductive Level := Trace | Debug | Info | Warn | Error.

#[export] Instance Level_eq_dec : EqDecision Level.
Proof. solve_decision. Defined.

(** [static_cast<int>(lvl)] *)
Definition level_int (l : Level) : Z :=
  match l with Trace => 0 | Debug => 1 | Info => 2 | Warn => 3 | Error => 4 end.

Definition level_str (l : Level) : text :=
  match l with
  | Trace => str "TRACE"
  | Debug => str "DEBUG"
  | Info => str "INFO "
  | Warn => str "WARN "
  | Error => str "ERROR"
  end.

(** The test of [CFD_LOG]. *)
Definition enabled (lvl g_level : Level) : bool := level_int g_level <=? level_int lvl.

(** ** [emit] *)

(** [std::strrchr(file, c)]: what follows the last [c]. *)
Fixpoint after_last (c : ascii) (s : text) : option text :=
  match s with
  | [] => None
  | x :: s' =>
      match after_last c s' with
      | Some r => Some r
      | None => if bool_decide (x = c) then Some s' else None
      end
  end.

Definition slash : ascii := "/"%char.

Definition basename (file : text) : text :=
  match after_last slash file with Some base => base | None => file end.

(** A use of the macro: its level, [__FILE__] and [__LINE__], the time stamp and the
    formatted message. *)
Record log_call := mkLogCall {
  lc_level : Level;
  lc_file : text;
  lc_line : Z;
  lc_time : text;
  lc_msg : text;
}.

(** The three writes of a call. *)
Definition header (c : log_call) : text :=
  lc_time c ++ str " " ++ level_str (lc_level c) ++ str " " ++ basename (lc_file c) ++ str ":"
  ++ dec_of (lc_line c) ++ str "  ".

Definition pieces (c : log_call) : list text := [header c; lc_msg c; [newline]].

Definition line (c : log_call) : text := concat (pieces c).

(** ** Threads *)

(** The calls a thread still makes, and the one it is in: [Some (c, k)] before the
    lock for [k = None], with [k] pieces written for [Some k]. *)
Record thread := mkThread { todo : list log_call; current : option (log_call * option nat) }.

(** The level, the holder of [g_mu], what is on [stderr], the threads, and the calls
    whose line is complete. *)
Record sys := mkSys {
  g_level : Level;
  g_mu : option nat;
  out : text;
  threads : list thread;
  complete : list log_call;
}.

Inductive event := SetLevel (l : Level) | Run (i : nat).

Definition step (e : event) (s : sys) : option sys :=
  match e with
  | SetLevel l => Some (mkSys l (g_mu s) (out s) (threads s) (complete s))
  | Run i =>
      t ← threads s !! i;
      let go t' := <[i := t']> (threads s) in
      match current t with
      | None =>
          match todo t with
          | [] => None
          | c :: cs =>
              let cur := if enabled (lc_level c) (g_level s) then Some (c, None) else None in
              Some (mkSys (g_level s) (g_mu s) (out s) (go (mkThread cs cur)) (complete s))
          end
      | Some (c, None) =>
          match g_mu s with
          | Some _ => None
          | None =>
              Some (mkSys (g_level s) (Some i) (out s) (go (mkThread (todo t) (Some (c, Some 0%nat))))
                      (complete s))
          end
      | Some (c, Some k) =>
          match pieces c !! k with
          | Some p =>
              Some (mkSys (g_level s) (g_mu s) (out s ++ p)
                      (go (mkThread (todo t) (Some (c, Some (S k))))) (complete s))
          | None =>
              Some (mkSys (g_level s) None (out s) (go (mkThread (todo t) None))
                      (complete s ++ [c]))
          end
      end
  end.

Fixpoint steps (es : list event) (s : sys) : option sys :=
  match es with
  | [] => Some s
  | e :: es' => s' ← step e s; steps es' s'
  end.

Definition sys0 (l : Level) (progs : list (list log_call)) : sys :=
  mkSys l None [] ((λ cs, mkThread cs None) <$> progs) [].

(** ** The invariant *)

(** The output is the complete lines, and the pieces the holder has written. *)
Definition output_ok (s : sys) : Prop :=
  match g_mu s with
  | None => out s = complete s ≫= line
  | Some i =>
      ∃ t c k, threads s !! i = Some t ∧ current t = Some (c, Some k) ∧ (k ≤ 3)%nat
        ∧ out s = (complete s ≫= line) ++ concat (take k (pieces c))
  end.

Record inv (s : sys) : Prop := {
  inv_out : output_ok s;
  inv_holder i t c k : threads s !! i = Some t → current t = Some (c, Some k) → g_mu s = Some i;
}.

Lemma log_inv_sys0 l progs : inv (sys0 l progs).
Proof.
  split; [done|]. intros i t c k. simpl. rewrite list_lookup_fmap.
  intros (cs & _ & ->)%fmap_Some Hc. done.
Qed.

(** A thread that moves without the lock. *)
Lemma inv_unlocked s i t' l :
  inv s → g_mu s ≠ Some i → (∀ c k, current t' ≠ Some (c, Some k)) →
  inv (mkSys l (g_mu s) (out s) (<[i := t']> (threads s)) (complete s)).
Proof.
  intros [Hout Hh] Hmu Ht. split.
  - unfold output_ok in *. simpl. destruct (g_mu s) as [j|]; [|done].
    destruct Hout as (t & c & k & Hj & Hout). exists t, c, k.
    rewrite list_lookup_insert_ne by congruence. done.
  - intros j t c k. simpl. rewrite list_lookup_insert_Some.
    intros [(<- & <- & _)|[_ Hj]] Hc; [by destruct (Ht c k)|]. by eapply Hh.
Qed.

Lemma log_inv_step e s s' : inv s → step e s = Some s' → inv s'.
Proof.
  intros Hinv Hs. destruct e as [l|i]; simpl in Hs.
  { injection Hs as <-. destruct Hinv. by split. }
  destruct (threads s !! i) as [t|] eqn:Ht; [|done]. cbn [mbind option_bind] in Hs.
  pose proof (lookup_lt_Some _ _ _ Ht) as Hlt. pose proof Hinv as [Hout Hh].
  destruct (current t) as [[c [k|]]|] eqn:Hc.
  - pose proof (Hh _ _ _ _ Ht Hc) as Hmu. unfold output_ok in Hout. rewrite Hmu in Hout.
    destruct Hout as (t0 & c0 & k0 & Ht0 & Hc0 & Hk & Hout).
    rewrite Ht in Ht0. injection Ht0 as <-. rewrite Hc in Hc0. injection Hc0 as <- <-.
    destruct (pieces c !! k) as [p|] eqn:Hp; injection Hs as <-.
    + split; simpl.
      * unfold output_ok. simpl. rewrite Hmu. eexists _, c, (S k).
        split; [by apply list_lookup_insert_eq|]. split; [done|].
        split; [by apply lookup_lt_Some in Hp|].
        rewrite Hout, (take_S_r _ _ _ Hp), <- app_assoc. f_equal.
        rewrite concat_app. simpl. by rewrite app_nil_r.
      * intros j u d n. rewrite list_lookup_insert_Some.
        intros [(<- & <- & _)|[_ Hj]] Hd; [done|]. by eapply Hh.
    + apply lookup_ge_None in Hp. simpl in Hp. split; simpl.
      * unfold output_ok. simpl. rewrite bind_app, Hout. f_equal.
        rewrite take_ge by (simpl; lia). cbn [mbind list_bind]. by rewrite app_nil_r.
      * intros j u d n. rewrite list_lookup_insert_Some.
        intros [(<- & <- & _)|[Hne Hj]] Hd; [done|]. pose proof (Hh _ _ _ _ Hj Hd). congruence.
  - destruct (g_mu s) eqn:Hmu; [done|]. injection Hs as <-. unfold output_ok in Hout.
    rewrite Hmu in Hout. split; simpl.
    + unfold output_ok. simpl. eexists _, c, 0%nat.
      split; [by apply list_lookup_insert_eq|]. split; [done|]. split; [lia|].
      by rewrite Hout, app_nil_r.
    + intros j u d n. rewrite list_lookup_insert_Some.
      intros [(<- & <- & _)|[_ Hj]] Hd; [done|]. pose proof (Hh _ _ _ _ Hj Hd). congruence.
  - destruct (todo t) as [|c cs]; [done|]. injection Hs as <-.
    apply inv_unlocked; [done| |by destruct (enabled _ _)].
    intros Hmu. unfold output_ok in Hout. rewrite Hmu in Hout.
    destruct Hout as (t0 & c0 & k0 & Ht0 & Hc0 & _). congruence.
Qed.

Lemma log_inv_steps es s s' : inv s → steps es s = Some s' → inv s'.
Proof.
  revert s. induction es as [|e es IH]; intros s Hinv; simpl; [by intros [= <-]|].
  intros (s1 & Hs1 & Hs)%bind_Some. eapply IH; [|done]. by eapply log_inv_step.
Qed.

(** ** Nothing is lost *)

Section level.
Context (l : Level).

Definition wanted (c : log_call) : Prop := enabled (lc_level c) l = true.

#[export] Instance wanted_dec c : Decision (wanted c).
Proof. unfold wanted. apply _. Defined.

(** What a thread has still to write. *)
Definition rest (t : thread) : list log_call :=
  match current t with Some (c, _) => [c] | None => [] end ++ filter wanted (todo t).

Lemma rest_insert (ts : list thread) i t t' :
  ts !! i = Some t →
  ∃ before after, ts ≫= rest = before ++ rest t ++ after
    ∧ <[i := t']> ts ≫= rest = before ++ rest t' ++ after.
Proof.
  intros Ht. exists (take i ts ≫= rest), (drop (S i) ts ≫= rest).
  pose proof (lookup_lt_Some _ _ _ Ht) as Hlt. split.
  - rewrite <- (take_drop_middle _ _ _ Ht) at 1. by rewrite bind_app, bind_cons.
  - rewrite insert_take_drop by done. by rewrite bind_app, bind_cons.
Qed.

Lemma step_kept i s s' :
  g_level s = l → step (Run i) s = Some s' →
  g_level s' = l ∧ complete s' ++ (threads s' ≫= rest) ≡ₚ complete s ++ (threads s ≫= rest).
Proof.
  intros Hl Hs. simpl in Hs. destruct (threads s !! i) as [t|] eqn:Ht; [|done].
  cbn [mbind option_bind] in Hs.
  assert (∀ t', ∃ before after, threads s ≫= rest = before ++ rest t ++ after
    ∧ <[i := t']> (threads s) ≫= rest = before ++ rest t' ++ after) as Hr
    by (intros t'; by apply rest_insert).
  destruct (current t) as [[c [k|]]|] eqn:Hc.
  - destruct (pieces c !! k) as [p|]; injection Hs as <-; (split; [done|]); simpl.
    + edestruct Hr as (b & a & -> & ->). unfold rest. simpl. by rewrite Hc.
    + edestruct Hr as (b & a & -> & ->). unfold rest. simpl. rewrite Hc.
      rewrite <- app_assoc. apply Permutation_app_head. simpl. by rewrite Permutation_middle.
  - destruct (g_mu s); [done|]. injection Hs as <-. split; [done|]. simpl.
    edestruct Hr as (b & a & -> & ->). unfold rest. simpl. by rewrite Hc.
  - destruct (todo t) as [|c cs] eqn:Htodo; [done|]. injection Hs as <-. split; [done|]. simpl.
    edestruct Hr as (b & a & -> & ->). unfold rest. simpl. rewrite Hc, Htodo, Hl, filter_cons.
    destruct (decide (wanted c)) as [Hw|Hw]; unfold wanted in Hw.
    + by rewrite Hw.
    + by rewrite (not_true_is_false _ Hw).
Qed.

Lemma steps_kept es s s' :
  Forall (λ e, ∀ l', e ≠ SetLevel l') es → g_level s = l → steps es s = Some s' →
  complete s' ++ (threads s' ≫= rest) ≡ₚ complete s ++ (threads s ≫= rest).
Proof.
  intros Hes. revert s. induction Hes as [|e es He Hes IH]; intros s Hl; simpl; [by intros [= <-]|].
  intros (s1 & Hs1 & Hs)%bind_Some. destruct e as [l'|i]; [by destruct (He l')|].
  destruct (step_kept _ _ _ Hl Hs1) as [Hl1 Hp]. rewrite <- Hp. by apply IH.
Qed.

Lemma rest_progs progs :
  ((λ cs, mkThread cs None) <$> progs) ≫= rest = filter wanted (concat progs).
Proof.
  induction progs as [|cs progs IH]; [done|].
  rewrite fmap_cons, bind_cons, IH. simpl. by rewrite filter_app.
Qed.

(** Log lines of concurrent threads never mix: whatever the interleaving, and
    whatever the level is set to meanwhile, the output is a sequence of whole
    lines, followed by at most the beginning of one, whose writer holds the
    mutex; and if the level stays, then when the threads are done the lines are
    exactly those of the calls at or above it, each once. *)
Theorem log_lines_whole progs es s :
  steps es (sys0 l progs) = Some s →
  (∃ part, out s = (complete s ≫= line) ++ part
     ∧ (part = [] ∨ ∃ i c, g_mu s = Some i ∧ part `prefix_of` line c))
  ∧ (Forall (λ e, ∀ l', e ≠ SetLevel l') es →
     (∀ t, t ∈ threads s → todo t = [] ∧ current t = None) →
     complete s ≡ₚ filter wanted (concat progs)).
Proof.
  intros Hs. pose proof (log_inv_steps _ _ _ (log_inv_sys0 l progs) Hs) as [Hout _]. split.
  - unfold output_ok in Hout. destruct (g_mu s) as [i|].
    + destruct Hout as (t & c & k & _ & _ & _ & ->). eexists. split; [done|]. right. exists i, c.
      split; [done|]. exists (concat (drop k (pieces c))).
      unfold line. by rewrite <- concat_app, take_drop.
    + exists []. rewrite app_nil_r. auto.
  - intros Hes Hdone. pose proof (steps_kept _ (sys0 l progs) _ Hes eq_refl Hs) as Hp. simpl in Hp.
    rewrite rest_progs in Hp. rewrite <- Hp.
    assert (threads s ≫= rest = []) as ->; [|by rewrite app_nil_r].
    clear - Hdone. induction (threads s) as [|t ts IH]; [done|].
    rewrite bind_cons, IH by (intros; apply Hdone; by apply list_elem_of_further).
    destruct (Hdone t) as [Htd Hcur]; [apply list_elem_of_here|]. unfold rest. by rewrite Htd, Hcur.
Qed.
End level.

(** ** [basename] *)

Lemma after_last_spec c s :
  match after_last c s with
  | Some r => (∃ d, s = d ++ c :: r) ∧ c ∉ r
  | None => c ∉ s
  end.
Proof.
  induction s as [|x s IH]; simpl; [apply not_elem_of_nil|].
  destruct (after_last c s) as [r|].
  - destruct IH as [[d ->] Hr]. split; [|done]. by exists (x :: d).
  - case_bool_decide as Hx.
    + subst x. split; [by exists []|done].
    + apply not_elem_of_cons. split; [congruence|done].
Qed.

(** The file name of a line is the last component of the path: what follows the
    last slash, and the whole path when it has none. *)
Theorem basename_spec file :
  slash ∉ basename file
  ∧ (slash ∉ file → basename file = file)
  ∧ (slash ∈ file → ∃ dir, file = dir ++ slash :: basename file).
Proof.
  unfold basename. pose proof (after_last_spec slash file) as Hs.
  destruct (after_last slash file) as [r|].
  - destruct Hs as [[d ->] Hr]. split; [done|]. split; [|by exists d].
    intros Hn. destruct Hn. apply elem_of_app. right. apply list_elem_of_here.
  - done.
Qed.

(** ** A run *)

Definition sample_call (m : string) : log_call :=
  mkLogCall Info (str "src/main.cpp") 7 (str "T") (str m).
Definition sample_progs : list (list log_call) :=
  [[sample_call "a"; mkLogCall Debug (str "x") 1 (str "T") (str "no")]; [sample_call "b"]].

(** The second thread waits for the mutex while the first writes. *)
Definition sample_events : list event :=
  [Run 0; Run 1; Run 0; Run 0; Run 0; Run 0; Run 0; Run 1; Run 1; Run 1; Run 1; Run 1; Run 0]%nat.

Definition sample_end : sys := default (sys0 Info []) (steps sample_events (sys0 Info sample_progs)).

Lemma log_sample_steps : steps sample_events (sys0 Info sample_progs) = Some sample_end.
Proof. by vm_compute. Qed.

Lemma log_lines_whole_witness :
  out sample_end = str "T INFO  main.cpp:7  a" ++ [newline] ++ str "T INFO  main.cpp:7  b" ++ [newline]
  ∧ complete sample_end ≡ₚ filter (wanted Info) (concat sample_progs).
Proof.
  split; [by vm_compute|].
  apply (log_lines_whole Info sample_progs sample_events sample_end log_sample_steps).
  - repeat (apply Forall_cons; split); try apply Forall_nil; done.
  - apply Forall_forall. vm_compute. repeat (apply Forall_cons; split); try apply Forall_nil; done.
Defined.
