(* ===== verification/Fuzz.v ===== *)
(** * The fuzz targets

    [src/fuzz/fuzz_cidr.cpp], [fuzz_frame.cpp] and [fuzz_registration.cpp]: three
    functions that feed arbitrary bytes to the parsers, the trie and the decoder.
    What the fuzzer looks for by trying inputs is shown here for all of them. *)
From S2P Require Import Prelude Cidr Frame Registration Lpm LpmHeap InetModel.
Local Open Scope Z_scope.
Local Open Scope cfd_scope.

(** [reinterpret_cast<const char*>(data)] *)
Definition chars (data : list Z) : text := (λ b, ascii_of_N (Z.to_N b)) <$> data.

(** [std::memcpy(dst.data(), data + off, n)]: both ranges have to exist. *)
Definition copy_from (data : list Z) (off n : nat) (dst : list Z) : run (list Z) :=
  if (off + n <=? length data)%nat then run_opt (memcpy_at 0 (take n (drop off data)) dst) else UB.

Section fuzz.
Context `{Inet} `{Allocator}.

(** The result, and the nodes that are left at the end. An insertion that throws
    ends the harness, its trie destroyed. *)
Definition fuzz_cidr (data : list Z) (m : mem (T := Z)) : run (option Z * mem (T := Z)) :=
  let size := length data in
  if (size <? 8)%nat then Done (Some 0, m)
  else
    let mid := (size / 2)%nat in
    match Cidr_parse (chars (take mid data)) with
    | None => Done (Some 0, m)
    | Some c =>
        let m := ctor 0 m in
        let! r := LpmHeap.insert 0 0 c 1 m in
        if negb r.2 then let! m := dtor 0 r.1 in Done (None, m)
        else
          let! d := run_opt (data !! mid) in
          let f := if Z.land d 1 =? 0 then V4 else V6 in
          let copy := match f with V4 => 4%nat | V6 => 16%nat end in
          let avail := (size - mid - 1)%nat in
          let! bs := copy_from data (mid + 1) (copy `min` avail) zero16 in
          let probe := mkIpAddr f bs in
          let! _ := LpmHeap.lookup 0 probe r.1 in
          let! _ := Cidr_contains c probe in
          let! m := dtor 0 r.1 in
          Done (Some 0, m)
    end.
End fuzz.

Definition fuzz_frame (data : list Z) : run Z :=
  let r := decode data (mkDecodeResult (mkFrameType 0) 0 []) in Done 0.

Definition fuzz_registration (data : list Z) : run Z :=
  let s := chars data in
  let r := base64_decode s [] in
  let! u := parse_uuid s (replicate 16 0) in
  Done 0.

(** ** Lemmas *)

Lemma copy_from_ok data off n dst :
  (off + n ≤ length data)%nat → (n ≤ length dst)%nat →
  copy_from data off n dst = Done (take n (drop off data) ++ drop n dst).
Proof.
  intros Hd Hn. unfold copy_from. rewrite (proj2 (Nat.leb_le _ _)) by done.
  assert (length (take n (drop off data)) = n) as Hl by (rewrite length_take, length_drop; lia).
  rewrite memcpy_at_Some by lia. simpl. by rewrite Hl.
Qed.

Abbreviation tables T := (gmap nat (list (Cidr * T))).

Section fuzz_spec.
Context `{InetLaws} `{Allocator}.

(** No input makes the harness of the blocks and the trie fail: for any bytes
    that the fuzzer can pass, and any allocator, every read of the input is inside
    it, the copy stays within the address, the trie is used safely, the two
    comparisons are defined, and nothing is leaked; with 129 allocations to spare
    nothing throws either. *)
Theorem fuzz_cidr_safe data n :
  bytes_ok data →
  ∃ r m, fuzz_cidr data (empty_mem n) = Done (r, m) ∧ nodes m = ∅ ∧ ((129 ≤ n)%nat → r = Some 0).
Proof.
  intros Hb. unfold fuzz_cidr. destruct (length data <? 8)%nat eqn:Hsize; bool_facts.
  { by eexists _, _. }
  destruct (Cidr_parse (chars (take (length data / 2) data))) as [c|] eqn:Hc; [|by eexists _, _].
  apply Cidr_parse_ok in Hc.
  destruct (ctor_sim _ _ _ 0 (empty_sim (T := Z) n) (lookup_empty _)) as [A Hs].
  destruct (insert_sim 0 _ _ _ 0 c 1 [] Hs (lookup_insert_eq _ _ _) Hc)
    as (m1 & ok & A1 & -> & Hs1 & _ & Hok). cbn [run_bind fst snd].
  assert (∃ rs, (if ok then <[0%nat := [] ++ [(c, 1)]]> (<[0%nat := []]> ∅) else <[0%nat := []]> ∅ : tables Z)
          !! 0%nat = Some rs) as [rs Hrs]
    by (destruct ok; rewrite lookup_insert_eq; eauto).
  destruct (dtor_sim _ _ _ _ _ Hs1 Hrs) as (m2 & A2 & Hdtor & Hs2 & _).
  assert (nodes m2 = ∅) as Hempty.
  { eapply sim_empty. replace (∅ : tables Z) with (delete 0%nat
      (if ok then <[0%nat := [] ++ [(c, 1)]]> (<[0%nat := []]> ∅) else <[0%nat := []]> ∅ : tables Z));
      [exact Hs2|].
    destruct ok; apply map_eq; intros o; destruct (decide (o = 0%nat)) as [->|];
      rewrite ?lookup_delete_eq, ?lookup_empty, ?lookup_delete_ne, ?lookup_insert_ne by done; done. }
  destruct ok; cbn [negb].
  2: { rewrite Hdtor. cbn [run_bind]. eexists _, _. split; [done|]. split; [done|]. intros ?%Hok. done. }
  set (mid := (length data / 2)%nat).
  assert (mid < length data)%nat as Hmid by (apply Nat.div_lt; lia).
  destruct (lookup_lt_is_Some_2 data mid Hmid) as [d Hd]. rewrite Hd. cbn [run_opt run_bind].
  set (f := if Z.land d 1 =? 0 then V4 else V6).
  set (copy := match f with V4 => 4%nat | V6 => 16%nat end).
  assert (copy ≤ 16)%nat by (unfold copy; destruct f; lia).
  rewrite copy_from_ok by (unfold zero16; rewrite ?length_replicate; lia). cbn [run_bind].
  set (bs := take _ _ ++ _).
  assert (ip_ok (mkIpAddr f bs)) as Hip.
  { split; simpl.
    - unfold bs. rewrite length_app, length_take, !length_drop. unfold zero16.
      rewrite length_replicate. lia.
    - unfold bs. apply Forall_app. split; [by apply Forall_take, Forall_drop|].
      apply Forall_drop. unfold zero16. apply Forall_replicate. unfold byte_ok. lia. }
  rewrite (lookup_sim _ _ _ _ _ _ Hs1 Hrs Hip). cbn [run_bind].
  rewrite Cidr_contains_in by done. cbn [run_bind]. rewrite Hdtor. cbn [run_bind].
  by eexists _, _.
Qed.
End fuzz_spec.

(** The parsers of the credentials and the frame decoder. *)
Lemma fuzz_parsers_safe data : fuzz_frame data = Done 0 ∧ fuzz_registration data = Done 0.
Proof.
  split; [done|]. unfold fuzz_registration.
  destruct (parse_uuid_cases (chars data) (replicate 16 0) eq_refl)
    as [(? & ? & ? & ? & ? & _ & _ & ->)|(_ & out' & _ & ->)]; done.
Qed.

(** ** A run *)

Definition sample_data : list Z := (code <$> str "10.0.0.0/8") ++ [0; 10; 1; 2; 3; 0; 0; 0; 0; 0].

Lemma fuzz_cidr_safe_witness :
  ∃ r m, fuzz_cidr sample_data (empty_mem 200) = Done (r, m) ∧ nodes m = ∅ ∧ ((129 ≤ 200)%nat → r = Some 0).
Proof.
  apply (fuzz_cidr_safe sample_data 200). unfold sample_data. vm_compute.
  repeat (apply Forall_cons; split); try apply Forall_nil; done.
Defined.
