(* ===== verification/System.v ===== *)
(** * The threads and their clients

    [src/main.cpp], lines 240-427, with the four [QuicClient]s in place of their
    answers: [Supervisor] says how the threads move, [QuicClient] what a client
    does, and here each step of a thread makes its calls on its client, whose
    events run the disconnect handler, which wakes the thread. A call on a client
    is one step; the last part of the file takes [connect] and [close] apart. *)
From S2P Require Import Prelude Frame Registration Supervisor QuicClient.
Local Open Scope Z_scope.
Local Open Scope cfd_scope.

(** ** State *)

(** The threads, the clients, the table of the library, and how many clients
    [shutdown_all] has closed. *)
Record world := mkWorld {
  sup : sys;
  clients : list client;
  api : ApiTable;
  main_closed : nat;
}.

(** [set_inbound_handler] and [set_disconnect_handler] on a new client. *)
Definition new_client : client := set_handler_disconnect true (set_handler true client0).

Definition world0 (argc : Z) : world :=
  mkWorld (sys0 argc) (replicate kNumHaConns new_client) ApiTable0 0.

(** ** Steps *)

(** [drained]: the events that msquic still delivers while a connection is closed.
    [WSup]: a step of the threads without a call on a client. *)
Inductive wlabel :=
| WSup (l : Supervisor.label)
| WConnect (i : nat) (drained : list conn_event) (a : answers)   (** [close()], [connect()] *)
| WGet (i : nat) (drained : list conn_event)                     (** [fut.get()]; [close()] on an error *)
| WExit (i : nat) (drained : list conn_event)                    (** the end of the thread *)
| WAnswer (rpc : rpc_request → rpc_result)                       (** [register_connection] *)
| WMainClose (drained : list conn_event)                         (** the next client of [shutdown_all] *)
| WEvent (i : nat) (ev : conn_event)
| WStreamDone (i : nat) (h : handle)
| WSend (i : nat) (pkt : list Z) (ctx : nat) (accepted : bool).

(** [close()]: [ConnectionClose] returns when the callbacks have run; they find
    [connection_] null already, and look at no handle. *)
Definition close_with (drained : list conn_event) (q : client) : run client :=
  let! q := close q in on_events drained q.

(** The disconnect handler of a client, when it ran: [disc_fired.store(true)]. *)
Definition notify (i : nat) (q q' : client) (s : sys) : option sys :=
  if (fired q <? fired q')%nat then Supervisor.step (Supervisor.LDisconnect i) s else Some s.

Definition put (i : nat) (q q' : client) (w : world) : option world :=
  s ← notify i q q' (sup w);
  Some (mkWorld s (<[i := q']> (clients w)) (api w) (main_closed w)).

Definition on_client (i : nat) (f : client → run client) (w : world) : run (option world) :=
  match clients w !! i with
  | None => Done None
  | Some q => let! q' := f q in Done (put i q q' w)
  end.

Definition sup_step (l : Supervisor.label) (w : world) : option world :=
  s ← Supervisor.step l (sup w); Some (mkWorld s (clients w) (api w) (main_closed w)).

(** The steps that call no client. *)
Definition silent (l : Supervisor.label) (w : world) : bool :=
  match l with
  | LTop _ => negb (g_stop (sup w))
  | Supervisor.LConnect _ _ | LGet _ | LKjAnswer _ | LDisconnect _ => false
  | LMainClose => (main_closed w =? kNumHaConns)%nat
  | _ => true
  end.

Definition failed_answer (i : nat) (w : world) : bool :=
  match conns (sup w) !! i with
  | Some c => match fut c with Some (false, _) => true | _ => false end
  | None => false
  end.

Definition in_pump (w : world) : bool := match main (sup w) with MainPump => true | _ => false end.

Section system.
(** The configuration of each client, and the template of the requests. *)
Context (cfg : nat → QuicConfig) (rreq_tmpl : RegisterRequest).

(** [rreq_tmpl] with the index of the work item. *)
Definition work_request (work : RegWork) : RegisterRequest :=
  mkRegisterRequest (auth rreq_tmpl) (tunnel_uuid rreq_tmpl) (Supervisor.conn_index work)
    (version rreq_tmpl) (arch rreq_tmpl) (features rreq_tmpl).

(** [close()] and [connect()] of the loop. *)
Definition reconnect (i : nat) (drained : list conn_event) (a : answers) (w : world)
    : run (option world) :=
  let! r := on_client i (close_with drained) w in
  match r with
  | None => Done None
  | Some w =>
      match clients w !! i with
      | None => Done None
      | Some q =>
          let! c := connect (cfg i) a (api w) q in
          let '(ec, q', t) := c in
          Done (w ← put i q q' w;
                sup_step (Supervisor.LConnect i (bool_decide (ec = success)))
                  (mkWorld (sup w) (clients w) t (main_closed w)))
      end
  end.

Definition wstep (l : wlabel) (w : world) : run (option world) :=
  match l with
  | WSup l => Done (if silent l w then sup_step l w else None)
  | WConnect i drained a => reconnect i drained a w
  | WGet i drained =>
      if failed_answer i w then
        let! r := on_client i (close_with drained) w in Done (r ≫= sup_step (LGet i))
      else Done (sup_step (LGet i) w)
  | WExit i drained =>
      if g_stop (sup w) then
        let! r := on_client i (λ q, close_with drained (set_handler_disconnect false q)) w in
        Done (r ≫= sup_step (LTop i))
      else Done None
  | WAnswer rpc =>
      match kj (sup w) with
      | KjBusy work =>
          match clients w !! cl work with
          | None => Done None
          | Some q =>
              let '(ec, resp) :=
                register_connection rpc (work_request work) RegisterResponse_default q in
              Done (sup_step (LKjAnswer (bool_decide (ec = success), retry_after_seconds resp)) w)
          end
      | _ => Done None
      end
  | WMainClose drained =>
      match main (sup w) with
      | MainClose _ =>
          let! r := on_client (main_closed w) (close_with drained) w in
          Done (w ← r; Some (mkWorld (sup w) (clients w) (api w) (S (main_closed w))))
      | _ => Done None
      end
  | WEvent i ev => on_client i (on_conn_event ev) w
  | WStreamDone i h => on_client i (s_null_stream_cb h true) w
  | WSend i pkt ctx accepted =>
      if in_pump w then on_client i (λ q, Done (send_packet pkt ctx accepted q)) w else Done None
  end.

(** ** What the library may do *)

(** Events only come for a connection that is open. *)
Definition drained_ok (drained : list conn_event) (q : client) : Prop :=
  (connection_ q = None → drained = []) ∧ ∀ q', close q = Done q' → events_ok drained q'.

Definition wallowed (l : wlabel) (w : world) : Prop :=
  match l with
  | WConnect i drained a =>
      ∀ q, clients w !! i = Some q →
        drained_ok drained q ∧ ∀ q', close_with drained q = Done q' → answers_ok a q'
  | WGet i drained => ∀ q, clients w !! i = Some q → drained_ok drained q
  | WExit i drained =>
      ∀ q, clients w !! i = Some q → drained_ok drained (set_handler_disconnect false q)
  | WMainClose drained => ∀ q, clients w !! main_closed w = Some q → drained_ok drained q
  | WEvent i ev => ∀ q, clients w !! i = Some q → connection_ q ≠ None ∧ event_ok ev q
  | WStreamDone i h => ∀ q, clients w !! i = Some q → h ∈ streams q
  | WSend i _ ctx _ => ∀ q, clients w !! i = Some q → ctx ∉ live q
  | WSup _ | WAnswer _ => True
  end.

Inductive exec : world → list wlabel → world → Prop :=
| exec_nil w : exec w [] w
| exec_cons w l w1 ls w' :
    wallowed l w → wstep l w = Done (Some w1) → exec w1 ls w' → exec w (l :: ls) w'.

(** No handshake is completed after the wait of [connect] has given it up. *)
Definition timely (l : wlabel) : Prop :=
  match l with
  | WEvent _ ev => ev ≠ EvConnected
  | WConnect _ drained _ | WGet _ drained | WExit _ drained | WMainClose drained =>
      EvConnected ∉ drained
  | _ => True
  end.
End system.

(** ** What the calls keep *)

(** An event changes no handle and no handler. *)
Definition keeps (q q' : client) : Prop :=
  api_held_ q' = api_held_ q ∧ disconnect_handler_ q' = disconnect_handler_ q
  ∧ connection_ q' = connection_ q ∧ members q' = members q ∧ handles q' = handles q.

(** The disconnect handler runs exactly when [disc_notified_] is raised, and nothing
    but [connect] lowers the flags. *)
Definition tells (q q' : client) : Prop :=
  (fired q ≤ fired q')%nat
  ∧ (fired q <? fired q')%nat
    = disconnect_handler_ q && negb (disc_notified_ q) && disc_notified_ q'
  ∧ (disc_notified_ q = true → disc_notified_ q' = true)
  ∧ (handshake_ok_ q = true → handshake_ok_ q' = true).

Lemma keeps_refl q : keeps q q.
Proof. done. Qed.

Lemma keeps_trans q1 q2 q3 : keeps q1 q2 → keeps q2 q3 → keeps q1 q3.
Proof. intros (?&?&?&?&?) (?&?&?&?&?). repeat split; congruence. Qed.

Lemma tells_refl q : tells q q.
Proof.
  split; [done|]. split; [|done]. rewrite Nat.ltb_irrefl.
  by destruct (disconnect_handler_ q), (disc_notified_ q).
Qed.

Lemma tells_trans q1 q2 q3 : keeps q1 q2 → tells q1 q2 → tells q2 q3 → tells q1 q3.
Proof.
  intros (_&Hd&_) (Hle & Hf & Hn & Ho) (Hle' & Hf' & Hn' & Ho').
  split; [lia|]. split; [|auto]. rewrite Hd in Hf'.
  destruct (fired q1 <? fired q3)%nat eqn:H13; bool_facts.
  - assert ((fired q1 <? fired q2)%nat = true ∨ (fired q2 <? fired q3)%nat = true) as [H|H].
    { destruct (fired q1 <? fired q2)%nat eqn:?; bool_facts; [by left|right]. apply Nat.ltb_lt. lia. }
    + rewrite H in Hf. destruct (disconnect_handler_ q1), (disc_notified_ q1); try done.
      simpl in *. symmetry. by auto.
    + rewrite H in Hf'. destruct (disconnect_handler_ q1), (disc_notified_ q2) eqn:?; try done.
      simpl in *. rewrite <- Hf'. destruct (disc_notified_ q1); [|done]. by specialize (Hn eq_refl).
  - rewrite (proj2 (Nat.ltb_ge _ _)) in Hf by lia. rewrite (proj2 (Nat.ltb_ge _ _)) in Hf' by lia.
    by destruct (disconnect_handler_ q1), (disc_notified_ q1), (disc_notified_ q2), (disc_notified_ q3).
Qed.

Lemma fire_tells q :
  keeps q (fire_disconnect_locked_ q) ∧ tells q (fire_disconnect_locked_ q).
Proof.
  destruct q as [held done ok notif hd dh reg conf conn hs ss lv infl cs fd dl].
  unfold fire_disconnect_locked_, keeps, tells, members.
  destruct ok, notif, dh; simpl; split_and!; try done; try lia;
    rewrite ?Nat.ltb_irrefl; try done; apply Nat.ltb_lt; lia.
Qed.

Lemma event_tells ev q q' : on_conn_event ev q = Done q' → keeps q q' ∧ tells q q'.
Proof.
  destruct ev as [| | | |bs|st ctx|h|]; simpl; intros Hev.
  - injection Hev as <-. split; [done|]. split; [done|]. split; [|done]. simpl.
    rewrite Nat.ltb_irrefl. by destruct (disconnect_handler_ q), (disc_notified_ q).
  - injection Hev as <-. apply fire_tells.
  - injection Hev as <-. apply fire_tells.
  - injection Hev as <-. apply fire_tells.
  - injection Hev as <-. unfold deliver_inbound. destruct (Frame.decode _ _) as [[] dr]; cbn [negb];
      [|by split; [|apply tells_refl]].
    case_bool_decide; cbn [negb]; [|by split; [|apply tells_refl]].
    destruct (handler_ q); by split; [|apply (tells_refl q)].
  - destruct st; try case_decide; simplify_eq;
      (split; [done|]; first [apply tells_refl|apply (tells_refl q)]).
  - injection Hev as <-. by split; [|apply (tells_refl q)].
  - injection Hev as <-. by split; [|apply (tells_refl q)].
Qed.

Lemma events_tells evs q q' : on_events evs q = Done q' → keeps q q' ∧ tells q q'.
Proof.
  revert q. induction evs as [|ev evs IH]; intros q; simpl.
  { intros [= <-]. by split; [|apply tells_refl]. }
  destruct (on_conn_event ev q) as [q1| |] eqn:Hev; [|done..]. cbn [run_bind]. intros Hevs.
  apply event_tells in Hev as [Hk Ht]. apply IH in Hevs as [Hk' Ht'].
  split; [by eapply keeps_trans|by eapply tells_trans].
Qed.

(** A connection that is gone, was reported, or never came up: its shutdown is not
    reported (any more). *)
Definition quiet (q : client) : Prop :=
  connection_ q = None ∨ disc_notified_ q = true ∨ handshake_ok_ q = false.

(** The handshake flag is raised by [CONNECTED] only, and the report needs it. *)
Lemma events_timely evs q q' :
  on_events evs q = Done q' → EvConnected ∉ evs →
  handshake_ok_ q' = handshake_ok_ q
  ∧ (handshake_ok_ q = false → disc_notified_ q' = disc_notified_ q).
Proof.
  revert q. induction evs as [|ev evs IH]; intros q; simpl; [by intros [= <-]|].
  destruct (on_conn_event ev q) as [q1| |] eqn:Hev; [|done..]. cbn [run_bind].
  intros Hevs [Hne Hni]%not_elem_of_cons. destruct (IH q1 Hevs Hni) as [Ho Hn]. rewrite Ho.
  assert (handshake_ok_ q1 = handshake_ok_ q ∧
    (handshake_ok_ q = false → disc_notified_ q1 = disc_notified_ q)) as [Ho1 Hn1].
  { assert (handshake_ok_ (fire_disconnect_locked_ q) = handshake_ok_ q ∧
      (handshake_ok_ q = false → disc_notified_ (fire_disconnect_locked_ q) = disc_notified_ q)) as Hfire.
    { unfold fire_disconnect_locked_. destruct (handshake_ok_ q) eqn:Hok; simpl.
      - split; [|done]. by destruct (_ && disconnect_handler_ q).
      - split; [done|]. intros _. by rewrite orb_false_r. }
    destruct ev as [| | | |bs|st ctx|h|]; simpl in Hev; try (by injection Hev as <-).
    - injection Hev as <-. unfold deliver_inbound. by destruct (Frame.decode _ _); repeat case_match.
    - destruct st; try case_decide; by simplify_eq. }
  split; [done|]. intros Hq. rewrite Hn by congruence. auto.
Qed.

(** ** Closing and connecting *)

Lemma close_effect q :
  QuicClient.inv q →
  ∃ q', close q = Done q' ∧ QuicClient.inv q' ∧ members q' = [] ∧ handles q' = ∅
    ∧ connection_ q' = None ∧ api_held_ q' = api_held_ q
    ∧ disconnect_handler_ q' = disconnect_handler_ q
    ∧ handshake_ok_ q' = handshake_ok_ q ∧ disc_notified_ q' = disc_notified_ q
    ∧ fired q' = fired q.
Proof.
  intros Hq. destruct (close_spec q Hq) as (hs & -> & Hc). rewrite Hc. eexists. split; [done|].
  split; [|done]. split; [constructor| |apply Hq]. intros h. unfold members. simpl. set_solver.
Qed.

Lemma close_with_spec drained q :
  QuicClient.inv q → drained_ok drained q →
  ∃ q', close_with drained q = Done q' ∧ QuicClient.inv q' ∧ members q' = [] ∧ handles q' = ∅
    ∧ connection_ q' = None ∧ api_held_ q' = api_held_ q
    ∧ disconnect_handler_ q' = disconnect_handler_ q ∧ tells q q'
    ∧ (EvConnected ∉ drained → handshake_ok_ q' = handshake_ok_ q
       ∧ (quiet q → fired q' = fired q)).
Proof.
  intros Hq [Hnone Hev]. unfold close_with.
  destruct (close_effect q Hq) as (q1 & Hc & Hi & Hm & Hh & Hcn & Ha & Hd & Ho & Hn & Hf).
  rewrite Hc. cbn [run_bind]. destruct (events_spec drained q1 Hi (Hev q1 Hc)) as (q' & He & Hi' & _).
  exists q'. rewrite He. destruct (events_tells _ _ _ He) as [(Ka & Kd & Kc & Km & Kh) Ht].
  assert (tells q q') as Hqt.
  { destruct Ht as (Hle & Hb & Hno & Hok). unfold tells. by rewrite Hf, Hd, Hn, Ho in *. }
  split_and!; try done; try congruence. intros Hnc.
  destruct (events_timely _ _ _ He Hnc) as [To Tn]. split; [congruence|].
  intros Hquiet. destruct Hqt as (Hle & Hb & _).
  destruct (fired q <? fired q')%nat eqn:Hlt; bool_facts; [|lia]. exfalso.
  destruct Hquiet as [Hx|[Hx|Hx]].
  - rewrite (Hnone Hx) in He. injection He as <-. lia.
  - rewrite Hx in Hb. by destruct (disconnect_handler_ q).
  - rewrite Tn, Hn in Hb by congruence. by destruct (disconnect_handler_ q), (disc_notified_ q).
Qed.

(** [connect] on a closed client. *)
Lemma connect_effect c a t q ec q' t' :
  connection_ q = None → members q = [] → connect c a t q = Done (ec, q', t') →
  disconnect_handler_ q' = disconnect_handler_ q
  ∧ (fired q ≤ fired q')%nat
  ∧ (fired q <? fired q')%nat = disconnect_handler_ q && disc_notified_ q'
  ∧ (ec = success → handshake_ok_ q' = true ∧ connection_ q' ≠ None)
  ∧ (ec ≠ success → handshake_ok_ q' = false)
  ∧ (if api_held_ q then (true, t) else api_table_init (a_open2 a) t) = (api_held_ q', t')
  ∧ (api_held_ q' = false → connection_ q' = None).
Proof.
  unfold members. intros Hn Hm. rewrite Hn in Hm. simpl in Hm.
  destruct (configuration_ q) eqn:Hconf, (registration_ q) eqn:Hreg; try done. clear Hm.
  unfold connect. cbn [api_held_ set_flags].
  destruct (if api_held_ q then _ else _) as [held t1] eqn:Ht.
  assert (Hnf : (fired q <? fired q)%nat = disconnect_handler_ q && false).
  { rewrite Nat.ltb_irrefl. by destruct (disconnect_handler_ q). }
  destruct held; cbn [negb];
    [|intros [= <- <- <-]; simpl; split_and!; try done; by destruct (api_held_ q)].
  unfold connect_open, connect_start, assign_registration, assign_configuration, assign_connection.
  destruct (a_registration a) as [r|]; cbn; rewrite ?Hreg; cbn; [|by intros [= <- <- <-]].
  destruct (a_configuration a) as [cf|]; cbn; rewrite ?Hconf; cbn; [|by intros [= <- <- <-]].
  destruct (a_credential a); cbn; [|by intros [= <- <- <-]].
  destruct (a_connection a) as [n|]; cbn; rewrite ?Hn; cbn; [|by intros [= <- <- <-]].
  destruct (a_resolved a); cbn; [|by intros [= <- <- <-]].
  destruct (a_start a); cbn; [|by intros [= <- <- <-]].
  set (q1 := log_call _ _). destruct (on_events _ q1) as [q2| |] eqn:Hev; cbn; [|done..].
  destruct (events_tells _ _ _ Hev) as [(Ka & Kd & Kc & _) (Hle & Hb & _)].
  subst q1. cbn in Ka, Kd, Kc, Hle, Hb. rewrite andb_true_r in Hb.
  destruct (handshake_ok_ q2) eqn:Hok; cbn; intros [= <- <- <-]; rewrite Ka, Kc; by split_and!.
Qed.

(** ** The steps of the threads *)

(** The connection thread a label moves, the disconnect handler included. *)
Definition mover (l : Supervisor.label) : option nat :=
  match l with
  | LTop i | Supervisor.LConnect i _ | LSubmit i | LGet i | LWake i | LAfter i | LAwake i
  | LDisconnect i => Some i
  | _ => None
  end.

(** Two threads at the same place, with the same flag. *)
Definition same_place (c c' : conn) : Prop := pc c' = pc c ∧ disc_fired c' = disc_fired c.

Lemma same_place_refl c : same_place c c.
Proof. done. Qed.

Lemma set_value_conns j a s i c' :
  conns (set_value j a s) !! i = Some c' → ∃ c, conns s !! i = Some c ∧ same_place c c'.
Proof.
  unfold set_value. destruct (conns s !! j) as [c|] eqn:Hj; simpl; [|by exists c'].
  intros [(-> & <- & _)|[Hne Hi]]%list_lookup_insert_Some; by eexists.
Qed.

Lemma set_values_conns q s i c' :
  conns (foldl (λ s w, set_value (cl w) (false, 0) s) s q) !! i = Some c' →
  ∃ c, conns s !! i = Some c ∧ same_place c c'.
Proof.
  revert s. induction q as [|w q IH]; intros s; simpl; [by exists c'|].
  intros (c1 & Hc1 & Hp1 & Hd1)%IH. apply set_value_conns in Hc1 as (c & Hc & Hp & Hd).
  exists c. split; [done|]. split; congruence.
Qed.

Lemma step_others l s s' j c' :
  Supervisor.step l s = Some s' → mover l ≠ Some j → conns s' !! j = Some c' →
  ∃ c, conns s !! j = Some c ∧ same_place c c'.
Proof.
  intros Hs Hl Hj.
  assert (Hconn : ∀ i, conn_step l i s = Some s' → i ≠ j → conns s !! j = Some c').
  { intros i (c & c1 & d & ws & _ & -> & _)%conn_step_inv Hne. simpl in Hj.
    by rewrite list_lookup_insert_ne in Hj. }
  assert (Hmain : main_step l s = Some s' → conns s !! j = Some c').
  { unfold main_step. intros Hm. destruct (main s), l; try discriminate;
      repeat case_match; by simplify_eq/=. }
  destruct l; simpl in Hs, Hl;
    try (exists c'; split; [eapply Hconn; [exact Hs|congruence]|apply same_place_refl]);
    try (exists c'; split; [exact (Hmain Hs)|apply same_place_refl]);
    try match type of Hs with kj_step _ _ = _ =>
          unfold kj_step in Hs; destruct (kj s); try discriminate end.
  - unfold disconnect_step in Hs. destruct (conns s !! i) as [c|] eqn:Hi; [|done].
    exists c'. split; [|apply same_place_refl]. rewrite <- Hj. destruct (pc c); simplify_eq/=;
      by rewrite list_lookup_insert_ne by congruence.
  - simplify_eq/=. by exists c'.
  - destruct (kj_queue s); simplify_eq/=. by exists c'.
  - injection Hs as <-. by apply set_value_conns in Hj.
  - destruct (kj_queue s); [|done]. case_if_in Hs. injection Hs as <-. by exists c'.
  - injection Hs as <-. by apply set_values_conns in Hj.
Qed.

(** The stop flag is not lowered, and only the thread's own label moves a thread. *)
Lemma disconnect_inv i s s' :
  Supervisor.step (LDisconnect i) s = Some s' →
  ∃ c, conns s !! i = Some c ∧ pc c ≠ Exited ∧ g_stop s' = g_stop s ∧ main s' = main s ∧ kj s' = kj s
    ∧ conns s' = <[i := mkConn (pc c) (backoff_ms c) true (fut c)]> (conns s).
Proof.
  simpl. unfold disconnect_step. destruct (conns s !! i) as [c|]; [|done].
  intros Hs. exists c. destruct (pc c) eqn:Hp; simplify_eq/=; rewrite ?Hp; by split_and!.
Qed.

Lemma put_inv i q q' w w' :
  put i q q' w = Some w' →
  clients w' = <[i := q']> (clients w) ∧ api w' = api w
  ∧ g_stop (sup w') = g_stop (sup w)
  ∧ (∃ sls, Supervisor.steps sls (sup w) = Some (sup w'))
  ∧ (∀ j, j ≠ i → conns (sup w') !! j = conns (sup w) !! j)
  ∧ ∀ c', conns (sup w') !! i = Some c' →
      ∃ c, conns (sup w) !! i = Some c ∧ pc c' = pc c ∧ fut c' = fut c
        ∧ disc_fired c' = disc_fired c || (fired q <? fired q')%nat
        ∧ ((fired q <? fired q')%nat = true → pc c ≠ Exited).
Proof.
  unfold put, notify. intros (s & Hs & [= <-])%bind_Some. cbn [clients api sup].
  destruct (fired q <? fired q')%nat.
  - destruct (disconnect_inv _ _ _ Hs) as (c & Hc & Hp & Hg & _ & _ & Hcs).
    split_and!; try done.
    + exists [LDisconnect i]. cbn [Supervisor.steps]. by rewrite Hs.
    + intros j Hj. by rewrite Hcs, list_lookup_insert_ne.
    + rewrite Hcs. intros c' Hc'.
      rewrite list_lookup_insert_eq in Hc' by (by eapply lookup_lt_Some). injection Hc' as <-.
      exists c. split_and!; try done. simpl. by rewrite orb_true_r.
  - injection Hs as ->. split_and!; try done; [by exists []|].
    intros c' Hc'. exists c'. by rewrite orb_false_r.
Qed.

(** ** Each step is a step of the threads and calls on the clients *)

Lemma session_app q1 ls q2 ls' q3 :
  session q1 ls q2 → session q2 ls' q3 → session q1 (ls ++ ls') q3.
Proof. induction 1; intros; [done|]. simpl. econstructor; eauto. Qed.

Lemma session_one l q q' :
  QuicClient.allowed l q → QuicClient.step l q = Done q' → session q [l] q'.
Proof. intros. econstructor; [done..|constructor]. Qed.

Lemma events_session evs q q' :
  events_ok evs q → on_events evs q = Done q' → session q (LEvent <$> evs) q'.
Proof.
  revert q. induction evs as [|ev evs IH]; intros q; simpl; [intros _ [= <-]; constructor|].
  intros [He Hevs] Hon. destruct (on_conn_event ev q) as [q1| |] eqn:Hq1; [|done..].
  econstructor; [done..|]. apply IH; [by apply Hevs|done].
Qed.

Lemma close_with_session drained q q' :
  drained_ok drained q → close_with drained q = Done q' →
  session q (LClose :: (LEvent <$> drained)) q'.
Proof.
  intros [_ Hd]. unfold close_with. destruct (close q) as [q1| |] eqn:Hc; [|done..]. cbn [run_bind].
  intros He. econstructor; [done|done|]. apply events_session; [by apply Hd|done].
Qed.

(** The table as one client sees it: open for it, or not. *)
Definition with_open2 (b : bool) (a : answers) : answers :=
  mkAnswers b (a_registration a) (a_configuration a) (a_embedded a) (a_credential a)
    (a_connection a) (a_resolved a) (a_start a) (a_events a).

Lemma connect_session c a t q ec q' t' :
  answers_ok a q → connect c a t q = Done (ec, q', t') → ∃ b, session q [LConnect c (with_open2 b a)] q'.
Proof.
  intros Ha Hc. exists (api_table_init (a_open2 a) t).1.
  apply session_one; [exact Ha|]. simpl. revert Hc. unfold connect. cbn [api_held_ set_flags].
  destruct (api_held_ q).
  - cbn [negb]. change (connect_open c (with_open2 _ a)) with (connect_open c a).
    by destruct (connect_open c a _) as [[ec1 q1]| |]; cbn; intros; simplify_eq.
  - destruct (api_table_init (a_open2 a) t) as [b t1]. cbn [fst]. destruct b.
    + cbn [negb api_table_init with_open2 a_open2 ApiTable0 g_refcount Z.eqb].
      change (connect_open c (with_open2 _ a)) with (connect_open c a).
      by destruct (connect_open c a _) as [[ec1 q1]| |]; cbn; intros; simplify_eq.
    + cbn. by intros; simplify_eq.
Qed.

(** A run of the whole is a run of the threads, and for each client a session of
    calls that its class allows. *)
Definition refines (w w' : world) : Prop :=
  (∃ sls, Supervisor.steps sls (sup w) = Some (sup w'))
  ∧ length (clients w') = length (clients w)
  ∧ ∀ i q, clients w !! i = Some q → ∃ q' ls, clients w' !! i = Some q' ∧ session q ls q'.

Lemma steps_app ls ls' s :
  Supervisor.steps (ls ++ ls') s = Supervisor.steps ls s ≫= Supervisor.steps ls'.
Proof.
  revert s. induction ls as [|l ls IH]; intros s; simpl; [done|].
  destruct (Supervisor.step l s); simpl; [apply IH|done].
Qed.

Lemma refines_same w w' :
  (∃ sls, Supervisor.steps sls (sup w) = Some (sup w')) → clients w' = clients w → refines w w'.
Proof.
  intros Hs Hc. split; [done|]. rewrite Hc. split; [done|]. intros i q Hq.
  exists q, []. split; [done|constructor].
Qed.

Lemma refines_trans w1 w2 w3 : refines w1 w2 → refines w2 w3 → refines w1 w3.
Proof.
  intros ([ls Hs] & Hl & Hc) ([ls' Hs'] & Hl' & Hc'). split; [|split; [congruence|]].
  - exists (ls ++ ls'). by rewrite steps_app, Hs.
  - intros i q Hq. destruct (Hc i q Hq) as (q2 & l2 & Hq2 & Hs2).
    destruct (Hc' i q2 Hq2) as (q3 & l3 & Hq3 & Hs3). exists q3, (l2 ++ l3).
    split; [done|]. by eapply session_app.
Qed.

Lemma sup_step_inv l w w' :
  sup_step l w = Some w' →
  Supervisor.step l (sup w) = Some (sup w') ∧ clients w' = clients w ∧ api w' = api w.
Proof. unfold sup_step. by intros (s & -> & [= <-])%bind_Some. Qed.

Lemma sup_step_refines l w w' : sup_step l w = Some w' → refines w w'.
Proof.
  intros (Hs & Hc & _)%sup_step_inv. apply refines_same; [|done]. exists [l]. simpl. by rewrite Hs.
Qed.

Lemma put_refines i q q' ls w w' :
  clients w !! i = Some q → session q ls q' → put i q q' w = Some w' → refines w w'.
Proof.
  intros Hq Hs (Hc & _ & _ & Hsl & _)%put_inv. split; [done|]. rewrite Hc.
  split; [apply length_insert|]. intros j qj Hj. destruct (decide (j = i)) as [->|Hne].
  - simplify_eq. exists q', ls. split; [|done]. apply list_lookup_insert_eq. by eapply lookup_lt_Some.
  - exists qj, []. rewrite list_lookup_insert_ne by done. split; [done|constructor].
Qed.

Lemma on_client_inv i f w w' :
  on_client i f w = Done (Some w') →
  ∃ q q', clients w !! i = Some q ∧ f q = Done q' ∧ put i q q' w = Some w'.
Proof.
  unfold on_client. destruct (clients w !! i) as [q|]; [|done].
  destruct (f q) as [q'| |] eqn:Hf; [|done..]. cbn. intros [= Hp]. by exists q, q'.
Qed.

(** A call on one client, and a step of the threads after it. *)
Lemma on_client_then_inv i f (k : world → option world) w w' :
  (let! r := on_client i f w in Done (r ≫= k)) = Done (Some w') →
  ∃ q q' w1, clients w !! i = Some q ∧ f q = Done q' ∧ put i q q' w = Some w1 ∧ k w1 = Some w'.
Proof.
  destruct (on_client i f w) as [[w1|]| |] eqn:Ho; cbn; try done. intros [= Hk].
  apply on_client_inv in Ho as (q & q' & Hq & Hf & Hp). by exists q, q', w1.
Qed.

Lemma reconnect_inv cfg i drained a w w' :
  reconnect cfg i drained a w = Done (Some w') →
  ∃ q q1 w1 ec q2 t w2,
    clients w !! i = Some q ∧ close_with drained q = Done q1 ∧ put i q q1 w = Some w1
    ∧ connect (cfg i) a (api w) q1 = Done (ec, q2, t) ∧ put i q1 q2 w1 = Some w2
    ∧ clients w1 !! i = Some q1
    ∧ sup_step (Supervisor.LConnect i (bool_decide (ec = success)))
        (mkWorld (sup w2) (clients w2) t (main_closed w2)) = Some w'.
Proof.
  unfold reconnect. destruct (on_client i (close_with drained) w) as [[w1|]| |] eqn:Ho; cbn; try done.
  apply on_client_inv in Ho as (q & q1 & Hq & Hc & Hp). pose proof (put_inv _ _ _ _ _ Hp) as (Hcl & Hap & _).
  assert (clients w1 !! i = Some q1) as Hq1.
  { rewrite Hcl. apply list_lookup_insert_eq. by eapply lookup_lt_Some. }
  rewrite Hq1, Hap. destruct (connect (cfg i) a (api w) q1) as [[[ec q2] t]| |] eqn:Hcn; cbn; try done.
  intros [= Hk]. apply bind_Some in Hk as (w2 & Hp2 & Hk). by exists q, q1, w1, ec, q2, t, w2.
Qed.

Lemma wstep_refines cfg tmpl l w w' :
  wallowed l w → wstep cfg tmpl l w = Done (Some w') → refines w w'.
Proof.
  intros Ha Hs. destruct l as [l|i dr a|i dr|i dr|rpc|dr|i ev|i h|i pkt ctx acc]; cbn [wstep wallowed] in *.
  - destruct (silent l w); [|done]. injection Hs as Hs. by eapply sup_step_refines.
  - apply reconnect_inv in Hs as (q & q1 & w1 & ec & q2 & t & w2 & Hq & Hc & Hp & Hcn & Hp2 & Hq1 & Hk).
    destruct (Ha q Hq) as [Hd Hans]. apply sup_step_refines in Hk.
    apply connect_session in Hcn as [b Hcn]; [|by apply Hans].
    eapply refines_trans; [eapply put_refines; [done|by eapply close_with_session|done]|].
    eapply refines_trans; [by eapply put_refines|]. exact Hk.
  - destruct (failed_answer i w); [|injection Hs as Hs; by eapply sup_step_refines].
    apply on_client_then_inv in Hs as (q & q' & w1 & Hq & Hc & Hp & Hk).
    eapply refines_trans; [|by eapply sup_step_refines].
    eapply put_refines; [done| |done]. by eapply close_with_session; [apply Ha|].
  - destruct (g_stop (sup w)); [|done].
    apply on_client_then_inv in Hs as (q & q' & w1 & Hq & Hc & Hp & Hk).
    eapply refines_trans; [|by eapply sup_step_refines].
    eapply put_refines; [done| |done].
    eapply (session_cons q (LSetDisconnect false)); [done|reflexivity|].
    by eapply close_with_session; [apply Ha|].
  - destruct (kj (sup w)) as [|work| |]; try done. destruct (clients w !! cl work) as [q|]; [|done].
    destruct (register_connection _ _ _ _) as [ec resp]. injection Hs as Hs. by eapply sup_step_refines.
  - destruct (main (sup w)); try done.
    destruct (on_client (main_closed w) (close_with dr) w) as [[w1|]| |] eqn:Ho; cbn in Hs; try done.
    injection Hs as <-. apply on_client_inv in Ho as (q & q' & Hq & Hc & Hp).
    change (refines w w1). eapply put_refines; [done| |done]. by eapply close_with_session; [apply Ha|].
  - apply on_client_inv in Hs as (q & q' & Hq & Hc & Hp). destruct (Ha q Hq) as [_ He].
    eapply put_refines; [done| |done]. by apply (session_one (LEvent ev)).
  - apply on_client_inv in Hs as (q & q' & Hq & Hc & Hp).
    eapply put_refines; [done| |done]. apply (session_one (LStreamDone h)); [by apply Ha|done].
  - destruct (in_pump w); [|done]. apply on_client_inv in Hs as (q & q' & Hq & Hc & Hp).
    eapply put_refines; [done| |done]. apply (session_one (LSend pkt ctx acc)); [by apply Ha|done].
Qed.

Lemma exec_refines cfg tmpl w ls w' : exec cfg tmpl w ls w' → refines w w'.
Proof.
  induction 1 as [w|w l w1 ls w' Ha Hs _ IH].
  - apply refines_same; [|done]. by exists [].
  - eapply refines_trans; [by eapply wstep_refines|done].
Qed.

(** ** The link between a thread and its client *)

(** What holds of a thread and its client, by the place of the thread; [strict]
    adds what needs timely handshakes: a thread that connects starts from a client
    with nothing to report, and from then on its flag is the client's. *)
Definition linked (strict stop : bool) (c : conn) (q : client) : Prop :=
  disconnect_handler_ q = match pc c with Exited => false | _ => true end
  ∧ match pc c with
    | Top | Sleeping _ => strict = true → quiet q ∨ stop = true
    | Connecting => strict = true → quiet q ∧ disc_fired c = false
    | Submit | WaitFut | Registered =>
        handshake_ok_ q = true ∧ (stop = false → connection_ q ≠ None)
        ∧ (strict = true → disc_fired c = disc_notified_ q)
    | Woken =>
        handshake_ok_ q = true ∧ (stop = false → connection_ q ≠ None)
        ∧ (strict = true → disc_fired c = disc_notified_ q)
        ∧ (disc_fired c = true ∨ stop = true)
    | Exited => members q = [] ∧ handles q = ∅
    end.

Lemma linked_stop strict stop c q : linked strict stop c q → linked strict true c q.
Proof. unfold linked. intros [Hd Hp]. split; [done|]. destruct (pc c); naive_solver. Qed.

Lemma linked_place strict stop c c' q :
  same_place c c' → linked strict stop c q → linked strict stop c' q.
Proof. unfold linked. intros [-> ->]. done. Qed.

(** A call or an event: the thread stays, its flag takes the reports. *)
Lemma linked_call strict stop c c' q q' :
  linked strict stop c q → pc c' = pc c →
  disc_fired c' = disc_fired c || (fired q <? fired q')%nat →
  disconnect_handler_ q' = disconnect_handler_ q → tells q q' →
  (stop = false → connection_ q' = connection_ q) →
  (members q = [] ∧ handles q = ∅ → members q' = [] ∧ handles q' = ∅) →
  (strict = true → quiet q → quiet q' ∧ fired q' = fired q) →
  linked strict stop c' q'.
Proof.
  unfold linked. intros [Hd Hp] Hpc Hf Hdh (Hle & Hb & Hn & Ho) Hcn Hm Hq. rewrite Hpc, Hdh, Hf.
  split; [done|]. rewrite Hd in Hb.
  assert (pc c ≠ Exited → disc_fired c = disc_notified_ q →
    disc_fired c || (fired q <? fired q')%nat = disc_notified_ q') as Hflag.
  { intros Hne ->. rewrite Hb. destruct (disc_notified_ q) eqn:Hnq; simpl; [symmetry; by apply Hn|].
    by destruct (pc c). }
  destruct (pc c) eqn:Hpq; simpl in Hb.
  - intros Hs. destruct (Hp Hs) as [Hqq|]; [left; by apply Hq|by right].
  - intros Hs. destruct (Hp Hs) as [Hqq ->]. destruct (Hq Hs Hqq) as [Hq' ->].
    by rewrite Nat.ltb_irrefl.
  - destruct Hp as (Hok & Hc & Hs). split; [by apply Ho|]. split; [|intros Hst; apply Hflag; [done|by apply Hs]].
    intros Hst. rewrite Hcn by done. by apply Hc.
  - destruct Hp as (Hok & Hc & Hs). split; [by apply Ho|]. split; [|intros Hst; apply Hflag; [done|by apply Hs]].
    intros Hst. rewrite Hcn by done. by apply Hc.
  - destruct Hp as (Hok & Hc & Hs). split; [by apply Ho|]. split; [|intros Hst; apply Hflag; [done|by apply Hs]].
    intros Hst. rewrite Hcn by done. by apply Hc.
  - destruct Hp as (Hok & Hc & Hs & Hw). split; [by apply Ho|].
    split; [|split; [intros Hst; apply Hflag; [done|by apply Hs]|]].
    + intros Hst. rewrite Hcn by done. by apply Hc.
    + destruct Hw as [-> | ->]; [by left|by right].
  - intros Hs. destruct (Hp Hs) as [Hqq|]; [left; by apply Hq|by right].
  - by apply Hm.
Qed.

(** A step of a thread that calls no client. *)
Lemma linked_thread strict l i s s' c q :
  conn_step l i s = Some s' → conns s !! i = Some c → linked strict (g_stop s) c q →
  match l with
  | LTop _ => g_stop s = false
  | LSubmit _ | LWake _ | LAfter _ | LAwake _ => True
  | LGet _ => ∃ r, fut c = Some (true, r)
  | _ => False
  end →
  g_stop s' = g_stop s ∧ ∀ c', conns s' !! i = Some c' → linked strict (g_stop s) c' q.
Proof.
  unfold conn_step. intros Hs Hc Hl Hk. rewrite Hc in Hs.
  assert (Hins : ∀ c1 c', <[i := c1]> (conns s) !! i = Some c' → c' = c1).
  { intros c1 c' Hx. rewrite list_lookup_insert_eq in Hx by (by eapply lookup_lt_Some). by simplify_eq. }
  destruct c as [p b dsc f]. unfold linked in Hl. simpl in Hs, Hk, Hl. destruct Hl as [Hd Hp].
  destruct p, l; simpl in Hs; try discriminate; try done.
  - rewrite Hk in Hs, Hp. injection Hs as <-. split; [done|]. intros c' ->%Hins.
    split; [done|]. simpl. intros Hst. destruct (Hp Hst) as [Hq|]; [by split|done].
  - injection Hs as <-. split; [done|]. by intros c' ->%Hins.
  - destruct Hk as [r ->]. injection Hs as <-. split; [done|]. by intros c' ->%Hins.
  - destruct (dsc || g_stop s) eqn:Hw; [|done]. injection Hs as <-. split; [done|].
    intros c' ->%Hins. split; [done|]. simpl. destruct Hp as (?&?&?). split_and!; try done.
    by apply orb_true_iff.
  - destruct Hp as (Hok & Hcn & Hf & Hw).
    destruct (dsc && negb (g_stop s)) eqn:Ht; injection Hs as <-; (split; [done|]);
      intros c' ->%Hins; (split; [done|]); simpl; intros Hst.
    + apply andb_true_iff in Ht as [-> _]. left. right. left. symmetry. by apply Hf.
    + right. apply andb_false_iff in Ht as [->|Hg]; [by destruct Hw|by apply negb_false_iff].
  - injection Hs as <-. split; [done|]. by intros c' ->%Hins.
Qed.

(** ** Invariant *)

(** The clients that hold the table of the library. *)
Definition held (l : list client) : nat := length (List.filter id (api_held_ <$> l)).

Definition client_ok (q : client) : Prop :=
  QuicClient.inv q ∧ (connection_ q ≠ None → api_held_ q = true).

Record wbase (argc : Z) (w : world) : Prop := {
  w_sup : reachable argc (sup w);
  w_len : length (clients w) = kNumHaConns;
  w_client i q : clients w !! i = Some q → client_ok q;
  w_api : api_trace (held (clients w)) (api w);
}.

(** The links of the threads, but for one that is in the middle of its step. *)
Definition links (strict : bool) (but : option nat) (w : world) : Prop :=
  ∀ i c q, but ≠ Some i → conns (sup w) !! i = Some c → clients w !! i = Some q →
           linked strict (g_stop (sup w)) c q.

Definition winv (argc : Z) (strict : bool) (w : world) : Prop := wbase argc w ∧ links strict None w.

Lemma winv_world0 argc strict : winv argc strict (world0 argc).
Proof.
  assert (Hq : ∀ i q, clients (world0 argc) !! i = Some q → q = new_client).
  { intros i q Hq. by apply lookup_replicate in Hq as [-> _]. }
  assert (Hc : ∀ i c, conns (sup (world0 argc)) !! i = Some c → c = new_conn).
  { intros i c Hc. by apply lookup_replicate in Hc as [-> _]. }
  split; [split|].
  - by exists [].
  - by simpl.
  - intros i q ->%Hq. split; [|done]. split; [constructor| |done]. intros h. simpl. set_solver.
  - constructor.
  - intros i c q _ ->%Hc ->%Hq. split; [done|]. intros _. left. by left.
Qed.

Lemma reachable_steps argc ls s s' :
  reachable argc s → Supervisor.steps ls s = Some s' → reachable argc s'.
Proof. intros [ls0 H0] Hs. exists (ls0 ++ ls). by rewrite steps_app, H0. Qed.

Lemma held_same l i q q' :
  l !! i = Some q → api_held_ q' = api_held_ q → held (<[i := q']> l) = held l.
Proof.
  intros Hi Hq. unfold held. rewrite list_fmap_insert, Hq, list_insert_id; [done|].
  by rewrite list_lookup_fmap, Hi.
Qed.

Lemma count_insert (l : list bool) i (b : bool) :
  l !! i = Some false →
  length (List.filter id (<[i := b]> l))
  = if b then S (length (List.filter id l)) else length (List.filter id l).
Proof.
  revert i. induction l as [|x l IH]; intros [|i] Hi; simplify_eq/=; [by destruct b|].
  destruct x; simpl; rewrite (IH i Hi); by destruct b.
Qed.

Lemma held_insert l i q q' :
  l !! i = Some q → api_held_ q = false →
  held (<[i := q']> l) = if api_held_ q' then S (held l) else held l.
Proof.
  intros Hi Hq. unfold held. rewrite list_fmap_insert, count_insert; [done|].
  rewrite list_lookup_fmap, Hi. simpl. by rewrite Hq.
Qed.

(** A call on the client [i]. *)
Lemma wbase_put argc strict i q q' w w' :
  wbase argc w → clients w !! i = Some q → put i q q' w = Some w' →
  client_ok q' → api_held_ q' = api_held_ q →
  wbase argc w' ∧ (links strict (Some i) w → links strict (Some i) w').
Proof.
  intros [Hsup Hlen Hcl Hapi] Hq Hp Hok Hheld.
  destruct (put_inv _ _ _ _ _ Hp) as (Hc & Ha & Hg & [sls Hs] & Hne & _). split; [split|].
  - by eapply reachable_steps.
  - by rewrite Hc, length_insert.
  - intros j qj. rewrite Hc. intros [(_ & <- & _)|[_ Hj]]%list_lookup_insert_Some; [done|by eapply Hcl].
  - rewrite Hc, Ha. by rewrite (held_same _ _ q).
  - intros Hl j c qj Hij. assert (i ≠ j) by congruence. rewrite Hc, Hg, Hne by done.
    rewrite list_lookup_insert_ne by done. by apply Hl.
Qed.

Lemma links_but strict i w : links strict None w → links strict (Some i) w.
Proof. intros Hl j c q _. by apply Hl. Qed.

(** A call that leaves its thread in place. *)
Lemma winv_put argc strict i q q' w w' :
  winv argc strict w → clients w !! i = Some q → put i q q' w = Some w' →
  client_ok q' → api_held_ q' = api_held_ q →
  (∀ c c', linked strict (g_stop (sup w)) c q → pc c' = pc c →
           disc_fired c' = disc_fired c || (fired q <? fired q')%nat →
           linked strict (g_stop (sup w)) c' q') →
  winv argc strict w'.
Proof.
  intros [Hb Hlink] Hq Hp Hok Hheld Hl.
  destruct (wbase_put argc strict _ _ _ _ _ Hb Hq Hp Hok Hheld) as [Hb' Hlink'].
  destruct (put_inv _ _ _ _ _ Hp) as (Hc & _ & Hg & _ & _ & Heq). split; [done|].
  intros j c qj _ Hj Hqj. destruct (decide (i = j)) as [<-|Hij].
  - rewrite Hg. destruct (Heq _ Hj) as (c0 & Hc0 & Hpc & _ & Hdf & _).
    rewrite Hc, list_lookup_insert_eq in Hqj by (by eapply lookup_lt_Some). injection Hqj as <-.
    eapply Hl; [by eapply (Hlink i)|done|done].
  - apply (Hlink' (links_but _ _ _ Hlink) j); [congruence|done|done].
Qed.

Lemma wbase_sup argc l w w' :
  wbase argc w → sup_step l w = Some w' → wbase argc w'.
Proof.
  intros [Hsup Hlen Hcl Hapi] (Hs & Hc & Ha)%sup_step_inv. split.
  - eapply (reachable_steps _ [l]); [done|]. simpl. by rewrite Hs.
  - by rewrite Hc.
  - by rewrite Hc.
  - by rewrite Hc, Ha.
Qed.

(** A step of the threads that moves no connection thread. *)
Lemma winv_others argc strict l w w' :
  winv argc strict w → sup_step l w = Some w' → mover l = None → winv argc strict w'.
Proof.
  intros [Hb Hlink] Hstep Hm. split; [by eapply wbase_sup|].
  apply sup_step_inv in Hstep as (Hs & Hc & _). intros i c' q _ Hi. rewrite Hc. intros Hq.
  destruct (step_others _ _ _ i c' Hs) as (c & Hci & Hpl); [by rewrite Hm|done|].
  eapply linked_place; [exact Hpl|]. specialize (Hlink i c q ltac:(done) Hci Hq).
  destruct (g_stop (sup w')) eqn:Hg'; [by eapply linked_stop|].
  destruct (g_stop (sup w)) eqn:Hg; [|done].
  by rewrite (step_stop _ _ _ Hs Hg) in Hg'.
Qed.

(** A step of a connection thread: its link afterwards is enough. *)
Lemma winv_thread argc strict l i w w' :
  wbase argc w → links strict (Some i) w → sup_step l w = Some w' → mover l = Some i →
  g_stop (sup w') = g_stop (sup w) →
  (∀ c' q, conns (sup w') !! i = Some c' → clients w !! i = Some q →
           linked strict (g_stop (sup w)) c' q) →
  winv argc strict w'.
Proof.
  intros Hb Hlink Hstep Hm Hg Hi. split; [by eapply wbase_sup|].
  apply sup_step_inv in Hstep as (Hs & Hc & _).
  intros j c' q _ Hj. rewrite Hc, Hg. intros Hq. destruct (decide (j = i)) as [->|Hne]; [by apply Hi|].
  destruct (step_others _ _ _ j c' Hs) as (c & Hcj & Hpl); [congruence|done|].
  eapply linked_place; [exact Hpl|]. apply (Hlink j); [congruence|done|done].
Qed.

Lemma members_none q : members q = [] → connection_ q = None.
Proof. unfold members. by destruct (connection_ q). Qed.

Lemma connect_label_inv i ok s s' :
  Supervisor.step (Supervisor.LConnect i ok) s = Some s' →
  g_stop s' = g_stop s ∧ ∃ c, conns s !! i = Some c ∧ pc c = Connecting
  ∧ ∀ c', conns s' !! i = Some c' →
      disc_fired c' = disc_fired c ∧ if ok then pc c' = Submit else ∃ ms, pc c' = Sleeping ms.
Proof.
  simpl. unfold conn_step. destruct (conns s !! i) as [c|] eqn:Hi; [|done].
  destruct c as [p b d f]. destruct p; try discriminate. simpl.
  destruct ok; intros [= <-]; (split; [done|]); eexists; (split; [done|]); (split; [done|]); simpl;
    intros c'; rewrite list_lookup_insert_eq by (by eapply lookup_lt_Some); intros [= <-]; simpl;
    (split; [done|]); [done|by eexists].
Qed.

Lemma failed_get_inv i s s' c r :
  Supervisor.step (LGet i) s = Some s' → conns s !! i = Some c → fut c = Some (false, r) →
  g_stop s' = g_stop s ∧ pc c = WaitFut
  ∧ ∀ c', conns s' !! i = Some c' → ∃ ms, pc c' = Sleeping ms.
Proof.
  simpl. unfold conn_step. intros Hs Hi Hf. rewrite Hi, Hf in Hs.
  destruct (pc c); try discriminate. injection Hs as <-. split; [done|]. split; [done|]. simpl.
  intros c'. rewrite list_lookup_insert_eq by (by eapply lookup_lt_Some). intros [= <-]. by eexists.
Qed.

Lemma exit_inv i s s' :
  Supervisor.step (LTop i) s = Some s' → g_stop s = true →
  g_stop s' = true ∧ ∀ c', conns s' !! i = Some c' → pc c' = Exited.
Proof.
  simpl. unfold conn_step. intros Hs Hg. rewrite Hg in Hs.
  destruct (conns s !! i) as [c|] eqn:Hi; [|done]. destruct (pc c); try discriminate.
  injection Hs as <-. split; [done|]. simpl. intros c'.
  rewrite list_lookup_insert_eq by (by eapply lookup_lt_Some). by intros [= <-].
Qed.

(** A thread closes its client, [q0] with its handlers set to those of [q], in the
    middle of its step. *)
Lemma close_put argc strict i drained q0 q q' w w' :
  wbase argc w → links strict None w → clients w !! i = Some q0 →
  client_ok q → api_held_ q = api_held_ q0 → drained_ok drained q →
  close_with drained q = Done q' → put i q0 q' w = Some w' →
  wbase argc w' ∧ links strict (Some i) w' ∧ client_ok q' ∧ members q' = [] ∧ handles q' = ∅
  ∧ connection_ q' = None ∧ api_held_ q' = api_held_ q
  ∧ disconnect_handler_ q' = disconnect_handler_ q ∧ tells q q'
  ∧ (EvConnected ∉ drained → quiet q → fired q' = fired q).
Proof.
  intros Hb Hl Hq [Hi Hh] Ha Hd Hc Hp.
  destruct (close_with_spec drained q Hi Hd) as (q1 & Hc1 & Hi1 & Hm & Hhs & Hcn & Hap & Hdh & Htl & Hst).
  rewrite Hc in Hc1. injection Hc1 as <-.
  assert (client_ok q') as Hok by (by split).
  destruct (wbase_put argc strict _ _ _ _ _ Hb Hq Hp Hok ltac:(congruence)) as [Hb' Hl'].
  split; [done|]. split; [by apply Hl', links_but|]. split_and!; try done.
  intros Hnc. by apply Hst.
Qed.

(** The steps that close the client of a thread. *)
Lemma winv_exit argc strict i drained q q' w w1 w' :
  winv argc strict w → clients w !! i = Some q → g_stop (sup w) = true →
  drained_ok drained (set_handler_disconnect false q) →
  close_with drained (set_handler_disconnect false q) = Done q' →
  put i q q' w = Some w1 → sup_step (LTop i) w1 = Some w' → winv argc strict w'.
Proof.
  intros [Hb Hl] Hq Hg Hd Hc Hp Hk. pose proof (w_client _ _ Hb i q Hq) as [Hi Hh].
  assert (client_ok (set_handler_disconnect false q)) as Hok by (by destruct Hi).
  destruct (close_put argc strict i drained q _ q' w w1 Hb Hl Hq Hok eq_refl Hd Hc Hp)
    as (Hb1 & Hl1 & _ & Hm & Hhs & _ & _ & Hdh & _).
  destruct (put_inv _ _ _ _ _ Hp) as (Hc1 & _ & Hg1 & _). rewrite Hg in Hg1.
  pose proof (sup_step_inv _ _ _ Hk) as (Hs & _ & _).
  destruct (exit_inv _ _ _ Hs Hg1) as [Hg' Hpc].
  eapply winv_thread; [done|done|done|done|congruence|]. intros c' qj Hj Hqj.
  rewrite Hc1, list_lookup_insert_eq in Hqj by (by eapply lookup_lt_Some). injection Hqj as <-.
  unfold linked. by rewrite (Hpc c' Hj).
Qed.

Lemma winv_failed argc strict i drained q q' w w1 w' :
  winv argc strict w → clients w !! i = Some q → failed_answer i w = true →
  drained_ok drained q → close_with drained q = Done q' →
  put i q q' w = Some w1 → sup_step (LGet i) w1 = Some w' → winv argc strict w'.
Proof.
  intros [Hb Hl] Hq Hf Hd Hc Hp Hk. pose proof (w_client _ _ Hb i q Hq) as Hok.
  destruct (close_put argc strict i drained q q q' w w1 Hb Hl Hq Hok eq_refl Hd Hc Hp)
    as (Hb1 & Hl1 & _ & Hm & Hhs & Hcn & _ & Hdh & _).
  destruct (put_inv _ _ _ _ _ Hp) as (Hc1 & _ & Hg1 & _ & _ & Heq).
  pose proof (sup_step_inv _ _ _ Hk) as (Hs & _ & _).
  unfold failed_answer in Hf. destruct (conns (sup w) !! i) as [c|] eqn:Hci; [|done].
  destruct (fut c) as [[[] r]|] eqn:Hfut; try done.
  destruct (conns (sup w1) !! i) as [c1|] eqn:Hc1i.
  2:{ simpl in Hs. unfold conn_step in Hs. by rewrite Hc1i in Hs. }
  destruct (Heq c1 eq_refl) as (c0 & Hc0 & Hpc & Hfu & _). simplify_eq.
  destruct (failed_get_inv _ _ _ c1 r Hs Hc1i) as (Hg' & Hpw & Hsl); [by rewrite Hfu|].
  eapply winv_thread; [done|done|done|done|done|]. intros c' qj Hj Hqj.
  rewrite Hc1, list_lookup_insert_eq in Hqj by (by eapply lookup_lt_Some). injection Hqj as <-.
  destruct (Hsl c' Hj) as [ms Hms].
  destruct (Hl i c0 q ltac:(done) Hci Hq) as [Hd0 _]. unfold linked. rewrite Hms, Hdh, Hd0.
  split; [by rewrite <- Hpc, Hpw|]. intros _. left. by left.
Qed.

Lemma api_after n t b q ec t' (held_after : bool) :
  api_trace n t → (if (b : bool) then (true, t) else api_table_init q t) = (held_after, t') →
  ec = (if b then n else if held_after then S n else n) → api_trace ec t'.
Proof.
  intros Ht Hi ->. destruct b; [by injection Hi as <- <-|]. by eapply api_init.
Qed.

Lemma winv_connect argc strict c i drained a q q1 q2 ec t w w1 w2 w' :
  winv argc strict w → clients w !! i = Some q → drained_ok drained q →
  (strict = true → EvConnected ∉ drained) →
  close_with drained q = Done q1 → answers_ok a q1 → put i q q1 w = Some w1 →
  connect c a (api w) q1 = Done (ec, q2, t) → clients w1 !! i = Some q1 →
  put i q1 q2 w1 = Some w2 →
  sup_step (Supervisor.LConnect i (bool_decide (ec = success)))
    (mkWorld (sup w2) (clients w2) t (main_closed w2)) = Some w' → winv argc strict w'.
Proof.
  intros [Hb Hl] Hq Hd Htm Hc Ha Hp Hcn Hq1 Hp2 Hk. pose proof (w_client _ _ Hb i q Hq) as Hok.
  destruct (close_put argc strict i drained q q q1 w w1 Hb Hl Hq Hok eq_refl Hd Hc Hp)
    as (Hb1 & Hl1 & [Hi1 _] & Hm1 & Hh1 & Hcn1 & Hap1 & Hdh1 & _ & Hqt1).
  destruct (connect_spec c a (api w) q1 Hi1 Ha) as (r' & q2' & t2 & Hcn' & Hi2 & _).
  rewrite Hcn in Hcn'. injection Hcn' as <- <- <-.
  destruct (connect_effect _ _ _ _ _ _ _ Hcn1 Hm1 Hcn) as (Hdh2 & Hle2 & Hf2 & Hs2 & Hn2 & Hap2 & Hno2).
  destruct (put_inv _ _ _ _ _ Hp) as (Hc1 & Hapi1 & Hg1 & [sl1 Hsl1] & Hne1 & He1).
  destruct (put_inv _ _ _ _ _ Hp2) as (Hc2 & Hapi2 & Hg2 & [sl2 Hsl2] & Hne2 & He2).
  set (w3 := mkWorld (sup w2) (clients w2) t (main_closed w2)) in *.
  assert (wbase argc w3) as Hb3.
  { destruct Hb1 as [Hr1 Hlen1 Hcl1 Htr1]. split; simpl.
    - by eapply reachable_steps.
    - by rewrite Hc2, length_insert.
    - intros j qj. rewrite Hc2. intros [(_ & <- & _)|[_ Hj]]%list_lookup_insert_Some; [|by eapply Hcl1].
      split; [done|]. intros Hx. destruct (api_held_ q2) eqn:Hheld; [done|]. by destruct Hx, Hno2.
    - rewrite Hapi1 in Htr1. eapply api_after; [exact Htr1|exact Hap2|]. rewrite Hc2.
      destruct (api_held_ q1) eqn:Hheld; [|by apply (held_insert _ _ q1)].
      injection Hap2 as Hx _. by rewrite (held_same _ _ q1) by congruence. }
  assert (links strict (Some i) w3) as Hl3.
  { intros j cj qj Hij. simpl. assert (i ≠ j) by congruence. rewrite Hc2, Hg2, Hne2 by done.
    rewrite list_lookup_insert_ne by done. by apply Hl1. }
  pose proof (sup_step_inv _ _ _ Hk) as (Hs & _ & _).
  destruct (connect_label_inv _ _ _ _ Hs) as (Hg' & c2 & Hci2 & Hpc2 & Hafter).
  destruct (He2 c2 Hci2) as (c1 & Hci1 & Hpc1 & _ & Hdf2 & _).
  destruct (He1 c1 Hci1) as (c0 & Hci0 & Hpc0 & _ & Hdf1 & _).
  destruct (Hl i c0 q ltac:(done) Hci0 Hq) as [Hd0 Hpl].
  rewrite <- Hpc0, <- Hpc1, Hpc2 in Hd0, Hpl.
  eapply (winv_thread _ _ _ i); [done|done|done|done|done|]. intros c' qj Hj Hqj.
  simpl in Hqj. rewrite Hc2, list_lookup_insert_eq in Hqj by (by eapply lookup_lt_Some). injection Hqj as <-.
  destruct (Hafter c' Hj) as [Hdf' Hpc']. unfold linked.
  destruct (bool_decide (ec = success)) eqn:Hec; bool_facts.
  - rewrite Hpc', Hdf', Hdh2, Hdh1, Hd0. split; [done|]. destruct (Hs2 Hec) as [Hok2 Hcn2].
    split; [done|]. split; [done|]. intros Hst. destruct (Hpl Hst) as [Hqt Hdf].
    rewrite Hdf2, Hdf1, Hdf, Hf2, Hdh1, Hd0, (Hqt1 (Htm Hst) Hqt). by rewrite Nat.ltb_irrefl.
  - destruct Hpc' as [ms ->]. rewrite Hdh2, Hdh1, Hd0. split; [done|]. intros _. left. right. right.
    by apply Hn2.
Qed.

(** A call that keeps the handles. *)
Lemma winv_call argc strict i q q' w w' :
  winv argc strict w → clients w !! i = Some q → put i q q' w = Some w' →
  QuicClient.inv q' → keeps q q' → tells q q' →
  (strict = true → quiet q → quiet q' ∧ fired q' = fired q) →
  winv argc strict w'.
Proof.
  intros Hw Hq Hp Hi (Ka & Kd & Kc & Km & Kh) Ht Hqt.
  destruct (w_client _ _ (proj1 Hw) i q Hq) as [_ Hh].
  eapply winv_put; [done|done|done|split; [done|by rewrite Kc, Ka]|done|].
  intros c c' Hl Hpc Hdf. eapply linked_call; try done. by rewrite Km, Kh.
Qed.

Lemma winv_event argc strict i ev q q' w w' :
  winv argc strict w → clients w !! i = Some q → connection_ q ≠ None → event_ok ev q →
  (strict = true → ev ≠ EvConnected) →
  on_conn_event ev q = Done q' → put i q q' w = Some w' → winv argc strict w'.
Proof.
  intros Hw Hq Hcn Hev Htm He Hp. destruct (w_client _ _ (proj1 Hw) i q Hq) as [Hi _].
  destruct (event_spec ev q Hi Hev) as (q1 & Hq1 & Hi1 & _). rewrite He in Hq1. injection Hq1 as <-.
  destruct (event_tells _ _ _ He) as [Hk Ht]. eapply winv_call; [done|done|done|done|done|done|].
  intros Hs Hqt. assert (on_events [ev] q = Done q') as Hes by (simpl; by rewrite He).
  destruct (events_timely [ev] q q' Hes) as [To Tn].
  { rewrite elem_of_cons, elem_of_nil. intros [Hx|[]]. by apply (Htm Hs). }
  destruct Ht as (Hle & Hb & Hn & Ho). split.
  - destruct Hqt as [|[Hx|Hx]]; [done|right; left; by apply Hn|right; right; congruence].
  - destruct (fired q <? fired q')%nat eqn:Hlt; bool_facts; [|lia]. exfalso.
    destruct Hqt as [Hx|[Hx|Hx]]; [done|..].
    + rewrite Hx in Hb. by destruct (disconnect_handler_ q).
    + rewrite Tn in Hb by done. by destruct (disconnect_handler_ q), (disc_notified_ q).
Qed.

Lemma winv_main_close argc strict drained q q' w w1 code :
  winv argc strict w → main (sup w) = MainClose code → clients w !! main_closed w = Some q →
  drained_ok drained q → (strict = true → EvConnected ∉ drained) →
  close_with drained q = Done q' → put (main_closed w) q q' w = Some w1 → winv argc strict w1.
Proof.
  intros Hw Hm Hq Hd Htm Hc Hp. destruct (w_client _ _ (proj1 Hw) _ q Hq) as [Hi Hh].
  assert (g_stop (sup w) = true) as Hg.
  { pose proof (inv_main _ _ (reachable_inv _ _ (w_sup _ _ (proj1 Hw)))) as Hmain.
    unfold main_ok in Hmain. rewrite Hm in Hmain. apply Hmain. }
  destruct (close_with_spec drained q Hi Hd) as (q1 & Hc1 & Hi1 & Hms & Hhs & Hcn & Hap & Hdh & Htl & Hst).
  rewrite Hc in Hc1. injection Hc1 as <-.
  eapply winv_put; [done|done|done|by split|done|]. rewrite Hg.
  intros c c' Hl Hpc Hdf. eapply linked_call; try done. intros Hs Hqt. split; [by left|].
  by apply (Hst (Htm Hs)).
Qed.

(** A step of a thread without a call. *)
Lemma thread_winv argc strict l i w w' :
  winv argc strict w → mover l = Some i → sup_step l w = Some w' →
  (∀ c, conns (sup w) !! i = Some c →
    match l with
    | LTop _ => g_stop (sup w) = false
    | LSubmit _ | LWake _ | LAfter _ | LAwake _ => True
    | LGet _ => ∃ r, fut c = Some (true, r)
    | _ => False
    end) →
  winv argc strict w'.
Proof.
  intros [Hb Hl] Hm Hk Hside. pose proof (sup_step_inv _ _ _ Hk) as (Hs & Hc & _).
  assert (∀ c, conns (sup w) !! i = Some c → conn_step l i (sup w) = Some (sup w')) as Hstep.
  { intros c Hci. specialize (Hside c Hci). destruct l; simpl in Hm; try done; by simplify_eq. }
  destruct (conns (sup w) !! i) as [c|] eqn:Hci.
  2:{ exfalso. destruct l; simpl in Hm, Hs; simplify_eq; unfold conn_step, disconnect_step in Hs;
        by rewrite Hci in Hs. }
  specialize (Hstep c eq_refl). specialize (Hside c eq_refl).
  assert (∀ q, clients w !! i = Some q → g_stop (sup w') = g_stop (sup w) ∧
    ∀ c', conns (sup w') !! i = Some c' → linked strict (g_stop (sup w)) c' q) as Hthread.
  { intros q Hq. eapply linked_thread; [done|done|by eapply Hl|done]. }
  assert (is_Some (clients w !! i)) as [q Hq].
  { apply lookup_lt_is_Some_2. rewrite (w_len _ _ Hb). apply lookup_lt_Some in Hci.
    by rewrite (inv_len _ _ (reachable_inv _ _ (w_sup _ _ Hb))) in Hci. }
  eapply winv_thread; [done|by apply links_but|done|done|by apply (Hthread q)|].
  intros c' qj Hj Hqj. by apply (Hthread qj).
Qed.

Lemma silent_winv argc strict l w w' :
  winv argc strict w → silent l w = true → sup_step l w = Some w' → winv argc strict w'.
Proof.
  intros Hw Hsil Hk. destruct (mover l) as [i|] eqn:Hm; [|by eapply winv_others].
  eapply thread_winv; [done|done|done|]. intros c Hc.
  destruct l; simpl in Hm, Hsil |- *; try done. by apply negb_true_iff.
Qed.

Lemma get_winv argc strict i w w' :
  winv argc strict w → failed_answer i w = false → sup_step (LGet i) w = Some w' →
  winv argc strict w'.
Proof.
  intros Hw Hf Hk. apply (thread_winv _ _ (LGet i) i w); [done|done|done|]. intros c Hc. simpl.
  unfold failed_answer in Hf. rewrite Hc in Hf. apply sup_step_inv in Hk as (Hs & _).
  simpl in Hs. unfold conn_step in Hs. rewrite Hc in Hs.
  destruct (pc c); try discriminate. destruct (fut c) as [[[] r]|]; try done. by exists r.
Qed.

Lemma send_tells pkt ctx acc q : keeps q (send_packet pkt ctx acc q) ∧ tells q (send_packet pkt ctx acc q)
  ∧ fired (send_packet pkt ctx acc q) = fired q ∧ (quiet q → quiet (send_packet pkt ctx acc q)).
Proof.
  pose proof (tells_refl q) as Ht. pose proof (keeps_refl q) as Hk. unfold send_packet.
  destruct (connection_ q) eqn:Hc; [|by split_and!].
  destruct (handshake_ok_ q) eqn:Ho; cbn [negb]; [|by split_and!].
  destruct acc; (split; [exact Hk|]); (split; [exact Ht|]); (split; [done|]);
    unfold quiet; simpl; by rewrite Hc, Ho.
Qed.

Lemma wstep_winv argc strict cfg tmpl l w w' :
  winv argc strict w → wallowed l w → (strict = true → timely l) →
  wstep cfg tmpl l w = Done (Some w') → winv argc strict w'.
Proof.
  intros Hw Ha Ht Hs.
  destruct l as [l|i dr a|i dr|i dr|rpc|dr|i ev|i h|i pkt ctx acc]; cbn [wstep wallowed timely] in *.
  - destruct (silent l w) eqn:Hsil; [|done]. injection Hs as Hs. by eapply silent_winv.
  - apply reconnect_inv in Hs as (q & q1 & w1 & ec & q2 & t & w2 & Hq & Hc & Hp & Hcn & Hp2 & Hq1 & Hk).
    destruct (Ha q Hq) as [Hd Hans]. eapply winv_connect; [done|done|done|done|done|by apply Hans|done..].
  - destruct (failed_answer i w) eqn:Hf; [|injection Hs as Hs; by eapply get_winv].
    apply on_client_then_inv in Hs as (q & q' & w1 & Hq & Hc & Hp & Hk).
    eapply winv_failed; eauto.
  - destruct (g_stop (sup w)) eqn:Hg; [|done].
    apply on_client_then_inv in Hs as (q & q' & w1 & Hq & Hc & Hp & Hk).
    eapply winv_exit; eauto.
  - destruct (kj (sup w)) as [|work| |]; try done. destruct (clients w !! cl work) as [q|]; [|done].
    destruct (register_connection _ _ _ _) as [ec resp]. injection Hs as Hs. by eapply winv_others.
  - destruct (main (sup w)) eqn:Hm; try done.
    destruct (on_client (main_closed w) (close_with dr) w) as [[w1|]| |] eqn:Ho; cbn in Hs; try done.
    injection Hs as <-. apply on_client_inv in Ho as (q & q' & Hq & Hc & Hp).
    destruct (winv_main_close argc strict dr q q' w w1 code Hw Hm Hq (Ha q Hq) Ht Hc Hp) as [[] Hl].
    split; [by split|exact Hl].
  - apply on_client_inv in Hs as (q & q' & Hq & Hc & Hp). destruct (Ha q Hq) as [Hcn He].
    by eapply winv_event.
  - apply on_client_inv in Hs as (q & q' & Hq & Hc & Hp). destruct (w_client _ _ (proj1 Hw) i q Hq) as [Hi _].
    unfold s_null_stream_cb in Hc. cbn [negb] in Hc. case_decide; [|done]. injection Hc as <-.
    eapply winv_call; [done|done|done|by destruct Hi|done|apply (tells_refl q)|done].
  - destruct (in_pump w); [|done]. apply on_client_inv in Hs as (q & q' & Hq & [= <-] & Hp).
    destruct (w_client _ _ (proj1 Hw) i q Hq) as [Hi _].
    destruct (send_tells pkt ctx acc q) as (Hk & Htl & Hf & Hqt).
    eapply winv_call; [done|done|done|by apply send_packet_spec; [|apply Ha]|done|done|by auto].
Qed.

Lemma exec_winv argc strict cfg tmpl ls w w' :
  exec cfg tmpl w ls w' → winv argc strict w → (strict = true → Forall timely ls) →
  winv argc strict w'.
Proof.
  induction 1 as [w|w l w1 ls w' Ha Hs _ IH]; [done|]. intros Hw Ht. apply IH.
  - eapply wstep_winv; [done|done| |done]. intros Hst. by apply Forall_cons in Ht as [? _].
  - intros Hst. by apply Forall_cons in Ht as [_ ?].
Qed.

(** ** Totality *)

Lemma on_client_done i f w :
  (∀ q, clients w !! i = Some q → ∃ q', f q = Done q') → ∃ r, on_client i f w = Done r.
Proof.
  intros Hf. unfold on_client. destruct (clients w !! i) as [q|]; [|by eexists].
  destruct (Hf q eq_refl) as [q' ->]. by eexists.
Qed.

Lemma on_client_k_done i f (k : option world → option world) w :
  (∀ q, clients w !! i = Some q → ∃ q', f q = Done q') →
  ∃ r, (let! r := on_client i f w in Done (k r)) = Done r.
Proof. intros Hf. destruct (on_client_done i f w Hf) as [r ->]. by eexists. Qed.

Lemma wstep_done argc strict cfg tmpl l w :
  winv argc strict w → wallowed l w → ∃ r, wstep cfg tmpl l w = Done r.
Proof.
  intros [Hb _] Ha.
  assert (Hclose : ∀ i dr q, clients w !! i = Some q → drained_ok dr q → ∃ q', close_with dr q = Done q').
  { intros i dr q Hq Hd. destruct (w_client _ _ Hb i q Hq) as [Hi _].
    destruct (close_with_spec dr q Hi Hd) as (q' & ? & _). by exists q'. }
  destruct l as [l|i dr a|i dr|i dr|rpc|dr|i ev|i h|i pkt ctx acc]; cbn [wstep wallowed] in *.
  - by eexists.
  - unfold reconnect. destruct (on_client_done i (close_with dr) w) as [r Hr].
    { intros q Hq. eapply Hclose; [done|]. by apply Ha. }
    rewrite Hr. cbn. destruct r as [w1|]; [|by eexists].
    apply on_client_inv in Hr as (q & q1 & Hq & Hc & Hp).
    destruct (put_inv _ _ _ _ _ Hp) as (Hc1 & _).
    rewrite Hc1, list_lookup_insert_eq by (by eapply lookup_lt_Some).
    destruct (w_client _ _ Hb i q Hq) as [Hi _]. destruct (Ha q Hq) as [Hd Hans].
    destruct (close_with_spec dr q Hi Hd) as (q1' & Hc' & Hi1 & _).
    rewrite Hc in Hc'. injection Hc' as <-.
    destruct (connect_spec (cfg i) a (api w1) q1 Hi1 (Hans _ Hc)) as (ec & q2 & t & -> & _).
    by eexists.
  - destruct (failed_answer i w); [|by eexists]. apply on_client_k_done.
    intros q Hq. eapply Hclose; [done|]. by apply Ha.
  - destruct (g_stop (sup w)); [|by eexists]. apply on_client_k_done.
    intros q Hq. destruct (w_client _ _ Hb i q Hq) as [Hi _].
    destruct (close_with_spec dr (set_handler_disconnect false q)) as (q' & ? & _);
      [by destruct Hi|by apply Ha|by exists q'].
  - destruct (kj (sup w)); try by eexists. destruct (clients w !! _); [|by eexists].
    destruct (register_connection _ _ _ _). by eexists.
  - destruct (main (sup w)); try by eexists. apply on_client_k_done.
    intros q Hq. eapply Hclose; [done|]. by apply Ha.
  - apply on_client_done. intros q Hq. destruct (w_client _ _ Hb i q Hq) as [Hi _].
    destruct (event_spec ev q Hi) as (q' & ? & _); [by apply Ha|by exists q'].
  - apply on_client_done. intros q Hq. unfold s_null_stream_cb. cbn [negb].
    rewrite decide_True by (by apply Ha). by eexists.
  - destruct (in_pump w); [|by eexists]. apply on_client_done. by eexists.
Qed.

(** ** The destruction of the clients *)

(** The end of [main]: [clients] goes out of scope. *)
Fixpoint destroy_clients (l : list client) (t : ApiTable) : run ApiTable :=
  match l with
  | [] => Done t
  | q :: l' => let! r := client_dtor t q in destroy_clients l' r.2
  end.

Lemma client_dtor_done t q :
  QuicClient.inv q →
  ∃ q', client_dtor t q = Done (q', if api_held_ q then api_table_release t else t) ∧ handles q' = ∅.
Proof.
  intros Hq. unfold client_dtor.
  destruct (close_effect q Hq) as (q' & -> & _ & _ & Hh & _ & Ha & _). cbn [run_bind]. rewrite Ha.
  by eexists.
Qed.

Lemma destroy_clients_done l t :
  Forall QuicClient.inv l → api_trace (held l) t →
  ∃ t', destroy_clients l t = Done t' ∧ api_trace 0 t'.
Proof.
  revert t. induction l as [|q l IH]; intros t Hl Ht; [by exists t|].
  apply Forall_cons in Hl as [Hq Hl]. destruct (client_dtor_done t q Hq) as (q' & Hd & _).
  cbn [destroy_clients]. rewrite Hd. cbn [run_bind snd]. apply IH; [done|].
  unfold held in Ht. rewrite fmap_cons in Ht. cbn [List.filter id] in Ht.
  destruct (api_held_ q); [|exact Ht]. by apply api_release.
Qed.

(** ** Properties *)



(** C6: The library's table is open whenever a client has a connection, and when
    [main] has returned, every client is closed: no handle of the library is left,
    the destructors of the clients are defined, and the table is closed as often
    as it was opened. *)
Theorem returned_clean argc cfg tmpl ls w :
  exec cfg tmpl (world0 argc) ls w →
  (∀ i q, clients w !! i = Some q → connection_ q ≠ None → g_msquic (api w) = true)
  ∧ ∀ code, main (sup w) = MainReturn code →
      Forall (λ q, handles q = ∅ ∧ members q = []) (clients w)
      ∧ ∃ t, destroy_clients (clients w) (api w) = Done t
             ∧ g_refcount t = 0 ∧ g_msquic t = false ∧ opens t = closes t.
Proof.
  intros He. pose proof (exec_winv argc false _ _ _ _ _ He (winv_world0 argc false) ltac:(done)) as [Hb Hl].
  split.
  - intros i q Hq Hcn. destruct (w_client _ _ Hb i q Hq) as [_ Hh]. specialize (Hh Hcn).
    destruct (api_counted _ _ (w_api _ _ Hb)) as (_ & -> & _). apply Nat.ltb_lt.
    unfold held. apply (Nat.lt_le_trans _ (length [true])); [simpl; lia|].
    assert (true ∈ List.filter id (api_held_ <$> clients w)) as Hin.
    { apply list_elem_of_In, filter_In. split; [|done]. apply list_elem_of_In.
      rewrite <- Hh. apply list_elem_of_fmap_2. by eapply list_elem_of_lookup_2. }
    destruct (List.filter id _); [by apply elem_of_nil in Hin|simpl; lia].
  - intros code Hm. pose proof (reachable_inv _ _ (w_sup _ _ Hb)) as Hinv.
    pose proof (inv_main _ _ Hinv) as Hmain. unfold main_ok in Hmain. rewrite Hm in Hmain.
    destruct Hmain as (_ & _ & _ & Hex & _). split.
    + apply Forall_lookup. intros i q Hq.
      destruct (lookup_lt_is_Some_2 (conns (sup w)) i) as [c Hc].
      { rewrite (inv_len _ _ Hinv), <- (w_len _ _ Hb). by eapply lookup_lt_Some. }
      destruct (Hl i c q ltac:(done) Hc Hq) as [_ Hp]. rewrite (Hex i c Hc) in Hp. by destruct Hp.
    + destruct (destroy_clients_done (clients w) (api w)) as (t & Ht & Htr).
      * apply Forall_lookup. intros i q Hq. apply (w_client _ _ Hb i q Hq).
      * apply (w_api _ _ Hb).
      * exists t. destruct (api_counted _ _ Htr) as (? & ? & ?). simpl in *. split_and!; [done..|lia].
Qed.

(** ** Runs *)

(** Events that say nothing about a datagram or a stream. *)
Definition plain (ev : conn_event) : Prop :=
  match ev with EvSendState _ _ | EvPeerStreamStarted _ => False | _ => True end.

Lemma plain_events_ok evs s : Forall plain evs → events_ok evs s.
Proof.
  intros Hp. revert s. induction Hp as [|ev evs Hev _ IH]; intros s; [done|]. split; [|by intros s' _].
  by destruct ev.
Qed.

Lemma plain_answers_ok a s :
  handles s = ∅ → NoDup (omap id [a_registration a; a_configuration a; a_connection a]) →
  Forall plain (a_events a) → answers_ok a s.
Proof.
  intros Hh Hnd Hp. split; [done|]. split; [intros h _; rewrite Hh; set_solver|].
  intros s' _ _ _. by apply plain_events_ok.
Qed.

Lemma plain_drained_ok drained q :
  (connection_ q = None → drained = []) → Forall plain drained → drained_ok drained q.
Proof. intros Hn Hp. split; [done|]. intros q' _. by apply plain_events_ok. Qed.

(** Three handles from [h] on, and the events of the handshake. *)
Definition answers_from (h : Z) (evs : list conn_event) : answers :=
  mkAnswers true (Some h) (Some (h + 1)) None true (Some (h + 2)) true true evs.

Ltac wrun_step :=
  eapply exec_cons; [|vm_compute; reflexivity|];
  [first [exact I
         |intros q Hq; vm_compute in Hq; injection Hq as <-;
          first [split; [discriminate|exact I]
                |apply plain_drained_ok; [done|by repeat constructor]
                |split; [apply plain_drained_ok; [done|by repeat constructor]|];
                 intros q' Hq'; vm_compute in Hq'; injection Hq' as <-;
                 apply plain_answers_ok;
                   [reflexivity|apply (bool_decide_eq_true_1 _); by vm_compute|by repeat constructor]]]|].

Definition edge_grants : rpc_request → rpc_result := λ _, RpcDetails (replicate 16 7) (str "lhr01").

(** The world after some steps, when they can be made. *)
Fixpoint wsteps (ls : list wlabel) (w : world) : option world :=
  match ls with
  | [] => Some w
  | l :: ls' =>
      match wstep (λ _, QuicConfig_default) RegisterRequest_default l w with
      | Done (Some w') => wsteps ls' w'
      | _ => None
      end
  end.

(** A handshake that completes after [connect] has given up: the connection is not
    used, its shutdown in the next [close] runs the disconnect handler, and the
    connection that is registered next counts as lost. *)
Definition late_labels : list wlabel :=
  [WSup (LTop 0); WConnect 0 [] (answers_from 1 []); WEvent 0 EvConnected;
   WSup (LAwake 0); WSup (LTop 0);
   WConnect 0 [EvShutdownComplete] (answers_from 4 [EvConnected]);
   WSup (LSubmit 0); WSup LKjTake; WAnswer edge_grants; WGet 0 []].

Definition late_world : world := default (world0 3) (wsteps late_labels (world0 3)).

(** The flag is not exact when a handshake is late: there is a run in which a thread
    is registered, its connection is up and no shutdown of it was reported, and yet
    its flag is set, so that the wait ends at once and the connection is dropped. *)
Theorem late_handshake :
  exec (λ _, QuicConfig_default) RegisterRequest_default (world0 3) late_labels late_world
  ∧ ∃ c q, conns (sup late_world) !! 0%nat = Some c ∧ clients late_world !! 0%nat = Some q
    ∧ pc c = Registered ∧ ok_count (sup late_world) = 1
    ∧ connection_ q = Some 6 ∧ handshake_ok_ q = true ∧ disc_notified_ q = false
    ∧ disc_fired c = true
    ∧ ∃ w', wsteps [WSup (LWake 0); WSup (LAfter 0)] late_world = Some w' ∧ ok_count (sup w') = 0.
Proof.
  split.
  - unfold late_labels. do 10 wrun_step. apply exec_nil.
  - do 2 eexists. split; [vm_compute; reflexivity|]. split; [vm_compute; reflexivity|].
    split_and!; try reflexivity. eexists. split; [vm_compute; reflexivity|].
    by vm_compute.
Qed.

(** ** [close] of the main thread against [connect] *)

(** [close] takes [close_mu_], [connect] does not. The parts of [connect] that look
    at the members, for calls of the library that succeed: each uses the members
    as it finds them, and a handle that is null or closed is undefined. *)
Definition use (m : client → option handle) (k : client → run client) (q : client) : run client :=
  match m q with
  | Some h => if decide (h ∈ handles q) then k q else UB
  | None => UB
  end.

Definition connect_parts (c : QuicConfig) (a : answers) (reg conf conn : handle)
    : list (client → run client) :=
  [ λ q, assign_registration reg (open_handle KRegistration reg q);
    use registration_ (λ q,
      Done (log_call (AConfigurationOpen (default 0 (registration_ q)) (alpn c) connect_settings) q));
    λ q, assign_configuration conf (open_handle KConfiguration conf q);
    use configuration_ (λ q,
      Done (log_call (ALoadCredential (default 0 (configuration_ q))
                        (tls_credentials c (a_embedded a))) q));
    use registration_ (λ q, assign_connection conn (open_handle KConnection conn q));
    use connection_ (λ q,
      Done (log_call (ASetRemoteAddress (default 0 (connection_ q)) (edge_port c)) q));
    use connection_ (use configuration_ (λ q,
      Done (log_call (AConnectionStart (default 0 (connection_ q)) (default 0 (configuration_ q))
                        (sni c) (edge_port c)) q))) ].

Definition close_parts : list (client → run client) :=
  [ λ q, Done (match connection_ q with Some h => log_call (AConnectionShutdown h) q | None => q end);
    λ q, reset_handle KConnection (connection_ q)
           (set_members (registration_ q) (configuration_ q) None q);
    λ q, reset_handle KConfiguration (configuration_ q)
           (set_members (registration_ q) None (connection_ q) q);
    λ q, reset_handle KRegistration (registration_ q)
           (set_members None (configuration_ q) (connection_ q) q) ].

Fixpoint run_parts (ps : list (client → run client)) (q : client) : run client :=
  match ps with
  | [] => Done q
  | p :: ps' => let! q := p q in run_parts ps' q
  end.

(** [true] in the schedule: the thread that connects. *)
Fixpoint race_parts (sched : list bool) (ps1 ps2 : list (client → run client)) (q : client)
    : run client :=
  match sched with
  | [] => Done q
  | b :: sched' =>
      match (if (b : bool) then ps1 else ps2) with
      | [] => race_parts sched' ps1 ps2 q
      | p :: ps' =>
          let! q := p q in
          if (b : bool) then race_parts sched' ps' ps2 q else race_parts sched' ps1 ps' q
      end
  end.

Lemma use_open m k q h : m q = Some h → h ∈ handles q → use m k q = k q.
Proof. intros Hm Hh. unfold use. by rewrite Hm, decide_True. Qed.

(** A member that is empty takes a handle. *)
Lemma assign_empty h q :
  (registration_ q = None → assign_registration h q = Done (set_members (Some h) (configuration_ q) (connection_ q) q))
  ∧ (configuration_ q = None → assign_configuration h q = Done (set_members (registration_ q) (Some h) (connection_ q) q))
  ∧ (connection_ q = None → assign_connection h q = Done (set_members (registration_ q) (configuration_ q) (Some h) q)).
Proof.
  unfold assign_registration, assign_configuration, assign_connection.
  by split_and!; intros ->.
Qed.

Lemma run_close_parts q : run_parts close_parts q = close q.
Proof.
  unfold close. cbn [run_parts close_parts run_bind].
  destruct (reset_handle KConnection _ _) as [q1| |]; cbn [run_bind]; [|done..].
  destruct (reset_handle KConfiguration _ _) as [q2| |]; cbn [run_bind]; [|done..].
  by destruct (reset_handle KRegistration _ _).
Qed.

Lemma run_connect_parts c a q reg conf conn :
  members q = [] → a_registration a = Some reg → a_configuration a = Some conf →
  a_credential a = true → a_connection a = Some conn → a_resolved a = true → a_start a = true →
  connect_open c a q
  = let! q := run_parts (connect_parts c a reg conf conn) q in
    let! q := on_events (a_events a) q in
    Done (if handshake_ok_ q then success else connection_aborted, q).
Proof.
  intros Hm Hr Hc Hcr Hn Hres Hst.
  assert (connection_ q = None ∧ configuration_ q = None ∧ registration_ q = None) as (Hqn & Hqc & Hqr).
  { unfold members in Hm. by destruct (connection_ q), (configuration_ q), (registration_ q). }
  unfold connect_open, connect_start. rewrite Hr, Hc, Hn, Hcr, Hres, Hst. cbn [negb].
  cbn [run_parts connect_parts].
  set (o1 := open_handle KRegistration reg q).
  rewrite (proj1 (assign_empty reg o1)) by exact Hqr. cbn [run_bind].
  set (q1 := set_members _ _ _ o1).
  rewrite (use_open registration_ _ q1 reg) by (reflexivity || (apply elem_of_union_l; by apply elem_of_singleton)).
  cbn [run_bind]. set (q2 := log_call _ q1). set (o2 := open_handle KConfiguration conf q2).
  rewrite (proj1 (proj2 (assign_empty conf o2))) by exact Hqc. cbn [run_bind].
  set (q3 := set_members _ _ _ o2).
  assert (conf ∈ handles q3 ∧ reg ∈ handles q3) as [Hconf Hreg].
  { split; [apply elem_of_union_l; by apply elem_of_singleton|].
    apply elem_of_union_r, elem_of_union_l. by apply elem_of_singleton. }
  rewrite (use_open configuration_ _ q3 conf) by done. cbn [run_bind].
  set (q4 := log_call _ q3). rewrite (use_open registration_ _ q4 reg) by done.
  set (o5 := open_handle KConnection conn q4).
  rewrite (proj2 (proj2 (assign_empty conn o5))) by exact Hqn. cbn [run_bind].
  set (q5 := set_members _ _ _ o5).
  assert (conn ∈ handles q5 ∧ conf ∈ handles q5) as [Hconn Hconf'].
  { split; [apply elem_of_union_l; by apply elem_of_singleton|by apply elem_of_union_r]. }
  rewrite (use_open connection_ _ q5 conn) by done. cbn [run_bind].
  set (q6 := log_call _ q5). rewrite (use_open connection_ _ q6 conn) by done.
  rewrite (use_open configuration_ _ q6 conf) by done. cbn [run_bind].
  change (log_call (AConnectionStart (default 0 (connection_ q6)) _ _ _) q6)
    with (log_call (AConnectionStart conn conf (sni c) (edge_port c)) q6).
  destruct (on_events _ _) as [q7| |]; cbn [run_bind]; [|done..]. by destruct (handshake_ok_ q7).
Qed.

(** The threads stand where both calls can be made. *)
Definition race_labels : list wlabel :=
  [WSup LMainTimeout; WSup (LTop 0); WSup LMainTest].

Definition race_world : world := default (world0 3) (wsteps race_labels (world0 3)).

(** The parts are those of the whole calls: one after the other they are [close], and
    [connect] from a closed client up to the wait. When the main thread gives up,
    it closes each client without waiting for its thread: there are runs in which
    that thread is in [connect], and schedules of the two calls in which [connect]
    uses a handle that is null. *)
Theorem connect_close_race :
  (∀ q, run_parts close_parts q = close q)
  ∧ (∀ c a q reg conf conn,
       members q = [] → a_registration a = Some reg → a_configuration a = Some conf →
       a_credential a = true → a_connection a = Some conn → a_resolved a = true → a_start a = true →
       connect_open c a q
       = let! q := run_parts (connect_parts c a reg conf conn) q in
         let! q := on_events (a_events a) q in
         Done (if handshake_ok_ q then success else connection_aborted, q))
  ∧ exec (λ _, QuicConfig_default) RegisterRequest_default (world0 3) race_labels race_world
  ∧ (∃ w', wstep (λ _, QuicConfig_default) RegisterRequest_default (WMainClose []) race_world
           = Done (Some w'))
  ∧ (∃ w', wstep (λ _, QuicConfig_default) RegisterRequest_default
             (WConnect 0 [] (answers_from 1 [EvConnected])) race_world = Done (Some w'))
  ∧ race_parts [true; false; false; false; false; true]
      (connect_parts QuicConfig_default (answers_from 1 []) 1 2 3) close_parts new_client = UB.
Proof.
  split; [apply run_close_parts|]. split; [intros; by apply run_connect_parts|].
  split; [|split; [|split]].
  - unfold race_labels. do 3 wrun_step. apply exec_nil.
  - eexists. vm_compute. reflexivity.
  - eexists. vm_compute. reflexivity.
  - vm_compute. reflexivity.
Qed.

(** ** Witnesses *)

(** Connection 0 registers, sends a packet, is lost, and registers again; then the
    program stops. *)
Definition sample_run : list wlabel :=
  [WSup (LTop 0); WConnect 0 [] (answers_from 1 [EvConnected]); WSup (LSubmit 0); WSup LKjTake;
   WAnswer edge_grants; WGet 0 []; WSup LMainWake; WSup LMainTest;
   WSend 0 [69; 0] 0 false; WEvent 0 EvShutdownByPeer].

Definition sample_world : world := default (world0 3) (wsteps sample_run (world0 3)).

Lemma sample_exec :
  exec (λ _, QuicConfig_default) RegisterRequest_default (world0 3) sample_run sample_world.
Proof.
  unfold sample_run. do 8 wrun_step.
  eapply exec_cons; [|vm_compute; reflexivity|].
  { intros q Hq; vm_compute in Hq; injection Hq as <-. simpl. apply not_elem_of_empty. }
  wrun_step. apply exec_nil.
Qed.

Definition sample_rest : list wlabel :=
  [WSup (LWake 0); WSup (LAfter 0); WSup LSignal; WSup LMainPump;
   WMainClose [EvShutdownComplete]; WMainClose []; WMainClose []; WMainClose []; WSup LMainClose;
   WSup (LAwake 0); WExit 0 []; WExit 1 []; WExit 2 []; WExit 3 [];
   WSup LMainJoin; WSup LMainJoin; WSup LMainJoin; WSup LMainJoin; WSup LMainJoin;
   WSup LMainKjStop; WSup LKjExit; WSup LKjDrained; WSup LMainKjJoin].

Definition end_world : world := default (world0 3) (wsteps (sample_run ++ sample_rest) (world0 3)).

Lemma end_exec :
  exec (λ _, QuicConfig_default) RegisterRequest_default (world0 3) (sample_run ++ sample_rest) end_world.
Proof.
  unfold sample_run, sample_rest. cbn [app]. do 8 wrun_step.
  eapply exec_cons; [|vm_compute; reflexivity|].
  { intros q Hq; vm_compute in Hq; injection Hq as <-. simpl. apply not_elem_of_empty. }
  do 24 wrun_step. apply exec_nil.
Qed.



Lemma returned_clean_witness :
  main (sup end_world) = MainReturn 0
  ∧ ∃ t, destroy_clients (clients end_world) (api end_world) = Done t ∧ opens t = closes t.
Proof.
  assert (main (sup end_world) = MainReturn 0) as Hm by (vm_compute; reflexivity).
  split; [exact Hm|].
  destruct (returned_clean 3 _ _ _ end_world end_exec) as [_ Hr].
  destruct (Hr 0 Hm) as (_ & t & Ht & _ & _ & Ho). exists t. split; [exact Ht|exact Ho].
Defined.
