(* ===== verification/Shutdown.v ===== *)
(** * The shutdown of the whole program

    src/main.cpp after [g_stop] is set, with the clients in place: [Supervisor] shows
    that the threads come to an end, and here the calls they make on the clients of
    [System] are shown not to stand in their way, whatever the library answers. As in
    [Supervisor], a wait sees its condition as soon as it holds; the notifications are
    looked at in [Supervisor.lost_wakeup]. *)
From S2P Require Import Prelude Registration Supervisor QuicClient System.
Local Open Scope Z_scope.
Local Open Scope cfd_scope.

(** ** Work *)

(** The clients that [shutdown_all] has still to close are work too. *)
Definition wmeasure (w : world) : Z :=
  measure (sup w) + (Z.of_nat kNumHaConns - Z.of_nat (main_closed w)).

(** The steps of the threads; the others are the library's and the user's. *)
Definition wown (l : wlabel) : bool :=
  match l with
  | WSup l => own l
  | WEvent _ _ | WStreamDone _ _ | WSend _ _ _ _ => false
  | _ => true
  end.

(** What every step is given: the invariant of the threads, the stop flag, and no
    more than four clients closed. *)
Definition stopping (argc : Z) (w : world) : Prop :=
  Supervisor.inv argc (sup w) ∧ g_stop (sup w) = true ∧ (main_closed w ≤ kNumHaConns)%nat
  ∧ length (clients w) = kNumHaConns.

(** A call on a client, with the handler it runs, is no work. *)
Lemma put_stopping argc i q q' w w' :
  stopping argc w → put i q q' w = Some w' →
  stopping argc w' ∧ wmeasure w' = wmeasure w ∧ main_closed w' = main_closed w
  ∧ main (sup w') = main (sup w).
Proof.
  intros (Hi & Hg & Hm & Hl) Hp. unfold put in Hp. apply bind_Some in Hp as (s & Hs & [= <-]).
  unfold stopping, wmeasure. simpl. rewrite length_insert.
  unfold notify in Hs. destruct (fired q <? fired q')%nat; [|by injection Hs as <-].
  split_and!; try done; [by eapply inv_step|by eapply step_stop| |].
  - by rewrite (measure_env _ _ _ Hs).
  - simpl in Hs. unfold disconnect_step in Hs. by repeat case_match; simplify_eq.
Qed.

(** A step of a thread is. *)
Lemma sup_step_stopping argc l w w' :
  stopping argc w → own l = true → sup_step l w = Some w' →
  stopping argc w' ∧ wmeasure w' < wmeasure w.
Proof.
  intros (Hi & Hg & Hm & Hl) Ho Hs. unfold sup_step in Hs. apply bind_Some in Hs as (s & Hs & [= <-]).
  unfold stopping, wmeasure. simpl. pose proof (measure_own _ _ _ _ Hi Hg Hs Ho).
  split_and!; try done; [by eapply inv_step|by eapply step_stop|lia].
Qed.

(** The steps of the environment that the threads' machine has. *)
Lemma sup_env_stopping argc l w w' :
  stopping argc w → own l = false → sup_step l w = Some w' →
  stopping argc w' ∧ wmeasure w' = wmeasure w.
Proof.
  intros (Hi & Hg & Hm & Hl) Ho Hs. unfold sup_step in Hs. apply bind_Some in Hs as (s & Hs & [= <-]).
  unfold stopping, wmeasure. simpl. pose proof (measure_env _ _ _ Hs Ho).
  split_and!; try done; [by eapply inv_step|by eapply step_stop|lia].
Qed.

(** A call on a client and then a step of a thread. *)
Lemma put_then_step argc i q q' l w w1 w' :
  stopping argc w → own l = true → put i q q' w = Some w1 → sup_step l w1 = Some w' →
  stopping argc w' ∧ wmeasure w' < wmeasure w.
Proof.
  intros Hw Ho Hp Hs. destruct (put_stopping _ _ _ _ _ _ Hw Hp) as (Hw1 & <- & _).
  by apply (sup_step_stopping argc l).
Qed.

Lemma wstep_stopping argc cfg tmpl l w w' :
  stopping argc w → wstep cfg tmpl l w = Done (Some w') →
  stopping argc w' ∧ if wown l then wmeasure w' < wmeasure w else wmeasure w' = wmeasure w.
Proof.
  intros Hw Hs. destruct l as [l|i dr a|i dr|i dr|rpc|dr|i ev|i h|i pkt ctx acc]; cbn [wstep wown] in *.
  - destruct (silent l w); [|done]. injection Hs as Hs. destruct (own l) eqn:Ho.
    + by eapply sup_step_stopping.
    + by eapply sup_env_stopping.
  - apply reconnect_inv in Hs as (q & q1 & w1 & ec & q2 & t & w2 & _ & _ & Hp & _ & Hp2 & _ & Hk).
    destruct (put_stopping _ _ _ _ _ _ Hw Hp) as (Hw1 & <- & _).
    destruct (put_stopping _ _ _ _ _ _ Hw1 Hp2) as (Hw2 & <- & _).
    exact (sup_step_stopping argc (Supervisor.LConnect i _)
      (mkWorld (sup w2) (clients w2) t (main_closed w2)) w' Hw2 eq_refl Hk).
  - destruct (failed_answer i w); [|injection Hs as Hs; by apply (sup_step_stopping argc (LGet i))].
    apply on_client_then_inv in Hs as (q & q' & w1 & _ & _ & Hp & Hk).
    by apply (put_then_step argc i q q' (LGet i) w w1).
  - destruct (g_stop (sup w)); [|done].
    apply on_client_then_inv in Hs as (q & q' & w1 & _ & _ & Hp & Hk).
    by apply (put_then_step argc i q q' (LTop i) w w1).
  - destruct (kj (sup w)) as [|work| |]; try done. destruct (clients w !! cl work) as [q|]; [|done].
    destruct (register_connection _ _ _ _) as [ec resp]. injection Hs as Hs.
    by eapply (sup_step_stopping argc (LKjAnswer _)).
  - destruct (main (sup w)); try done.
    destruct (on_client (main_closed w) (close_with dr) w) as [[w1|]| |] eqn:Ho; cbn in Hs; try done.
    injection Hs as <-. apply on_client_inv in Ho as (q & q' & Hq & _ & Hp).
    destruct (put_stopping _ _ _ _ _ _ Hw Hp) as ((Hi & Hg & _ & Hl) & Hm & Hc & _).
    apply lookup_lt_Some in Hq. destruct Hw as (_ & _ & _ & Hlw). rewrite Hlw in Hq.
    unfold stopping, wmeasure in *. simpl. split_and!; try done; lia.
  - apply on_client_inv in Hs as (q & q' & _ & _ & Hp).
    by destruct (put_stopping _ _ _ _ _ _ Hw Hp) as (? & ? & _).
  - apply on_client_inv in Hs as (q & q' & _ & _ & Hp).
    by destruct (put_stopping _ _ _ _ _ _ Hw Hp) as (? & ? & _).
  - destruct (in_pump w); [|done]. apply on_client_inv in Hs as (q & q' & _ & _ & Hp).
    by destruct (put_stopping _ _ _ _ _ _ Hw Hp) as (? & ? & _).
Qed.

(** ** The next step *)

(** The handler of a thread that has not returned takes the notification. *)
Lemma notify_some i q q' s c :
  conns s !! i = Some c → pc c <> Exited →
  ∃ s' c', notify i q q' s = Some s' ∧ conns s' !! i = Some c'
    ∧ pc c' = pc c ∧ fut c' = fut c ∧ main s' = main s.
Proof.
  intros Hc Hp. unfold notify. destruct (fired q <? fired q')%nat; [|by exists s, c].
  simpl. unfold disconnect_step. rewrite Hc.
  destruct (pc c) eqn:Hpc; try done; do 2 eexists; (split; [done|]); simpl;
    (split; [apply list_lookup_insert_eq; by eapply lookup_lt_Some|]); by split_and!.
Qed.

(** Closing a client outside of [connect], without late events. *)
Lemma close_now q : QuicClient.inv q →
  ∃ q', close_with [] q = Done q' ∧ fired q' = fired q ∧ QuicClient.inv q'.
Proof.
  intros Hq. unfold close_with.
  destruct (close_effect q Hq) as (q' & -> & Hi & _ & _ & _ & _ & _ & _ & _ & Hf).
  by exists q'.
Qed.

Lemma put_quiet i q q' w : fired q' = fired q →
  put i q q' w = Some (mkWorld (sup w) (<[i := q']> (clients w)) (api w) (main_closed w)).
Proof. intros Hf. unfold put, notify. by rewrite Hf, Nat.ltb_irrefl. Qed.

Lemma drained_nil q : drained_ok [] q.
Proof. by split. Qed.

(** Answers of a library that is not there. *)
Definition no_answers : answers := mkAnswers false None None None false None false false [].

Lemma no_answers_ok q : answers_ok no_answers q.
Proof. split_and!; [constructor|intros h; set_solver|done]. Qed.

(** The threads and the clients of a world that is stopping. *)
Section progress.
Context (argc : Z) (cfg : nat → QuicConfig) (tmpl : RegisterRequest).

Definition can_go (w : world) : Prop :=
  ∃ l w', wown l = true ∧ wallowed l w ∧ wstep cfg tmpl l w = Done (Some w').

Lemma thread_client w i c :
  wbase argc w → Supervisor.inv argc (sup w) → conns (sup w) !! i = Some c →
  ∃ q, clients w !! i = Some q ∧ QuicClient.inv q.
Proof.
  intros Hb Hi Hc. apply lookup_lt_Some in Hc. rewrite (inv_len _ _ Hi), <- (w_len _ _ Hb) in Hc.
  destruct (lookup_lt_is_Some_2 _ _ Hc) as [q Hq]. exists q. split; [done|].
  by apply (w_client _ _ Hb i q Hq).
Qed.

Lemma silent_goes w l s' :
  silent l w = true → own l = true → Supervisor.step l (sup w) = Some s' → can_go w.
Proof.
  intros Hs Ho Hst. exists (WSup l), (mkWorld s' (clients w) (api w) (main_closed w)).
  split; [done|]. split; [done|]. cbn [wstep]. unfold sup_step. by rewrite Hs, Hst.
Qed.

Lemma top_goes w i s' :
  wbase argc w → Supervisor.inv argc (sup w) → g_stop (sup w) = true →
  Supervisor.step (LTop i) (sup w) = Some s' → can_go w.
Proof.
  intros Hb Hi Hg Hst.
  assert (∃ c, conns (sup w) !! i = Some c) as [c Hc].
  { simpl in Hst. unfold conn_step in Hst. destruct (conns (sup w) !! i); [by eexists|done]. }
  destruct (thread_client w i c Hb Hi Hc) as (q & Hq & Hqi).
  destruct (close_now (set_handler_disconnect false q)) as (q' & Hcl & Hf & _); [by destruct Hqi|].
  eexists (WExit i []), _. split; [done|]. split; [cbn; intros; apply drained_nil|].
  cbn [wstep]. rewrite Hg. unfold on_client. rewrite Hq, Hcl. cbn [run_bind].
  rewrite (put_quiet i q q') by done. cbn [run_bind mbind option_bind]. unfold sup_step. simpl sup.
  by rewrite Hst.
Qed.

Lemma connect_goes w i c :
  wbase argc w → Supervisor.inv argc (sup w) → conns (sup w) !! i = Some c → pc c = Connecting →
  can_go w.
Proof.
  intros Hb Hi Hc Hp. destruct (thread_client w i c Hb Hi Hc) as (q & Hq & Hqi).
  destruct (close_now q Hqi) as (q1 & Hcl & Hf & Hq1).
  destruct (connect_spec (cfg i) no_answers (api w) q1 Hq1 (no_answers_ok q1))
    as (ec & q2 & t & Hcn & _).
  destruct (notify_some i q1 q2 (sup w) c Hc) as (s1 & c1 & Hn & Hc1 & Hp1 & _); [congruence|].
  assert (∃ w', wstep cfg tmpl (WConnect i [] no_answers) w = Done (Some w')) as [w' Hw'].
  2:{ exists (WConnect i [] no_answers), w'. split_and!; [done| |done].
      cbn. intros. split; [apply drained_nil|intros; apply no_answers_ok]. }
  cbn [wstep]. unfold reconnect, on_client. rewrite Hq, Hcl. cbn [run_bind].
  rewrite (put_quiet i q q1) by done. cbn [run_bind clients api].
  rewrite list_lookup_insert_eq by (by eapply lookup_lt_Some). rewrite Hcn. cbn [run_bind].
  unfold put. cbn [sup]. rewrite Hn. cbn [mbind option_bind]. unfold sup_step. cbn [sup].
  simpl Supervisor.step. unfold conn_step. rewrite Hc1, Hp1, Hp.
  destruct (bool_decide (ec = success)); by eexists.
Qed.

Lemma get_goes w i s' :
  wbase argc w → Supervisor.inv argc (sup w) →
  Supervisor.step (LGet i) (sup w) = Some s' → can_go w.
Proof.
  intros Hb Hi Hst.
  assert (∃ c, conns (sup w) !! i = Some c) as [c Hc].
  { simpl in Hst. unfold conn_step in Hst. destruct (conns (sup w) !! i); [by eexists|done]. }
  destruct (thread_client w i c Hb Hi Hc) as (q & Hq & Hqi).
  destruct (close_now q Hqi) as (q' & Hcl & Hf & _).
  assert (∃ w', wstep cfg tmpl (WGet i []) w = Done (Some w')) as [w' Hw'].
  2:{ exists (WGet i []), w'. split_and!; [done| |done]. cbn. intros. apply drained_nil. }
  cbn [wstep]. destruct (failed_answer i w); unfold on_client, sup_step.
  - rewrite Hq, Hcl. cbn [run_bind]. rewrite (put_quiet i q q') by done.
    cbn [run_bind mbind option_bind sup]. rewrite Hst. by eexists.
  - rewrite Hst. by eexists.
Qed.

Lemma answer_goes w s' a :
  wbase argc w → Supervisor.inv argc (sup w) →
  Supervisor.step (LKjAnswer a) (sup w) = Some s' → can_go w.
Proof.
  intros Hb Hi Hst. simpl in Hst. unfold kj_step in Hst.
  destruct (kj (sup w)) as [|work| |] eqn:Hk; try done.
  assert (∃ c, conns (sup w) !! cl work = Some c) as [c Hc].
  { destruct (proj1 (inv_pending _ _ Hi (cl work))) as (c & Hc & _); [|by exists c].
    unfold pending. rewrite Hk. simpl. by left. }
  destruct (thread_client w (cl work) c Hb Hi Hc) as (q & Hq & _).
  assert (∃ w', wstep cfg tmpl (WAnswer (λ _, RpcException)) w = Done (Some w')) as [w' Hw'].
  2:{ by exists (WAnswer (λ _, RpcException)), w'. }
  cbn [wstep]. rewrite Hk, Hq.
  destruct (register_connection _ _ _ _) as [ec resp]. unfold sup_step. simpl Supervisor.step.
  unfold kj_step. rewrite Hk. by eexists.
Qed.

Lemma main_close_goes w s' :
  wbase argc w → (main_closed w ≤ kNumHaConns)%nat →
  Supervisor.step LMainClose (sup w) = Some s' → can_go w.
Proof.
  intros Hb Hm Hst. destruct (decide (main_closed w = kNumHaConns)) as [He|Hne].
  { apply (silent_goes w LMainClose s'); [|done|done]. simpl. by apply Nat.eqb_eq. }
  assert (∃ q, clients w !! main_closed w = Some q) as [q Hq].
  { apply lookup_lt_is_Some_2. rewrite (w_len _ _ Hb). lia. }
  destruct (w_client _ _ Hb _ _ Hq) as [Hqi _]. destruct (close_now q Hqi) as (q' & Hcl & Hf & _).
  eexists (WMainClose []), _. split; [done|]. split; [cbn; intros; apply drained_nil|].
  cbn [wstep]. simpl in Hst. unfold main_step in Hst. destruct (main (sup w)); try done.
  unfold on_client. rewrite Hq, Hcl. cbn [run_bind]. by rewrite (put_quiet _ q q').
Qed.

(** Whatever the threads can do, they can do with their clients. *)
Lemma world_progress w :
  winv argc false w → stopping argc w → (∀ code, main (sup w) <> MainReturn code) → can_go w.
Proof.
  intros [Hb _] (Hi & Hg & Hm & _) Hnr.
  destruct (stop_progress argc (sup w) Hi Hg Hnr) as (l & s' & Ho & Hst).
  destruct l; try done; try (eapply silent_goes; [|exact Ho|exact Hst]; done).
  - by eapply top_goes.
  - simpl in Hst. unfold conn_step in Hst. destruct (conns (sup w) !! i) as [c|] eqn:Hc; [|done].
    destruct (pc c) eqn:Hp; try done. by apply (connect_goes w i c).
  - by eapply get_goes.
  - by eapply answer_goes.
  - by eapply main_close_goes.
Qed.
End progress.

(** ** The closed clients *)

Lemma put_closed i q q' w w' : put i q q' w = Some w' → main_closed w' = main_closed w.
Proof. intros Hp. unfold put in Hp. by apply bind_Some in Hp as (s & _ & [= <-]). Qed.

Lemma sup_step_closed l w w' : sup_step l w = Some w' → main_closed w' = main_closed w.
Proof. intros Hs. unfold sup_step in Hs. by apply bind_Some in Hs as (s & _ & [= <-]). Qed.

(** Only [shutdown_all] counts, and it closes clients that are there. *)
Lemma wstep_closed cfg tmpl l w w' :
  wstep cfg tmpl l w = Done (Some w') → (main_closed w ≤ length (clients w))%nat →
  (main_closed w' ≤ length (clients w))%nat.
Proof.
  intros Hs Hm. destruct l as [l|i dr a|i dr|i dr|rpc|dr|i ev|i h|i pkt ctx acc]; cbn [wstep] in *.
  - destruct (silent l w); [|done]. injection Hs as Hs. by rewrite (sup_step_closed _ _ _ Hs).
  - apply reconnect_inv in Hs as (q & q1 & w1 & ec & q2 & t & w2 & _ & _ & Hp & _ & Hp2 & _ & Hk).
    apply sup_step_closed in Hk. apply put_closed in Hp, Hp2. simpl in Hk. congruence.
  - destruct (failed_answer i w); [|injection Hs as Hs; by rewrite (sup_step_closed _ _ _ Hs)].
    apply on_client_then_inv in Hs as (q & q' & w1 & _ & _ & Hp & Hk).
    apply sup_step_closed in Hk. apply put_closed in Hp. congruence.
  - destruct (g_stop (sup w)); [|done].
    apply on_client_then_inv in Hs as (q & q' & w1 & _ & _ & Hp & Hk).
    apply sup_step_closed in Hk. apply put_closed in Hp. congruence.
  - destruct (kj (sup w)) as [|work| |]; try done. destruct (clients w !! cl work) as [q|]; [|done].
    destruct (register_connection _ _ _ _) as [ec resp]. injection Hs as Hs.
    by rewrite (sup_step_closed _ _ _ Hs).
  - destruct (main (sup w)); try done.
    destruct (on_client (main_closed w) (close_with dr) w) as [[w1|]| |] eqn:Ho; cbn in Hs; try done.
    injection Hs as <-. apply on_client_inv in Ho as (q & q' & Hq & _ & Hp).
    apply put_closed in Hp. apply lookup_lt_Some in Hq. simpl. lia.
  - apply on_client_inv in Hs as (q & q' & _ & _ & Hp). by rewrite (put_closed _ _ _ _ _ Hp).
  - apply on_client_inv in Hs as (q & q' & _ & _ & Hp). by rewrite (put_closed _ _ _ _ _ Hp).
  - destruct (in_pump w); [|done]. apply on_client_inv in Hs as (q & q' & _ & _ & Hp).
    by rewrite (put_closed _ _ _ _ _ Hp).
Qed.

Lemma exec_closed cfg tmpl ls w w' :
  exec cfg tmpl w ls w' → (main_closed w ≤ length (clients w))%nat →
  (main_closed w' ≤ length (clients w'))%nat.
Proof.
  induction 1 as [w|w l w1 ls w' Ha Hs Hx IH]; [done|]. intros Hm. apply IH.
  destruct (wstep_refines _ _ _ _ _ Ha Hs) as (_ & -> & _). by eapply wstep_closed.
Qed.

Lemma exec_app cfg tmpl w1 ls w2 ls' w3 :
  exec cfg tmpl w1 ls w2 → exec cfg tmpl w2 ls' w3 → exec cfg tmpl w1 (ls ++ ls') w3.
Proof. induction 1; [done|]. intros. simpl. econstructor; eauto. Qed.

(** ** Properties *)

Section theorems.
Context (argc : Z) (cfg : nat → QuicConfig) (tmpl : RegisterRequest).

Lemma exec_stopping ls w :
  exec cfg tmpl (world0 argc) ls w → g_stop (sup w) = true →
  winv argc false w ∧ stopping argc w.
Proof.
  intros Hx Hg.
  assert (winv argc false w) as Hw.
  { eapply exec_winv; [exact Hx|apply winv_world0|done]. }
  split; [done|]. destruct Hw as [Hb _]. split_and!; [apply reachable_inv, Hb|done| |apply Hb].
  rewrite <- (w_len _ _ Hb). eapply exec_closed; [exact Hx|]. simpl. lia.
Qed.

Lemma wmeasure_bound w : stopping argc w → 0 <= wmeasure w <= 59.
Proof.
  intros (Hi & _ & Hm & _). unfold wmeasure. pose proof (measure_bound _ _ Hi).
  unfold kNumHaConns in *. lia.
Qed.

Lemma exec_work w ls w' :
  exec cfg tmpl w ls w' → stopping argc w →
  stopping argc w' ∧ Z.of_nat (length (List.filter wown ls)) + wmeasure w' <= wmeasure w.
Proof.
  induction 1 as [w|w l w1 ls w' Ha Hs _ IH]; intros Hw; [split; [done|simpl; lia]|].
  destruct (wstep_stopping argc _ _ _ _ _ Hw Hs) as [Hw1 Hm].
  destruct (IH Hw1) as [Hw' Hl]. split; [done|]. simpl. destruct (wown l); simpl length; lia.
Qed.

(** The threads can be taken to the end. *)
Lemma drive n ls w :
  exec cfg tmpl (world0 argc) ls w → g_stop (sup w) = true → wmeasure w <= Z.of_nat n →
  ∃ ls' w' code, exec cfg tmpl w ls' w' ∧ Forall (λ l, wown l = true) ls'
    ∧ main (sup w') = MainReturn code.
Proof.
  revert ls w. induction n as [|n IH]; intros ls w Hx Hg Hn;
    destruct (exec_stopping _ _ Hx Hg) as [Hw Hst];
    (assert ((∃ code, main (sup w) = MainReturn code) ∨ ∀ code, main (sup w) <> MainReturn code)
      as [[code Hr]|Hnr] by (destruct (main (sup w)); eauto));
    try (exists [], w, code; split_and!; [constructor|done..]);
    destruct (world_progress argc cfg tmpl w Hw Hst Hnr) as (l & w1 & Ho & Ha & Hs);
    destruct (wstep_stopping argc _ _ _ _ _ Hst Hs) as [Hst1 Hm]; rewrite Ho in Hm.
  - pose proof (wmeasure_bound _ Hst1). lia.
  - destruct (IH (ls ++ [l]) w1) as (ls' & w' & code & Hx' & Hf & Hr).
    + eapply exec_app; [exact Hx|]. econstructor; [done|exact Hs|constructor].
    + apply Hst1.
    + lia.
    + exists (l :: ls'), w', code. split_and!; [by econstructor|by constructor|done].
Qed.

End theorems.

(** ** Witness *)

(** A connection was lost a moment ago when the signal comes. *)
Definition stopped_world : world :=
  default sample_world (wsteps [WSup LSignal] sample_world).

Lemma stopped_exec :
  exec (λ _, QuicConfig_default) RegisterRequest_default (world0 3) (sample_run ++ [WSup LSignal])
    stopped_world.
Proof.
  eapply exec_app; [apply sample_exec|].
  eapply exec_cons; [exact I|vm_compute; reflexivity|constructor].
Qed.

