(* ===== verification/DataPath.v ===== *)
(** * The data path

    The way of a packet through the program, from the device to a peer's device:
    [Router::tun_reader_loop] (src/router/router.cpp) reads it and looks up its
    destination, the [MultiSink] of src/main.cpp picks a client,
    [QuicClient::on_packet] (src/tunnel/quic_client.cpp) sends it as a datagram, and
    at the other end [deliver_inbound] and [inject_from_tunnel] write it. Each part
    has its own file; here they are joined as [main] joins them. *)
From S2P Require Import Prelude Frame Cidr Lpm Router QuicClient Main.
Local Open Scope Z_scope.
Local Open Scope cfd_scope.

(** ** The parts together *)

(** The buffer of the reader loop, the sink, the clients behind it, and whether the
    loop has ended. *)
Record path := mkPath {
  p_buffer : list Z;
  p_sink : MultiSink;
  p_ends : list client;
  p_ended : bool;
}.

(** A round of the reader loop, with the context of the datagram and whether msquic
    takes it; or a call or event of a client, at any time. *)
Inductive path_in :=
| PRound (i : round_in) (ctx : nat) (accepted : bool)
| PCall (k : nat) (l : QuicClient.label).

Section path.
(** The width of the counter of the sink, and the routes. *)
Context (w : Z) (routes : LpmTrie Action).

(** [tunnel_->on_packet(data, len)]: [MultiSink::on_packet], then
    [QuicClient::on_packet]. *)
Definition sink_packet (pkt : list Z) (ctx : nat) (accepted : bool) (s : path) : run path :=
  let '(i, sink) := on_packet w (p_sink s) in
  match i with
  | None => Done (mkPath (p_buffer s) sink (p_ends s) (p_ended s))
  | Some k =>
      let! q := run_opt (p_ends s !! k) in
      Done (mkPath (p_buffer s) sink (<[k := send_packet pkt ctx accepted q]> (p_ends s)) (p_ended s))
  end.

Fixpoint sink_packets (pkts : list (list Z)) (ctx : nat) (accepted : bool) (s : path) : run path :=
  match pkts with
  | [] => Done s
  | pkt :: pkts' => let! s := sink_packet pkt ctx accepted s in sink_packets pkts' ctx accepted s
  end.

Definition path_step (i : path_in) (s : path) : run path :=
  match i with
  | PRound r ctx accepted =>
      if p_ended s then Done s
      else
        let! x := reader_round routes true (p_buffer s) r in
        sink_packets x.2 ctx accepted
          (mkPath x.1.2 (p_sink s) (p_ends s) (match x.1.1 with Break => true | Continue => false end))
  | PCall k l =>
      let! q := run_opt (p_ends s !! k) in
      let! q := QuicClient.step l q in
      Done (mkPath (p_buffer s) (p_sink s) (<[k := q]> (p_ends s)) (p_ended s))
  end.

Fixpoint path_run (is_ : list path_in) (s : path) : run path :=
  match is_ with
  | [] => Done s
  | i :: is_' => let! s := path_step i s in path_run is_' s
  end.
End path.

(** What a client's device gets: the inbound handler is the router's
    [inject_from_tunnel]. *)
Definition written (tun : bool) (q q' : client) : list (list Z) :=
  omap (inject_from_tunnel tun) (drop (length (delivered q)) (delivered q')).

(** ** Specification *)

(** The calls on the clients, in order: the packets that the routes [rs] send to the
    tunnel go to the [n] clients in turn, from number [c] on, until the loop ends. *)
Fixpoint calls_of (rs : list (Cidr * Action)) (n : nat) (c : Z) (ended : bool)
    (is_ : list path_in) : list (nat * QuicClient.label) :=
  match is_ with
  | [] => []
  | PCall k l :: is_' => (k, l) :: calls_of rs n c ended is_'
  | PRound r ctx accepted :: is_' =>
      if ended || exits r then calls_of rs n c true is_'
      else
        match List.filter (forwarded rs true) (option_list (packet_of r)) with
        | [] => calls_of rs n c false is_'
        | pkt :: _ =>
            (Z.to_nat (c mod Z.of_nat n), LSend pkt ctx accepted)
            :: calls_of rs n (c + 1) false is_'
        end
  end.

(** The calls on the client [k]. *)
Definition own (k : nat) (cs : list (nat * QuicClient.label)) : list QuicClient.label :=
  snd <$> List.filter (λ x, (x.1 =? k)%nat) cs.

Definition in_ok (n : nat) (i : path_in) : Prop :=
  match i with PRound r _ _ => round_ok r | PCall k _ => (k < n)%nat end.

(** The state after [c] packets. *)
Definition path_ok (w : Z) (n : nat) (c : Z) (s : path) : Prop :=
  Z.of_nat (length (p_buffer s)) = kPacketMtu ∧ sink_ok w (p_sink s) ∧ sinks_ (p_sink s) = n
  ∧ length (p_ends s) = n ∧ next_ (p_sink s) mod Z.of_nat n = c mod Z.of_nat n.

Lemma own_cons k j l cs : own k ((j, l) :: cs) = if (j =? k)%nat then l :: own k cs else own k cs.
Proof. unfold own. simpl. by destruct (j =? k)%nat. Qed.

Lemma steps_cons l ls q q' :
  steps (l :: ls) q = Done q' → ∃ q1, QuicClient.step l q = Done q1 ∧ steps ls q1 = Done q'.
Proof.
  simpl. destruct (QuicClient.step l q) as [q1| |]; [|done..]. intros Hs. by exists q1.
Qed.

(** The clients can make the calls [cs]. *)
Definition can (cs : list (nat * QuicClient.label)) (ends : list client) : Prop :=
  ∀ k q, ends !! k = Some q → ∃ q', steps (own k cs) q = Done q'.

(** One call: the client changes, the others keep theirs. *)
Lemma can_cons j l cs ends q :
  can ((j, l) :: cs) ends → ends !! j = Some q →
  ∃ q1, QuicClient.step l q = Done q1 ∧ can cs (<[j := q1]> ends).
Proof.
  intros Hc Hq. destruct (Hc j q Hq) as [q' Hs]. rewrite own_cons, Nat.eqb_refl in Hs.
  apply steps_cons in Hs as (q1 & Hq1 & Hs). exists q1. split; [done|].
  intros k qk [(<- & <- & _)|[Hne Hk]]%list_lookup_insert_Some; [by exists q'|].
  destruct (Hc k qk Hk) as [q2 Hq2]. rewrite own_cons, (proj2 (Nat.eqb_neq _ _)) in Hq2 by done.
  by exists q2.
Qed.

(** And the runs of the calls go on from there. *)
Lemma runs_cons j l cs (ends : list client) q q1 k qk qk' :
  ends !! j = Some q → QuicClient.step l q = Done q1 →
  ends !! k = Some qk → steps (own k ((j, l) :: cs)) qk = Done qk' →
  ∃ qk1, <[j := q1]> ends !! k = Some qk1 ∧ steps (own k cs) qk1 = Done qk'.
Proof.
  intros Hj Hl Hk. rewrite own_cons. destruct (decide (j = k)) as [->|Hne].
  - rewrite Nat.eqb_refl. simplify_eq. intros (q2 & Hq2 & Hs)%steps_cons. simplify_eq.
    rewrite Hl in Hq2. injection Hq2 as <-. exists q1. split; [|done]. apply list_lookup_insert_eq. by eapply lookup_lt_Some.
  - rewrite (proj2 (Nat.eqb_neq _ _)) by done. intros Hs. exists qk.
    by rewrite list_lookup_insert_ne.
Qed.

Lemma filter_option {A} (f : A → bool) (o : option A) :
  List.filter f (option_list o) = [] ∨ ∃ x, o = Some x ∧ List.filter f (option_list o) = [x].
Proof. destruct o as [x|]; simpl; [|by left]. destruct (f x); [right; by exists x|by left]. Qed.

Section spec.
Context (w : Z) (rs : list (Cidr * Action)) (Hrs : Forall (λ r, cidr_ok r.1) rs).
Abbreviation run_path := (path_run w (LpmTrie_of Drop rs)).

(** A packet for the tunnel is a call of [LSend] on the client whose turn it is. *)
Lemma sink_packet_spec n c s pkt ctx acc :
  path_ok w n c s →
  ∃ sink q, p_ends s !! Z.to_nat (c mod Z.of_nat n) = Some q
    ∧ sink_packet w pkt ctx acc s
      = Done (mkPath (p_buffer s) sink
                (<[Z.to_nat (c mod Z.of_nat n) := send_packet pkt ctx acc q]> (p_ends s)) (p_ended s))
    ∧ ∀ ends, length ends = n → path_ok w n (c + 1) (mkPath (p_buffer s) sink ends (p_ended s)).
Proof.
  intros (Hb & Hs & Hn & Hl & Hc). unfold sink_packet.
  destruct (on_packet_ok w (p_sink s) Hs) as (i & sink & -> & Hi & Hv & Hs' & Hn' & Hc').
  rewrite Hn in Hv, Hi, Hc'. assert (i = Z.to_nat (c mod Z.of_nat n)) as -> by lia.
  destruct (lookup_lt_is_Some_2 (p_ends s) (Z.to_nat (c mod Z.of_nat n))) as [q Hq]; [lia|].
  rewrite Hq. cbn [run_opt run_bind]. exists sink, q. split; [done|]. split; [done|].
  intros ends He. split_and!; simpl; [done|done|congruence|done|].
  by rewrite Hc', Zplus_mod, Hc, <- Zplus_mod.
Qed.

(** The path makes exactly the calls of the specification. *)
Lemma path_run_spec is_ n c s :
  path_ok w n c s → Forall (in_ok n) is_ → can (calls_of rs n c (p_ended s) is_) (p_ends s) →
  ∃ s', run_path is_ s = Done s' ∧ length (p_ends s') = n
    ∧ ∀ k q q', p_ends s !! k = Some q →
        steps (own k (calls_of rs n c (p_ended s) is_)) q = Done q' → p_ends s' !! k = Some q'.
Proof.
  revert c s. induction is_ as [|i is_ IH]; intros c s Hs Hi Hcan.
  { exists s. split; [done|]. split; [apply Hs|]. by intros k q q' Hq [= <-]. }
  apply Forall_cons in Hi as [Hi His]. cbn [path_run]. destruct i as [r ctx acc|k l].
  - cbn [path_step]. cbn [calls_of] in Hcan |- *. destruct (p_ended s) eqn:He; cbn [orb] in *.
    { cbn [run_bind]. rewrite <- He in Hcan |- *. by apply (IH c s). }
    destruct Hs as (Hb & Hs & Hn & Hl & Hc).
    destruct (reader_round_spec rs Hrs true (p_buffer s) r Hb Hi) as (buf & Hbuf & ->).
    cbn [run_bind fst snd]. destruct (exits r) eqn:Hx.
    { cbn [sink_packets run_bind]. by apply (IH c (mkPath buf (p_sink s) (p_ends s) true)). }
    destruct (filter_option (forwarded rs true) (packet_of r)) as [Hf|(pkt & _ & Hf)]; rewrite Hf in *.
    { cbn [sink_packets run_bind]. by apply (IH c (mkPath buf (p_sink s) (p_ends s) false)). }
    cbn [sink_packets].
    destruct (sink_packet_spec n c (mkPath buf (p_sink s) (p_ends s) false) pkt ctx acc)
      as (sink & q & Hq & -> & Hok); [by split_and!|].
    cbn [p_buffer p_ends p_ended run_bind] in *.
    destruct (can_cons _ _ _ _ _ Hcan Hq) as (q1 & [= <-] & Hcan').
    set (j := Z.to_nat (c mod Z.of_nat n)) in *.
    destruct (IH (c + 1) (mkPath buf sink (<[j := send_packet pkt ctx acc q]> (p_ends s)) false))
      as (s' & Hr & Hl' & Hk'); [apply Hok; by rewrite length_insert|done|done|].
    exists s'. split; [done|]. split; [done|]. intros k qk qk' Hqk Hst.
    eapply runs_cons in Hst as (qk1 & Hqk1 & Hst); [|exact Hq|reflexivity|exact Hqk]. by eapply Hk'.
  - cbn [path_step calls_of] in *. simpl in Hi.
    assert (length (p_ends s) = n) as Hl by apply Hs.
    destruct (lookup_lt_is_Some_2 (p_ends s) k) as [q Hq]; [lia|]. rewrite Hq. cbn [run_opt run_bind].
    destruct (can_cons _ _ _ _ _ Hcan Hq) as (q1 & Hq1 & Hcan'). rewrite Hq1. cbn [run_bind].
    destruct (IH c (mkPath (p_buffer s) (p_sink s) (<[k := q1]> (p_ends s)) (p_ended s)))
      as (s' & Hr & Hl' & Hk'); [|done|done|].
    { destruct Hs as (? & ? & ? & ? & ?). split_and!; simpl; try done. by rewrite length_insert. }
    exists s'. split; [done|]. split; [done|]. intros j qj qj' Hqj Hst.
    eapply runs_cons in Hst as (qk1 & Hqk1 & Hst); [|exact Hq|exact Hq1|exact Hqj]. by eapply Hk'.
Qed.
End spec.

(** ** From device to device *)

(** The packets among [l] whose turn it is for the client [k], from number [c] on. *)
Fixpoint share (n : nat) (c : Z) (k : nat) (l : list (list Z)) : list (list Z) :=
  match l with
  | [] => []
  | pkt :: l' =>
      if (Z.to_nat (c mod Z.of_nat n) =? k)%nat then pkt :: share n (c + 1) k l'
      else share n (c + 1) k l'
  end.

(** The round of an input, and the bytes of a datagram. *)
Definition round_of (i : path_in) : option round_in :=
  match i with PRound r _ _ => Some r | PCall _ _ => None end.

Definition datagram (a : api_call) : option (list Z) :=
  match a with ADatagramSend _ bytes _ => Some bytes | _ => None end.

Definition is_send (l : QuicClient.label) (pkt : list Z) : Prop :=
  ∃ ctx acc, l = LSend pkt ctx acc.

Lemma own_rounds_ended rs n c k is_ :
  Forall (λ i, is_Some (round_of i)) is_ → own k (calls_of rs n c true is_) = [].
Proof. induction 1 as [|[r ctx acc|j l] is_ [x Hx] _ IH]; try done. Qed.

(** Rounds only: the calls on a client are the packets of its share. *)
Lemma own_rounds rs n c k is_ :
  Forall (λ i, is_Some (round_of i)) is_ →
  Forall2 is_send (own k (calls_of rs n c false is_))
    (share n c k (List.filter (forwarded rs true)
                    (omap packet_of (until_exit (omap round_of is_))))).
Proof.
  intros Hi. revert c. induction Hi as [|[r ctx acc|j l] is_ [x Hx] His IH]; intros c; try done.
  - simpl. destruct (exits r) eqn:He; cbn [orb].
    { rewrite own_rounds_ended by done. constructor. }
    assert (∀ l, List.filter (forwarded rs true) (omap packet_of (r :: l))
      = List.filter (forwarded rs true) (option_list (packet_of r))
        ++ List.filter (forwarded rs true) (omap packet_of l)) as Hf.
    { intros l. simpl. destruct (packet_of r) as [pkt|]; simpl; [|done].
      by destruct (forwarded rs true pkt). }
    change (omap packet_of (r :: until_exit _)) with (omap packet_of (r :: until_exit (omap round_of is_))).
    rewrite Hf. destruct (filter_option (forwarded rs true) (packet_of r)) as [-> |(pkt & _ & ->)];
      cbn [app]; [apply IH|].
    rewrite own_cons. cbn [share]. destruct (_ =? k)%nat; [|apply IH].
    constructor; [by eexists _, _|apply IH].
Qed.

Lemma share_elem n c k l x : x ∈ share n c k l → x ∈ l.
Proof.
  revert c. induction l as [|y l IH]; intros c; simpl; [done|].
  destruct (_ =? k)%nat; rewrite !elem_of_cons; naive_solver.
Qed.

Lemma concat_if {A} (f : nat → list A) x k0 ks :
  k0 ∈ ks → NoDup ks →
  (ks ≫= λ k, if (k0 =? k)%nat then x :: f k else f k) ≡ₚ x :: (ks ≫= f).
Proof.
  induction ks as [|k ks IH]; [by intros ?%elem_of_nil|].
  intros [-> |Hin]%elem_of_cons [Hni Hnd]%NoDup_cons; rewrite !bind_cons.
  - rewrite Nat.eqb_refl. cbn [app]. do 2 f_equiv. clear IH Hnd.
    induction ks as [|j ks IH]; [done|]. apply not_elem_of_cons in Hni as [Hne Hni].
    rewrite !bind_cons, (proj2 (Nat.eqb_neq _ _)) by done. by rewrite IH.
  - rewrite (proj2 (Nat.eqb_neq _ _)) by (by intros ->). rewrite IH by done.
    symmetry. apply Permutation_middle.
Qed.

(** Every packet is in exactly one share. *)
Lemma share_union n c l : (0 < n)%nat → (seq 0 n ≫= λ k, share n c k l) ≡ₚ l.
Proof.
  intros Hn. revert c. induction l as [|x l IH]; intros c; simpl.
  - assert (∀ ks : list nat, (ks ≫= λ _, @nil (list Z)) = []) as ->; [|done]. by induction ks.
  - rewrite (concat_if (λ k, share n (c + 1) k l) x), IH; [done| |apply NoDup_seq].
    apply elem_of_seq. pose proof (Z.mod_pos_bound c (Z.of_nat n)). lia.
Qed.

(** The header of a packet, and what a live client sends for its share. *)
Definition frame_of (pkt : list Z) : list Z := 3 :: 1 :: 0 :: 0 :: pkt.

Lemma send_frame pkt ctx acc q h :
  connection_ q = Some h → handshake_ok_ q = true → Z.of_nat (length pkt) <= kPacketMtu →
  ∃ q', send_packet pkt ctx acc q = q' ∧ connection_ q' = Some h ∧ handshake_ok_ q' = true
    ∧ calls q' = calls q ++ [ADatagramSend h (frame_of pkt) ctx].
Proof.
  intros Hc Ho Hl. eexists. split; [done|]. unfold send_packet. rewrite Hc, Ho. cbn [negb].
  assert ((encode (mkFrame IpPacket 0 pkt) []).2 = frame_of pkt) as -> by done.
  rewrite u32_small by (simpl; unfold kPacketMtu in *; lia). rewrite Nat2Z.id, take_ge by done.
  by destruct acc.
Qed.

Lemma sends_frames ls pkts q h :
  Forall2 is_send ls pkts → connection_ q = Some h → handshake_ok_ q = true →
  Forall (λ pkt, Z.of_nat (length pkt) <= kPacketMtu) pkts →
  ∃ q' more, steps ls q = Done q' ∧ calls q' = calls q ++ more
    ∧ omap datagram more = frame_of <$> pkts.
Proof.
  intros Hls. revert q. induction Hls as [|l pkt ls pkts (ctx & acc & ->) _ IH]; intros q Hc Ho Hl.
  { exists q, []. by rewrite app_nil_r. }
  apply Forall_cons in Hl as [Hp Hl].
  destruct (send_frame pkt ctx acc q h Hc Ho Hp) as (q1 & Hq1 & Hc1 & Ho1 & Hcalls).
  destruct (IH q1 Hc1 Ho1 Hl) as (q' & more & Hs & Hm & Hd).
  exists q', (ADatagramSend h (frame_of pkt) ctx :: more). cbn [steps QuicClient.step run_bind].
  rewrite Hq1, Hs. split; [done|]. rewrite Hm, Hcalls, <- app_assoc. split; [done|].
  rewrite fmap_cons, <- Hd. done.
Qed.

Lemma frames_delivered pkts peer :
  handler_ peer = true →
  ∃ peer', on_events (EvDatagramReceived <$> (frame_of <$> pkts)) peer = Done peer'
    ∧ delivered peer' = delivered peer ++ pkts.
Proof.
  revert peer. induction pkts as [|pkt pkts IH]; intros peer Hh.
  { exists peer. by rewrite app_nil_r. }
  rewrite !fmap_cons. cbn [on_events on_conn_event run_bind].
  assert (∃ p1, deliver_inbound (frame_of pkt) peer = p1 ∧ handler_ p1 = true
    ∧ delivered p1 = delivered peer ++ [pkt]) as (p1 & -> & Hh1 & Hd1).
  { eexists. split; [done|]. unfold deliver_inbound. simpl. by rewrite Hh. }
  destruct (IH p1 Hh1) as (p' & Hp' & Hd'). exists p'. split; [done|].
  by rewrite Hd', Hd1, <- app_assoc.
Qed.

Lemma written_all peer peer' pkts :
  delivered peer' = delivered peer ++ pkts → written true peer peer' = pkts.
Proof.
  intros Hd. unfold written. rewrite Hd, drop_app_length. clear Hd.
  induction pkts as [|x l IH]; [done|]. simpl. f_equal. exact IH.
Qed.

(** ** Properties *)

Section theorems.
Context (w : Z) (rs : list (Cidr * Action)) (Hrs : Forall (λ r, cidr_ok r.1) rs).

(** C18: The reader loop, the round robin and the clients together: whatever calls
    and events of the clients come in between, the path is defined as long as those
    are, and it makes on each client exactly these calls in this order: its own,
    and a send for every packet whose longest route is the tunnel and whose turn,
    counted over all packets sent (also when the counter wraps), is the client's,
    up to the round that ends the loop. *)
Theorem data_path_refines is_ n c s :
  path_ok w n c s → Forall (in_ok n) is_ →
  (∀ k q, p_ends s !! k = Some q →
     ∃ q', steps (own k (calls_of rs n c (p_ended s) is_)) q = Done q') →
  ∃ s', path_run w (LpmTrie_of Drop rs) is_ s = Done s' ∧ length (p_ends s') = n
    ∧ ∀ k q q', p_ends s !! k = Some q →
        steps (own k (calls_of rs n c (p_ended s) is_)) q = Done q' → p_ends s' !! k = Some q'.
Proof. apply path_run_spec, Hrs. Qed.

End theorems.

(** ** Witnesses *)

Definition ten : list (Cidr * Action) :=
  [(mkCidr (mkIpAddr V4 (10 :: replicate 15 0)) 8, ToTunnel)].

Lemma ten_ok : Forall (λ r, cidr_ok r.1) ten.
Proof.
  repeat constructor; simpl; try lia; solve_bytes.
Qed.

(** IPv4 packets, the last byte of the destination [d]; [net] is its first byte. *)
Definition packet_to (net d : Z) : list Z := 69 :: replicate 15 0 ++ [net; 0; 0; d].

Definition sample_in (net d : Z) : path_in :=
  PRound (mkRound true (PollReady false (ReadOk (packet_to net d)))) 0 true.

Definition sample_path : path :=
  mkPath (replicate 1500 0) (mkMultiSink 4 (2 ^ 64 - 2)) (replicate 4 connected) false.

Definition sample_ins : list path_in :=
  [sample_in 10 1; sample_in 11 2; sample_in 10 3; sample_in 10 4; sample_in 10 5; sample_in 10 6;
   PRound (mkRound false PollTimeout) 0 true; sample_in 10 7].

Lemma sample_path_ok : path_ok 64 4 (2 ^ 64 - 2) sample_path.
Proof.
  split_and!; try done. split; [simpl; lia|]. split; [simpl; lia|]. by exists (2 ^ 62).
Qed.

Lemma sample_in_ok net d : byte_ok net → byte_ok d → is_Some (round_of (sample_in net d)) ∧ in_ok 4 (sample_in net d).
Proof.
  intros Hn Hd. split; [by eexists|]. intros pkt [= <-].
  split; [vm_compute; congruence|]. unfold packet_to. solve_bytes.
Qed.

Lemma sample_ins_ok : Forall (λ i, is_Some (round_of i) ∧ in_ok 4 i) sample_ins.
Proof.
  unfold sample_ins. rewrite !Forall_cons.
  split_and?; try (apply sample_in_ok; unfold byte_ok; lia); [by eexists|by intros pkt [=]|].
  apply Forall_nil. done.
Qed.


Lemma data_path_refines_witness :
  ∃ s', path_run 64 (LpmTrie_of Drop ten) [PCall 1 LClose; sample_in 10 1; sample_in 10 2] sample_path
        = Done s'
    ∧ ∃ q', p_ends s' !! 1%nat = Some q' ∧ connection_ q' = None.
Proof.
  set (ins := [PCall 1 LClose; sample_in 10 1; sample_in 10 2]).
  assert (Hc : ∀ k q, p_ends sample_path !! k = Some q →
    ∃ q', steps (own k (calls_of ten 4 (2 ^ 64 - 2) (p_ended sample_path) ins)) q = Done q').
  { intros k q Hq. destruct k as [|[|[|[|k]]]]; try discriminate; injection Hq as <-;
      eexists; vm_compute; reflexivity. }
  destruct (data_path_refines 64 ten ten_ok ins 4 (2 ^ 64 - 2) sample_path sample_path_ok)
    as (s' & Hr & _ & Hk); [|exact Hc|].
  { apply Forall_cons. split; [simpl; lia|]. rewrite !Forall_cons.
    split_and?; try (apply sample_in_ok; unfold byte_ok; lia). apply Forall_nil. done. }
  exists s'. split; [exact Hr|].
  destruct (Hc 1%nat connected eq_refl) as [q' Hq']. exists q'.
  split; [exact (Hk 1%nat connected q' eq_refl Hq')|]. vm_compute in Hq'. by injection Hq' as <-.
Defined.
