(* ===== verification/Builds.v ===== *)
(** * The other builds

    The sources have a second half for platforms without the Linux interfaces
    ([src/net/netlink.cpp], [src/tun/tun_device_linux.cpp]) and for a build without
    msquic ([src/tunnel/quic_client.cpp]); [QuicClient] is a facade over either
    implementation. Here are those halves, and what becomes of the program with
    them: without a TUN device it ends before anything runs, and without msquic no
    connection is ever made and [main] can only return 1. *)
From S2P Require Import Prelude Cidr Config Registration Netlink Tun QuicClient Supervisor Main.
Local Open Scope Z_scope.
Local Open Scope cfd_scope.

(** ** The facade *)

(** What [QuicClientImpl] offers to [QuicClient]. *)
Class QuicClientImpl (S : Type) := {
  impl_new : QuicConfig → S;
  impl_connect : S → QuicClient.errc * S;
  impl_send_packet : list Z → S → S;
  impl_set_handler : bool → S → S;
  impl_set_handler_disconnect : bool → S → S;
  impl_close : S → S;
  impl_register_connection :
    RegisterRequest → RegisterResponse → Z → S → QuicClient.errc * RegisterResponse * S;
}.

Section facade.
Context {S : Type} `{QuicClientImpl S}.

Definition QuicClient_new (cfg : QuicConfig) : S := impl_new cfg.
Definition QuicClient_connect (c : S) : QuicClient.errc * S := impl_connect c.
Definition QuicClient_on_packet (pkt : list Z) (c : S) : S := impl_send_packet pkt c.
Definition QuicClient_set_inbound_handler (h : bool) (c : S) : S := impl_set_handler h c.
Definition QuicClient_set_disconnect_handler (h : bool) (c : S) : S :=
  impl_set_handler_disconnect h c.
Definition QuicClient_close (c : S) : S := impl_close c.
Definition QuicClient_register_connection (r : RegisterRequest) (out : RegisterResponse)
    (timeout_ms : Z) (c : S) : QuicClient.errc * RegisterResponse * S :=
  impl_register_connection r out timeout_ms c.
End facade.

(** ** Without msquic *)

(** The stub keeps the configuration and does nothing. *)
Record stub_client := mkStubClient { cfg_ : QuicConfig }.

#[export] Instance stub_impl : QuicClientImpl stub_client := {
  impl_new := mkStubClient;
  impl_connect c := (not_supported, c);
  impl_send_packet _ c := c;
  impl_set_handler _ c := c;
  impl_set_handler_disconnect _ c := c;
  impl_close c := c;
  impl_register_connection _ out _ c := (not_supported, out, c);
}.

(** The threads of [Supervisor] with four of these clients: a [connect] succeeds if
    the client says so. *)
Definition stub_allowed (clients : list stub_client) (l : label) : Prop :=
  match l with
  | Supervisor.LConnect i ok =>
      ∃ c, clients !! i = Some c ∧ ok = bool_decide ((QuicClient_connect c).1 = success)
  | _ => True
  end.

(** No connection thread gets past [connect]. *)
Definition stuck_early (c : conn) : bool :=
  match pc c with
  | Top | Connecting | Sleeping _ | Exited => true
  | _ => false
  end.

Record stub_inv (s : sys) : Prop := {
  si_conns i c : conns s !! i = Some c → stuck_early c = true;
  si_count : ok_count s = 0;
  si_submitted : submitted s = [] ∧ kj_queue s = [];
  si_kj : ∀ w, kj s <> KjBusy w;
  si_main :
    match main s with
    | MainPump => False
    | MainClose code | MainJoin code _ | MainKjStop code | MainKjJoin code | MainReturn code =>
        code = 1
    | _ => True
    end;
}.

Lemma stub_insert (l : list conn) i c c' :
  (∀ j x, l !! j = Some x → stuck_early x = true) → stuck_early c' = true → l !! i = Some c →
  ∀ j x, <[i := c']> l !! j = Some x → stuck_early x = true.
Proof.
  intros Hl Hc Hi j x. apply lookup_lt_Some in Hi as Hlt.
  destruct (decide (j = i)) as [->|Hne].
  - rewrite list_lookup_insert_eq by done. by intros [= <-].
  - rewrite list_lookup_insert_ne by done. apply Hl.
Qed.

Lemma stub_conn_step cs l i s s' :
  stub_allowed cs l → stub_inv s → conn_step l i s = Some s' → stub_inv s'.
Proof.
  intros Ha [Hc Hn [Hs Hq] Hk Hm] Hst. unfold conn_step in Hst.
  destruct (conns s !! i) as [c|] eqn:Hi; [|done]. pose proof (Hc i c Hi) as He.
  unfold stuck_early in He. destruct (pc c), l; try done.
  - destruct (g_stop s); injection Hst as <-; split; try done; by apply (stub_insert _ i c).
  - destruct ok.
    + exfalso. destruct Ha as (x & _ & Ha). by rewrite bool_decide_eq_false_2 in Ha.
    + injection Hst as <-; split; try done; by apply (stub_insert _ i c).
  - injection Hst as <-; split; try done; by apply (stub_insert _ i c).
Qed.

Lemma stub_step cs l s s' :
  stub_allowed cs l → stub_inv s → Supervisor.step l s = Some s' → stub_inv s'.
Proof.
  intros Ha Hinv Hst. pose proof Hinv as [Hc Hn [Hs Hq] Hk Hm].
  destruct l; cbn [Supervisor.step] in Hst; try (by eapply stub_conn_step).
  - unfold disconnect_step in Hst. destruct (conns s !! i) as [c|] eqn:Hi; [|done].
    pose proof (Hc i c Hi) as He. unfold stuck_early in He.
    destruct (pc c); try done; injection Hst as <-; split; try done; by apply (stub_insert _ i c).
  - injection Hst as <-. by split.
  - unfold kj_step in Hst. destruct (kj s); try done. by rewrite Hq in Hst.
  - unfold kj_step in Hst. destruct (kj s) as [|w| |] eqn:Hkj; try done. by destruct (Hk w).
  - unfold kj_step in Hst. destruct (kj s); try done. rewrite Hq in Hst.
    destruct (kj_stop s); [|done]. injection Hst as <-. by split.
  - unfold kj_step in Hst. destruct (kj s); try done. rewrite Hq in Hst.
    injection Hst as <-. by split.
  - unfold main_step in Hst. destruct (main s); try done. case_match; [|done].
    injection Hst as <-. by split.
  - unfold main_step in Hst. destruct (main s); try done. injection Hst as <-. by split.
  - unfold main_step in Hst. destruct (main s); try done. rewrite Hn in Hst.
    destruct (g_stop s); injection Hst as <-; by split.
  - unfold main_step in Hst. by destruct (main s).
  - unfold main_step in Hst. destruct (main s); try done. injection Hst as <-. by split.
  - unfold main_step in Hst. destruct (main s); try done.
    destruct (conns s !! joined) as [c|]; [destruct (pc c); try done|]; injection Hst as <-; by split.
  - unfold main_step in Hst. destruct (main s); try done. injection Hst as <-. by split.
  - unfold main_step in Hst. destruct (main s); try done. destruct (kj s) eqn:Hkj; try done.
    injection Hst as <-. split; try done. cbn. by rewrite Hkj.
Qed.

Lemma stub_steps cs ls s s' :
  Forall (stub_allowed cs) ls → stub_inv s → steps ls s = Some s' → stub_inv s'.
Proof.
  intros Hls. revert s. induction Hls as [|l ls Ha Hls IH]; intros s Hi Hs; cbn in Hs.
  - by injection Hs as <-.
  - destruct (Supervisor.step l s) as [s1|] eqn:Hl; [|done]. cbn in Hs.
    apply (IH s1); [by eapply stub_step|done].
Qed.

Lemma stub_inv_sys0 argc : stub_inv (sys0 argc).
Proof.
  split; try done. intros i c Hi. by apply lookup_replicate in Hi as [-> _].
Qed.

(** C21: a program built without msquic fails, and fails safely: whatever the threads
    and the signals do, no connection is ever registered, no registration is ever
    asked for, the packets are never pumped, and when [main] returns it returns 1. *)
Theorem without_msquic argc clients ls s :
  Forall (stub_allowed clients) ls → steps ls (sys0 argc) = Some s →
  ok_count s = 0 ∧ submitted s = []
  ∧ (∀ i c, conns s !! i = Some c → stuck_early c = true)
  ∧ main s <> MainPump
  ∧ ∀ code, main s = MainReturn code → code = 1.
Proof.
  intros Hls Hs. destruct (stub_steps _ _ _ _ Hls (stub_inv_sys0 argc) Hs) as [Hc Hn [Hsub _] _ Hm].
  split_and!; try done; [by destruct (main s)|]. intros code He. by rewrite He in Hm.
Qed.

(** ** Without Cap'n Proto *)

(** [register_connection] of a build with msquic but without capnp. *)
Definition register_without_capnp (out : RegisterResponse) (s : client)
    : QuicClient.errc * RegisterResponse :=
  match connection_ s with
  | None => (not_connected, out)
  | Some _ => if negb (handshake_ok_ s) then (not_connected, out) else (not_supported, out)
  end.

(** It fails on every path, and the response is left alone. *)
Lemma register_without_capnp_fails out s :
  (register_without_capnp out s).1 <> success ∧ (register_without_capnp out s).2 = out.
Proof. unfold register_without_capnp. by destruct (connection_ s), (handshake_ok_ s). Qed.

(** ** Without the Linux interfaces *)

Section not_linux.
(** [std::errc::not_supported] and [ENOSYS] of the platform. *)
Context (ENOTSUP ENOSYS : Z).

(** [netlink::Client] *)
Definition stub_open (c : Client) : error_code * Client := (ENOTSUP, c).
Definition stub_if_index (name : text) (out : Z) : error_code * Z := (ENOTSUP, out).
Definition stub_link_up (ifindex : Z) : error_code := ENOTSUP.
Definition stub_set_mtu (ifindex mtu : Z) : error_code := ENOTSUP.
Definition stub_add_addr (ifindex : Z) (a : Cidr) : error_code := ENOTSUP.
Definition stub_add_route (ifindex : Z) (dst : Cidr) : error_code := ENOTSUP.
Definition stub_talk (req : list Z) : error_code := ENOTSUP.

(** [tun::TunDevice]; the read and the write leave [ENOSYS] in [errno]. *)
Definition stub_read_packet (cap : Z) : Z * Z := (-1, ENOSYS).
Definition stub_write_packet (pkt : list Z) : Z * Z := (-1, ENOSYS).

#[local] Instance stub_tun {K} : TunOps K TunDevice := {
  dev_new := TunDevice_new;
  dev_open _ d k := Done (ENOTSUP, d, k);
  dev_configure _ _ _ k := Done (ENOTSUP, k);
  dev_add_route _ _ k := Done (ENOTSUP, k);
}.

Context `{Inet}.

(** The start-up on such a platform never gets as far as a client or a router: it
    returns an exit code and leaves the system as it was; it is 0 only when the
    command line asks for the usage. *)
Theorem without_tun {K} argv file dns (k : K) :
  ENOTSUP <> 0 →
  ∃ code, setup (D := TunDevice) argv file dns k = Done (inl code, k)
          ∧ (parse_args argv = Done (ArgsExit code) ∨ code = 1).
Proof.
  intros He. unfold setup. destruct (args_defined argv) as [r Hr]. rewrite Hr. cbn [run_bind].
  destruct r as [code|path verbose i]; [exists code; split; [done|by left]|].
  destruct (load_from_file _ _ _ _) as [[ok cfg] err].
  destruct ok; cbn [negb]; [|exists 1; split; [done|by right]].
  cbn [dev_open stub_tun run_bind]. rewrite (proj2 (Z.eqb_neq _ _) He). cbn [negb].
  exists 1. split; [done|by right].
Qed.
End not_linux.

(** ** Witnesses *)

(** Nothing connects within the minute, and [main] gives up. *)
Definition failing_run : list label :=
  [LTop 0; Supervisor.LConnect 0 false; LMainTimeout; LMainTest; LMainClose; LAwake 0; LTop 0; LTop 1; LTop 2;
   LTop 3; LMainJoin; LMainJoin; LMainJoin; LMainJoin; LMainJoin; LMainKjStop; LKjExit; LKjDrained;
   LMainKjJoin].

Lemma without_msquic_witness :
  match steps failing_run (sys0 3) with
  | Some s => main s = MainReturn 1 ∧ ok_count s = 0
  | None => False
  end.
Proof.
  destruct (steps failing_run (sys0 3)) as [s|] eqn:Hs; [|by vm_compute in Hs].
  destruct (without_msquic 3 (replicate 4 (QuicClient_new QuicConfig_default)) failing_run s)
    as (Hn & _ & _ & _ & Hc); [|done|].
  - repeat constructor. eexists. split; [done|]. by rewrite bool_decide_eq_false_2.
  - split; [|done]. assert (∃ code, main s = MainReturn code) as [code He].
    { vm_compute in Hs. injection Hs as <-. by eexists. }
    by rewrite He, (Hc code He).
Defined.
