(* ===== verification/Tests.v ===== *)
(** * The unit tests

    [tests/test_cidr.cpp], [test_lpm.cpp], [test_frame.cpp], [test_registration.cpp]
    and [test_netlink.cpp]: five programs that check examples with [assert]. Each is
    its list of assertions here, on the definitions of this development, so that
    running a test is evaluating the model. *)
From S2P Require Import Prelude Cidr InetModel Lpm Frame Registration Netlink.
Local Open Scope Z_scope.
Local Open Scope cfd_scope.

(** ** Running a test *)

(** A test ends with an exit code, or [assert] aborts it. *)
Inductive test_end := Exit (code : Z) | Aborted.

(** [assert(b)]: with [NDEBUG] the expression is not even evaluated. *)
Definition assert_ (ndebug : bool) (b : run bool) (k : run test_end) : run test_end :=
  if ndebug then k else let! b := b in if b then k else Done Aborted.

(** The assertions in order, then [return 0]. *)
Definition run_test (ndebug : bool) (checks : list (run bool)) : run test_end :=
  foldr (assert_ ndebug) (Done (Exit 0)) checks.

Definition has_value {A} (o : option A) : bool := match o with Some _ => true | None => false end.

(** ** The tests *)

Section addresses.
Context `{Inet}.

Definition test_cidr : list (run bool) :=
  let c := Cidr_parse (str "10.99.0.0/16") in
  let a1 := IpAddr_parse (str "10.99.5.7") in
  let a2 := IpAddr_parse (str "10.100.0.1") in
  let v6 := Cidr_parse (str "2001:db8::/32") in
  [Done (has_value c);
   let! c := run_opt c in Done (prefix_len c =? 16);
   Done (has_value a1 && has_value a2);
   (let! c := run_opt c in let! a := run_opt a1 in Cidr_contains c a);
   (let! c := run_opt c in let! a := run_opt a2 in let! b := Cidr_contains c a in Done (negb b));
   Done (match v6 with Some c => prefix_len c =? 32 | None => false end);
   Done (negb (has_value (Cidr_parse (str "garbage"))));
   Done (negb (has_value (Cidr_parse (str "10.0.0.0/33"))))].

(** The trie is built outside the assertions, from the blocks that the text stands
    for. *)
Definition test_lpm (ndebug : bool) : run test_end :=
  let! c1 := run_opt (Cidr_parse (str "10.0.0.0/8")) in
  let! c2 := run_opt (Cidr_parse (str "10.99.0.0/16")) in
  let! c3 := run_opt (Cidr_parse (str "10.99.5.0/24")) in
  let t := LpmTrie_insert 0 c3 3 (LpmTrie_insert 0 c2 2 (LpmTrie_insert 0 c1 1 LpmTrie_new)) in
  let! a := run_opt (IpAddr_parse (str "10.99.5.7")) in
  let! b := run_opt (IpAddr_parse (str "10.99.6.7")) in
  let! c := run_opt (IpAddr_parse (str "10.50.0.1")) in
  let! d := run_opt (IpAddr_parse (str "11.0.0.1")) in
  run_test ndebug
    [Done (bool_decide (LpmTrie_lookup t a = Some 3));
     Done (bool_decide (LpmTrie_lookup t b = Some 2));
     Done (bool_decide (LpmTrie_lookup t c = Some 1));
     Done (negb (has_value (LpmTrie_lookup t d)))].
End addresses.

Definition test_frame : list (run bool) :=
  let wire := (encode (mkFrame IpPacket 0xBEEF [0x45; 0; 0; 0x14]) []).2 in
  let none := mkDecodeResult (mkFrameType 0) 0 [] in
  let byte i := run_opt (wire !! i) in
  let out := Frame.decode wire none in
  [Done (length wire =? kFrameHeader + 4)%nat;
   (let! b := byte 0%nat in Done (b =? kFrameVersion));
   (let! b := byte 1%nat in Done (b =? 1));
   (let! b := byte 2%nat in let! b' := byte 3%nat in Done ((b =? 0xBE) && (b' =? 0xEF)));
   Done out.1;
   Done (bool_decide (dr_type out.2 = IpPacket));
   Done (dr_flow_id out.2 =? 0xBEEF);
   Done (length (dr_payload out.2) =? 4)%nat;
   Done (negb (Frame.decode [] none).1);
   Done (negb (Frame.decode [0xFF; 1; 0; 0] none).1)].

(** The first call of [parse_uuid] writes [u], which the next ones get. *)
Definition test_uuid : list (run bool) :=
  let first := parse_uuid (str "550e8400-e29b-41d4-a716-446655440000") (replicate 16 0) in
  let refused s := let! u := first in let! r := parse_uuid s u.2 in Done (negb r.1) in
  [(let! u := first in Done u.1);
   (let! u := first in
    let! a := run_opt (u.2 !! 0%nat) in let! b := run_opt (u.2 !! 1%nat) in
    let! c := run_opt (u.2 !! 15%nat) in
    Done ((a =? 0x55) && (b =? 0x0e) && (c =? 0)));
   refused (str "not-a-uuid");
   refused (str "550e8400-e29b-41d4-a716-44665544000");
   refused (str "550e8400_e29b_41d4_a716_446655440000")].

(** The calls that share a vector get what the one before left in it. *)
Definition test_base64 : list (run bool) :=
  let bytes := base64_decode (str "AAECAwQF") [] in
  let hello := base64_decode (str "aGVsbG8=") [] in
  let bad_char := base64_decode (str "!!!!") [] in
  let bad_length := base64_decode (str "abc") bad_char.2 in
  let all_pad := base64_decode (str "====") [] in
  let leading := base64_decode (str "=AAA") all_pad.2 in
  let middle := base64_decode (str "A=AA") leading.2 in
  let mid_input := base64_decode (str "AAA=AAA=") middle.2 in
  let two := base64_decode (str "AA==") [] in
  let one := base64_decode (str "AAA=") [] in
  [Done bytes.1; Done (bool_decide (bytes.2 = [0; 1; 2; 3; 4; 5]));
   Done hello.1; Done (bool_decide (hello.2 = code <$> str "hello"));
   Done (negb bad_char.1); Done (negb bad_length.1);
   Done (negb all_pad.1); Done (negb leading.1); Done (negb middle.1); Done (negb mid_input.1);
   Done (base64_decode (str "AAAA") []).1;
   Done (two.1 && (length two.2 =? 1)%nat);
   Done (one.1 && (length one.2 =? 2)%nat)].

Definition test_registration : list (run bool) := test_uuid ++ test_base64.

Section kernel.
Context {K : Type} `{Kernel K}.

(** The destructor of the client runs on every path. *)
Definition test_netlink (ndebug : bool) (k : K) : run (test_end * K) :=
  let '(ec, c, k) := Netlink.open Client_new k in
  if negb (ec =? 0) then Done (Exit 0, Client_dtor c k)
  else
    let! lo := if_index (str "lo") 0 k in
    let '(ec, idx, k) := lo in
    if negb (ec =? 0) then Done (Exit 0, Client_dtor c k)
    else
      let! bad := if_index (str "this_name_is_far_too_long_for_an_interface") 0 k in
      let '(eba, _, k) := bad in
      let! o := run_test ndebug [Done (0 <? idx); Done (negb (eba =? 0))] in
      Done (o, match o with Exit _ => Client_dtor c k | Aborted => k end).
End kernel.

(** ** The tests pass *)

(** What the tests need of the C library's address conversions: the seven addresses
    they name, and that a text without an address is none. *)
Class TestAddresses `{Inet} := {
  reads_net : inet_pton V4 (str "10.99.0.0") = Some [10; 99; 0; 0];
  reads_a1 : inet_pton V4 (str "10.99.5.7") = Some [10; 99; 5; 7];
  reads_a2 : inet_pton V4 (str "10.100.0.1") = Some [10; 100; 0; 1];
  reads_ten : inet_pton V4 (str "10.0.0.0") = Some [10; 0; 0; 0];
  reads_five : inet_pton V4 (str "10.99.5.0") = Some [10; 99; 5; 0];
  reads_six : inet_pton V4 (str "10.99.6.7") = Some [10; 99; 6; 7];
  reads_fifty : inet_pton V4 (str "10.50.0.1") = Some [10; 50; 0; 1];
  reads_eleven : inet_pton V4 (str "11.0.0.1") = Some [11; 0; 0; 1];
  no_v4 : inet_pton V4 (str "2001:db8::") = None;
  reads_v6 : inet_pton V6 (str "2001:db8::") = Some ([0x20; 0x01; 0x0d; 0xb8] ++ replicate 12 0);
}.

Section pass.
Context `{TestAddresses}.

Lemma parse_v4 s bs :
  (length s <? 64)%nat = true → c_str s = s → inet_pton V4 s = Some bs → length bs = 4%nat →
  IpAddr_parse s = Some (mkIpAddr V4 (bs ++ replicate 12 0)).
Proof.
  intros Hl Hc Hs Hb. unfold IpAddr_parse. bool_facts. rewrite (proj2 (Nat.leb_gt _ _)), Hc, Hs by lia.
  by destruct bs as [|b0 [|b1 [|b2 [|b3 [|]]]]].
Qed.

(** The blocks and the addresses of the tests. *)
Lemma parse_block s n bs p :
  find_char "/" s = Some n → (length (take n s) <? 64)%nat = true → c_str (take n s) = take n s →
  inet_pton V4 (take n s) = Some bs → length bs = 4%nat →
  parse_plen 0 (drop (S n) s) = Some p → 0 <= p <= 32 →
  Cidr_parse s = Some (mkCidr (mkIpAddr V4 (bs ++ replicate 12 0)) p).
Proof.
  intros Hf Hl Hc Hs Hb Hp Hr. unfold Cidr_parse. rewrite Hf, (parse_v4 _ bs), Hp by done.
  cbn [family max_bits]. rewrite (proj2 (Z.ltb_ge _ _)) by lia. f_equal. f_equal.
  apply u8_id. unfold byte_ok. lia.
Qed.

Lemma block_net : Cidr_parse (str "10.99.0.0/16")
  = Some (mkCidr (mkIpAddr V4 ([10; 99; 0; 0] ++ replicate 12 0)) 16).
Proof. apply (parse_block _ 9); try done. apply reads_net. Qed.

Lemma block_ten : Cidr_parse (str "10.0.0.0/8")
  = Some (mkCidr (mkIpAddr V4 ([10; 0; 0; 0] ++ replicate 12 0)) 8).
Proof. apply (parse_block _ 8); try done. apply reads_ten. Qed.

Lemma block_five : Cidr_parse (str "10.99.5.0/24")
  = Some (mkCidr (mkIpAddr V4 ([10; 99; 5; 0] ++ replicate 12 0)) 24).
Proof. apply (parse_block _ 9); try done. apply reads_five. Qed.

Lemma block_v6 : ∃ c, Cidr_parse (str "2001:db8::/32") = Some c ∧ prefix_len c = 32.
Proof.
  unfold Cidr_parse. change (find_char "/" (str "2001:db8::/32")) with (Some 10%nat).
  change (take 10 (str "2001:db8::/32")) with (str "2001:db8::").
  change (parse_plen 0 (drop 11 (str "2001:db8::/32"))) with (Some 32).
  unfold IpAddr_parse. change (64 <=? length (str "2001:db8::"))%nat with false.
  change (c_str (str "2001:db8::")) with (str "2001:db8::").
  rewrite no_v4, reads_v6. by eexists.
Qed.

Lemma test_cidr_passes ndebug : run_test ndebug test_cidr = Done (Exit 0).
Proof.
  destruct ndebug; [done|]. unfold test_cidr. destruct block_v6 as (c6 & -> & Hc6).
  rewrite block_net, (parse_v4 (str "10.99.5.7") [10; 99; 5; 7]),
    (parse_v4 (str "10.100.0.1") [10; 100; 0; 1]) by (done || apply reads_a1 || apply reads_a2).
  cbv zeta. rewrite Hc6.
  assert (Cidr_parse (str "10.0.0.0/33") = None) as ->.
  { unfold Cidr_parse. change (find_char "/" (str "10.0.0.0/33")) with (Some 8%nat).
    cbv beta iota. change (take 8 (str "10.0.0.0/33")) with (str "10.0.0.0").
    by rewrite (parse_v4 _ [10; 0; 0; 0]) by (done || apply reads_ten). }
  vm_compute. reflexivity.
Qed.

Lemma test_lpm_passes ndebug : test_lpm ndebug = Done (Exit 0).
Proof.
  unfold test_lpm. rewrite block_ten, block_net, block_five.
  rewrite (parse_v4 (str "10.99.5.7") [10; 99; 5; 7]), (parse_v4 (str "10.99.6.7") [10; 99; 6; 7]),
    (parse_v4 (str "10.50.0.1") [10; 50; 0; 1]), (parse_v4 (str "11.0.0.1") [11; 0; 0; 1])
    by (done || apply reads_a1 || apply reads_six || apply reads_fifty || apply reads_eleven).
  destruct ndebug; vm_compute; reflexivity.
Qed.
End pass.

Lemma test_frame_passes ndebug : run_test ndebug test_frame = Done (Exit 0).
Proof. destruct ndebug; vm_compute; reflexivity. Qed.

Lemma test_registration_passes ndebug : run_test ndebug test_registration = Done (Exit 0).
Proof. destruct ndebug; vm_compute; reflexivity. Qed.

Section netlink.
Context {K : Type} `{Kernel K}.
(** Documented: the index of an interface is positive. *)
Context (index_positive :
  ∀ k name k' i, if_nametoindex k name = (k', inr i) → 0 < i < 2 ^ 31).
(** Documented: [errno] is not zero after an error. *)
Context (errno_positive : ∀ k name k' e, if_nametoindex k name = (k', inl e) → e <> 0).

Lemma test_netlink_passes ndebug k : ∃ k', test_netlink ndebug k = Done (Exit 0, k').
Proof.
  unfold test_netlink. destruct (Netlink.open Client_new k) as [[ec c] k1].
  destruct (ec =? 0) eqn:Hec; cbn [negb]; [|by eexists].
  unfold if_index at 1. change (IFNAMSIZ <=? length (str "lo"))%nat with false. cbv iota.
  change (run_opt (memcpy_at 0 (str "lo") (replicate IFNAMSIZ nul)))
    with (Done (str "lo" ++ replicate 14 nul)). cbn [run_bind].
  change (c_str (str "lo" ++ replicate 14 nul)) with (str "lo").
  destruct (if_nametoindex k1 (str "lo")) as [k2 [e|idx]] eqn:Hlo.
  - cbn [run_bind]. destruct (e =? 0) eqn:He; cbn [negb]; [|by eexists].
    exfalso. by apply (errno_positive _ _ _ _ Hlo), Z.eqb_eq.
  - cbn [run_bind]. change (0 =? 0) with true. cbn [negb].
    pose proof (index_positive _ _ _ _ Hlo) as Hi.
    assert (i32 idx = idx) as -> by (unfold i32; rewrite Z.mod_small; lia).
    change (if_index (str "this_name_is_far_too_long_for_an_interface") 0 k2)
      with (@Done (error_code * Z * K) (EINVAL, 0, k2)). cbn [run_bind].
    assert (run_test ndebug [Done (0 <? idx); Done (negb (EINVAL =? 0))] = Done (Exit 0)) as ->.
    { unfold run_test, assert_. destruct ndebug; [done|]. cbn [foldr run_bind].
      by rewrite (proj2 (Z.ltb_lt 0 idx)) by lia. }
    by eexists.
Qed.
End netlink.

(** The unit tests pass: for a C library that reads the addresses they name, and a
    kernel that numbers interfaces and errors from 1, every test program of the
    repository ends with exit code 0, its assertions evaluated or not, and none of
    them reaches an undefined operation. *)
Theorem unit_tests_pass `{TestAddresses} {K} `{Kernel K} ndebug :
  (∀ (k : K) name k' i, if_nametoindex k name = (k', inr i) → 0 < i < 2 ^ 31) →
  (∀ (k : K) name k' e, if_nametoindex k name = (k', inl e) → e <> 0) →
  run_test ndebug test_cidr = Done (Exit 0)
  ∧ test_lpm ndebug = Done (Exit 0)
  ∧ run_test ndebug test_frame = Done (Exit 0)
  ∧ run_test ndebug test_registration = Done (Exit 0)
  ∧ ∀ k : K, ∃ k', test_netlink ndebug k = Done (Exit 0, k').
Proof.
  intros Hi He. split_and!; [apply test_cidr_passes|apply test_lpm_passes|apply test_frame_passes
    |apply test_registration_passes|].
  intros k. by apply test_netlink_passes.
Qed.

(** With [NDEBUG] the tests check nothing: whatever the assertions say, the exit code
    is 0. The build type that [CMakeLists.txt] and the README use is Release, for which
    CMake defines it. *)
Theorem release_tests_vacuous checks : run_test true checks = Done (Exit 0).
Proof. by induction checks. Qed.

(** ** Witness *)

(** The C library of [InetModel], with the short form of the one V6 address. *)
Definition test_inet : Inet := {|
  inet_pton f s :=
    match f with
    | V4 => pton4 s
    | V6 =>
        if bool_decide (s = str "2001:db8::") then Some ([0x20; 0x01; 0x0d; 0xb8] ++ replicate 12 0)
        else pton6 s
    end;
  inet_ntop f bs := Some (match f with V4 => ntop4 bs | V6 => ntop6 bs end);
|}.

#[local] Instance test_addresses : @TestAddresses test_inet.
Proof. split; reflexivity. Qed.

Lemma unit_tests_pass_witness : run_test false (@test_cidr test_inet) = Done (Exit 0).
Proof.
  apply (@unit_tests_pass test_inet test_addresses scripted scripted_kernel false).
  - intros k name k' i. simpl. case_bool_decide; [intros [= _ <-]; lia|done].
  - intros k name k' e. simpl. case_bool_decide; [done|intros [= _ <-]; lia].
Defined.
